(* ===== verification/_CoqProject ===== *)
-Q . S2P
Prelude.v
GoStrings.v
Regexp.v
Sql.v
Http.v
Metrics.v
Cache.v
Semaphore.v
StateDB.v
Classify.v
Tree.v
TreeProps.v
TreeDB.v
TreeView.v
Catalog.v
CatalogProps.v
Errors.v
CDN.v
Torbox.v
Config.v
FuseTree.v
FuseTreeProps.v
FuseHide.v
FuseOps.v
FuseShow.v
FuseCatalog.v
Window.v
RangeStore.v
CacheStore.v
Stream.v
Goroutines.v
StreamInv.v
StreamSize.v
StreamData.v
StreamProps.v
StreamRun.v
StreamOps.v
FuseFile.v
Dashboard.v
Main.v
MainProps.v
Lifecycle.v
LifecycleProps.v
