(* ===== verification/Prelude.v ===== *)
(** * torbox-fuse-go: a verification development

    The program mounts a TorBox account as a FUSE file system: a catalog of the account's
    downloads is turned into a directory tree, and reads of its files are served by
    range requests to a CDN through a cache.  This library models its Go sources
    (src/internal, src/cmd) as executable definitions and proves the properties that make
    the parts correct, and of the program as a whole.

    ** How the parts interact

    A refresh of the catalog (internal/catalog) lists the downloads through the TorBox
    API (internal/torbox), places the video files in a tree, records files and inode
    numbers in an SQLite database (internal/state), takes out what the user has hidden,
    and has the mounted inode tree follow (SyncTree of internal/fusefs).  Removing a
    file or directory through the mount hides it in the database; the dashboard
    (internal/dashboard) can bring it back or delete the download.  After a restart the
    tree comes from the database until the first refresh.

    [ReadAt] of the stream reader (internal/stream/reader.go) serves a read from the
    range cache (internal/cache/range.go), or waits for a window of the file that a
    background goroutine ([fetchWindow]) downloads.  Downloads compete for the slots of a
    priority semaphore ([budgetSem]); each one asks the CDN client (internal/stream/
    cdn.go) for a range, which resolves the file's API URL, caches the CDN URL it
    redirects to, and holds a slot of the host's semaphore.  Finished windows go into the
    cache.  The dashboard and the metrics server read the counters all of them keep.

    ** Files

    Foundations:
    - Prelude: machine integers with their wrap-around, results, sums over maps, and the
      two things Go leaves open, as classes: the order a map is ranged over ([MapIter])
      and which permutation an unstable sort produces ([SliceSort]).  Every theorem
      holds for all of their instances.
    - GoStrings, Regexp: package strings, path and strconv, and the regular expressions
      of the classification, as far as they are used.
    - Sql: statements that may fail, transactions, LIKE.  Http: net/http vocabulary.
      Errors: the error values the streaming code tells apart.

    Counters, cache, streaming:
    - Metrics: internal/metrics (metrics.go and the handlers of server.go).
    - Cache: internal/cache/range.go.  [RangeCache] is the 32 shards with [used],
      [budget] and metrics; each method is one atomic transition with the clock as an
      argument.
    - Semaphore: [budgetSem] and [hostSem], one step per critical section of the mutex,
      with goroutines parked in [cond.Wait]; refined to an abstract priority semaphore.
    - Window: [fileSession] and [inflightWindow] with the code that works on one of them
      (access patterns, priorities, [waitForBytes]).
    - CDN: cdn.go over a network, a clock and net/url functions given as parameters.
    - RangeStore, CacheStore: the interface the stream reader needs from the cache (a
      class with its laws), and the proof that the range cache provides it.
    - Stream: the state of [StreamReader], with windows and sessions as objects in a
      heap, and its methods.  Goroutines: [ReadAt] and [fetchWindow] as programs with
      explicit positions; [step] is one scheduled action.
    - StreamInv, StreamSize, StreamData: the invariants of every interleaving (structure,
      semaphore, gauge; lengths of buffers; and data, relative to the true contents of the
      files).  StreamProps, StreamOps: the theorems.  StreamRun: schedules checked by
      computation.

    Catalog and database:
    - StateDB: internal/state/db.go.  The three tables are finite maps, each SQL text is
      one statement.
    - Classify: internal/catalog/types.go, classify.go.  Tree: tree.go.  TreeDB:
      tree_from_db.go.  Catalog: catalog.go, with the FUSE callback on a state of its own.
    - TreeProps, TreeView, CatalogProps: where files are placed and that the tree can be
      walked; trees up to what a reader sees; what a refresh and a restart give.
    - Torbox: internal/torbox/client.go and types.go.  Config: internal/config/config.go.

    The mount and the dashboard:
    - FuseTree: the inodes of internal/fusefs/fs.go as values, with [OnAdd], [SyncTree] and
      the removal of hidden files.  FuseOps: the handlers of root and directories.
      FuseFile: the handlers of open files, over the stream reader.
    - FuseTreeProps, FuseHide, FuseShow: what synchronising and hiding do to each path;
      which keys a mount shows.  FuseCatalog: what a catalog hands to the mount.
    - Dashboard: internal/dashboard (dashboard.go and server.go), and the mux its routes
      share with those of the metrics server.

    The program:
    - Main: cmd/torbox-media-center/main.go, the components wired into one [System]; an
      [event] is a refresh, a request of the kernel or the dashboard, or a restart.
      MainProps: its properties.
    - Lifecycle: the goroutines of main.go, internal/fusefs/mount.go and the listener of
      internal/metrics/server.go as a transition system.  LifecycleProps: the shutdown.

    ** What the theorems show

    - Data: with a network that answers each range request with bytes of the range that
      was requested, every byte handed to a reader is the file's
      ([stream_serves_file_bytes], [CopyTo_returns_file_bytes], [FetchRange_response]),
      provided that no window takes over a cached prefix that is not completely there:
      [prefix_hole_corrupts] is a run that does and returns wrong bytes, and
      [prefix_filled_when_unique] says when this cannot happen.
    - Reads, whatever the network delivers and the well-formed cache holds: no short reads
      from the window loop ([ReadAt_fills]); while a reader waits on an unfinished window
      some download can move ([stream_progress]).
    - Bounds: cache budget and accounting ([cache_reachable_inv]), eviction order, budget
      slots ([semaphore_bound], [stream_budget_bound]), read-ahead ([maybeReadAhead_bounded]).
    - Closing and seeking: [CancelFile_exact], [maybeCancelOnSeek_harmless].
    - The whole program, with a database that executes its statements: between whole
      operations no hidden file is in the mount ([hidden_never_shown]); after a refresh of
      a well-formed library the mount is the visible library ([refresh_mounts_library]).
      Every shutdown ends ([shutdown_completes]), but the refresh after the start is not
      joined ([background_not_joined]).
    - Catalog: [BuildTree_places_files], [BuildTree_navigable], [ApplyHides_exact];
      [Refresh_exact] on a well-formed library, [Refresh_failsafe] on every error;
      [restart_same_library] for the tree rebuilt from the database, for a well-formed
      library and a database that executes its statements.
    - Database: [ReplaceFiles_atomic_exact], [inodes_stable_unique] across calls and
      restarts, [IsDownloadFullyHidden_exact].
    - Mount: [SyncTree_exact] (names at every path; a node that stays keeps its old
      content), [Unlink_exact], [Rmdir_exact], [permalink_roundtrip].
    - Outside: [ListDownloads_complete] for any number of items, [RedactToken_hides_token],
      [routes_guarded] for every path of the shared mux: /metrics, /healthz and
      POST /refresh need no credentials, the dashboard's paths do.
    - Divergences from the comments and intentions of the code: the cancelled waiter that
      sleeps on ([cancel_does_not_wake]), the expired URL that is not renewed
      ([expired_url_not_renewed]), the label buffer of [intToStr_correct], the negative
      cache budget ([evict_diverges_on_negative_budget]), the first read failed by
      another handle's close ([Release_fails_first_read]), the file that comes back when
      it is removed during a refresh ([unlink_during_refresh_undone]), and the busy mount
      that keeps the process from ending ([unmount_failure_hangs]).

    ** Fuel

    - The eviction loop of Cache runs with one more than the number of blocks, which
      [evict_spec] shows to be enough for a budget that is not negative; for a negative
      one no fuel is.
    - The loop of [buildParentDirs] runs with one more than the bytes of the longest key;
      TreeProps shows that it ends.  Hiding and the walks of the mount use a fuel given
      by the tree; FuseShow shows that they end on every tree that can be walked, and
      FuseCatalog that every tree of the catalog can.
    - The paging loop of [ListDownloads] takes its fuel as an argument;
      [ListDownloads_complete] gives one that is enough for the number of items.

    ** Modelling choices

    A scheduled action of Goroutines runs a goroutine from one point where it can block
    to the next; [CachedPrefixLen] and the [CopyTo] after it are separate actions.  A step
    is [None] when the goroutine cannot take it.  Offsets are 64-bit integers with their
    wrap-around; the theorems about runs assume reads that end below [2^62], window sizes
    of at most [2^60], and bodies that do not take a window's buffer past [2^62].  A body
    answers the range its goroutine asked for; what lies behind a window's buffer, when a
    read reaches there, comes with the action.  A reader may look at its window at any
    time: that Go wakes it only on a Broadcast is left out.  The metrics object the components share is modelled once
    per component: they touch disjoint counters.  A method of the cache is one
    transition, though some take the lock more than once.  An event of Main is one whole
    operation; MainProps splits a refresh in two for the removal that comes between, where
    [unlink_during_refresh_undone] shows for any library what goes wrong.
    Logging is left out, and an error's text is kept only where the code looks at it.

    ** Not modelled

    - Outside the sources, and parameters here: which SQL statements fail, the answers of
      the API and the CDN, clocks and timers, [json] and [time] formatting, [net/url], the
      static files of the dashboard, and go-fuse with the kernel (only the set of
      notifications it was sent, and the results of mounting and unmounting).
    - [http.ServeMux] for paths with percent escapes, and the text of its redirects; the
      log output of [setupLogger].
    - internal/fusefs/fuse_test_helper.go, which only tests use.
    - The errno values of macOS (internal/fusefs/errno_darwin.go). *)
From Stdlib Require Export ZArith Lia Permutation Sorted.
From stdpp Require Export base tactics numbers list gmap strings sorting fin_maps.

#[export] Set Default Goal Selector "!".
#[export] Set Warnings "-clear-no-such-hyp,-register-all".
Open Scope Z_scope.

(** ** Machine integers

    Go's [int64] (and [int] on the 64-bit targets the program is built for) is
    a [Z] kept in range by [wrap64]; [uint32] conversions truncate. *)

Declare Scope go_scope.
Delimit Scope go_scope with go.

Definition wrap64 (z : Z) : Z := (z + 2 ^ 63) mod 2 ^ 64 - 2 ^ 63.
Definition add64 (a b : Z) : Z := wrap64 (a + b).
Definition sub64 (a b : Z) : Z := wrap64 (a - b).
Definition uint32 (z : Z) : Z := z mod 2 ^ 32.
Definition wrap32 (z : Z) : Z := (z + 2 ^ 31) mod 2 ^ 32 - 2 ^ 31.
Definition in_int64 (z : Z) : Prop := - 2 ^ 63 <= z < 2 ^ 63.

Notation "a +w b" := (add64 a b) (at level 50, left associativity) : go_scope.
Notation "a -w b" := (sub64 a b) (at level 50, left associativity) : go_scope.

(** ** Iteration orders and unstable sorting

    Go leaves the order in which [range] visits a map unspecified, and
    [sort.Slice] may reorder equal elements.  Both are left open: every
    definition that ranges over a map, or sorts, takes one of the classes below,
    so a theorem holds for each order the runtime may choose.  The [nat] of
    [map_range] distinguishes the iterations of one operation, which need not
    agree with one another. *)

Class MapIter := {
  map_range : forall {K V : Type} `{Countable K}, nat -> gmap K V -> list (K * V);
  map_range_perm : forall {K V : Type} `{Countable K} (i : nat) (m : gmap K V),
    map_range i m ≡ₚ map_to_list m
}.

(** [less] is usable by [sort.Slice]: a strict weak order. *)
Record StrictWeak {A : Type} (less : A -> A -> bool) : Prop := {
  sw_irrefl : forall x, less x x = false;
  sw_asym : forall x y, less x y = true -> less y x = false;
  sw_negtrans : forall x y z, less y x = false -> less z y = false -> less z x = false
}.

Definition sorted_by {A : Type} (less : A -> A -> bool) : list A -> Prop :=
  StronglySorted (fun x y => less y x = false).

Class SliceSort := {
  slice_sort : forall {A : Type}, (A -> A -> bool) -> list A -> list A;
  slice_sort_perm : forall {A : Type} (less : A -> A -> bool) (l : list A),
    slice_sort less l ≡ₚ l;
  slice_sort_sorted : forall {A : Type} (less : A -> A -> bool) (l : list A),
    StrictWeak less -> sorted_by less (slice_sort less l)
}.

(** An insertion sort, the reference implementation of [SliceSort]. *)
Fixpoint insert_by {A : Type} (less : A -> A -> bool) (x : A) (l : list A) : list A :=
  match l with
  | [] => [x]
  | y :: l' => if less y x then y :: insert_by less x l' else x :: l
  end.

Definition insertion_sort {A : Type} (less : A -> A -> bool) (l : list A) : list A :=
  foldr (insert_by less) [] l.

(** ** Outcomes of fallible Go functions: a value or an error. *)

Inductive result (E A : Type) : Type :=
| Ok (a : A)
| Err (e : E).
Arguments Ok {E A} a.
Arguments Err {E A} e.

#[export] Instance result_ret {E} : MRet (result E) := fun A a => Ok a.
#[export] Instance result_bind {E} : MBind (result E) := fun A B f r =>
  match r with Ok a => f a | Err e => Err e end.

Definition is_Ok {E A} (r : result E A) : bool :=
  match r with Ok _ => true | Err _ => false end.

#[export] Instance result_eq_dec {E A} `{EqDecision E, EqDecision A} : EqDecision (result E A).
Proof. solve_decision. Defined.

(** ** Time

    [time.Now().UnixNano()] is an argument [now] of the operations that read the
    clock; a difference of times saturates at the range of [time.Duration]. *)

Definition Second : Z := 1000000000.
Definition since (now t : Z) : Z := Z.max (- 2 ^ 63) (Z.min (2 ^ 63 - 1) (now - t)).

(** ** Sums over finite maps *)

Section map_total.
Context {K V : Type} `{Countable K}.

Definition list_total (f : K * V -> Z) (l : list (K * V)) : Z :=
  foldr (fun kv acc => f kv + acc) 0 l.

Definition map_total (f : V -> Z) (m : gmap K V) : Z :=
  list_total (fun kv => f kv.2) (map_to_list m).

End map_total.

(** ** Lemmas *)

Lemma wrap64_id z : in_int64 z -> wrap64 z = z.
Proof. unfold wrap64, in_int64. intros. rewrite Z.mod_small; lia. Qed.

Lemma wrap64_range z : in_int64 (wrap64 z).
Proof.
  unfold wrap64, in_int64.
  pose proof (Z.mod_pos_bound (z + 2 ^ 63) (2 ^ 64) ltac:(lia)). lia.
Qed.

(** Congruence modulo [2^64] is all [wrap64] sees. *)
Lemma wrap64_cong a b k : a = b + k * 2 ^ 64 -> wrap64 a = wrap64 b.
Proof.
  intros ->. unfold wrap64. f_equal.
  replace (b + k * 2 ^ 64 + 2 ^ 63) with (b + 2 ^ 63 + k * 2 ^ 64) by lia.
  by rewrite Z_mod_plus_full.
Qed.

Lemma wrap64_decomp z : exists k, wrap64 z = z + k * 2 ^ 64.
Proof.
  unfold wrap64. exists (- ((z + 2 ^ 63) / 2 ^ 64)).
  pose proof (Z.div_mod (z + 2 ^ 63) (2 ^ 64) ltac:(lia)). lia.
Qed.

Lemma wrap64_add_l a b : wrap64 (wrap64 a + b) = wrap64 (a + b).
Proof. destruct (wrap64_decomp a) as [k Hk]. apply (wrap64_cong _ _ k). lia. Qed.

Lemma wrap64_add_r a b : wrap64 (a + wrap64 b) = wrap64 (a + b).
Proof. rewrite Z.add_comm, wrap64_add_l. f_equal. lia. Qed.

Lemma wrap64_sub_l a b : wrap64 (wrap64 a - b) = wrap64 (a - b).
Proof. destruct (wrap64_decomp a) as [k Hk]. apply (wrap64_cong _ _ k). lia. Qed.

Lemma wrap64_idem z : wrap64 (wrap64 z) = wrap64 z.
Proof. apply wrap64_id, wrap64_range. Qed.

Create HintDb go.
#[export] Hint Resolve wrap64_range : go.
Create Rewrite HintDb wrap.
#[export] Hint Rewrite wrap64_add_l wrap64_add_r wrap64_sub_l wrap64_idem : wrap.

Lemma wrap64_eq_mod a b : (a - b) mod 2 ^ 64 = 0 -> wrap64 a = wrap64 b.
Proof.
  intros Hm. apply (wrap64_cong _ _ ((a - b) / 2 ^ 64)).
  pose proof (Z.div_mod (a - b) (2 ^ 64) ltac:(lia)). lia.
Qed.

(** Equality of two wrapped sums: every inner wrap-around is an unknown multiple
    of [2^64], and the difference of the two sides is one too. *)
Ltac wrap_solve :=
  unfold add64, sub64; apply wrap64_eq_mod;
  repeat match goal with
  | |- context [wrap64 ?x] => let k := fresh "k" in destruct (wrap64_decomp x) as [k ->]
  end;
  Z.div_mod_to_equations; lia.

Section map_total_lemmas.
Context {K V : Type} `{Countable K}.
Implicit Types (f : V -> Z) (m : gmap K V).

#[export] Instance list_total_proper (f : K * V -> Z) : Proper ((≡ₚ) ==> (=)) (list_total f).
Proof. intros l1 l2 Hp. unfold list_total. induction Hp; simpl; lia. Qed.

Lemma map_total_empty f : map_total f (∅ : gmap K V) = 0.
Proof. unfold map_total. by rewrite map_to_list_empty. Qed.

Lemma map_total_insert_fresh f m k v :
  m !! k = None -> map_total f (<[k := v]> m) = f v + map_total f m.
Proof. intros Hk. unfold map_total. by rewrite map_to_list_insert. Qed.

Lemma map_total_delete f m k v :
  m !! k = Some v -> map_total f (delete k m) = map_total f m - f v.
Proof.
  intros Hk. rewrite <- (insert_delete_id m k v) at 2 by done.
  rewrite map_total_insert_fresh by apply lookup_delete_eq. lia.
Qed.

Lemma map_total_insert f m k v :
  map_total f (<[k := v]> m) = f v + map_total f m - from_option f 0 (m !! k).
Proof.
  destruct (m !! k) as [w|] eqn:Hk; simpl.
  - rewrite <- insert_delete_eq, map_total_insert_fresh by apply lookup_delete_eq.
    rewrite (map_total_delete f m k w Hk). lia.
  - rewrite map_total_insert_fresh by done. lia.
Qed.

Lemma map_total_nonneg f m :
  (forall k v, m !! k = Some v -> 0 <= f v) -> 0 <= map_total f m.
Proof.
  induction m as [|k v m Hk IH] using map_ind; intros Hf.
  - by rewrite map_total_empty.
  - rewrite map_total_insert_fresh by done.
    assert (0 <= f v) by (eapply (Hf k), lookup_insert_eq).
    assert (0 <= map_total f m); [|lia].
    apply IH. intros k' v' Hk'. apply (Hf k').
    rewrite lookup_insert_ne by congruence. done.
Qed.

Lemma map_total_lookup_le f m k v :
  (forall k v, m !! k = Some v -> 0 <= f v) -> m !! k = Some v -> f v <= map_total f m.
Proof.
  intros Hf Hk. pose proof (map_total_delete f m k v Hk) as Hd.
  assert (0 <= map_total f (delete k m)); [|lia].
  apply map_total_nonneg. intros k' v' [_ Hk']%lookup_delete_Some. eauto.
Qed.

End map_total_lemmas.

Lemma elem_of_map_range `{MapIter} {K V} `{Countable K} (i : nat) (m : gmap K V) k v :
  (k, v) ∈ map_range i m <-> m !! k = Some v.
Proof. by rewrite map_range_perm, elem_of_map_to_list. Qed.

Lemma NoDup_map_range `{MapIter} {K V} `{Countable K} (i : nat) (m : gmap K V) :
  NoDup (map_range i m).*1.
Proof. rewrite map_range_perm. apply NoDup_fst_map_to_list. Qed.

(** The default orders, used by the witnesses. *)
Definition default_iter : MapIter := {|
  map_range := fun K V _ _ _ m => map_to_list m;
  map_range_perm := fun K V _ _ _ m => reflexivity _
|}.

Section insertion_sort.
Context {A : Type} (less : A -> A -> bool).

Lemma insert_by_perm x l : insert_by less x l ≡ₚ x :: l.
Proof.
  induction l as [|y l IH]; simpl; [done|].
  destruct (less y x); [|done]. rewrite IH. constructor.
Qed.

Lemma insertion_sort_perm l : insertion_sort less l ≡ₚ l.
Proof. induction l as [|x l IH]; simpl; [done|]. by rewrite insert_by_perm, IH. Qed.

Lemma insert_by_sorted x l :
  StrictWeak less -> sorted_by less l -> sorted_by less (insert_by less x l).
Proof.
  intros Hw. induction l as [|y l IH]; intros Hs; simpl.
  - repeat constructor.
  - apply StronglySorted_inv in Hs as [Hs Hy]. destruct (less y x) eqn:Hlt.
    + constructor; [by apply IH|].
      rewrite insert_by_perm. constructor; [by apply (sw_asym _ Hw)|done].
    + constructor; [by constructor|]. constructor; [done|].
      eapply Forall_impl; [exact Hy|]. intros z Hz. by apply (sw_negtrans _ Hw x y z).
Qed.

Lemma insertion_sort_sorted l : StrictWeak less -> sorted_by less (insertion_sort less l).
Proof.
  intros Hw. induction l as [|x l IH]; simpl; [constructor|]. by apply insert_by_sorted.
Qed.

End insertion_sort.

Definition default_sort : SliceSort := {|
  slice_sort := @insertion_sort;
  slice_sort_perm := @insertion_sort_perm;
  slice_sort_sorted := @insertion_sort_sorted
|}.

(** ** Lemmas on lists the components share *)

Lemma list_find_first_Some {A} (P : A -> bool) (l : list A) x :
  List.find P l = Some x -> x ∈ l /\ P x = true.
Proof. intros Hf. apply find_some in Hf. by rewrite list_elem_of_In. Qed.

Lemma list_find_first_None {A} (P : A -> bool) (l : list A) :
  List.find P l = None -> forall x, x ∈ l -> P x = false.
Proof. intros Hf x Hx. eapply find_none; [done|]. by apply list_elem_of_In. Qed.

(** Destructs the conjunctions and existentials of the context. *)
Ltac split_hyps :=
  repeat match goal with
  | H : _ /\ _ |- _ => destruct H
  | H : exists _, _ |- _ => destruct H
  end.
