(* ===== verification/GoStrings.v ===== *)
(** * Go strings and slash-separated paths

    The functions of the [strings] and [path] packages the program calls, on
    byte strings: splitting, prefixes, counting, the order of [<] on strings,
    and [path.Clean], [path.Dir], [path.Base] and [path.Join].  A cleaned rooted
    path is the rendering of a list of proper path elements, which is what the
    lemmas on directories and base names are about. *)
From Stdlib Require Import Ascii.
From S2P Require Import Prelude.
From stdpp Require Import pretty.
Open Scope Z_scope.

Definition slash : Ascii.ascii := "/"%char.
Definition colon : Ascii.ascii := ":"%char.
Definition str1 (c : Ascii.ascii) : string := String c EmptyString.

(** ** [strings] *)

Definition HasPrefix (s p : string) : bool := String.prefix p s.

(** [strings.Split(s, sep)] for a one-byte separator: every maximal piece
    between separators, the empty ones included. *)
Fixpoint Split (s : string) (sep : Ascii.ascii) : list string :=
  match s with
  | EmptyString => [EmptyString]
  | String c s' =>
      if bool_decide (c = sep) then EmptyString :: Split s' sep
      else match Split s' sep with
           | x :: l => String c x :: l
           | [] => [str1 c]
           end
  end.

(** [strings.SplitN(s, sep, n)] for [n > 0]: at most [n] pieces, the last one
    unsplit. *)
Fixpoint SplitN (s : string) (sep : Ascii.ascii) (n : nat) : list string :=
  match n with
  | O => []
  | S O => [s]
  | S n' =>
      (fix go (acc : string -> string) (s : string) : list string :=
         match s with
         | EmptyString => [acc EmptyString]
         | String c s' =>
             if bool_decide (c = sep) then acc EmptyString :: SplitN s' sep n'
             else go (fun t => acc (String c t)) s'
         end) (fun t => t) s
  end.

(** [strings.Count(s, sep)] for a one-byte separator. *)
Fixpoint Count (s : string) (sep : Ascii.ascii) : Z :=
  match s with
  | EmptyString => 0
  | String c s' => (if bool_decide (c = sep) then 1 else 0) + Count s' sep
  end.

Definition Join_with (sep : string) (l : list string) : string := String.concat sep l.

(** ASCII case folding, as in [strings.ToLower] on ASCII text. *)
Definition lower_byte (c : Ascii.ascii) : Ascii.ascii :=
  let n := Ascii.N_of_ascii c in
  if ((65 <=? n) && (n <=? 90))%N then Ascii.ascii_of_N (n + 32) else c.

Fixpoint ToLower (s : string) : string :=
  match s with
  | EmptyString => EmptyString
  | String c s' => String (lower_byte c) (ToLower s')
  end.

(** [s < t] compares byte by byte. *)
Definition str_lt (s t : string) : bool := String.ltb s t.

(** The white space of [unicode.IsSpace], as UTF-8. *)
Definition bytes (l : list nat) : string := String.string_of_list_ascii (ascii_of_nat <$> l).
Definition spaces : list string :=
  [bytes [9]; bytes [10]; bytes [11]; bytes [12]; bytes [13]; bytes [32];
   bytes [194; 133]; bytes [194; 160]; bytes [225; 154; 128];
   bytes [226; 128; 128]; bytes [226; 128; 129]; bytes [226; 128; 130]; bytes [226; 128; 131];
   bytes [226; 128; 132]; bytes [226; 128; 133]; bytes [226; 128; 134]; bytes [226; 128; 135];
   bytes [226; 128; 136]; bytes [226; 128; 137]; bytes [226; 128; 138]; bytes [226; 128; 168];
   bytes [226; 128; 169]; bytes [226; 128; 175]; bytes [226; 129; 159]; bytes [227; 128; 128]]%nat.

Definition str_drop (n : nat) (s : string) : string := String.substring n (String.length s - n) s.
Definition str_take (n : nat) (s : string) : string := String.substring 0 n s.

Definition HasSuffix (s suf : string) : bool :=
  (String.length suf <=? String.length s)%nat &&
  bool_decide (str_drop (String.length s - String.length suf) s = suf).

Fixpoint trim_left (fuel : nat) (s : string) : string :=
  match fuel with
  | O => s
  | S fuel' =>
      match List.find (HasPrefix s) spaces with
      | Some w => trim_left fuel' (str_drop (String.length w) s)
      | None => s
      end
  end.

Fixpoint trim_right (fuel : nat) (s : string) : string :=
  match fuel with
  | O => s
  | S fuel' =>
      match List.find (HasSuffix s) spaces with
      | Some w => trim_right fuel' (str_take (String.length s - String.length w) s)
      | None => s
      end
  end.

(** [strings.TrimSpace]: every step removes a byte, so the length is enough fuel. *)
Definition TrimSpace (s : string) : string :=
  let s1 := trim_left (String.length s) s in trim_right (String.length s1) s1.

(** [strings.Index]: where a non-empty text first occurs. *)
Fixpoint Index (s sub : string) : option nat :=
  if HasPrefix s sub then Some O
  else match s with
       | EmptyString => None
       | String _ s' => S <$> Index s' sub
       end.

(** ** [strconv] *)

Definition Atoi_digits (s : string) : Z :=
  foldl (fun n c => 10 * n + (Z.of_N (N_of_ascii c) - 48)) 0 (String.list_ascii_of_string s).

Fixpoint all_digits (s : string) : bool :=
  match s with
  | EmptyString => true
  | String c s' => let n := N_of_ascii c in ((48 <=? n) && (n <=? 57))%N && all_digits s'
  end.

(** [strconv.Atoi]: a sign or none, digits, and a value that fits an [int]. *)
Definition Atoi (s : string) : option Z :=
  let '(neg, digits) :=
    match s with
    | String "-" s' => (true, s')
    | String "+" s' => (false, s')
    | _ => (false, s)
    end in
  if bool_decide (digits = EmptyString) || negb (all_digits digits) then None
  else
    let n := if neg then - Atoi_digits digits else Atoi_digits digits in
    if bool_decide (in_int64 n) then Some n else None.

(** ** [path] *)

(** The elements [path.Clean] keeps: empty ones and dots go, a double dot removes
    the element before it; at the front it goes from a rooted path and stays
    in a relative one.  [stack] holds the elements kept so far, last first. *)
Fixpoint clean_elems (rooted : bool) (stack elems : list string) : list string :=
  match elems with
  | [] => rev stack
  | e :: elems' =>
      if bool_decide (e = "" \/ e = ".") then clean_elems rooted stack elems'
      else if bool_decide (e = "..") then
        match stack with
        | [] => clean_elems rooted (if rooted then [] else [".."]) elems'
        | t :: stack' =>
            if bool_decide (t = "..") then clean_elems rooted (".." :: stack) elems'
            else clean_elems rooted stack' elems'
        end
      else clean_elems rooted (e :: stack) elems'
  end.

Definition is_rooted (p : string) : bool := HasPrefix p "/".

(** A rooted path with these elements. *)
Definition render (l : list string) : string := "/" +:+ Join_with "/" l.

Definition path_Clean (p : string) : string :=
  let l := clean_elems (is_rooted p) [] (Split p slash) in
  if is_rooted p then render l
  else if bool_decide (l = []) then "." else Join_with "/" l.

(** The pieces before and after the last separator: [path.Split]. *)
Definition path_Split (p : string) : string * string :=
  match rev (Split p slash) with
  | [] => (EmptyString, EmptyString)
  | [f] => (EmptyString, f)
  | f :: l => (Join_with "/" (rev l) +:+ "/", f)
  end.

Definition path_Dir (p : string) : string := path_Clean (path_Split p).1.

(** [path.Base]: the last non-empty element, [/] for a path of slashes only and
    [.] for the empty path. *)
Definition path_Base (p : string) : string :=
  if bool_decide (p = "") then "."
  else match List.find (fun e => bool_decide (e <> "")) (rev (Split p slash)) with
       | Some e => e
       | None => "/"
       end.

(** [path.Join]: empty leading arguments are dropped, the others are joined by
    slashes and the result is cleaned; all empty gives the empty string. *)
Fixpoint drop_empty (l : list string) : list string :=
  match l with
  | e :: l' => if bool_decide (e = "") then drop_empty l' else l
  | [] => []
  end.

Definition path_Join (l : list string) : string :=
  match drop_empty l with
  | [] => ""
  | l' => path_Clean (Join_with "/" l')
  end.

(** ** Lemmas *)

Definition no_byte (c : Ascii.ascii) (s : string) : Prop := Split s c = [s].

#[export] Instance no_byte_dec c s : Decision (no_byte c s).
Proof. unfold no_byte. apply _. Defined.

(** A proper path element. *)
Definition elem_ok (e : string) : Prop :=
  e <> "" /\ e <> "." /\ e <> ".." /\ no_byte slash e.

#[export] Instance elem_ok_dec e : Decision (elem_ok e).
Proof. unfold elem_ok. apply _. Defined.

Lemma Split_not_nil s c : Split s c <> [].
Proof. destruct s as [|a s]; simpl; [done|]. case_match; [done|]. by destruct (Split s c). Qed.

Lemma HasPrefix_nil s : HasPrefix s "" = true.
Proof. by destruct s. Qed.

Lemma HasPrefix_cons a b s t :
  HasPrefix (String b t) (String a s) = bool_decide (a = b) && HasPrefix t s.
Proof. unfold HasPrefix. cbn [String.prefix]. destruct (ascii_dec a b); case_bool_decide; naive_solver. Qed.

Lemma app_cons_str c a b : String c a +:+ b = String c (a +:+ b).
Proof. done. Qed.

Lemma app_nil_str b : "" +:+ b = b.
Proof. done. Qed.

Lemma str_app_assoc (a b c : string) : (a +:+ b) +:+ c = a +:+ (b +:+ c).
Proof. induction a as [|x a IH]; [done|]. change (String x ((a +:+ b) +:+ c) = String x (a +:+ (b +:+ c))). by rewrite IH. Qed.

Lemma str_app_nil_r (a : string) : a +:+ "" = a.
Proof. induction a as [|x a IH]; [done|]. change (String x (a +:+ "") = String x a). by rewrite IH. Qed.

(** The last piece of the left part and the first of the right part meet. *)
Lemma Split_app s t c :
  exists l x y r, Split s c = l ++ [x] /\ Split t c = y :: r /\
    Split (s +:+ t) c = l ++ (x +:+ y) :: r.
Proof.
  destruct (Split t c) as [|y r] eqn:Ht; [by destruct (Split_not_nil t c)|].
  induction s as [|a s (l & x & y' & r' & Hs & Heq & Hst)]; simpl.
  - exists [], "", y, r. split_and!; done.
  - injection Heq as <- <-. rewrite Hs. change ((String a s) +:+ t) with (String a (s +:+ t)).
    cbn [Split]. rewrite Hst. case_match.
    + by exists ("" :: l), x, y, r.
    + destruct l as [|z l]; simpl.
      * by exists [], (String a x), y, r.
      * by exists (String a z :: l), x, y, r.
Qed.

Lemma Split_app_sep s t c : Split (s +:+ String c t) c = Split s c ++ Split t c.
Proof.
  destruct (Split_app s (String c t) c) as (l & x & y & r & Hs & Hct & ->).
  simpl in Hct. rewrite bool_decide_true in Hct by done. injection Hct as <- <-.
  rewrite Hs, str_app_nil_r, <- app_assoc. done.
Qed.

Lemma no_byte_app c s t : no_byte c s -> no_byte c t -> no_byte c (s +:+ t).
Proof.
  unfold no_byte. intros Hs Ht. destruct (Split_app s t c) as (l & x & y & r & Es & Et & ->).
  rewrite Hs in Es. rewrite Ht in Et. injection Et as <- <-.
  destruct l as [|? [|]]; simplify_eq/=. done.
Qed.

Lemma Join_with_cons sep x y l : Join_with sep (x :: y :: l) = x +:+ sep +:+ Join_with sep (y :: l).
Proof. done. Qed.

Lemma Join_with_cons1 c x y l :
  Join_with (str1 c) (x :: y :: l) = x +:+ String c (Join_with (str1 c) (y :: l)).
Proof. done. Qed.

Lemma Split_Join l c : l <> [] -> Forall (no_byte c) l -> Split (Join_with (str1 c) l) c = l.
Proof.
  intros Hl Hf. induction Hf as [|x l Hx Hf IH]; [done|].
  destruct l as [|y l]; [done|]. rewrite Join_with_cons1, Split_app_sep, Hx, IH by done. done.
Qed.

Lemma Split_no_byte s c : Forall (no_byte c) (Split s c).
Proof.
  induction s as [|a s IH]; simpl; [by repeat constructor|]. case_bool_decide.
  - by repeat constructor.
  - destruct (Split s c) as [|x l] eqn:Hs; [by destruct (Split_not_nil s c)|].
    inversion IH as [|?? Hx Hl]. subst. constructor; [|done].
    unfold no_byte in *. simpl. rewrite bool_decide_false by done. by rewrite Hx.
Qed.

Lemma Join_Split s c : Join_with (str1 c) (Split s c) = s.
Proof.
  induction s as [|a s IH]; [done|]. simpl. case_bool_decide as Ha.
  - subst. destruct (Split s c) as [|x l] eqn:Hs; [by destruct (Split_not_nil s c)|].
    rewrite Join_with_cons, IH. done.
  - destruct (Split s c) as [|x l] eqn:Hs; [by destruct (Split_not_nil s c)|].
    destruct l as [|y l]; [simpl in *; by rewrite IH|].
    rewrite Join_with_cons1 in IH |- *. rewrite <- IH. done.
Qed.

Lemma Split_inj s t c : Split s c = Split t c -> s = t.
Proof. intros He. by rewrite <- (Join_Split s c), He, Join_Split. Qed.

Lemma Split_render l :
  Forall (no_byte slash) l -> l <> [] -> Split (render l) slash = "" :: l.
Proof.
  intros Hf Hl. change (Split (EmptyString +:+ String slash (Join_with (str1 slash) l)) slash = "" :: l).
  by rewrite Split_app_sep, Split_Join.
Qed.

Lemma elems_no_byte l : Forall elem_ok l -> Forall (no_byte slash) l.
Proof. intros Hf. eapply Forall_impl; [done|]. by intros e (_ & _ & _ & ?). Qed.

Lemma render_inj l1 l2 :
  Forall elem_ok l1 -> Forall elem_ok l2 -> render l1 = render l2 -> l1 = l2.
Proof.
  intros H1 H2 He. pose proof (elems_no_byte _ H1) as N1. pose proof (elems_no_byte _ H2) as N2.
  assert (forall l, Forall elem_ok l -> Forall (no_byte slash) l -> render [] = render l -> l = []) as Hnil.
  { intros l Hl Nl Hr. destruct l as [|x l]; [done|]. exfalso.
    apply (f_equal (fun s => Split s slash)) in Hr. rewrite (Split_render (x :: l)) in Hr by done.
    change (Split (render []) slash) with ["";""] in Hr. injection Hr as <- _.
    inversion Hl as [|?? [Hx _] _]. done. }
  destruct l1 as [|x1 l1]; [symmetry; by apply Hnil|].
  destruct l2 as [|x2 l2]; [by apply Hnil|].
  apply (f_equal (fun s => Split s slash)) in He. rewrite !Split_render in He by done. congruence.
Qed.

Lemma clean_elems_ok rooted stack l :
  Forall elem_ok l -> clean_elems rooted stack l = rev stack ++ l.
Proof.
  intros Hl. revert stack. induction Hl as [|e l (H1 & H2 & H3 & _) Hl IH]; intros stack; simpl.
  - by rewrite app_nil_r.
  - rewrite (bool_decide_false (e = "" \/ e = ".")) by naive_solver.
    rewrite (bool_decide_false (e = "..")) by done. rewrite IH. simpl. by rewrite <- app_assoc.
Qed.

Lemma is_rooted_slash s : is_rooted (String slash s) = true.
Proof. unfold is_rooted. rewrite HasPrefix_cons, HasPrefix_nil. by rewrite bool_decide_true. Qed.

Lemma is_rooted_render l : is_rooted (render l) = true.
Proof. unfold is_rooted, HasPrefix, render. simpl. by destruct (Join_with "/" l). Qed.

Lemma Clean_render l : Forall elem_ok l -> path_Clean (render l) = render l.
Proof.
  intros Hl. unfold path_Clean. rewrite is_rooted_render. f_equal.
  destruct l as [|x l]; [done|].
  rewrite Split_render by (by apply elems_no_byte || done).
  exact (clean_elems_ok true [] (x :: l) Hl).
Qed.

(** Cleaning a rooted path leaves proper elements only. *)
Lemma clean_elems_rooted stack l :
  Forall elem_ok stack -> Forall (no_byte slash) l -> Forall elem_ok (clean_elems true stack l).
Proof.
  intros Hs Hl. revert stack Hs. induction Hl as [|e l He Hl IH]; intros stack Hs; simpl.
  - rewrite rev_alt. by apply Forall_reverse.
  - case_bool_decide as H1; [by apply IH|]. case_bool_decide as H2.
    + destruct stack as [|t stack']; [by apply IH|].
      inversion Hs as [|?? Ht Hs']. subst.
      rewrite bool_decide_false by apply Ht. by apply IH.
    + apply IH. constructor; [|done]. split_and!; naive_solver.
Qed.

(** The cleaned rooted paths. *)
Definition clean_path (p : string) : Prop := exists l, Forall elem_ok l /\ p = render l.

Lemma Clean_rooted p : is_rooted p = true -> clean_path (path_Clean p).
Proof.
  intros Hr. unfold path_Clean. rewrite Hr.
  exists (clean_elems true [] (Split p slash)). split; [|done].
  apply clean_elems_rooted; [constructor|apply Split_no_byte].
Qed.

Lemma clean_path_Clean p : clean_path p -> path_Clean p = p.
Proof. intros (l & Hl & ->). by apply Clean_render. Qed.

(** ** The order of strings *)

Lemma ascii_compare_lt a b : Ascii.compare a b = Lt <-> (N_of_ascii a < N_of_ascii b)%N.
Proof. unfold Ascii.compare. apply N.compare_lt_iff. Qed.

Lemma ascii_compare_eq a b : Ascii.compare a b = Eq <-> a = b.
Proof.
  unfold Ascii.compare. rewrite N.compare_eq_iff. split; [|by intros ->].
  intros He. by rewrite <- (ascii_N_embedding a), He, ascii_N_embedding.
Qed.

Lemma str_lt_cons a s b t :
  str_lt (String a s) (String b t) = true <-> (N_of_ascii a < N_of_ascii b)%N \/ (a = b /\ str_lt s t = true).
Proof.
  unfold str_lt, String.ltb. cbn [String.compare].
  pose proof (ascii_compare_lt a b) as Hl. pose proof (ascii_compare_eq a b) as He.
  destruct (Ascii.compare a b).
  - assert (a = b) as -> by (by apply He). split; [intros; right; done|].
    intros [?|[_ ?]]; [lia|done].
  - split; [intros _; left; by apply Hl|done].
  - split; [done|]. intros [Hlt|[-> _]]; [by apply Hl in Hlt|]. by apply proj2 in He; specialize (He eq_refl).
Qed.

Lemma str_lt_nil_r s : str_lt s "" = false.
Proof. by destruct s. Qed.

Lemma str_lt_irrefl s : str_lt s s = false.
Proof.
  induction s as [|a s IH]; [done|]. apply not_true_iff_false. rewrite str_lt_cons.
  intros [?|[_ ?]]; [lia|congruence].
Qed.

Lemma str_lt_trans s t u : str_lt s t = true -> str_lt t u = true -> str_lt s u = true.
Proof.
  revert t u. induction s as [|a s IH]; intros [|b t] [|c u]; try done;
    rewrite ?str_lt_nil_r; try done.
  rewrite !str_lt_cons. intros [H1|[-> H1]] [H2|[-> H2]]; [left; lia|by left|by left|right; eauto].
Qed.

Lemma str_lt_total s t : str_lt s t = true \/ s = t \/ str_lt t s = true.
Proof.
  revert t. induction s as [|a s IH]; intros [|b t]; [by right; left|by left|by right; right|].
  rewrite !str_lt_cons. destruct (N.lt_trichotomy (N_of_ascii a) (N_of_ascii b)) as [H|[H|H]].
  - auto.
  - assert (a = b) as -> by (by rewrite <- (ascii_N_embedding a), H, ascii_N_embedding).
    destruct (IH t) as [?|[->|?]]; auto.
  - auto.
Qed.

Lemma str_lt_strict_weak : StrictWeak str_lt.
Proof.
  split.
  - apply str_lt_irrefl.
  - intros x y H. apply not_true_iff_false. intros H'. pose proof (str_lt_trans _ _ _ H H') as Hx.
    by rewrite str_lt_irrefl in Hx.
  - intros x y z H1 H2. apply not_true_iff_false. intros H3.
    destruct (str_lt_total y x) as [?|[->|Hxy]]; [congruence|congruence|].
    rewrite (str_lt_trans z x y) in H2; done.
Qed.

(** Sorting by a string-valued key. *)
Lemma strict_weak_on {A B} (less : B -> B -> bool) (f : A -> B) :
  StrictWeak less -> StrictWeak (fun x y => less (f x) (f y)).
Proof. intros [H1 H2 H3]. split; eauto. Qed.

(** ** Parents, base names and depths of clean paths *)

Lemma Join_with_app_snoc l x : l <> [] -> Join_with "/" (l ++ [x]) = Join_with "/" l +:+ "/" +:+ x.
Proof.
  induction l as [|y l IH]; [done|]. intros _. destruct l as [|z l]; [done|].
  change ((y :: z :: l) ++ [x]) with (y :: z :: (l ++ [x])).
  rewrite !Join_with_cons. change (z :: l ++ [x]) with ((z :: l) ++ [x]).
  rewrite IH by done. by rewrite !str_app_assoc.
Qed.

Lemma render_snoc l x : l <> [] -> render l +:+ "/" +:+ x = render (l ++ [x]).
Proof. intros Hl. unfold render. by rewrite Join_with_app_snoc, !str_app_assoc. Qed.

Lemma rev_snoc {A} (l : list A) x : rev (l ++ [x]) = x :: rev l.
Proof. by rewrite rev_app_distr. Qed.

Lemma path_Split_render l x :
  Forall elem_ok (l ++ [x]) ->
  path_Split (render (l ++ [x])) = ((if bool_decide (l = []) then "/" else render l +:+ "/"), x).
Proof.
  intros Hl. unfold path_Split.
  rewrite Split_render by (by apply elems_no_byte || by destruct l).
  rewrite app_comm_cons, rev_snoc. destruct (rev ("" :: l)) as [|y r] eqn:Hr.
  { simpl in Hr. by destruct (rev l). }
  rewrite <- Hr, rev_involutive. f_equal. destruct l as [|z l]; [done|].
  by rewrite bool_decide_false by done.
Qed.

(** A trailing slash is cleaned away. *)
Lemma Clean_render_slash l : Forall elem_ok l -> l <> [] -> path_Clean (render l +:+ "/") = render l.
Proof.
  intros Hl Hn. unfold path_Clean.
  assert (is_rooted (render l +:+ "/") = true) as ->.
  { apply is_rooted_slash. }
  f_equal. change (render l +:+ "/") with (render l +:+ String slash ""). rewrite Split_app_sep.
  rewrite Split_render by (by apply elems_no_byte || done).
  change (clean_elems true [] (l ++ [""]) = l).
  assert (forall st, clean_elems true st (l ++ [""]) = rev st ++ l) as Hc; [|apply Hc].
  clear Hn. induction Hl as [|e l (H1 & H2 & H3 & _) Hl IH]; intros st; simpl.
  - by rewrite app_nil_r.
  - rewrite (bool_decide_false (e = "" \/ e = ".")) by naive_solver.
    rewrite (bool_decide_false (e = "..")) by done. rewrite IH. simpl. by rewrite <- app_assoc.
Qed.

Lemma Dir_render l x : Forall elem_ok (l ++ [x]) -> path_Dir (render (l ++ [x])) = render l.
Proof.
  intros Hl. unfold path_Dir. rewrite path_Split_render by done. simpl.
  apply Forall_app in Hl as [Hl _]. case_bool_decide as Hn; [by subst|]. by apply Clean_render_slash.
Qed.

Lemma Base_render l x : Forall elem_ok (l ++ [x]) -> path_Base (render (l ++ [x])) = x.
Proof.
  intros Hl. unfold path_Base. rewrite bool_decide_false by done.
  rewrite Split_render by (by apply elems_no_byte || by destruct l).
  rewrite app_comm_cons, rev_snoc. simpl. apply Forall_app in Hl as [_ Hx].
  inversion Hx as [|?? [Hn _]]. subst. by rewrite bool_decide_true.
Qed.

Lemma Dir_root : path_Dir "/" = "/".
Proof. done. Qed.

(** The elements of a clean path. *)
Definition path_elems (p : string) : list string := clean_elems true [] (Split p slash).

Lemma path_elems_render l : Forall elem_ok l -> path_elems (render l) = l.
Proof.
  intros Hl. unfold path_elems. destruct l as [|x l]; [done|].
  rewrite Split_render by (by apply elems_no_byte || done). exact (clean_elems_ok true [] (x :: l) Hl).
Qed.

Definition path_depth (p : string) : nat := length (path_elems p).

(** A clean path is the root or the child of a clean path. *)
Lemma clean_path_cases p :
  clean_path p -> p = "/" \/
  exists l x, Forall elem_ok (l ++ [x]) /\ p = render (l ++ [x]) /\ path_Dir p = render l /\ path_Base p = x.
Proof.
  intros (l & Hl & ->). destruct l as [|x l _] using rev_ind; [by left|]. right.
  exists l, x. split_and!; [done|done|by apply Dir_render|by apply Base_render].
Qed.

Lemma clean_path_Dir p : clean_path p -> clean_path (path_Dir p).
Proof.
  intros [->|(l & x & Hl & _ & -> & _)]%clean_path_cases.
  - exists []. by split.
  - exists l. apply Forall_app in Hl as [? _]. done.
Qed.

Lemma Dir_rooted p : is_rooted p = true -> clean_path (path_Dir p).
Proof.
  intros Hp. unfold path_Dir. apply Clean_rooted. destruct p as [|c p]; [done|].
  unfold is_rooted in Hp. rewrite HasPrefix_cons, HasPrefix_nil in Hp. case_bool_decide as Hc; [|done]. subst c.
  unfold path_Split. cbn [Split]. rewrite bool_decide_true by done. cbn [rev].
  destruct (rev (Split p slash)) as [|f l] eqn:Hr.
  { destruct (Split_not_nil p slash). by rewrite <- (rev_involutive (Split p slash)), Hr. }
  cbn [app]. destruct (l ++ [EmptyString]) as [|x l'] eqn:Hl; [by destruct l|]. rewrite <- Hl, rev_snoc.
  cbn [fst]. by destruct (rev l); apply is_rooted_slash.
Qed.

Lemma path_depth_Dir p : clean_path p -> p <> "/" -> path_depth p = S (path_depth (path_Dir p)).
Proof.
  intros [->|(l & x & Hl & -> & -> & _)]%clean_path_cases Hp; [done|].
  unfold path_depth. rewrite !path_elems_render, length_app; [simpl; lia| |done].
  by apply Forall_app in Hl as [? _].
Qed.

Lemma Dir_fixpoint p : clean_path p -> path_Dir p = p <-> p = "/".
Proof.
  intros Hc. split; [|by intros ->]. intros He. destruct (decide (p = "/")) as [|Hp]; [done|].
  pose proof (path_depth_Dir p Hc Hp). rewrite He in *. lia.
Qed.

(** A path below the root is determined by its parent and its base name. *)
Lemma clean_path_eq p q :
  clean_path p -> clean_path q -> p <> "/" -> q <> "/" ->
  path_Dir p = path_Dir q -> path_Base p = path_Base q -> p = q.
Proof.
  intros [->|(l & x & Hl & -> & -> & ->)]%clean_path_cases [->|(m & y & Hm & -> & -> & ->)]%clean_path_cases; try done.
  intros _ _ Hd ->. apply Forall_app in Hl as [Hl _], Hm as [Hm _]. apply render_inj in Hd; [by subst|done..].
Qed.

Lemma child_path p : clean_path p -> p <> "/" -> path_Dir p <> "/" -> path_Dir p +:+ "/" +:+ path_Base p = p.
Proof.
  intros [->|(l & x & Hl & -> & -> & ->)]%clean_path_cases Hp Hd; [done|].
  apply render_snoc. intros ->. done.
Qed.

Lemma Count_app s t c : Count (s +:+ t) c = Count s c + Count t c.
Proof. induction s as [|a s IH]; [done|]. rewrite app_cons_str. cbn [Count]. rewrite IH. lia. Qed.

Lemma Count_no_byte s c : no_byte c s -> Count s c = 0.
Proof.
  induction s as [|a s IH]; [done|]. unfold no_byte. cbn [Split Count]. case_bool_decide; [done|].
  destruct (Split s c) as [|x l] eqn:Hs; [by destruct (Split_not_nil s c)|].
  intros [= -> ->]. rewrite IH; [done|]. done.
Qed.

Lemma Count_render l : Forall elem_ok l -> Count (render l) slash = Z.max 1 (Z.of_nat (length l)).
Proof.
  intros Hl. induction l as [|x l IH] using rev_ind; [done|].
  apply Forall_app in Hl as [Hl Hx]. inversion Hx as [|?? (_ & _ & _ & Hn)]. subst.
  rewrite length_app. destruct (decide (l = [])) as [->|Hne].
  - unfold render. rewrite Count_app. simpl (Join_with _ _). rewrite (Count_no_byte x) by done. done.
  - rewrite <- render_snoc, !Count_app, IH, (Count_no_byte x) by done.
    destruct l as [|y l]; [done|]. simpl (length _). change (Count "/" slash) with 1. lia.
Qed.

Lemma clean_path_Count p : clean_path p -> Count p slash = Z.max 1 (Z.of_nat (path_depth p)).
Proof. intros (l & Hl & ->). unfold path_depth. by rewrite Count_render, path_elems_render. Qed.

Lemma path_Join_rooted a l : is_rooted a = true -> clean_path (path_Join (a :: l)).
Proof.
  intros Ha. unfold path_Join. simpl. case_bool_decide; [by subst|].
  apply Clean_rooted. destruct a as [|c a]; [done|].
  unfold is_rooted in *. rewrite HasPrefix_cons, HasPrefix_nil in Ha.
  destruct l as [|b l]; cbn [Join_with String.concat]; rewrite ?app_cons_str, HasPrefix_cons, HasPrefix_nil; done.
Qed.

(** ** Searching *)

Lemma HasPrefix_true s p : HasPrefix s p = true <-> exists t, s = p +:+ t.
Proof.
  revert p. induction s as [|a s IH]; intros [|b p].
  - split; [intros _; by exists EmptyString|done].
  - split; [done|intros (t & Ht); discriminate Ht].
  - split; [intros _; by exists (String a s)|done].
  - rewrite HasPrefix_cons, andb_true_iff, IH, bool_decide_eq_true. split.
    + intros (-> & t & ->). by exists t.
    + intros (t & [= -> ->]). split; [done|by exists t].
Qed.

Lemma no_byte_cons c a s : no_byte c (String a s) <-> a <> c /\ no_byte c s.
Proof.
  unfold no_byte. simpl. case_bool_decide as Ha.
  - by split; [|tauto].
  - split.
    + intros Hs. split; [done|]. destruct (Split s c) as [|x l] eqn:E; [by destruct (Split_not_nil s c)|].
      by injection Hs as -> ->.
    + by intros [_ ->].
Qed.

Lemma HasPrefix_app_sep s t c sub :
  no_byte c sub -> HasPrefix (s +:+ String c t) sub = HasPrefix s sub.
Proof.
  revert sub. induction s as [|a s IH]; intros [|b sub] Hc; try done; apply no_byte_cons in Hc as [Hb Hc].
  - change (EmptyString +:+ String c t) with (String c t).
    by rewrite HasPrefix_cons, bool_decide_false.
  - rewrite app_cons_str, !HasPrefix_cons. by rewrite IH.
Qed.

(** A text not found on the left, and not containing the byte between, is found
    on the right. *)
Lemma Index_app_sep s t c sub k :
  no_byte c sub -> sub <> EmptyString -> Index s sub = None -> Index (String c t) sub = Some k ->
  Index (s +:+ String c t) sub = Some (String.length s + k)%nat.
Proof.
  intros Hc Hn. induction s as [|a s IH]; intros Hs Ht; [done|].
  rewrite app_cons_str. cbn [Index] in *. rewrite <- app_cons_str, HasPrefix_app_sep by done.
  destruct (HasPrefix (String a s) sub); [done|].
  destruct (Index s sub); [done|]. by rewrite IH.
Qed.

Lemma Index_byte s t c : no_byte c s -> Index (s +:+ String c t) (str1 c) = Some (String.length s).
Proof.
  induction s as [|a s IH]; intros Hs.
  - change (EmptyString +:+ String c t) with (String c t). cbn [Index]. unfold str1.
    by rewrite HasPrefix_cons, HasPrefix_nil, bool_decide_true.
  - apply no_byte_cons in Hs as [Ha Hs]. rewrite app_cons_str. cbn [Index]. unfold str1 at 1.
    rewrite HasPrefix_cons, bool_decide_false by done. simpl andb. by rewrite IH.
Qed.

Lemma substring_all s : String.substring 0 (String.length s) s = s.
Proof. induction s as [|a s IH]; [done|]. simpl. by rewrite IH. Qed.

Lemma str_take_app s t : str_take (String.length s) (s +:+ t) = s.
Proof.
  unfold str_take. induction s as [|a s IH]; [by destruct t|]. rewrite app_cons_str. simpl. by rewrite IH.
Qed.

Lemma str_length_app (s t : string) : String.length (s +:+ t) = (String.length s + String.length t)%nat.
Proof. induction s as [|a s IH]; [done|]. rewrite app_cons_str. simpl. by rewrite IH. Qed.

Lemma str_drop_app s t : str_drop (String.length s) (s +:+ t) = t.
Proof.
  unfold str_drop. rewrite str_length_app.
  replace (String.length s + String.length t - String.length s)%nat with (String.length t) by lia.
  induction s as [|a s IH]; [apply substring_all|]. rewrite app_cons_str. exact IH.
Qed.

(** ** Numerals *)

(** The bytes of a decimal numeral. *)
Definition numeral_byte (c : ascii) : bool := bool_decide (c ∈ String.list_ascii_of_string "-0123456789").

Lemma pretty_N_no_byte c n s : numeral_byte c = false -> no_byte c s -> no_byte c (pretty_N_go n s).
Proof.
  intros Hc. apply bool_decide_eq_false in Hc. revert s. induction (N.lt_wf_0 n) as [n _ IH]. intros s Hs.
  destruct (decide (0 < n)%N) as [Hn|Hn].
  - rewrite pretty_N_go_step by done. apply IH; [by apply N.div_lt|].
    apply no_byte_cons. split; [|done]. intros He. apply Hc. rewrite <- He. apply (bool_decide_unpack _).
    unfold pretty_N_char. by repeat case_match.
  - assert (n = 0%N) as -> by lia. by rewrite pretty_N_go_0.
Qed.

Lemma pretty_no_byte c (z : Z) : numeral_byte c = false -> no_byte c (pretty z).
Proof.
  intros Hc. assert (forall a, numeral_byte a = true -> no_byte c (str1 a)) as Hone.
  { intros a Ha. apply no_byte_cons. split; [|done]. intros ->. congruence. }
  assert (forall n : N, no_byte c (pretty n)) as Hn.
  { intros n. unfold pretty, pretty_N. case_decide; [by apply Hone|]. by apply pretty_N_no_byte. }
  unfold pretty, pretty_Z. destruct z; [by apply (Hone "0"%char)|apply Hn|].
  exact (no_byte_app _ _ _ (Hone "-"%char eq_refl) (Hn (N.pos p))).
Qed.
