(* ===== verification/Regexp.v ===== *)
(** * Go regular expressions

    The part of [regexp] the classification code uses: byte classes, ASCII word
    boundaries, bounded and unbounded greedy repetition of a class, alternation
    and capture groups, with the leftmost-first choice of a match.  [(?i)S] also
    folds to the two bytes of the letter long s (U+017F), as Go's case folding does. *)
From Stdlib Require Import Ascii.
From S2P Require Import Prelude GoStrings.
Open Scope Z_scope.

Inductive regex :=
| RByte (p : ascii -> bool)
| RBoundary
| RStart
| REnd
| RSeq (r1 r2 : regex)
| RAlt (r1 r2 : regex)
| RRepeat (p : ascii -> bool) (min max : nat)
| RMany (p : ascii -> bool) (min : nat)
| RGroup (n : nat) (r : regex).

Definition byte_in (lo hi : N) (c : ascii) : bool :=
  ((lo <=? N_of_ascii c) && (N_of_ascii c <=? hi))%N.

Definition is_digit : ascii -> bool := byte_in 48 57.
Definition is_hex (c : ascii) : bool := is_digit c || byte_in 65 70 c || byte_in 97 102 c.
Definition is_word (c : ascii) : bool :=
  is_digit c || byte_in 65 90 c || byte_in 97 122 c || bool_decide (c = "_"%char).

Definition word_at (o : option ascii) : bool := match o with Some c => is_word c | None => false end.
Definition first_byte (s : string) : option ascii :=
  match s with EmptyString => None | String c _ => Some c end.

Definition captures : Type := list (nat * string).

(** The bytes consumed between two remainders of the input. *)
Definition between (s rest : string) : string :=
  String.substring 0 (String.length s - String.length rest) s.

(** [rmatch r prev s caps k]: match [r] at the front of [s], [prev] being the
    byte before it, and continue with [k]; the first success in the order of
    preference wins. *)
Fixpoint rmatch (r : regex) (prev : option ascii) (s : string) (caps : captures)
    (k : option ascii -> string -> captures -> option captures) : option captures :=
  match r with
  | RByte p =>
      match s with String c s' => if p c then k (Some c) s' caps else None | EmptyString => None end
  | RBoundary =>
      if xorb (word_at prev) (word_at (first_byte s)) then k prev s caps else None
  | RStart => match prev with None => k prev s caps | Some _ => None end
  | REnd => match s with EmptyString => k prev s caps | String _ _ => None end
  | RSeq r1 r2 => rmatch r1 prev s caps (fun p' s' c' => rmatch r2 p' s' c' k)
  | RAlt r1 r2 =>
      match rmatch r1 prev s caps k with Some c => Some c | None => rmatch r2 prev s caps k end
  | RRepeat p min max =>
      (fix rep (min max : nat) (prev : option ascii) (s : string) : option captures :=
         match max with
         | O => match min with O => k prev s caps | S _ => None end
         | S max' =>
             let stop := match min with O => k prev s caps | S _ => None end in
             match s with
             | String c s' =>
                 if p c then
                   match rep (pred min) max' (Some c) s' with Some r => Some r | None => stop end
                 else stop
             | EmptyString => stop
             end
         end) min max prev s
  | RMany p min =>
      (fix rep (s : string) (min : nat) (prev : option ascii) : option captures :=
         let stop := match min with O => k prev s caps | S _ => None end in
         match s with
         | String c s' =>
             if p c then
               match rep s' (pred min) (Some c) with Some r => Some r | None => stop end
             else stop
         | EmptyString => stop
         end) s min prev
  | RGroup n r' => rmatch r' prev s caps (fun p' s' c' => k p' s' ((n, between s s') :: c'))
  end.

(** The leftmost match. *)
Fixpoint rfind (r : regex) (prev : option ascii) (s : string) : option captures :=
  match rmatch r prev s [] (fun _ _ c => Some c) with
  | Some c => Some c
  | None => match s with EmptyString => None | String c s' => rfind r (Some c) s' end
  end.

(** [re.MatchString(s)] *)
Definition MatchString (r : regex) (s : string) : bool :=
  match rfind r None s with Some _ => true | None => false end.

(** [re.FindStringSubmatch(s)]: [Some caps] for a match. *)
Definition FindStringSubmatch (r : regex) (s : string) : option captures := rfind r None s.

(** [m[n]]: the text of a group, empty when it took no part in the match. *)
Definition group (n : nat) (caps : captures) : string :=
  default EmptyString (snd <$> List.find (fun c => bool_decide (c.1 = n)) caps).

Definition RLit (c : ascii) : regex := RByte (fun b => bool_decide (b = c)).

(** [(?i)S] and [(?i)E]. *)
Definition fold_S : regex :=
  RAlt (RByte (fun b => bool_decide (lower_byte b = "s"%char)))
       (RSeq (RLit (ascii_of_nat 197)) (RLit (ascii_of_nat 191))).
Definition fold_E : regex := RByte (fun b => bool_decide (lower_byte b = "e"%char)).
