(* ===== verification/Sql.v ===== *)
(** * SQL statements against an SQLite database

    What the state store uses of [database/sql]: statements run one after the
    other on a connection, each of which may fail with an error the environment
    chooses; a transaction that is not committed leaves no trace; the [LIKE]
    operator of SQLite on UTF-8 text (a percent sign matches any run of
    characters, an underscore one character, ASCII letters match either case). *)
From Stdlib Require Import Ascii.
From S2P Require Import Prelude GoStrings.
Open Scope Z_scope.

(** ** [LIKE] *)

Definition is_cont (c : ascii) : bool :=
  let n := N_of_ascii c in ((128 <=? n) && (n <? 192))%N.

Fixpoint skip_cont (s : string) : string :=
  match s with
  | String c s' => if is_cont c then skip_cont s' else s
  | EmptyString => s
  end.

(** The text after one character whose first byte is [c]. *)
Definition skip_char (c : ascii) (s : string) : string :=
  if (192 <=? N_of_ascii c)%N then skip_cont s else s.

Definition starts_char (s : string) : bool :=
  match s with String c _ => negb (is_cont c) | EmptyString => true end.

Definition percent : ascii := "%"%char.
Definition underscore : ascii := "_"%char.

Fixpoint like (p s : string) : bool :=
  match p with
  | EmptyString => bool_decide (s = EmptyString)
  | String c p' =>
      if bool_decide (c = percent) then
        (fix any (s : string) : bool :=
           (starts_char s && like p' s) ||
           match s with EmptyString => false | String _ s' => any s' end) s
      else if bool_decide (c = underscore) then
        match s with EmptyString => false | String b s' => like p' (skip_char b s') end
      else
        match s with
        | EmptyString => false
        | String b s' => bool_decide (lower_byte b = lower_byte c) && like p' s'
        end
  end.

(** ** Running statements *)

(** The environment of a run: whether the [n]-th statement sent to the
    connection fails, with which error, and the time [strftime] reports. *)
Record SqlEnv := MkSqlEnv {
  fault : nat -> option string;
  strftime_now : nat -> string
}.

(** Statements that never fail. *)
Definition calm : SqlEnv := MkSqlEnv (fun _ => None) (fun _ => "2026-01-01T00:00:00Z").

Section run.
Context {T : Type}.

Record Conn := MkConn { tables : T; tick : nat }.

(** A statement maps the tables, at a time, to a result and new tables, or is
    rejected with an error. *)
Definition Stmt (A : Type) : Type := string -> T -> result string (A * T).

Definition exec {A} (env : SqlEnv) (f : Stmt A) (c : Conn) : result string A * Conn :=
  let c' := MkConn (tables c) (S (tick c)) in
  match fault env (tick c) with
  | Some e => (Err e, c')
  | None =>
      match f (strftime_now env (tick c)) (tables c) with
      | Ok (a, t) => (Ok a, MkConn t (S (tick c)))
      | Err e => (Err e, c')
      end
  end.

(** [Ping], [Begin], [Prepare], [Commit]: no effect on the tables of their own. *)
Definition control : Stmt unit := fun _ t => Ok (tt, t).

(** [tx.Rollback()] puts the tables back as they were at [Begin]. *)
Definition rollback (snap : T) (c : Conn) : Conn := MkConn snap (tick c).

End run.
Arguments Conn T : clear implicits.
Arguments Stmt T A : clear implicits.

(** ** Lemmas *)

Definition like_plain (c : ascii) : Prop := c <> percent /\ c <> underscore.

#[export] Instance like_plain_dec c : Decision (like_plain c).
Proof. unfold like_plain. apply _. Defined.

Fixpoint all_bytes (P : ascii -> Prop) (s : string) : Prop :=
  match s with EmptyString => True | String c s' => P c /\ all_bytes P s' end.

#[export] Instance all_bytes_dec P `{forall c, Decision (P c)} s : Decision (all_bytes P s).
Proof. induction s as [|c s IH]; simpl; apply _. Defined.

Lemma like_percent s : like (str1 percent) s = true.
Proof.
  unfold str1. cbn [like]. rewrite bool_decide_true by done.
  induction s as [|c s IH]; [done|]. rewrite IH. apply orb_true_r.
Qed.

(** A pattern without wildcards followed by a percent sign is a prefix test up
    to ASCII case. *)
Lemma like_prefix p s :
  all_bytes like_plain p -> like (p +:+ str1 percent) s = HasPrefix (ToLower s) (ToLower p).
Proof.
  revert s. induction p as [|c p IH]; intros s Hp.
  - change ("" +:+ str1 percent) with (str1 percent). rewrite like_percent. by destruct s.
  - destruct Hp as [[H1 H2] Hp].
    change (String c p +:+ str1 percent) with (String c (p +:+ str1 percent)). cbn [like].
    rewrite !bool_decide_false by done.
    destruct s as [|b s]; [done|]. rewrite IH by done.
    unfold HasPrefix. simpl. destruct (ascii_dec (lower_byte c) (lower_byte b)) as [E|E]; case_bool_decide; naive_solver.
Qed.
