(* ===== verification/Http.v ===== *)
(** * The HTTP vocabulary of the metrics and dashboard servers

    The part of [net/http] the handlers use: a request's method, path, Basic
    Auth credentials and body, and a response as the sequence of effects on the
    [ResponseWriter] collapses to it (status, headers set, body). *)
From S2P Require Import Prelude.
From stdpp Require Import strings.
Open Scope Z_scope.

Definition StatusOK : Z := 200.
Definition StatusAccepted : Z := 202.
Definition StatusPartialContent : Z := 206.
Definition StatusBadRequest : Z := 400.
Definition StatusUnauthorized : Z := 401.
Definition StatusForbidden : Z := 403.
Definition StatusNotFound : Z := 404.
Definition StatusMethodNotAllowed : Z := 405.
Definition StatusTooManyRequests : Z := 429.
Definition StatusInternalServerError : Z := 500.
Definition StatusServiceUnavailable : Z := 503.

Record Request := MkRequest {
  req_Method : string;
  req_Path : string;
  req_BasicAuth : option (string * string);
  req_Body : string
}.

Record Response := MkResponse {
  resp_status : Z;
  resp_headers : list (string * string);
  resp_body : string
}.

Definition newline : string := String (Ascii.ascii_of_nat 10) EmptyString.
Definition dquote : string := String (Ascii.ascii_of_nat 34) EmptyString.

(** [http.Error]: plain-text error with a trailing newline. *)
Definition http_error (msg : string) (code : Z) : Response :=
  MkResponse code
    [("Content-Type", "text/plain; charset=utf-8"); ("X-Content-Type-Options", "nosniff")]
    (msg +:+ newline).

(** A handler that writes a body without calling [WriteHeader] answers 200. *)
Definition http_write (headers : list (string * string)) (body : string) : Response :=
  MkResponse StatusOK headers body.
