(* ===== verification/Metrics.v ===== *)
(** * internal/metrics: the counters, their text exposition and the control server

    [Metrics] is the record of atomic counters of metrics.go; [Add] is the
    wrapping 64-bit addition of [atomic.Int64].  [intToStr] keeps the twelve-byte
    buffer of the source, so writing in front of it is the run-time panic [None].
    The handlers of server.go take the state they change (through [refreshFn]) and
    return it with the response. *)
From S2P Require Import Prelude Http.
From stdpp Require Import strings pretty.
Open Scope Z_scope.

(** ** The counters (metrics.go) *)

Record Metrics := MkMetrics {
  CatalogItems : Z;
  CacheBytesTotal : Z;
  CacheBytesActive : Z;
  CacheBytesStale : Z;
  CacheEntries : Z;
  InflightWindows : Z;
  ReadCount : Z;
  CacheHitCount : Z;
  StreamMissCount : Z;
  StreamJoinCount : Z;
  CancelledStreamCount : Z;
  APICallCount : Z;
  RefreshCount : Z;
  CDNRequestCount : Z;
  CDNStatusCodes : gmap Z Z
}.

Definition New : Metrics := MkMetrics 0 0 0 0 0 0 0 0 0 0 0 0 0 0 ∅.

(** The fields of [Metrics] that are plain [atomic.Int64] counters. *)
Inductive counter :=
| CCatalogItems | CCacheBytesTotal | CCacheBytesActive | CCacheBytesStale | CCacheEntries
| CInflightWindows | CReadCount | CCacheHitCount | CStreamMissCount | CStreamJoinCount
| CCancelledStreamCount | CAPICallCount | CRefreshCount | CCDNRequestCount.

#[export] Instance counter_eq_dec : EqDecision counter.
Proof. solve_decision. Defined.

Definition load (c : counter) (m : Metrics) : Z :=
  match c with
  | CCatalogItems => CatalogItems m | CCacheBytesTotal => CacheBytesTotal m
  | CCacheBytesActive => CacheBytesActive m | CCacheBytesStale => CacheBytesStale m
  | CCacheEntries => CacheEntries m | CInflightWindows => InflightWindows m
  | CReadCount => ReadCount m | CCacheHitCount => CacheHitCount m
  | CStreamMissCount => StreamMissCount m | CStreamJoinCount => StreamJoinCount m
  | CCancelledStreamCount => CancelledStreamCount m | CAPICallCount => APICallCount m
  | CRefreshCount => RefreshCount m | CCDNRequestCount => CDNRequestCount m
  end.

(** [counter.Store(v)] *)
Definition store (c : counter) (v : Z) (m : Metrics) : Metrics :=
  let pick c' old := if decide (c = c') then v else old in
  MkMetrics (pick CCatalogItems (CatalogItems m)) (pick CCacheBytesTotal (CacheBytesTotal m))
    (pick CCacheBytesActive (CacheBytesActive m)) (pick CCacheBytesStale (CacheBytesStale m))
    (pick CCacheEntries (CacheEntries m)) (pick CInflightWindows (InflightWindows m))
    (pick CReadCount (ReadCount m)) (pick CCacheHitCount (CacheHitCount m))
    (pick CStreamMissCount (StreamMissCount m)) (pick CStreamJoinCount (StreamJoinCount m))
    (pick CCancelledStreamCount (CancelledStreamCount m)) (pick CAPICallCount (APICallCount m))
    (pick CRefreshCount (RefreshCount m)) (pick CCDNRequestCount (CDNRequestCount m))
    (CDNStatusCodes m).

(** [counter.Add(d)] *)
Definition add (c : counter) (d : Z) (m : Metrics) : Metrics := store c (add64 (load c m) d) m.

(** [if x.m != nil { x.m.C.Add(d) }] *)
Definition add_opt (c : counter) (d : Z) (om : option Metrics) : option Metrics := add c d <$> om.

Definition IncCDNStatusCode (code : Z) (m : Metrics) : Metrics :=
  MkMetrics (CatalogItems m) (CacheBytesTotal m) (CacheBytesActive m) (CacheBytesStale m)
    (CacheEntries m) (InflightWindows m) (ReadCount m) (CacheHitCount m) (StreamMissCount m)
    (StreamJoinCount m) (CancelledStreamCount m) (APICallCount m) (RefreshCount m)
    (CDNRequestCount m)
    (<[code := add64 (default 0 (CDNStatusCodes m !! code)) 1]> (CDNStatusCodes m)).

(** ** Text exposition *)

(** [%d] of an [int64]. *)
Definition fmt_d (z : Z) : string := pretty z.

Definition writeCounter (name : string) (value : Z) : string :=
  "# TYPE " +:+ name +:+ " counter" +:+ newline +:+ name +:+ " " +:+ fmt_d value +:+ newline.
Definition writeGauge (name : string) (value : Z) : string :=
  "# TYPE " +:+ name +:+ " gauge" +:+ newline +:+ name +:+ " " +:+ fmt_d value +:+ newline.

(** [byte('0' + n%10)] *)
Definition digit_byte (n : Z) : Ascii.ascii := Ascii.ascii_of_N (Z.to_N (48 + Z.rem n 10)).

(** The loop [for n > 0 { pos--; buf[pos] = ...; n /= 10 }]: [pos] free bytes are
    left in front of the text written so far.  [None] is the index-out-of-range
    panic at [pos = -1]. *)
Fixpoint intToStr_loop (pos : nat) (n : Z) (written : string) : option (nat * string) :=
  if bool_decide (0 < n) then
    match pos with
    | O => None
    | S pos' => intToStr_loop pos' (Z.quot n 10) (String (digit_byte n) written)
    end
  else Some (pos, written).

Definition intToStr (n : Z) : option string :=
  if bool_decide (n = 0) then Some "0" else
  let neg := bool_decide (n < 0) in
  let n := if neg then wrap64 (- n) else n in
  '(pos, written) ← intToStr_loop 12 n "";
  if neg then match pos with O => None | S _ => Some ("-" +:+ written) end
  else Some written.

Definition statusCodeLabel (code : Z) : option string := intToStr code.

(** [%q] of a string of digits and sign, the only strings it is applied to. *)
Definition quoted (s : string) : string := dquote +:+ s +:+ dquote.

Fixpoint write_status_codes (kvs : list (Z * Z)) : option string :=
  match kvs with
  | [] => Some ""
  | (code, n) :: rest =>
      label ← statusCodeLabel code;
      tail ← write_status_codes rest;
      Some ("torbox_cdn_response_count_total{code=" +:+ quoted label +:+ "} " +:+ fmt_d n
              +:+ newline +:+ tail)
  end.

(** [goroutines] is [runtime.NumGoroutine()]. *)
Definition WritePrometheus `{MapIter} (goroutines : Z) (m : Metrics) : option string :=
  codes ← write_status_codes (map_range 0 (CDNStatusCodes m));
  Some (writeCounter "torbox_catalog_items" (CatalogItems m)
    +:+ writeGauge "torbox_cache_bytes_total" (CacheBytesTotal m)
    +:+ writeGauge "torbox_cache_bytes_active" (CacheBytesActive m)
    +:+ writeGauge "torbox_cache_bytes_stale" (CacheBytesStale m)
    +:+ writeGauge "torbox_cache_entries" (CacheEntries m)
    +:+ writeGauge "torbox_inflight_windows" (InflightWindows m)
    +:+ writeCounter "torbox_read_count_total" (ReadCount m)
    +:+ writeCounter "torbox_cache_hit_count_total" (CacheHitCount m)
    +:+ writeCounter "torbox_stream_miss_count_total" (StreamMissCount m)
    +:+ writeCounter "torbox_stream_join_count_total" (StreamJoinCount m)
    +:+ writeCounter "torbox_cancelled_stream_count_total" (CancelledStreamCount m)
    +:+ writeCounter "torbox_api_call_count_total" (APICallCount m)
    +:+ writeCounter "torbox_refresh_count_total" (RefreshCount m)
    +:+ writeCounter "torbox_cdn_request_count_total" (CDNRequestCount m)
    +:+ writeGauge "torbox_goroutine_count" goroutines
    +:+ codes).

(** ** The control server (server.go) *)

Definition handleMetrics `{MapIter} (goroutines : Z) (m : Metrics) (r : Request) : option Response :=
  if bool_decide (req_Method r <> "GET")
  then Some (http_error "method not allowed" StatusMethodNotAllowed)
  else http_write [("Content-Type", "text/plain; version=0.0.4; charset=utf-8")]
         <$> WritePrometheus goroutines m.

Definition handleHealthz (r : Request) : Response :=
  if bool_decide (req_Method r <> "GET")
  then http_error "method not allowed" StatusMethodNotAllowed
  else http_write [] "ok".

Section refresh.
(** [refreshFn] acts on a state [S] and returns the text of its error, if any. *)
Context {S : Type}.

Definition handleRefresh (refreshFn : option (S -> S * option string)) (s : S) (r : Request)
  : S * Response :=
  if bool_decide (req_Method r <> "POST")
  then (s, http_error "method not allowed" StatusMethodNotAllowed)
  else match refreshFn with
  | None => (s, http_error "refresh not configured" StatusServiceUnavailable)
  | Some f =>
      match f s with
      | (s', Some err) =>
          if bool_decide (err = "refresh already in progress")
          then (s', MkResponse StatusAccepted [] "already in progress")
          else (s', http_error ("refresh failed: " +:+ err) StatusInternalServerError)
      | (s', None) => (s', http_write [] "ok")
      end
  end.

End refresh.

(** ** Lemmas on the counters *)

Lemma load_store_eq c v m : load c (store c v m) = v.
Proof. by destruct c. Qed.

Lemma load_store_ne c c' v m : c <> c' -> load c' (store c v m) = load c' m.
Proof. destruct c, c'; done. Qed.

Lemma load_add c c' d m :
  load c' (add c d m) = if decide (c = c') then add64 (load c' m) d else load c' m.
Proof.
  unfold add. case_decide as Hc; [subst; apply load_store_eq|by apply load_store_ne].
Qed.
#[export] Hint Rewrite load_add : wrap.

(** ** [intToStr] *)

Lemma digit_byte_pretty n :
  0 < n -> digit_byte n = pretty_N_char (Z.to_N n `mod` 10)%N.
Proof.
  intros Hn. unfold digit_byte. rewrite Z.rem_mod_nonneg by lia.
  replace (Z.to_N n `mod` 10)%N with (Z.to_N (n mod 10)) by (rewrite Z2N.inj_mod; done || lia).
  pose proof (Z.mod_pos_bound n 10 ltac:(lia)) as Hb.
  assert (n mod 10 = 0 \/ n mod 10 = 1 \/ n mod 10 = 2 \/ n mod 10 = 3 \/ n mod 10 = 4 \/
    n mod 10 = 5 \/ n mod 10 = 6 \/ n mod 10 = 7 \/ n mod 10 = 8 \/ n mod 10 = 9) as Hd by lia.
  by destruct Hd as [->|[->|[->|[->|[->|[->|[->|[->|[->| ->]]]]]]]]].
Qed.

(** With room for every digit, the loop writes the decimal digits. *)
Lemma intToStr_loop_ok pos n s k :
  0 <= n < 10 ^ Z.of_nat k -> (k <= pos)%nat ->
  exists pos', intToStr_loop pos n s = Some (pos', pretty_N_go (Z.to_N n) s) /\
    (pos <= pos' + k)%nat.
Proof.
  revert pos n s. induction k as [|k IH]; intros pos n s Hn Hp.
  - assert (n = 0) as -> by lia. exists pos. split; [by destruct pos|lia].
  - destruct (decide (0 < n)) as [Hpos|Hz].
    + destruct pos as [|pos]; [lia|]. simpl. rewrite bool_decide_true by done.
      destruct (IH pos (Z.quot n 10) (String (digit_byte n) s)) as (pos' & He & Hp').
      * rewrite Z.quot_div_nonneg by lia.
        split; [apply Z.div_pos; lia|]. apply Z.div_lt_upper_bound; [lia|].
        replace (Z.of_nat (S k)) with (Z.succ (Z.of_nat k)) in Hn by lia.
        rewrite Z.pow_succ_r in Hn by lia. lia.
      * lia.
      * exists pos'. split; [|lia]. rewrite He. do 2 f_equal.
        rewrite (pretty_N_go_step (Z.to_N n)) by lia. f_equal.
        -- rewrite Z.quot_div_nonneg by lia. by rewrite Z2N.inj_div by lia.
        -- by rewrite digit_byte_pretty.
    + assert (n = 0) as -> by lia. exists pos. split; [by destruct pos|lia].
Qed.

(** With too many digits the loop runs off the front of the buffer. *)
Lemma intToStr_loop_panic pos n s :
  10 ^ Z.of_nat pos <= n -> intToStr_loop pos n s = None.
Proof.
  revert n s. induction pos as [|pos IH]; intros n s Hn; simpl.
  - rewrite bool_decide_true by lia. done.
  - pose proof (Z.pow_pos_nonneg 10 (Z.of_nat (S pos)) ltac:(lia) ltac:(lia)).
    rewrite bool_decide_true by lia. apply IH.
    rewrite Z.quot_div_nonneg by lia. apply Z.div_le_lower_bound; [lia|].
    replace (Z.of_nat (S pos)) with (Z.succ (Z.of_nat pos)) in Hn by lia.
    rewrite Z.pow_succ_r in Hn by lia. lia.
Qed.

Lemma intToStr_loop_full pos n s p w :
  10 ^ Z.of_nat pos <= n * 10 -> intToStr_loop pos n s = Some (p, w) -> p = O.
Proof.
  revert n s. induction pos as [|pos IH]; intros n s Hn; simpl.
  - rewrite bool_decide_true by lia. done.
  - replace (Z.of_nat (S pos)) with (Z.succ (Z.of_nat pos)) in Hn by lia.
    rewrite Z.pow_succ_r in Hn by lia.
    pose proof (Z.pow_pos_nonneg 10 (Z.of_nat pos) ltac:(lia) ltac:(lia)).
    rewrite bool_decide_true by lia.
    destruct pos as [|pos]; [|apply IH].
    + simpl. by case_bool_decide; intros; simplify_eq.
    + replace (Z.of_nat (S pos)) with (Z.succ (Z.of_nat pos)) in * by lia.
      rewrite Z.pow_succ_r in * by lia.
      rewrite Z.quot_div_nonneg by lia.
      assert (10 ^ Z.of_nat pos <= n / 10); [|lia].
      apply Z.div_le_lower_bound; lia.
Qed.

Lemma pretty_Z_nonneg n : 0 < n -> pretty n = pretty_N_go (Z.to_N n) "".
Proof. by destruct n. Qed.

Lemma pretty_Z_neg n : n < 0 -> pretty n = "-" +:+ pretty_N_go (Z.to_N (- n)) "".
Proof. by destruct n. Qed.

Lemma intToStr_pos n :
  0 < n -> intToStr n = if bool_decide (n < 10 ^ 12) then Some (pretty n) else None.
Proof.
  intros Hn. unfold intToStr. rewrite !bool_decide_false by lia.
  case_bool_decide as Hb.
  - destruct (intToStr_loop_ok 12 n "" 12 ltac:(lia) ltac:(lia)) as (p & -> & _).
    by rewrite pretty_Z_nonneg.
  - by rewrite intToStr_loop_panic by lia.
Qed.

Lemma intToStr_neg n :
  - 2 ^ 63 < n < 0 -> intToStr n = if bool_decide (- 10 ^ 11 < n) then Some (pretty n) else None.
Proof.
  intros Hn. unfold intToStr. rewrite (bool_decide_false (n = 0)), (bool_decide_true (n < 0)) by lia.
  rewrite wrap64_id by (unfold in_int64; lia). case_bool_decide as Hb.
  - destruct (intToStr_loop_ok 12 (- n) "" 11 ltac:(lia) ltac:(lia)) as (p & -> & Hp).
    destruct p; [lia|]. simpl. by rewrite pretty_Z_neg by lia.
  - destruct (intToStr_loop 12 (- n) "") as [[p w]|] eqn:He; [|done].
    apply intToStr_loop_full in He; [by subst|lia].
Qed.

(** ** Properties *)

(** [intToStr] prints an [int] in decimal exactly when the text fits its
    twelve-byte buffer; a longer number indexes in front of the buffer (the
    panic), and the smallest [int64], whose negation overflows, prints as a lone
    minus sign. *)
Theorem intToStr_correct (n : Z) :
  in_int64 n ->
  intToStr n =
    if bool_decide (n = - 2 ^ 63) then Some "-"
    else if bool_decide (- 10 ^ 11 < n < 10 ^ 12) then Some (pretty n)
    else None.
Proof.
  intros Hr. case_bool_decide as Hmin; [by subst|]. unfold in_int64 in Hr.
  destruct (Z.lt_trichotomy n 0) as [Hn|[->|Hn]]; [|done|].
  - rewrite intToStr_neg by lia. by do 2 case_bool_decide; try lia.
  - rewrite intToStr_pos by lia. by do 2 case_bool_decide; try lia.
Qed.

Lemma intToStr_correct_witness :
  in_int64 (-404) /\ intToStr (-404) = Some "-404".
Proof.
  split; [unfold in_int64; lia|].
  rewrite (intToStr_correct (-404)); [reflexivity|unfold in_int64; lia].
Defined.

(** The answer of POST /refresh follows the outcome of the refresh: 202 when
    one is already running, 500 with the error text on failure, 200 on success,
    503 when no refresh is configured; another method is refused with 405 and
    runs no refresh. *)
Theorem handleRefresh_status {S : Type} (refreshFn : option (S -> S * option string)) (s : S)
    (r : Request) :
  let '(s', resp) := handleRefresh refreshFn s r in
  if bool_decide (req_Method r = "POST") then
    match refreshFn with
    | None => s' = s /\ resp_status resp = 503
    | Some f => s' = (f s).1 /\
        resp_status resp = match (f s).2 with
                           | None => 200
                           | Some e => if bool_decide (e = "refresh already in progress")
                                       then 202 else 500
                           end
    end
  else s' = s /\ resp_status resp = 405.
Proof.
  unfold handleRefresh. destruct (decide (req_Method r = "POST")) as [Hm|Hm].
  - rewrite bool_decide_false by (intros []; done). rewrite bool_decide_true by done.
    destruct refreshFn as [f|]; [|done]. destruct (f s) as [s' [e|]]; [|done]. simpl.
    by case_bool_decide.
  - by rewrite bool_decide_true, bool_decide_false by done.
Qed.
