(* ===== verification/Cache.v ===== *)
(** * internal/cache: the sharded range cache (range.go)

    [RangeCache] keeps [numShards] maps from [cacheKey] to [RangeBlock], the byte
    [budget], the atomic counter [used] and the optional metrics.  Every operation
    is one atomic transition; [nowNano()] is the argument [now].  The budget loop of
    [evict] may spin for ever in Go, so it is a fuelled loop whose [None] means "still
    over budget"; [evict_spec] shows that the fuel chosen decides the loop, and
    [Put_total] that it always ends for a non-negative budget. *)
From S2P Require Import Prelude Metrics.
From stdpp Require Import strings.
From Stdlib Require Import Strings.Byte.
Open Scope Z_scope.
Open Scope go_scope.

(** ** Data *)

Definition numShards : Z := 32.

Record cacheKey := CacheKey { fileKey : string; start : Z }.

#[export] Instance cacheKey_eq_dec : EqDecision cacheKey.
Proof. solve_decision. Defined.

#[export] Instance cacheKey_countable : Countable cacheKey.
Proof.
  by refine (inj_countable' (fun k => (fileKey k, start k)) (fun p => CacheKey p.1 p.2) _);
    intros [].
Defined.

Definition PriorityLow : Z := 0.
Definition PriorityHigh : Z := 1.

Record BlockInfo := MkBlockInfo { bi_Start : Z; bi_End : Z; bi_Priority : Z }.

Record RangeBlock := MkRangeBlock {
  blk_start : Z;
  blk_end : Z;
  blk_data : list byte;
  blk_sessionID : Z;
  blk_priority : Z;
  blk_lastAccess : Z
}.

Record RangeCache := MkRangeCache {
  shards : list (gmap cacheKey RangeBlock);
  budget : Z;
  used : Z;
  m : option Metrics
}.

(** [int64(len(data))] *)
Definition len64 (data : list byte) : Z := Z.of_nat (length data).
Definition blk_size (b : RangeBlock) : Z := len64 (blk_data b).

Definition NewRangeCache (budgetBytes : Z) (om : option Metrics) : RangeCache :=
  MkRangeCache (replicate (Z.to_nat numShards) ∅) budgetBytes 0 om.

(** ** Shard selection *)

(** [fnv.New32] of the standard library: FNV-1, multiply then xor. *)
Definition fnv32_step (h : Z) (c : Ascii.ascii) : Z :=
  Z.lxor ((h * 16777619) mod 2 ^ 32) (Z.of_N (Ascii.N_of_ascii c)).

Definition fnv32 (s : string) : Z :=
  foldl fnv32_step 2166136261 (String.list_ascii_of_string s).

Definition shardIndex (fk : string) (st : Z) : Z :=
  Z.lxor (fnv32 fk) (uint32 st) mod numShards.

Definition shard_no (k : cacheKey) : nat := Z.to_nat (shardIndex (fileKey k) (start k)).

(** ** Helpers for the fields an operation assigns *)

Definition set_shard (i : nat) (sh : gmap cacheKey RangeBlock) (rc : RangeCache) : RangeCache :=
  MkRangeCache (<[i := sh]> (shards rc)) (budget rc) (used rc) (m rc).
Definition set_used (u : Z) (rc : RangeCache) : RangeCache :=
  MkRangeCache (shards rc) (budget rc) u (m rc).
Definition set_m (om : option Metrics) (rc : RangeCache) : RangeCache :=
  MkRangeCache (shards rc) (budget rc) (used rc) om.
Definition touch (now : Z) (b : RangeBlock) : RangeBlock :=
  MkRangeBlock (blk_start b) (blk_end b) (blk_data b) (blk_sessionID b) (blk_priority b) now.

(** ** Lookups *)

(** [copy(dst, src)] followed by the count it returns. *)
Definition go_copy (dst src : list byte) : list byte * Z :=
  let n := Nat.min (length dst) (length src) in
  (take n src ++ drop n dst, Z.of_nat n).

Section ops.
Context `{MapIter}.

(** [for i := range rc.shards { for key, blk := range sh.blocks { ... } }]: the
    entries in the order the two nested loops visit them, with their shard. *)
Fixpoint range_shards (seed i : nat) (shs : list (gmap cacheKey RangeBlock))
  : list (nat * (cacheKey * RangeBlock)) :=
  match shs with
  | [] => []
  | sh :: shs' => (pair i <$> map_range (seed + i) sh) ++ range_shards seed (S i) shs'
  end.

Definition covers (fk : string) (off : Z) (e : nat * (cacheKey * RangeBlock)) : bool :=
  bool_decide (fileKey e.2.1 = fk) && (blk_start e.2.2 <=? off) && (off <? blk_end e.2.2).

(** Returns the cache, the destination buffer and [Some n] on a hit. *)
Definition CopyTo (fk : string) (off : Z) (dst : list byte) (now : Z) (rc : RangeCache)
  : RangeCache * list byte * option Z :=
  if bool_decide (dst = []) then (rc, dst, None) else
  match List.find (covers fk off) (range_shards 0 0 (shards rc)) with
  | None => (rc, dst, None)
  | Some (i, (k, b)) =>
      let blkOff := off -w blk_start b in
      let '(dst', n) := go_copy dst (drop (Z.to_nat blkOff) (blk_data b)) in
      let sh := default ∅ (shards rc !! i) in
      (set_shard i (<[k := touch now b]> sh) rc, dst', Some n)
  end.

Definition CachedPrefixLen (fk : string) (off : Z) (rc : RangeCache) : option Z :=
  sh ← shards rc !! Z.to_nat (shardIndex fk off);
  b ← sh !! CacheKey fk off;
  Some (blk_size b).

(** ** Eviction *)

Record candidate := Candidate { c_key : cacheKey; c_shard : nat; c_lastAccess : Z }.

Definition candidate_of (e : nat * (cacheKey * RangeBlock)) : candidate :=
  Candidate e.2.1 e.1 (blk_lastAccess e.2.2).

(** [if best == nil || la < best.lastAccess { best = cand }] *)
Definition better (best : option candidate) (c : candidate) : option candidate :=
  match best with
  | None => Some c
  | Some b => if c_lastAccess c <? c_lastAccess b then Some c else Some b
  end.

(** The body of the scan: the two candidates are [lowCand] and [highCand]. *)
Definition scan_block (acc : option candidate * option candidate)
    (e : nat * (cacheKey * RangeBlock)) : option candidate * option candidate :=
  if blk_priority e.2.2 =? PriorityLow
  then (better acc.1 (candidate_of e), acc.2)
  else (acc.1, better acc.2 (candidate_of e)).

(** [current := used.Load(); if current >= size { used.Add(-size) } else { used.Store(0) }] *)
Definition sub_used (size : Z) (u : Z) : Z := if size <=? u then add64 u (- size) else 0.

(** The last part of [evictOne]: delete the chosen block under its shard's lock. *)
Definition delete_block (i : nat) (k : cacheKey) (rc : RangeCache) : RangeCache :=
  match shards rc !! i with
  | None => rc
  | Some sh =>
      match sh !! k with
      | None => rc
      | Some b =>
          let size := blk_size b in
          set_m (add_opt CCacheEntries (-1)
                  (add_opt CCacheBytesActive (- size) (add_opt CCacheBytesTotal (- size) (m rc))))
            (set_used (sub_used size (used rc)) (set_shard i (delete k sh) rc))
      end
  end.

Definition pick_victim (round : nat) (rc : RangeCache) : option candidate :=
  let '(lowCand, highCand) :=
    foldl scan_block (None, None) (range_shards (32 * round) 0 (shards rc)) in
  match lowCand with Some c => Some c | None => highCand end.

Definition evictOne (round : nat) (rc : RangeCache) : RangeCache :=
  match pick_victim round rc with
  | None => rc
  | Some c => delete_block (c_shard c) (c_key c) rc
  end.

(** [for rc.used.Load() > rc.budget { rc.evictOne() }]; [round] numbers the rounds. *)
Fixpoint evict_loop (fuel round : nat) (rc : RangeCache) : option RangeCache :=
  if budget rc <? used rc then
    match fuel with
    | O => None
    | S fuel' => evict_loop fuel' (S round) (evictOne round rc)
    end
  else Some rc.

Definition block_count (rc : RangeCache) : nat :=
  list_sum ((fun sh : gmap cacheKey RangeBlock => size sh) <$> shards rc).

(** One round per block, and one more: see [evict_decides]. *)
Definition evict (rc : RangeCache) : option RangeCache := evict_loop (S (block_count rc)) 0 rc.

(** ** Insertion *)

(** The critical section of [putBlock]: replace the block under the shard's lock. *)
Definition put_locked (k : cacheKey) (blk : RangeBlock) (rc : RangeCache) : RangeCache :=
  let i := shard_no k in
  let sh := default ∅ (shards rc !! i) in
  let rc1 := match sh !! k with
    | Some old =>
        let oldSize := blk_size old in
        set_m (add_opt CCacheEntries (-1)
                (add_opt CCacheBytesActive (- oldSize)
                  (add_opt CCacheBytesTotal (- oldSize) (m rc))))
          (set_used (add64 (used rc) (- oldSize)) rc)
    | None => rc
    end in
  set_shard i (<[k := blk]> sh) rc1.

(** The counter updates after the lock is released. *)
Definition put_account (n : Z) (rc : RangeCache) : RangeCache :=
  set_m (add_opt CCacheEntries 1 (add_opt CCacheBytesActive n (add_opt CCacheBytesTotal n (m rc))))
    (set_used (add64 (used rc) n) rc).

Definition new_block (st : Z) (data : list byte) (sessionID priority now : Z) : RangeBlock :=
  MkRangeBlock st (st +w len64 data) data sessionID priority now.

Definition putBlock (fk : string) (st : Z) (data : list byte) (sessionID priority now : Z)
    (rc : RangeCache) : option RangeCache :=
  if bool_decide (data = []) then Some rc else
  let blk := new_block st data sessionID priority now in
  evict (put_account (len64 data) (put_locked (CacheKey fk st) blk rc)).

Definition Put (fk : string) (st : Z) (data : list byte) (now : Z) (rc : RangeCache) :=
  putBlock fk st data 0 PriorityLow now rc.
Definition PutWithPriority (fk : string) (st : Z) (data : list byte) (priority now : Z)
    (rc : RangeCache) := putBlock fk st data 0 priority now rc.
Definition PutWithSession (fk : string) (st : Z) (data : list byte) (sessionID now : Z)
    (rc : RangeCache) := putBlock fk st data sessionID PriorityLow now rc.

(** ** Stale sessions *)

Definition is_stale (fk : string) (currentSession : Z) (k : cacheKey) (b : RangeBlock) : bool :=
  bool_decide (fileKey k = fk) && (0 <? blk_sessionID b) && (blk_sessionID b <? currentSession).

(** The loop body: the entry visited is deleted from the shard while it is ranged over. *)
Definition evict_stale_entry (fk : string) (currentSession : Z) (rc : RangeCache)
    (e : nat * (cacheKey * RangeBlock)) : RangeCache :=
  let '(i, (k, b)) := e in
  if is_stale fk currentSession k b then
    let size := blk_size b in
    set_m (add_opt CCacheEntries (-1)
            (add_opt CCacheBytesActive (- size) (add_opt CCacheBytesStale size (m rc))))
      (set_used (sub_used size (used rc))
        (set_shard i (delete k (default ∅ (shards rc !! i))) rc))
  else rc.

Definition EvictStale (fk : string) (currentSession : Z) (rc : RangeCache) : RangeCache :=
  foldl (evict_stale_entry fk currentSession) rc (range_shards 0 0 (shards rc)).

(** ** Introspection *)

Definition Used (rc : RangeCache) : Z := used rc.
Definition Budget (rc : RangeCache) : Z := budget rc.

Definition block_info (e : nat * (cacheKey * RangeBlock)) : BlockInfo :=
  MkBlockInfo (blk_start e.2.2) (blk_end e.2.2) (blk_priority e.2.2).

(** [slices.SortFunc] by [Start]. *)
Definition block_less (a b : BlockInfo) : bool := bi_Start a <? bi_Start b.

Definition FileBlocks `{SliceSort} (fk : string) (rc : RangeCache) : list BlockInfo :=
  slice_sort block_less
    (block_info <$> List.filter (fun e => bool_decide (fileKey e.2.1 = fk))
                      (range_shards 0 0 (shards rc))).

(** The keys of the [seen] map, in its iteration order. *)
Definition AllFileKeys (rc : RangeCache) : list string :=
  let seen : gmap string unit :=
    foldl (fun acc e => <[fileKey e.2.1 := tt]> acc) ∅ (range_shards 0 0 (shards rc)) in
  (map_range (length (shards rc)) seen).*1.

End ops.

(** ** Specification vocabulary *)

(** The block stored at a key, seen through the sharding. *)
Definition find_block (rc : RangeCache) (k : cacheKey) : option RangeBlock :=
  sh ← shards rc !! shard_no k; sh !! k.

Definition shards_total (f : RangeBlock -> Z) (shs : list (gmap cacheKey RangeBlock)) : Z :=
  foldr (fun sh acc => map_total f sh + acc) 0 shs.
Definition total_size (rc : RangeCache) : Z := shards_total blk_size (shards rc).
Definition total_blocks (rc : RangeCache) : Z := shards_total (fun _ => 1) (shards rc).

Record block_ok (k : cacheKey) (b : RangeBlock) : Prop := {
  ok_start : blk_start b = start k;
  ok_data : blk_data b <> [];
  ok_end : blk_end b = start k + blk_size b;
  ok_range : - 2 ^ 63 <= start k /\ start k + blk_size b < 2 ^ 63
}.

(** Every block sits in the shard of its key and describes its own bytes. *)
Record wf_shards (rc : RangeCache) : Prop := {
  wf_length : length (shards rc) = 32%nat;
  wf_block : forall i sh k b,
    shards rc !! i = Some sh -> sh !! k = Some b -> i = shard_no k /\ block_ok k b
}.

(** The cache's three gauges, relative to its content. *)
Definition metrics_agree (rc : RangeCache) : Prop :=
  forall mt, m rc = Some mt ->
    CacheEntries mt = wrap64 (total_blocks rc) /\
    CacheBytesActive mt = wrap64 (total_size rc) /\
    CacheBytesTotal mt = wrap64 (total_size rc + CacheBytesStale mt).

Record accounted (rc : RangeCache) : Prop := {
  acc_used : used rc = total_size rc;
  acc_bound : total_size rc < 2 ^ 63;
  acc_metrics : metrics_agree rc
}.

(** The invariant between operations. *)
Record cache_inv (rc : RangeCache) : Prop := {
  inv_wf : wf_shards rc;
  inv_acc : accounted rc;
  inv_budget : used rc <= budget rc
}.

(** ** Lemmas: shards *)

Lemma shard_no_lt k : (shard_no k < 32)%nat.
Proof.
  unfold shard_no, shardIndex, numShards.
  match goal with |- context [?x mod 32] => pose proof (Z.mod_pos_bound x 32 ltac:(lia)) end. lia.
Qed.

Lemma shards_total_insert f shs i sh sh' :
  shs !! i = Some sh ->
  shards_total f (<[i := sh']> shs) = shards_total f shs - map_total f sh + map_total f sh'.
Proof.
  revert i. induction shs as [|s shs IH]; intros [|i] Hi; simplify_eq/=; [lia|].
  rewrite IH by done. lia.
Qed.

Lemma shards_total_nonneg f shs :
  (forall i sh k b, shs !! i = Some sh -> sh !! k = Some b -> 0 <= f b) -> 0 <= shards_total f shs.
Proof.
  induction shs as [|s shs IH]; intros Hf; simpl; [done|].
  assert (0 <= map_total f s) by (apply map_total_nonneg; intros; by eapply (Hf O)).
  assert (0 <= shards_total f shs) by (apply IH; intros i; apply (Hf (S i))). lia.
Qed.

Lemma shards_total_lookup_le f shs i sh :
  (forall i sh k b, shs !! i = Some sh -> sh !! k = Some b -> 0 <= f b) ->
  shs !! i = Some sh -> map_total f sh <= shards_total f shs.
Proof.
  revert i. induction shs as [|s shs IH]; intros [|i] Hf Hi; simplify_eq/=.
  - assert (0 <= shards_total f shs); [|lia].
    apply shards_total_nonneg. intros i; apply (Hf (S i)).
  - specialize (IH i (fun i => Hf (S i)) Hi).
    assert (0 <= map_total f s) by (apply map_total_nonneg; intros; by eapply (Hf O)). lia.
Qed.

Lemma blk_size_nonneg b : 0 <= blk_size b.
Proof. unfold blk_size, len64. lia. Qed.

Lemma block_size_le rc i sh k b :
  shards rc !! i = Some sh -> sh !! k = Some b -> 0 <= blk_size b <= total_size rc.
Proof.
  intros Hi Hk. split; [apply blk_size_nonneg|].
  transitivity (map_total blk_size sh).
  - eapply map_total_lookup_le; [|done]. intros; apply blk_size_nonneg.
  - eapply shards_total_lookup_le; [|done]. intros; apply blk_size_nonneg.
Qed.

Lemma map_total_one {V} (sh : gmap cacheKey V) :
  map_total (fun _ => 1) sh = Z.of_nat (size sh).
Proof.
  induction sh as [|k v sh Hk IH] using map_ind.
  - by rewrite map_total_empty, map_size_empty.
  - rewrite map_total_insert_fresh, map_size_insert_None by done. lia.
Qed.

Lemma block_count_total rc : Z.of_nat (block_count rc) = total_blocks rc.
Proof.
  unfold block_count, total_blocks, shards_total.
  induction (shards rc) as [|sh shs IH]; csimpl; [done|].
  rewrite map_total_one, Nat2Z.inj_add, IH. lia.
Qed.

(** ** Lemmas: the nested iteration *)

Section iteration.
Context `{MapIter}.

Lemma elem_of_range_shards seed i shs j k b :
  (j, (k, b)) ∈ range_shards seed i shs <->
  exists sh, (i <= j)%nat /\ shs !! (j - i)%nat = Some sh /\ sh !! k = Some b.
Proof.
  revert i. induction shs as [|s shs IH]; intros i; simpl.
  - split; [by intros ?%not_elem_of_nil|]. intros (sh & _ & Hn & _). by rewrite lookup_nil in Hn.
  - rewrite elem_of_app, list_elem_of_fmap, IH. split.
    + intros [([k' b'] & Heq & Hin)|(sh & Hle & Hs & Hk)].
      * simplify_eq/=. apply elem_of_map_range in Hin.
        exists s. rewrite Nat.sub_diag. auto.
      * exists sh. split; [lia|]. by replace (j - i)%nat with (S (j - S i)) by lia.
    + intros (sh & Hle & Hs & Hk). destruct (decide (j = i)) as [->|Hne].
      * left. exists (k, b). split; [done|]. apply elem_of_map_range.
        rewrite Nat.sub_diag in Hs. by simplify_eq/=.
      * right. exists sh. replace (j - i)%nat with (S (j - S i)) in Hs by lia.
        split; [lia|done].
Qed.

Lemma elem_of_range_shards_0 seed shs j k b :
  (j, (k, b)) ∈ range_shards seed 0 shs <-> exists sh, shs !! j = Some sh /\ sh !! k = Some b.
Proof.
  rewrite elem_of_range_shards. split.
  - intros (sh & _ & Hs & Hk). rewrite Nat.sub_0_r in Hs. eauto.
  - intros (sh & Hs & Hk). exists sh. rewrite Nat.sub_0_r. auto with lia.
Qed.

(** Under the invariant, the entries visited are the blocks found by key. *)
Lemma elem_of_range_find rc seed j k b :
  wf_shards rc ->
  (j, (k, b)) ∈ range_shards seed 0 (shards rc) <-> j = shard_no k /\ find_block rc k = Some b.
Proof.
  intros Hwf. rewrite elem_of_range_shards_0. unfold find_block. split.
  - intros (sh & Hs & Hk). destruct (wf_block _ Hwf _ _ _ _ Hs Hk) as [-> _].
    by rewrite Hs.
  - intros [-> Hf]. apply bind_Some in Hf as (sh & Hs & Hk). eauto.
Qed.

Lemma NoDup_range_shards seed i shs : NoDup (range_shards seed i shs).
Proof.
  revert i. induction shs as [|s shs IH]; intros i; simpl; [constructor|].
  apply NoDup_app. split_and!; [| |apply IH].
  - apply NoDup_fmap; [intros ?? [=]; done|]. eapply NoDup_fmap_1, NoDup_map_range.
  - intros [j [k b]] Hin1 Hin2.
    apply list_elem_of_fmap in Hin1 as ([k' b'] & [= -> -> ->] & _).
    apply elem_of_range_shards in Hin2 as (? & ? & _). lia.
Qed.

End iteration.

Lemma find_block_ok rc k b :
  wf_shards rc -> find_block rc k = Some b -> block_ok k b.
Proof.
  intros Hwf Hf. apply bind_Some in Hf as (sh & Hs & Hk).
  by destruct (wf_block _ Hwf _ _ _ _ Hs Hk).
Qed.

Lemma find_block_size rc k b :
  find_block rc k = Some b -> 0 <= blk_size b <= total_size rc.
Proof. intros Hf. apply bind_Some in Hf as (sh & Hs & Hk). by eapply block_size_le. Qed.

Lemma covers_spec rc k b fk off i :
  wf_shards rc -> find_block rc k = Some b ->
  covers fk off (i, (k, b)) = true <-> fileKey k = fk /\ start k <= off < start k + blk_size b.
Proof.
  intros Hwf Hf. destruct (find_block_ok _ _ _ Hwf Hf) as [Hst _ Hend _].
  unfold covers; simpl. rewrite Hst, Hend, !andb_true_iff, bool_decide_eq_true, Z.leb_le, Z.ltb_lt.
  tauto.
Qed.

(** ** Lemmas: updating one shard *)

Lemma shard_exists rc k : wf_shards rc -> exists sh, shards rc !! shard_no k = Some sh.
Proof.
  intros Hwf. apply lookup_lt_is_Some_2. rewrite (wf_length _ Hwf). apply shard_no_lt.
Qed.

Section update.
Context (rc : RangeCache) (k : cacheKey) (sh : gmap cacheKey RangeBlock).
Context (Hwf : wf_shards rc) (Hsh : shards rc !! shard_no k = Some sh).

Lemma find_block_shard : find_block rc k = sh !! k.
Proof using Hsh. unfold find_block. by rewrite Hsh. Qed.

Lemma find_set_shard sh' k' :
  (forall k', k' <> k -> sh' !! k' = sh !! k') ->
  find_block (set_shard (shard_no k) sh' rc) k' = if decide (k = k') then sh' !! k else find_block rc k'.
Proof using Hsh.
  intros Hsame. unfold find_block, set_shard; simpl.
  destruct (decide (shard_no k = shard_no k')) as [Heq|Hne].
  - rewrite <- Heq, list_lookup_insert_eq, Hsh by (by eapply lookup_lt_Some). simpl.
    case_decide; [by subst|by apply Hsame].
  - rewrite list_lookup_insert_ne by done. case_decide; [by subst|done].
Qed.

Lemma wf_set_shard sh' :
  (forall k' b, sh' !! k' = Some b -> sh !! k' = Some b \/ (k' = k /\ block_ok k b)) ->
  wf_shards (set_shard (shard_no k) sh' rc).
Proof using Hsh Hwf.
  intros Hsub. split; simpl.
  - rewrite length_insert. by apply wf_length.
  - intros i s k' b Hi Hb. destruct (decide (shard_no k = i)) as [<-|Hne].
    + rewrite list_lookup_insert_eq in Hi by (by eapply lookup_lt_Some). simplify_eq.
      destruct (Hsub _ _ Hb) as [?|[-> ?]]; [|done]. by eapply (wf_block _ Hwf).
    + rewrite list_lookup_insert_ne in Hi by done. by eapply (wf_block _ Hwf).
Qed.

Lemma total_set_shard f sh' :
  shards_total f (shards (set_shard (shard_no k) sh' rc)) =
  shards_total f (shards rc) - map_total f sh + map_total f sh'.
Proof using Hsh. by apply shards_total_insert. Qed.

End update.

(** [wf_shards], [find_block] and the totals depend on the shards only. *)
Lemma wf_shards_ext rc rc' : shards rc = shards rc' -> wf_shards rc -> wf_shards rc'.
Proof. intros He [Hl Hb]. split; by rewrite <- He. Qed.

Lemma find_block_ext rc rc' k : shards rc = shards rc' -> find_block rc k = find_block rc' k.
Proof. intros He. unfold find_block. by rewrite He. Qed.

(** ** Lemmas: eviction *)

Lemma sub_used_spec size u : 0 <= size <= u -> u < 2 ^ 63 -> sub_used size u = u - size.
Proof.
  intros Hs Hu. unfold sub_used. destruct (Z.leb_spec size u); [|lia].
  unfold add64. rewrite wrap64_id; unfold in_int64; lia.
Qed.

Record deleted (k : cacheKey) (b : RangeBlock) (rc rc' : RangeCache) : Prop := {
  del_find : forall k', find_block rc' k' = if decide (k = k') then None else find_block rc k';
  del_used : used rc' = used rc - blk_size b;
  del_budget : budget rc' = budget rc;
  del_blocks : total_blocks rc' = total_blocks rc - 1
}.

(** The metrics delta shared by [evictOne] and [EvictStale] keeps the gauges right. *)
Lemma metrics_agree_delete rc rc' b (stale : bool) :
  total_size rc' = total_size rc - blk_size b ->
  total_blocks rc' = total_blocks rc - 1 ->
  m rc' = add_opt CCacheEntries (-1) (add_opt CCacheBytesActive (- blk_size b)
    (if stale then add_opt CCacheBytesStale (blk_size b) (m rc)
     else add_opt CCacheBytesTotal (- blk_size b) (m rc))) ->
  metrics_agree rc -> metrics_agree rc'.
Proof.
  intros Hs Hb Hm Hag mt Hmt. rewrite Hm in Hmt. unfold add_opt in Hmt.
  destruct (m rc) as [mt0|] eqn:Hm0; [|by destruct stale].
  destruct (Hag _ Hm0) as (He & Ha & Ht).
  destruct stale; simplify_eq/=; rewrite Hs, Hb, ?He, ?Ha, ?Ht; split_and!; wrap_solve.
Qed.

(** What [evictOne] ([stale = false]) and [EvictStale] ([stale = true]) assign. *)
Definition removed (stale : bool) (k : cacheKey) (b : RangeBlock)
    (sh : gmap cacheKey RangeBlock) (rc : RangeCache) : RangeCache :=
  let size := blk_size b in
  set_m (add_opt CCacheEntries (-1) (add_opt CCacheBytesActive (- size)
          (if stale then add_opt CCacheBytesStale size (m rc)
           else add_opt CCacheBytesTotal (- size) (m rc))))
    (set_used (sub_used size (used rc)) (set_shard (shard_no k) (delete k sh) rc)).

Lemma removed_spec stale rc k b sh :
  wf_shards rc -> accounted rc -> shards rc !! shard_no k = Some sh -> find_block rc k = Some b ->
  let rc' := removed stale k b sh rc in
  wf_shards rc' /\ accounted rc' /\ deleted k b rc rc'.
Proof.
  intros Hwf Hacc Hsh Hf.
  pose proof (find_block_size _ _ _ Hf) as Hsz.
  rewrite (find_block_shard _ _ _ Hsh) in Hf.
  set (rc0 := set_shard (shard_no k) (delete k sh) rc).
  assert (total_size rc0 = total_size rc - blk_size b) as Hts.
  { unfold total_size, rc0. rewrite (total_set_shard _ _ _ Hsh).
    rewrite (map_total_delete _ _ _ _ Hf). lia. }
  assert (total_blocks rc0 = total_blocks rc - 1) as Htb.
  { unfold total_blocks, rc0. rewrite (total_set_shard _ _ _ Hsh).
    rewrite (map_total_delete _ _ _ _ Hf). lia. }
  pose proof (acc_used _ Hacc) as Hu. pose proof (acc_bound _ Hacc) as Hbd. intros rc'.
  split_and!.
  - eapply (wf_shards_ext rc0); [done|]. apply (wf_set_shard _ _ _ Hwf Hsh).
    intros k' b' [_ ?]%lookup_delete_Some. by left.
  - split; [|by change (total_size rc0 < 2 ^ 63); lia|].
    + change (sub_used (blk_size b) (used rc) = total_size rc0).
      rewrite sub_used_spec; lia.
    + eapply (metrics_agree_delete rc _ b stale); [done..|by apply acc_metrics].
  - split; [|simpl; apply sub_used_spec; lia|done|done].
    intros k'. rewrite (find_block_ext _ rc0) by done. unfold rc0.
    rewrite (find_set_shard _ _ _ Hsh) by (intros; by rewrite lookup_delete_ne).
    by rewrite lookup_delete_eq.
Qed.

Lemma delete_block_spec rc k b :
  wf_shards rc -> accounted rc -> find_block rc k = Some b ->
  let rc' := delete_block (shard_no k) k rc in
  wf_shards rc' /\ accounted rc' /\ deleted k b rc rc'.
Proof.
  intros Hwf Hacc Hf. destruct (shard_exists rc k Hwf) as [sh Hsh].
  assert (delete_block (shard_no k) k rc = removed false k b sh rc) as ->.
  { unfold delete_block. rewrite (find_block_shard _ _ _ Hsh) in Hf. by rewrite Hsh, Hf. }
  by apply removed_spec.
Qed.

(** *** The candidate scan *)

Definition is_low (e : nat * (cacheKey * RangeBlock)) : bool := blk_priority e.2.2 =? PriorityLow.

Lemma scan_split l lo hi :
  foldl scan_block (lo, hi) l =
  (foldl better lo (candidate_of <$> List.filter is_low l),
   foldl better hi (candidate_of <$> List.filter (fun e => negb (is_low e)) l)).
Proof.
  revert lo hi. induction l as [|e l IH]; intros lo hi; simpl; [done|].
  unfold scan_block at 2. fold (is_low e). destruct (is_low e); simpl; apply IH.
Qed.

Lemma better_spec l acc :
  match foldl better acc l with
  | None => acc = None /\ l = []
  | Some c => (acc = Some c \/ c ∈ l) /\
      (forall c', acc = Some c' -> c_lastAccess c <= c_lastAccess c') /\
      (forall c', c' ∈ l -> c_lastAccess c <= c_lastAccess c')
  end.
Proof.
  revert acc. induction l as [|x l IH]; intros acc; simpl.
  - destruct acc; [|done]. split_and!; [auto|by intros; simplify_eq|by intros ? ?%not_elem_of_nil].
  - specialize (IH (better acc x)). destruct (foldl better (better acc x) l) as [c|].
    + destruct IH as (Hin & Ha & Hl).
      assert (c_lastAccess c <= c_lastAccess x /\
              forall c', acc = Some c' -> c_lastAccess c <= c_lastAccess c') as [Hx Hacc].
      { unfold better in *. destruct acc as [b|]; simpl in *; [|by split; [apply Ha|]].
        destruct (Z.ltb_spec (c_lastAccess x) (c_lastAccess b)); specialize (Ha _ eq_refl);
          (split; [lia|intros ? [= <-]; lia]). }
      split_and!.
      * destruct Hin as [Hc|Hin]; [|by right; right].
        unfold better in Hc. destruct acc as [b|]; [|simplify_eq; right; left].
        case_match; simplify_eq; [right; left|by left].
      * done.
      * intros c' [->|?]%elem_of_cons; eauto.
    + destruct IH as [Hb _]. exfalso. unfold better in Hb.
      destruct acc; simpl in Hb; [by destruct (_ <? _)|done].
Qed.

(** ** Lemmas: the victim and the budget loop *)

(** [b] goes before [b']: low priority first, then the oldest access. *)
Definition evict_before (b b' : RangeBlock) : Prop :=
  if decide (blk_priority b = PriorityLow)
  then blk_priority b' = PriorityLow -> blk_lastAccess b <= blk_lastAccess b'
  else blk_priority b' <> PriorityLow /\ blk_lastAccess b <= blk_lastAccess b'.

Definition victim (rc : RangeCache) (k : cacheKey) (b : RangeBlock) : Prop :=
  find_block rc k = Some b /\
  forall k' b', find_block rc k' = Some b' -> evict_before b b'.

Definition empty_cache (rc : RangeCache) : Prop := forall k, find_block rc k = None.

Lemma shards_total_zero f rc : wf_shards rc -> empty_cache rc -> shards_total f (shards rc) = 0.
Proof.
  intros Hwf Hempty.
  assert (forall sh, sh ∈ shards rc -> sh = ∅) as Hall.
  { intros sh [i Hi]%list_elem_of_lookup. apply map_empty. intros k.
    destruct (sh !! k) as [b|] eqn:Hb; [|done].
    destruct (wf_block _ Hwf _ _ _ _ Hi Hb) as [-> _].
    specialize (Hempty k). unfold find_block in Hempty. rewrite Hi in Hempty.
    simpl in Hempty. congruence. }
  induction (shards rc) as [|sh shs IH]; simpl; [done|].
  rewrite (Hall sh) by constructor. rewrite map_total_empty, IH; [done|].
  intros s Hs. apply Hall. by constructor.
Qed.

Section eviction.
Context `{MapIter}.

Lemma pick_victim_spec round rc :
  wf_shards rc ->
  match pick_victim round rc with
  | None => empty_cache rc
  | Some c => c_shard c = shard_no (c_key c) /\ exists b, victim rc (c_key c) b
  end.
Proof.
  intros Hwf. unfold pick_victim. set (es := range_shards (32 * round) 0 (shards rc)).
  assert (forall k b, find_block rc k = Some b -> (shard_no k, (k, b)) ∈ es) as Hall
    by (intros; by apply elem_of_range_find).
  rewrite scan_split. set (low := List.filter is_low es).
  set (high := List.filter (fun e => negb (is_low e)) es).
  assert (forall e p, e ∈ List.filter p es -> e ∈ es /\ p e = true) as Hfil.
  { intros e p. rewrite !list_elem_of_In. apply filter_In. }
  assert (forall e p, e ∈ es -> p e = true -> e ∈ List.filter p es) as Hfil'.
  { intros e p. rewrite !list_elem_of_In. intros. by apply filter_In. }
  pose proof (better_spec (candidate_of <$> low) None) as Hlo.
  destruct (foldl better None (candidate_of <$> low)) as [c|].
  - destruct Hlo as ([?|([i [k b]] & -> & Hin)%list_elem_of_fmap] & _ & Hmin); [done|].
    apply Hfil in Hin as [Hin Hl]. apply elem_of_range_find in Hin as [-> Hf]; [|done].
    split; [done|]. exists b. split; [done|]. intros k' b' Hf'. unfold is_low in Hl; simpl in Hl.
    apply Z.eqb_eq in Hl. unfold evict_before. rewrite decide_True by done. intros Hl'.
    apply (Hmin (candidate_of (shard_no k', (k', b')))), list_elem_of_fmap_2, Hfil'; [by apply Hall|].
    by apply Z.eqb_eq.
  - destruct Hlo as [_ Hnil%fmap_nil_inv].
    assert (forall k b, find_block rc k = Some b -> is_low (shard_no k, (k, b)) = false) as Hhigh.
    { intros k b Hf. apply not_true_iff_false. intros Hl.
      pose proof (Hfil' _ is_low (Hall _ _ Hf) Hl) as Hin. fold low in Hin. rewrite Hnil in Hin.
      by apply not_elem_of_nil in Hin. }
    assert (forall k b, find_block rc k = Some b -> candidate_of (shard_no k, (k, b)) ∈
              candidate_of <$> high) as Hin.
    { intros k b Hf. apply list_elem_of_fmap_2, Hfil'; [by apply Hall|]. by rewrite Hhigh. }
    pose proof (better_spec (candidate_of <$> high) None) as Hhi.
    destruct (foldl better None (candidate_of <$> high)) as [c|].
    + destruct Hhi as ([?|([i [k b]] & -> & Hi)%list_elem_of_fmap] & _ & Hmin); [done|].
      apply Hfil in Hi as [Hi Hl]. apply elem_of_range_find in Hi as [-> Hf]; [|done].
      split; [done|]. exists b. split; [done|]. intros k' b' Hf'. unfold evict_before.
      pose proof (Hhigh _ _ Hf) as Hn%Z.eqb_neq. pose proof (Hhigh _ _ Hf') as Hn'%Z.eqb_neq.
      rewrite decide_False by done. split; [done|].
      apply (Hmin (candidate_of (shard_no k', (k', b')))). by apply Hin.
    + destruct Hhi as [_ Hnil'%fmap_nil_inv]. intros k.
      destruct (find_block rc k) as [b|] eqn:Hf; [|done].
      specialize (Hin _ _ Hf). rewrite Hnil' in Hin. by apply not_elem_of_nil in Hin.
Qed.

Lemma evictOne_spec round rc :
  wf_shards rc -> accounted rc ->
  let rc' := evictOne round rc in
  wf_shards rc' /\ accounted rc' /\
  ((rc' = rc /\ empty_cache rc) \/ exists k b, victim rc k b /\ deleted k b rc rc').
Proof.
  intros Hwf Hacc. unfold evictOne.
  pose proof (pick_victim_spec round rc Hwf) as Hp. destruct (pick_victim round rc) as [c|].
  - destruct Hp as (Hs & b & Hv & Hmin). rewrite Hs.
    destruct (delete_block_spec rc (c_key c) b Hwf Hacc Hv) as (? & ? & ?).
    split_and!; [done..|]. right. exists (c_key c), b. done.
  - by auto.
Qed.

(** What one run of the budget loop does to the cache. *)
Record evicted (rc rc' : RangeCache) : Prop := {
  ev_wf : wf_shards rc';
  ev_acc : accounted rc';
  ev_budget : budget rc' = budget rc;
  ev_fits : used rc' <= budget rc;
  ev_sub : forall k b, find_block rc' k = Some b -> find_block rc k = Some b;
  ev_order : forall k b k' b', find_block rc k = Some b -> find_block rc' k = None ->
    find_block rc' k' = Some b' -> evict_before b b';
  ev_minimal : rc' = rc \/
    exists k b, find_block rc k = Some b /\ find_block rc' k = None /\
      budget rc < used rc' + blk_size b
}.

Lemma evict_loop_spec fuel round rc :
  wf_shards rc -> accounted rc -> 0 <= budget rc -> total_blocks rc <= Z.of_nat fuel ->
  exists rc', evict_loop fuel round rc = Some rc' /\ evicted rc rc'.
Proof.
  revert round rc. induction fuel as [|fuel IH]; intros round rc Hwf Hacc Hb Hfuel; simpl;
    destruct (Z.ltb_spec (budget rc) (used rc)) as [Hlt|Hge];
    try (exists rc; split; [done|]; split; auto; intros; congruence).
  - exfalso. rewrite (acc_used _ Hacc) in Hlt.
    pose proof (evictOne_spec 0 rc Hwf Hacc) as (Hwf' & _ & [[_ He]|(k & b & Hv & Hd)]).
    + unfold total_size in Hlt. rewrite shards_total_zero in Hlt; [lia|done..].
    + assert (0 <= total_blocks (evictOne 0 rc)) by (apply shards_total_nonneg; lia).
      pose proof (del_blocks _ _ _ _ Hd). lia.
  - destruct (evictOne_spec round rc Hwf Hacc) as (Hwf' & Hacc' & [[_ He]|(k & b & [Hf Hmin] & Hd)]).
    { rewrite (acc_used _ Hacc) in Hlt. unfold total_size in Hlt.
      rewrite shards_total_zero in Hlt; [lia|done..]. }
    pose proof (del_budget _ _ _ _ Hd) as Hbud. pose proof (del_find _ _ _ _ Hd) as Hdf.
    destruct (IH (S round) (evictOne round rc)) as (rc' & Hrun & Hev);
      [done|done|lia|rewrite (del_blocks _ _ _ _ Hd); lia|].
    exists rc'. split; [done|]. destruct Hev as [? ? ? ? Hsub Hord Hmini].
    assert (forall k b, find_block rc' k = Some b -> find_block rc k = Some b) as Hsub'.
    { intros k0 b0 H0%Hsub. rewrite Hdf in H0. by case_decide. }
    rewrite Hbud in Hmini.
    split; [done|done|congruence|lia|done| |].
    + intros k0 b0 k' b' H0 Hn H'. destruct (decide (k = k0)) as [<-|Hne].
      * simplify_eq. eauto.
      * apply (Hord k0 b0 k' b'); [|done..]. by rewrite Hdf, decide_False.
    + right. destruct Hmini as [->|(k0 & b0 & H0 & Hn & Hlim)].
      * exists k, b. split_and!; [done|by rewrite Hdf, decide_True|].
        rewrite (del_used _ _ _ _ Hd). lia.
      * exists k0, b0. split_and!; [|done|done].
        rewrite Hdf in H0. by case_decide.
Qed.

Lemma evict_spec rc :
  wf_shards rc -> accounted rc -> 0 <= budget rc ->
  exists rc', evict rc = Some rc' /\ evicted rc rc'.
Proof.
  intros. apply evict_loop_spec; [done..|]. rewrite <- block_count_total. lia.
Qed.

(** A negative budget is never met: the loop has no exit, whatever the fuel. *)
Lemma evict_loop_negative fuel round rc :
  wf_shards rc -> accounted rc -> budget rc < 0 -> evict_loop fuel round rc = None.
Proof.
  revert round rc. induction fuel as [|fuel IH]; intros round rc Hwf Hacc Hb; simpl;
    assert (0 <= used rc) by (rewrite (acc_used _ Hacc); apply shards_total_nonneg;
      intros; apply blk_size_nonneg);
    (destruct (Z.ltb_spec (budget rc) (used rc)); [|lia]); [done|].
  destruct (evictOne_spec round rc Hwf Hacc) as (? & ? & [[-> _]|(k & b & _ & Hd)]); [by apply IH|].
  apply IH; [done..|]. by rewrite (del_budget _ _ _ _ Hd).
Qed.

End eviction.

(** ** Lemmas: insertion *)

Lemma new_block_ok fk st data sid prio now :
  data <> [] -> - 2 ^ 63 <= st -> st + len64 data < 2 ^ 63 ->
  block_ok (CacheKey fk st) (new_block st data sid prio now).
Proof.
  intros Hd Hlo Hhi. split; simpl; [done..| |done].
  unfold blk_size; simpl. unfold add64. apply wrap64_id. unfold in_int64, len64 in *. lia.
Qed.

(** The cache before the budget loop: the block is in, the counters are right. *)
Record inserted (k : cacheKey) (blk : RangeBlock) (rc rc' : RangeCache) : Prop := {
  ins_wf : wf_shards rc';
  ins_acc : accounted rc';
  ins_budget : budget rc' = budget rc;
  ins_find : forall k', find_block rc' k' = if decide (k = k') then Some blk else find_block rc k'
}.

Lemma put_insert_spec rc k blk :
  wf_shards rc -> accounted rc -> block_ok k blk -> total_size rc + blk_size blk < 2 ^ 63 ->
  inserted k blk rc (put_account (blk_size blk) (put_locked k blk rc)).
Proof.
  intros Hwf Hacc Hok Hbd. destruct (shard_exists rc k Hwf) as [sh Hsh].
  unfold put_locked. rewrite Hsh. simpl.
  set (rc0 := set_shard (shard_no k) (<[k := blk]> sh) rc).
  pose proof (blk_size_nonneg blk). pose proof (acc_used _ Hacc) as Hu.
  assert (forall f, shards_total f (shards rc0) =
            shards_total f (shards rc) - from_option f 0 (sh !! k) + f blk) as Htot.
  { intros f. unfold rc0. rewrite (total_set_shard _ _ _ Hsh), map_total_insert. lia. }
  assert (0 <= from_option blk_size 0 (sh !! k)) as Hold.
  { destruct (sh !! k); simpl; [apply blk_size_nonneg|lia]. }
  assert (0 <= total_size rc0 < 2 ^ 63) as Hrange.
  { split; [apply shards_total_nonneg; intros; apply blk_size_nonneg|].
    unfold total_size in *. rewrite Htot. lia. }
  split.
  - eapply (wf_shards_ext rc0); [by destruct (sh !! k)|]. apply (wf_set_shard _ _ _ Hwf Hsh).
    intros k' b' Hb. destruct (decide (k' = k)) as [->|Hne].
    + rewrite lookup_insert_eq in Hb. simplify_eq. by right.
    + rewrite lookup_insert_ne in Hb by done. by left.
  - split.
    + transitivity (total_size rc0); [|by destruct (sh !! k)].
      rewrite <- (wrap64_id (total_size rc0)) by (unfold in_int64; lia).
      unfold total_size at 1. rewrite Htot.
      destruct (sh !! k) as [old|]; simpl; rewrite Hu; unfold total_size; wrap_solve.
    + destruct Hrange. destruct (sh !! k); done.
    + intros mt.
      assert (total_size rc0 = total_size rc - from_option blk_size 0 (sh !! k) + blk_size blk)
        as Hs by apply Htot.
      assert (total_blocks rc0 = total_blocks rc - from_option (fun _ => 1) 0 (sh !! k) + 1)
        as Hb by apply (Htot (fun _ => 1)).
      destruct (sh !! k) as [old|]; simpl m;
        (destruct (m rc) as [mt0|] eqn:Hm; intros Hmt; [|done]);
        change (total_blocks (put_account _ _)) with (total_blocks rc0);
        change (total_size (put_account _ _)) with (total_size rc0);
        rewrite Hs, Hb; destruct (acc_metrics _ Hacc _ Hm) as (He & Ha & Ht); simplify_eq/=;
        rewrite ?He, ?Ha, ?Ht; split_and!; wrap_solve.
  - by destruct (sh !! k).
  - intros k'. rewrite (find_block_ext _ rc0) by (by destruct (sh !! k)). unfold rc0.
    rewrite (find_set_shard _ _ _ Hsh) by (intros; by rewrite lookup_insert_ne).
    by rewrite lookup_insert_eq.
Qed.

Section insertion.
Context `{MapIter}.

Lemma putBlock_spec fk st data sid prio now rc :
  cache_inv rc -> 0 <= budget rc -> data <> [] ->
  - 2 ^ 63 <= st -> st + len64 data < 2 ^ 63 -> budget rc + len64 data < 2 ^ 63 ->
  exists rc1 rc', putBlock fk st data sid prio now rc = Some rc' /\ cache_inv rc' /\
    inserted (CacheKey fk st) (new_block st data sid prio now) rc rc1 /\ evicted rc1 rc'.
Proof.
  intros [Hwf Hacc Hub] Hb Hd Hlo Hhi Hbd.
  pose proof (new_block_ok fk st data sid prio now Hd Hlo Hhi) as Hok.
  destruct (put_insert_spec rc _ _ Hwf Hacc Hok) as [Hwf1 Hacc1 Hb1 Hf1].
  { change (total_size rc + len64 data < 2 ^ 63). rewrite <- (acc_used _ Hacc). lia. }
  unfold putBlock. rewrite bool_decide_false by done.
  destruct (evict_spec _ Hwf1 Hacc1 ltac:(lia)) as (rc' & He & Hev).
  eexists _, rc'. split_and!; [exact He| |split; done|done].
  destruct Hev. split; [done..|lia].
Qed.

End insertion.

(** ** Lemmas: lookups *)

Section lookups.
Context `{MapIter}.

Lemma go_copy_spec dst src dst' n :
  go_copy dst src = (dst', n) ->
  n = Z.min (Z.of_nat (length dst)) (Z.of_nat (length src)) /\
  length dst' = length dst /\
  take (Z.to_nat n) dst' = take (Z.to_nat n) src /\ drop (Z.to_nat n) dst' = drop (Z.to_nat n) dst.
Proof.
  unfold go_copy. set (c := Nat.min (length dst) (length src)). intros [= <- <-].
  assert (length (take c src) = c) as Hl by (rewrite length_take; lia).
  rewrite Nat2Z.id. split_and!; [lia| | |].
  - rewrite length_app, length_drop, Hl. lia.
  - rewrite take_app_le by lia. by rewrite take_take, Nat.min_id.
  - rewrite drop_app_ge by lia. by rewrite Hl, Nat.sub_diag, drop_0.
Qed.

(** What a hit at block [(k, b)] returns. *)
Record copied (k : cacheKey) (b : RangeBlock) (fk : string) (off : Z) (now : Z)
    (dst : list byte) (rc rc' : RangeCache) (dst' : list byte) (n : Z) : Prop := {
  cp_block : find_block rc k = Some b;
  cp_key : fileKey k = fk;
  cp_in : start k <= off < start k + blk_size b;
  cp_n : n = Z.min (Z.of_nat (length dst)) (start k + blk_size b - off);
  cp_len : length dst' = length dst;
  cp_bytes : take (Z.to_nat n) dst' = take (Z.to_nat n) (drop (Z.to_nat (off - start k)) (blk_data b));
  cp_rest : drop (Z.to_nat n) dst' = drop (Z.to_nat n) dst;
  cp_find : forall k', find_block rc' k' = if decide (k = k') then Some (touch now b) else find_block rc k'
}.

Lemma touch_size now b : blk_size (touch now b) = blk_size b.
Proof. done. Qed.

Lemma touch_inv rc k b sh now :
  wf_shards rc -> accounted rc -> shards rc !! shard_no k = Some sh -> sh !! k = Some b ->
  let rc' := set_shard (shard_no k) (<[k := touch now b]> sh) rc in
  wf_shards rc' /\ accounted rc'.
Proof.
  intros Hwf Hacc Hsh Hk rc'.
  assert (forall f : RangeBlock -> Z, f (touch now b) = f b ->
    shards_total f (shards rc') = shards_total f (shards rc)) as Ht.
  { intros f Hf. unfold rc'. rewrite (total_set_shard _ _ _ Hsh), map_total_insert, Hk, Hf.
    simpl. lia. }
  assert (total_size rc' = total_size rc) as Hts by (by apply Ht).
  assert (total_blocks rc' = total_blocks rc) as Htb by (by apply Ht).
  split.
  - apply (wf_set_shard _ _ _ Hwf Hsh). intros k' b' Hb.
    destruct (decide (k' = k)) as [->|Hne]; [|rewrite lookup_insert_ne in Hb by done; by left].
    rewrite lookup_insert_eq in Hb. simplify_eq. right. split; [done|].
    by destruct (wf_block _ Hwf _ _ _ _ Hsh Hk) as [_ []].
  - destruct Hacc as [Hu Hb Hm]. split; [by rewrite Hts|by rewrite Hts|].
    intros mt Hmt. rewrite Hts, Htb. by apply Hm.
Qed.

Lemma CopyTo_spec fk off dst now rc rc' dst' r :
  wf_shards rc -> accounted rc -> in_int64 off ->
  CopyTo fk off dst now rc = (rc', dst', r) ->
  (wf_shards rc' /\ accounted rc' /\ used rc' = used rc /\ budget rc' = budget rc) /\
  match r with
  | Some n => 0 < n /\ exists k b, copied k b fk off now dst rc rc' dst' n
  | None => rc' = rc /\ dst' = dst /\
      (dst = [] \/ forall k b, find_block rc k = Some b -> fileKey k = fk ->
                     ~ start k <= off < start k + blk_size b)
  end.
Proof.
  intros Hwf Hacc Hoff. unfold CopyTo. case_bool_decide as Hd; [by intros [= <- <- <-]; auto|].
  destruct (List.find _ _) as [[i [k b]]|] eqn:Hfind.
  - apply list_find_first_Some in Hfind as [Hin Hc].
    apply elem_of_range_find in Hin as [-> Hf]; [|done].
    destruct (shard_exists rc k Hwf) as [sh Hsh].
    pose proof Hf as Hk. rewrite (find_block_shard _ _ _ Hsh) in Hk.
    apply (covers_spec _ _ _ _ _ _ Hwf Hf) in Hc as [Hfk Hr].
    destruct (find_block_ok _ _ _ Hwf Hf) as [Hst _ _ Hrange].
    destruct (go_copy _ _) as [d n] eqn:Hcp. intros [= <- <- <-]. rewrite Hsh. simpl.
    destruct (touch_inv rc k b sh now Hwf Hacc Hsh Hk) as [Hwf' Hacc'].
    unfold sub64 in Hcp. unfold in_int64 in Hoff.
    rewrite Hst, wrap64_id in Hcp
      by (pose proof (find_block_size _ _ _ Hf); pose proof (acc_bound _ Hacc); unfold in_int64; lia).
    apply go_copy_spec in Hcp as (Hn & Hl & Ht & Hdr).
    rewrite length_drop in Hn. unfold blk_size, len64 in *.
    assert (0 < Z.of_nat (length dst)) by (destruct dst; simpl; [done|lia]).
    split; [done|]. split; [lia|]. exists k, b. split; try done.
    + unfold blk_size, len64. lia.
    + intros k'. rewrite (find_set_shard _ _ _ Hsh) by (intros; by rewrite lookup_insert_ne).
      by rewrite lookup_insert_eq.
  - intros [= <- <- <-]. split; [done|]. split_and!; [done..|]. right. intros k b Hf Hfk Hr.
    pose proof (list_find_first_None _ _ Hfind (shard_no k, (k, b))) as Hnc.
    rewrite (proj2 (covers_spec _ _ _ _ _ _ Hwf Hf)) in Hnc by done.
    by specialize (Hnc (proj2 (elem_of_range_find _ _ _ _ _ Hwf) (conj eq_refl Hf))).
Qed.

End lookups.

(** ** Lemmas: stale sessions *)

Section stale.
Context `{MapIter}.

Definition entry_key (e : nat * (cacheKey * RangeBlock)) : cacheKey := e.2.1.

Lemma range_keys_NoDup rc seed :
  wf_shards rc -> NoDup (entry_key <$> range_shards seed 0 (shards rc)).
Proof.
  intros Hwf. apply NoDup_fmap_2_strong; [|apply NoDup_range_shards].
  intros [i [k b]] [i' [k' b']] Hi Hi' Hk; unfold entry_key in Hk; simpl in Hk; subst k'.
  apply elem_of_range_find in Hi as [-> Hf], Hi' as [-> Hf']; [|done..]. congruence.
Qed.

Definition stale_filter (fk : string) (cs : Z) (visited : cacheKey -> bool) (k : cacheKey)
    (o : option RangeBlock) : option RangeBlock :=
  b ← o; if visited k && is_stale fk cs k b then None else Some b.

Lemma evict_stale_fold fk cs l rc :
  wf_shards rc -> accounted rc ->
  (forall i k b, (i, (k, b)) ∈ l -> i = shard_no k /\ find_block rc k = Some b) ->
  NoDup (entry_key <$> l) ->
  let rc' := foldl (evict_stale_entry fk cs) rc l in
  wf_shards rc' /\ accounted rc' /\ budget rc' = budget rc /\ used rc' <= used rc /\
  forall k, find_block rc' k =
    stale_filter fk cs (fun k => bool_decide (k ∈ entry_key <$> l)) k (find_block rc k).
Proof.
  revert rc. induction l as [|[i [k b]] l IH]; intros rc Hwf Hacc Hin Hnd; cbn [foldl].
  - split_and!; [done..|]. intros k. by destruct (find_block rc k).
  - rewrite fmap_cons in *. apply NoDup_cons in Hnd as [Hnk Hnd].
    destruct (Hin i k b ltac:(left)) as [-> Hf]. cbn [evict_stale_entry].
    assert (forall k', k' <> k -> bool_decide (k' ∈ entry_key (shard_no k, (k, b)) :: (entry_key <$> l))
                       = bool_decide (k' ∈ entry_key <$> l)) as Hext.
    { intros k' Hne. apply bool_decide_ext. rewrite elem_of_cons. unfold entry_key at 1.
      split; [intros [?|?]; [done|done]|by right]. }
    destruct (is_stale fk cs k b) eqn:Hs.
    + destruct (shard_exists rc k Hwf) as [sh Hsh]. rewrite Hsh.
      destruct (removed_spec true rc k b sh Hwf Hacc Hsh Hf) as (Hwf' & Hacc' & Hdel).
      pose proof (find_block_size _ _ _ Hf).
      destruct (IH (removed true k b sh rc) Hwf' Hacc') as (? & ? & Hb & Hu & Hfind); [|done|].
      { intros i' k' b' Hin'. destruct (Hin i' k' b' ltac:(by right)) as [-> Hf'].
        split; [done|]. rewrite (del_find _ _ _ _ Hdel), decide_False; [done|].
        intros <-. apply Hnk, list_elem_of_fmap. by exists (shard_no k, (k, b')). }
      split_and!; [done|done|exact Hb|rewrite (del_used _ _ _ _ Hdel) in Hu; unfold removed in Hu; simpl in *; lia|].
      intros k'. etransitivity; [apply Hfind|]. rewrite (del_find _ _ _ _ Hdel).
      unfold stale_filter. destruct (decide (k = k')) as [<-|Hne].
      * rewrite Hf. simpl. rewrite bool_decide_true by left. by rewrite Hs.
      * destruct (find_block rc k') as [b'|]; [|done]. cbn [mbind option_bind].
        by rewrite Hext.
    + destruct (IH rc Hwf Hacc) as (? & ? & Hb & Hu & Hfind); [|done|].
      { intros i' k' b' Hin'. apply (Hin i' k' b'). by right. }
      split_and!; [done..|]. intros k'. rewrite Hfind. unfold stale_filter.
      destruct (find_block rc k') as [b'|] eqn:Hf'; [|done]. cbn [mbind option_bind].
      destruct (decide (k' = k)) as [->|Hne]; [|by rewrite Hext].
      simplify_eq. by rewrite Hs, !andb_false_r.
Qed.

Lemma EvictStale_spec fk cs rc :
  wf_shards rc -> accounted rc ->
  let rc' := EvictStale fk cs rc in
  wf_shards rc' /\ accounted rc' /\ budget rc' = budget rc /\ used rc' <= used rc /\
  forall k, find_block rc' k =
    b ← find_block rc k; if is_stale fk cs k b then None else Some b.
Proof.
  intros Hwf Hacc. unfold EvictStale.
  destruct (evict_stale_fold fk cs (range_shards 0 0 (shards rc)) rc Hwf Hacc)
    as (? & ? & ? & ? & Hfind).
  - intros i k b Hin. by apply elem_of_range_find in Hin.
  - by apply range_keys_NoDup.
  - split_and!; [done..|]. intros k. rewrite Hfind. unfold stale_filter.
    destruct (find_block rc k) as [b|] eqn:Hf; [|done]. simpl.
    rewrite bool_decide_true; [done|]. apply list_elem_of_fmap.
    exists (shard_no k, (k, b)). split; [done|]. by apply elem_of_range_find.
Qed.

End stale.

(** ** Lemmas: introspection *)

Section introspection.
Context `{MapIter}.

Lemma AllFileKeys_spec rc fk :
  wf_shards rc ->
  NoDup (AllFileKeys rc) /\
  (fk ∈ AllFileKeys rc <-> exists k b, find_block rc k = Some b /\ fileKey k = fk).
Proof.
  intros Hwf. unfold AllFileKeys. split; [apply NoDup_map_range|].
  assert (forall l (seen : gmap string unit),
    is_Some (foldl (fun acc (e : nat * (cacheKey * RangeBlock)) => <[fileKey e.2.1 := tt]> acc) seen l !! fk)
    <-> is_Some (seen !! fk) \/ exists e, e ∈ l /\ fileKey e.2.1 = fk) as Hfold.
  { induction l as [|e l IH]; intros seen; simpl.
    - split; [by left|]. intros [?|(e & ?%not_elem_of_nil & _)]; done.
    - rewrite IH. destruct (decide (fileKey e.2.1 = fk)) as [<-|Hne].
      + rewrite lookup_insert_eq. split; intros _; [|left; by eexists].
        right. exists e. split; [by left|done].
      + rewrite lookup_insert_ne by done. split.
        * intros [?|(e' & ? & ?)]; [by left|]. right. exists e'. split; [by right|done].
        * intros [?|(e' & [->|?]%elem_of_cons & ?)]; [by left|done|]. right. by exists e'. }
  set (seen := foldl _ _ _). specialize (Hfold (range_shards 0 0 (shards rc)) ∅).
  rewrite list_elem_of_fmap. split.
  - intros ([fk' []] & -> & Hin). simpl. apply elem_of_map_range in Hin.
    destruct (proj1 Hfold (ltac:(by eexists))) as [[? ?]|([i [k b]] & He & Hk)]; [by rewrite lookup_empty in *|].
    apply elem_of_range_find in He as [_ Hf]; [|done]. by exists k, b.
  - intros (k & b & Hf & Hk).
    destruct (proj2 Hfold) as [[] Hs].
    { right. exists (shard_no k, (k, b)). split; [by apply elem_of_range_find|done]. }
    exists (fk, tt). split; [done|]. by apply elem_of_map_range.
Qed.

Lemma block_less_weak : StrictWeak block_less.
Proof.
  unfold block_less. split; intros *; rewrite ?Z.ltb_ge, ?Z.ltb_lt; lia.
Qed.

Lemma FileBlocks_spec `{SliceSort} fk rc :
  wf_shards rc ->
  sorted_by block_less (FileBlocks fk rc) /\
  forall i, i ∈ FileBlocks fk rc <->
    exists k b, find_block rc k = Some b /\ fileKey k = fk /\
      i = MkBlockInfo (start k) (start k + blk_size b) (blk_priority b).
Proof.
  intros Hwf. unfold FileBlocks. split; [apply slice_sort_sorted, block_less_weak|].
  intros i. rewrite slice_sort_perm, list_elem_of_fmap. split.
  - intros ([j [k b]] & -> & Hin). apply list_elem_of_In, filter_In in Hin as [Hin Hk].
    apply list_elem_of_In, elem_of_range_find in Hin as [_ Hf]; [|done].
    exists k, b. apply bool_decide_eq_true in Hk. split_and!; [done..|].
    destruct (find_block_ok _ _ _ Hwf Hf) as [Hs _ He _]. unfold block_info; simpl. by rewrite Hs, He.
  - intros (k & b & Hf & Hk & ->). exists (shard_no k, (k, b)).
    destruct (find_block_ok _ _ _ Hwf Hf) as [Hs _ He _]. unfold block_info; simpl. rewrite Hs, He.
    split; [done|]. apply list_elem_of_In, filter_In. split; [|by apply bool_decide_eq_true].
    by apply list_elem_of_In, elem_of_range_find.
Qed.

Lemma CachedPrefixLen_find fk off rc :
  CachedPrefixLen fk off rc = blk_size <$> find_block rc (CacheKey fk off).
Proof.
  unfold CachedPrefixLen, find_block, shard_no; simpl.
  destruct (shards rc !! _) as [sh|]; simpl; [|done]. by destruct (sh !! _).
Qed.

End introspection.

(** ** Reachable caches *)

Definition any_data (fk : string) (st : Z) (data : list byte) : Prop := True.

(** One operation; the iteration orders may differ from one operation to the next.
    [P] restricts the data the callers insert. *)
Inductive cache_step (P : string -> Z -> list byte -> Prop) (rc : RangeCache) : RangeCache -> Prop :=
| step_copy (MI : MapIter) fk off dst now rc' dst' r :
    in_int64 off -> CopyTo fk off dst now rc = (rc', dst', r) -> cache_step P rc rc'
| step_put (MI : MapIter) fk st data sid prio now rc' :
    P fk st data ->
    - 2 ^ 63 <= st -> st + len64 data < 2 ^ 63 -> budget rc + len64 data < 2 ^ 63 ->
    putBlock fk st data sid prio now rc = Some rc' -> cache_step P rc rc'
| step_stale (MI : MapIter) fk cs : cache_step P rc (EvictStale fk cs rc).

(** Metrics whose cache gauges read zero, as [metrics.New] makes them. *)
Definition fresh_metrics (om : option Metrics) : Prop :=
  forall mt, om = Some mt ->
    CacheEntries mt = 0 /\ CacheBytesActive mt = 0 /\ CacheBytesTotal mt = 0 /\ CacheBytesStale mt = 0.

Lemma NewRangeCache_inv b om : 0 <= b -> fresh_metrics om -> cache_inv (NewRangeCache b om).
Proof.
  intros Hb Hm.
  assert (forall i sh, shards (NewRangeCache b om) !! i = Some sh -> sh = ∅) as Hempty.
  { intros i sh [-> _]%lookup_replicate. done. }
  assert (wf_shards (NewRangeCache b om)) as Hwf.
  { split; [done|]. intros i sh k bl Hi Hk. rewrite (Hempty _ _ Hi), lookup_empty in Hk. done. }
  assert (forall f, shards_total f (shards (NewRangeCache b om)) = 0) as Ht.
  { intros f. apply shards_total_zero; [done|]. intros k.
    destruct (shard_exists _ k Hwf) as [sh Hsh].
    rewrite (find_block_shard _ _ _ Hsh), (Hempty _ _ Hsh). apply lookup_empty. }
  split; [done| |done]. split; simpl.
  - symmetry. apply Ht.
  - unfold total_size. rewrite Ht. lia.
  - intros mt Hmt. destruct (Hm mt Hmt) as (-> & -> & -> & ->).
    unfold total_blocks, total_size. by rewrite !Ht.
Qed.

Lemma cache_step_inv P rc rc' :
  cache_inv rc -> 0 <= budget rc -> cache_step P rc rc' -> cache_inv rc' /\ budget rc' = budget rc.
Proof.
  intros Hinv Hb [MI fk off dst now rc1 dst' r Ho Hc|MI fk st data sid prio now rc1 HP Hlo Hhi Hbd Hp
    |MI fk cs]; destruct (Hinv) as [Hwf Hacc Hu].
  - apply CopyTo_spec in Hc as [(? & ? & Hu' & Hb') _]; [|done..].
    split; [split; [done..|lia]|done].
  - destruct (decide (data = [])) as [->|Hd]; [unfold putBlock in Hp; simplify_eq/=; done|].
    destruct (putBlock_spec fk st data sid prio now rc Hinv Hb Hd Hlo Hhi Hbd)
      as (rc2 & rc3 & Hp' & Hi & Hins & Hev). simplify_eq.
    split; [done|]. rewrite (ev_budget _ _ Hev). apply (ins_budget _ _ _ _ Hins).
  - destruct (EvictStale_spec fk cs rc Hwf Hacc) as (? & ? & Hb' & Hu' & _).
    split; [split; [done..|lia]|done].
Qed.

Lemma reachable_inv_budget P b om rc :
  0 <= b -> fresh_metrics om -> rtc (cache_step P) (NewRangeCache b om) rc ->
  cache_inv rc /\ budget rc = b.
Proof.
  intros Hb Hm Hr.
  pose proof (NewRangeCache_inv b om Hb Hm) as Hi.
  assert (budget (NewRangeCache b om) = b) as Hbud by done.
  revert Hi Hbud. induction Hr as [rc|rc rc1 rc2 Hs Hr IH]; intros Hi Hbud; [done|].
  destruct (cache_step_inv P rc rc1) as [? ?]; [done|lia|done|]. apply IH; [done|congruence].
Qed.

(** ** Coherence with the files behind the cache *)

(** [data] is the slice of file [fk] at [st], for the remote contents [F]. *)
Definition slice_of (F : string -> Z -> byte) (fk : string) (st : Z) (data : list byte) : Prop :=
  forall i x, data !! i = Some x -> x = F fk (st + Z.of_nat i).

Definition coherent (F : string -> Z -> byte) (rc : RangeCache) : Prop :=
  forall k b, find_block rc k = Some b -> slice_of F (fileKey k) (start k) (blk_data b).

Lemma coherent_step F rc rc' :
  cache_inv rc -> 0 <= budget rc -> coherent F rc -> cache_step (slice_of F) rc rc' ->
  coherent F rc'.
Proof.
  intros Hinv Hb Hco [MI fk off dst now rc1 dst' r Ho Hc|MI fk st data sid prio now rc1 HP Hlo Hhi Hbd Hp
    |MI fk cs] k b Hf; destruct (Hinv) as [Hwf Hacc Hu].
  - apply CopyTo_spec in Hc as [_ Hr]; [|done..]. destruct r as [n|].
    + destruct Hr as (_ & k0 & b0 & Hcp). rewrite (cp_find _ _ _ _ _ _ _ _ _ _ Hcp) in Hf.
      case_decide; [|by eapply Hco]. simplify_eq. simpl. by apply Hco, (cp_block _ _ _ _ _ _ _ _ _ _ Hcp).
    + destruct Hr as (-> & _). by apply Hco.
  - destruct (decide (data = [])) as [->|Hd];
      [unfold putBlock in Hp; simplify_eq/=; by apply Hco|].
    destruct (putBlock_spec fk st data sid prio now rc Hinv Hb Hd Hlo Hhi Hbd)
      as (rc2 & rc3 & Hp' & Hi & Hins & Hev). simplify_eq.
    apply (ev_sub _ _ Hev) in Hf. rewrite (ins_find _ _ _ _ Hins) in Hf.
    case_decide; [by simplify_eq|by apply Hco].
  - destruct (EvictStale_spec fk cs rc Hwf Hacc) as (_ & _ & _ & _ & Hfind).
    rewrite Hfind in Hf. apply bind_Some in Hf as (b0 & Hf & Hs).
    case_match; simplify_eq. by apply Hco.
Qed.

Lemma reachable_coherent F b om rc :
  0 <= b -> fresh_metrics om -> rtc (cache_step (slice_of F)) (NewRangeCache b om) rc ->
  coherent F rc.
Proof.
  intros Hb Hm Hr.
  destruct (reachable_inv_budget any_data b om (NewRangeCache b om) Hb Hm (rtc_refl _ _)) as [Hi Hbud].
  assert (coherent F (NewRangeCache b om)) as Hco.
  { intros k bl Hf. apply bind_Some in Hf as (sh & Hsh & Hk).
    apply lookup_replicate in Hsh as [-> _]. by rewrite lookup_empty in Hk. }
  revert Hi Hbud Hco. induction Hr as [rc|rc rc1 rc2 Hs Hr IH]; intros Hi Hbud Hco; [done|].
  destruct (cache_step_inv _ rc rc1 Hi ltac:(lia) Hs) as [? ?].
  apply IH; [done|congruence|]. eapply coherent_step; [exact Hi|lia|done..].
Qed.

(** ** Properties *)

(** [C19] Whatever operations ran, the cache holds exactly as many bytes as [used]
    counts, never more than its budget, every block lies in the shard of its key
    and describes its own bytes, and the metrics gauges agree with the content. *)
Theorem cache_reachable_inv P (b : Z) (om : option Metrics) (rc : RangeCache) :
  0 <= b -> fresh_metrics om -> rtc (cache_step P) (NewRangeCache b om) rc ->
  cache_inv rc /\ total_size rc <= b.
Proof.
  intros Hb Hm Hr. destruct (reachable_inv_budget P b om rc Hb Hm Hr) as [Hi Hbud].
  split; [done|]. rewrite <- (acc_used _ (inv_acc _ Hi)), <- Hbud. by apply inv_budget.
Qed.

(** A cache of four bytes holding one block, for the witnesses. *)
Definition demo_cache : RangeCache :=
  default (NewRangeCache 4 (Some New))
    (@Put default_iter "f" 8 [x61; x62; x63]%byte 1 (NewRangeCache 4 (Some New))).

Lemma cache_reachable_inv_witness :
  rtc (cache_step any_data) (NewRangeCache 4 (Some New)) demo_cache /\
  cache_inv demo_cache /\ total_size demo_cache <= 4.
Proof.
  assert (rtc (cache_step any_data) (NewRangeCache 4 (Some New)) demo_cache) as Hr.
  { eapply rtc_l; [|apply rtc_refl].
    apply (step_put _ _ default_iter "f" 8 [x61; x62; x63]%byte 0 PriorityLow 1);
      [done|vm_compute; congruence|vm_compute; congruence|vm_compute; congruence|by vm_compute]. }
  split; [done|]. apply (cache_reachable_inv any_data 4 (Some New)); [lia| |done].
  intros mt [= <-]. done.
Defined.

(** [C20] An insertion into a reachable cache always returns, within the budget: the
    new block is the only addition, and what the budget loop removes comes first
    in the eviction order (low before high priority, then least recently used) of
    everything it keeps, no block being removed once the rest fits. *)
Theorem putBlock_evicts_in_order `{MapIter} fk st data sid prio now (rc : RangeCache) :
  cache_inv rc -> 0 <= budget rc -> data <> [] ->
  - 2 ^ 63 <= st -> st + len64 data < 2 ^ 63 -> budget rc + len64 data < 2 ^ 63 ->
  let new k := if decide (k = CacheKey fk st)
               then Some (new_block st data sid prio now) else find_block rc k in
  exists rc', putBlock fk st data sid prio now rc = Some rc' /\ used rc' <= budget rc /\
    (forall k b, find_block rc' k = Some b -> new k = Some b) /\
    (forall k b k' b', new k = Some b -> find_block rc' k = None ->
       find_block rc' k' = Some b' -> evict_before b b') /\
    ((forall k, find_block rc' k = new k) \/
     exists k b, new k = Some b /\ find_block rc' k = None /\ budget rc < used rc' + blk_size b).
Proof.
  intros Hinv Hb Hd Hlo Hhi Hbd new.
  destruct (putBlock_spec fk st data sid prio now rc Hinv Hb Hd Hlo Hhi Hbd)
    as (rc1 & rc' & Hp & Hi & Hins & [Hwf Hacc Hb' Hfit Hsub Hord Hmin]).
  rewrite (ins_budget _ _ _ _ Hins) in *.
  assert (forall k, find_block rc1 k = new k) as Hnew.
  { intros k. rewrite (ins_find _ _ _ _ Hins). unfold new. repeat case_decide; congruence. }
  exists rc'. split_and!; [done|done|intros; rewrite <- Hnew; by apply Hsub| |].
  - intros k b k' b' Hk. rewrite <- Hnew in Hk. by apply Hord.
  - destruct Hmin as [->|(k & b & Hk & Hn & Hlim)]; [by left|].
    right. exists k, b. by rewrite <- Hnew.
Qed.

Lemma putBlock_evicts_in_order_witness :
  exists rc', @putBlock default_iter "g" 0 [x61; x62]%byte 0 PriorityHigh 2 demo_cache = Some rc' /\
    used rc' <= 4 /\ find_block rc' (CacheKey "f" 8) = None.
Proof.
  assert (cache_inv demo_cache) as Hi.
  { destruct (reachable_inv_budget any_data 4 (Some New) demo_cache) as [? _]; [lia| | |done].
    - intros mt [= <-]. done.
    - eapply rtc_l; [|apply rtc_refl].
      apply (step_put _ _ default_iter "f" 8 [x61; x62; x63]%byte 0 PriorityLow 1);
        [done|vm_compute; congruence|vm_compute; congruence|vm_compute; congruence|by vm_compute]. }
  destruct (@putBlock_evicts_in_order default_iter "g" 0 [x61; x62]%byte 0 PriorityHigh 2 demo_cache Hi)
    as (rc' & Hp & Hu & _); [vm_compute; congruence|done|lia|vm_compute; congruence..|].
  exists rc'. split_and!; [done|done|]. vm_compute in Hp. simplify_eq. by vm_compute.
Defined.

(** [C21] [CopyTo] misses exactly when no block of the file covers the offset; on a
    hit it copies the longest prefix one covering block offers, leaves the rest of
    the buffer alone and only refreshes that block's access time. *)
Theorem CopyTo_hits_covering_block `{MapIter} fk off dst now (rc rc' : RangeCache) dst' r :
  cache_inv rc -> in_int64 off -> CopyTo fk off dst now rc = (rc', dst', r) ->
  cache_inv rc' /\
  match r with
  | Some n => 0 < n /\ exists k b, copied k b fk off now dst rc rc' dst' n
  | None => rc' = rc /\ dst' = dst /\
      (dst = [] \/ forall k b, find_block rc k = Some b -> fileKey k = fk ->
                     ~ start k <= off < start k + blk_size b)
  end.
Proof.
  intros [Hwf Hacc Hu] Hoff Hc.
  apply CopyTo_spec in Hc as [(? & ? & ? & ?) Hr]; [|done..].
  split; [split; [done..|lia]|done].
Qed.

Lemma demo_cache_inv : cache_inv demo_cache.
Proof.
  destruct (reachable_inv_budget any_data 4 (Some New) demo_cache) as [? _]; [lia| | |done].
  - intros mt [= <-]. done.
  - eapply rtc_l; [|apply rtc_refl].
    apply (step_put _ _ default_iter "f" 8 [x61; x62; x63]%byte 0 PriorityLow 1);
      [done|vm_compute; congruence|vm_compute; congruence|vm_compute; congruence|by vm_compute].
Qed.

Lemma CopyTo_hits_covering_block_witness :
  let '(rc', dst', r) := @CopyTo default_iter "f" 9 [x00; x00; x00]%byte 7 demo_cache in
  cache_inv rc' /\ dst' = [x62; x63; x00]%byte /\ r = Some 2.
Proof.
  destruct (@CopyTo default_iter "f" 9 [x00; x00; x00]%byte 7 demo_cache) as [[rc' dst'] r] eqn:Hc.
  destruct (@CopyTo_hits_covering_block default_iter "f" 9 [x00; x00; x00]%byte 7 demo_cache rc' dst' r)
    as [Hi _]; [apply demo_cache_inv|unfold in_int64; lia|done|].
  split; [done|]. vm_compute in Hc. by simplify_eq.
Defined.

(** [C2] If every block is inserted with bytes of its file, every byte a hit
    returns is the file's byte at that offset, whatever was evicted or
    overwritten in between. *)
Theorem CopyTo_returns_file_bytes `{MapIter} (F : string -> Z -> byte) (b : Z) om (rc rc' : RangeCache)
    fk off dst now dst' n :
  0 <= b -> fresh_metrics om -> rtc (cache_step (slice_of F)) (NewRangeCache b om) rc ->
  in_int64 off -> CopyTo fk off dst now rc = (rc', dst', Some n) ->
  0 < n <= Z.of_nat (length dst) /\ length dst' = length dst /\
  forall i, (i < length dst)%nat ->
    dst' !! i = if decide (Z.of_nat i < n) then Some (F fk (off + Z.of_nat i)) else dst !! i.
Proof.
  intros Hb Hm Hr Hoff Hc.
  destruct (reachable_inv_budget _ b om rc Hb Hm Hr) as [[Hwf Hacc _] _].
  pose proof (reachable_coherent F b om rc Hb Hm Hr) as Hco.
  apply CopyTo_spec in Hc as [_ (Hn & k & bl & [Hf Hk Hin Hnn Hl Ht Hd _])]; [|done..].
  split_and!; [lia|lia|done|]. intros i Hi. case_decide as Hlt.
  - rewrite <- (lookup_take_lt _ (Z.to_nat n)), Ht, lookup_take_lt, lookup_drop by lia.
    destruct (lookup_lt_is_Some_2 (blk_data bl) (Z.to_nat (off - start k) + i)) as [x Hx];
      [unfold blk_size, len64 in *; lia|].
    rewrite Hx. f_equal. rewrite (Hco _ _ Hf _ _ Hx), Hk. f_equal. lia.
  - replace i with (Z.to_nat n + (i - Z.to_nat n))%nat by lia.
    by rewrite <- !lookup_drop, Hd.
Qed.

Definition demo_file (fk : string) (z : Z) : byte :=
  if decide (z = 8) then x61 else if decide (z = 9) then x62 else x63.

Lemma CopyTo_returns_file_bytes_witness :
  exists rc' dst', @CopyTo default_iter "f" 9 [x00]%byte 7 demo_cache = (rc', dst', Some 1) /\
    dst' !! O = Some (demo_file "f" 9).
Proof.
  destruct (@CopyTo default_iter "f" 9 [x00]%byte 7 demo_cache) as [[rc' dst'] r] eqn:Hc.
  assert (r = Some 1) as -> by (vm_compute in Hc; by simplify_eq).
  exists rc', dst'. split; [done|].
  destruct (@CopyTo_returns_file_bytes default_iter demo_file 4 (Some New) demo_cache rc' "f" 9 [x00]%byte 7 dst' 1)
    as (_ & _ & Hbytes); [lia|intros mt [= <-]; done| |unfold in_int64; lia|done|].
  - eapply rtc_l; [|apply rtc_refl].
    apply (step_put _ _ default_iter "f" 8 [x61; x62; x63]%byte 0 PriorityLow 1);
      [|vm_compute; congruence|vm_compute; congruence|vm_compute; congruence|by vm_compute].
    intros [|[|[|i]]] x Hx; simplify_eq/=; by vm_compute.
  - rewrite (Hbytes O ltac:(simpl; lia)). by vm_compute.
Defined.

(** [EvictStale] removes exactly the blocks of the file tagged with an earlier
    positive session, and keeps the accounting. *)
Theorem EvictStale_exact `{MapIter} fk cs (rc : RangeCache) :
  cache_inv rc ->
  cache_inv (EvictStale fk cs rc) /\
  forall k, find_block (EvictStale fk cs rc) k =
    match find_block rc k with
    | Some b => if bool_decide (fileKey k = fk /\ 0 < blk_sessionID b < cs) then None else Some b
    | None => None
    end.
Proof.
  intros [Hwf Hacc Hu]. destruct (EvictStale_spec fk cs rc Hwf Hacc) as (? & ? & Hb & Hu' & Hf).
  split; [split; [done..|lia]|]. intros k. rewrite Hf.
  destruct (find_block rc k) as [b|]; [|done]. simpl.
  assert (is_stale fk cs k b = bool_decide (fileKey k = fk /\ 0 < blk_sessionID b < cs)) as ->; [|done].
  apply eq_true_iff_eq. unfold is_stale.
  rewrite !andb_true_iff, !bool_decide_eq_true, !Z.ltb_lt. tauto.
Qed.

Lemma EvictStale_exact_witness :
  cache_inv demo_cache /\ cache_inv (@EvictStale default_iter "f" 5 demo_cache).
Proof.
  split; [apply demo_cache_inv|].
  apply (@EvictStale_exact default_iter "f" 5 demo_cache demo_cache_inv).
Defined.

(** The dashboard's views: [FileBlocks] lists every cached range of the file and
    nothing else, ordered by start; [AllFileKeys] lists the files with at least one
    block, once each; [CachedPrefixLen] is the size of the block stored exactly at
    the offset. *)
Theorem introspection_exact `{MapIter} `{SliceSort} fk off (rc : RangeCache) :
  cache_inv rc ->
  sorted_by block_less (FileBlocks fk rc) /\
  (forall i, i ∈ FileBlocks fk rc <->
    exists k b, find_block rc k = Some b /\ fileKey k = fk /\
      i = MkBlockInfo (start k) (start k + blk_size b) (blk_priority b)) /\
  NoDup (AllFileKeys rc) /\ (fk ∈ AllFileKeys rc <-> FileBlocks fk rc <> []) /\
  CachedPrefixLen fk off rc = blk_size <$> find_block rc (CacheKey fk off).
Proof.
  intros [Hwf _ _]. destruct (FileBlocks_spec fk rc Hwf) as [Hs Hi].
  destruct (AllFileKeys_spec rc fk Hwf) as [Hn Hk].
  split_and!; [done..| |apply CachedPrefixLen_find]. rewrite Hk. split.
  - intros (k & b & Hf & Hfk) Hnil. apply (not_elem_of_nil (A := BlockInfo)
      (MkBlockInfo (start k) (start k + blk_size b) (blk_priority b))).
    rewrite <- Hnil. apply Hi. by exists k, b.
  - intros Hne. destruct (FileBlocks fk rc) as [|i l]; [done|].
    destruct (proj1 (Hi i) ltac:(left)) as (k & b & ? & ? & _). by exists k, b.
Qed.

Lemma introspection_exact_witness :
  cache_inv demo_cache /\ @AllFileKeys default_iter demo_cache = ["f"] /\
  NoDup (@AllFileKeys default_iter demo_cache).
Proof.
  split_and!; [apply demo_cache_inv|by vm_compute|].
  apply (@introspection_exact default_iter default_sort "f" 8 demo_cache demo_cache_inv).
Defined.

(** [C39] With a negative budget ([FUSE_CACHE_BUDGET_MB] is not checked) the budget
    loop never ends: no number of evictions brings [used] under it. *)
Theorem evict_diverges_on_negative_budget `{MapIter} (rc : RangeCache) (fuel round : nat) :
  wf_shards rc -> accounted rc -> budget rc < 0 -> evict_loop fuel round rc = None.
Proof. intros. by apply evict_loop_negative. Qed.

Lemma evict_diverges_on_negative_budget_witness :
  @evict_loop default_iter 1000 0 (NewRangeCache (-1) None) = None.
Proof.
  apply (@evict_diverges_on_negative_budget default_iter); [| |done].
  - split; [done|]. intros i sh k b [-> _]%lookup_replicate Hk. by rewrite lookup_empty in Hk.
  - split; [by vm_compute|by vm_compute|done].
Defined.
