(* ===== verification/Semaphore.v ===== *)
(** * The priority semaphores of internal/stream (reader.go and cdn.go)

    [budgetSem] (the global limit on inflight windows) and [hostSem] (one per CDN
    host) are the same monitor twice: a mutex, a condition variable and a queue of
    waiters ordered by priority.  The model takes one step per critical section of
    the mutex: entering [acquire], resuming after [cond.Wait], [release], and a
    context being cancelled at any time.  A goroutine that called [acquire] is
    [Parked] inside [cond.Wait] until a [Broadcast] makes it [Woken]; it is
    [Holding] once [acquire] has returned nil, and gone when [acquire] returned an
    error or after [release]. *)
From S2P Require Import Prelude.
Open Scope Z_scope.

(** ** State *)

Inductive phase := Parked | Woken | Holding.

#[export] Instance phase_eq_dec : EqDecision phase.
Proof. solve_decision. Defined.

(** A goroutine inside the semaphore, with the [ready] flag of its waiter object. *)
Record thread := MkThread { th_phase : phase; th_ready : bool }.

(** A queued waiter object: the goroutine that owns it and its priority. *)
Record waiter := MkWaiter { w_id : nat; w_priority : Z }.

Record sem := MkSem {
  limit : Z;
  held : Z;
  waiters : list waiter;
  threads : gmap nat thread;
  cancelled : gset nat
}.

Definition newBudgetSem (lim : Z) : sem := MkSem lim 0 [] ∅ ∅.

Definition set_threads (ths : gmap nat thread) (s : sem) : sem :=
  MkSem (limit s) (held s) (waiters s) ths (cancelled s).
Definition set_waiters (ws : list waiter) (s : sem) : sem :=
  MkSem (limit s) (held s) ws (threads s) (cancelled s).
Definition set_held (h : Z) (s : sem) : sem :=
  MkSem (limit s) h (waiters s) (threads s) (cancelled s).

(** ** Queue operations *)

(** [insertPos]: the first waiter of lower priority, or the end of the queue. *)
Fixpoint insert_pos (priority : Z) (ws : list waiter) : nat :=
  match ws with
  | [] => O
  | w :: ws' => if w_priority w <? priority then O else S (insert_pos priority ws')
  end.

(** [append(ws[:p+1], ws[p:]...)] then [ws[p] = w], or a plain append at the end. *)
Definition insert_waiter (w : waiter) (ws : list waiter) : list waiter :=
  let p := insert_pos (w_priority w) ws in
  if bool_decide (p = length ws) then ws ++ [w]
  else <[p := w]> (take (p + 1) ws ++ drop p ws).

(** The removal loop: [append(ws[:i], ws[i+1:]...)] at the goroutine's own waiter. *)
Fixpoint remove_waiter (t : nat) (ws : list waiter) : list waiter :=
  match ws with
  | [] => []
  | w :: ws' => if bool_decide (w_id w = t) then ws' else w :: remove_waiter t ws'
  end.

(** ** Critical sections *)

(** [ctx.Err() != nil] at the head of the wait loop: leave the queue, return the error. *)
Definition abandon (t : nat) (s : sem) : sem :=
  set_threads (delete t (threads s)) (set_waiters (remove_waiter t (waiters s)) s).

(** From the call of [acquire] to the fast return, the error, or [cond.Wait]. *)
Definition acquire_enter (t : nat) (priority : Z) (s : sem) : sem :=
  if bool_decide (held s < limit s) && bool_decide (length (waiters s) = 0%nat) then
    set_threads (<[t := MkThread Holding false]> (threads s)) (set_held (held s + 1) s)
  else
    let s1 := set_waiters (insert_waiter (MkWaiter t priority) (waiters s)) s in
    if bool_decide (t ∈ cancelled s) then abandon t s1
    else set_threads (<[t := MkThread Parked false]> (threads s1)) s1.

(** From the return of [cond.Wait] to the return of [acquire] or the next [Wait]. *)
Definition acquire_resume (t : nat) (s : sem) : sem :=
  match threads s !! t with
  | None => s
  | Some th =>
      if th_ready th then set_threads (<[t := MkThread Holding (th_ready th)]> (threads s)) s
      else if bool_decide (t ∈ cancelled s) then abandon t s
      else set_threads (<[t := MkThread Parked false]> (threads s)) s
  end.

Definition wake (th : thread) : thread :=
  match th_phase th with Parked => MkThread Woken (th_ready th) | _ => th end.

(** [cond.Broadcast()] *)
Definition broadcast (s : sem) : sem := set_threads (wake <$> threads s) s.

Definition set_ready (th : thread) : thread := MkThread (th_phase th) true.

(** [release] by the holder [t], which leaves the semaphore. *)
Definition release (t : nat) (s : sem) : sem :=
  let s1 := set_threads (delete t (threads s)) (set_held (held s - 1) s) in
  match waiters s1 with
  | [] => s1
  | w :: ws =>
      broadcast
        (set_held (held s1 + 1)
          (set_threads (alter set_ready (w_id w) (threads s1)) (set_waiters ws s1)))
  end.

Definition cancel (t : nat) (s : sem) : sem :=
  MkSem (limit s) (held s) (waiters s) (threads s) ({[t]} ∪ cancelled s).

(** [holding] and [budgetLimit] *)
Definition holding (s : sem) : Z := wrap32 (held s).
Definition budgetLimit (s : sem) : Z := limit s.

(** [hostSem] has the same code over the fields [holding] and [limit]. *)
Definition new_hostSem (maxConnsPerHost : Z) : sem := newBudgetSem maxConnsPerHost.
Definition hostSem_acquire_enter := acquire_enter.
Definition hostSem_acquire_resume := acquire_resume.
Definition hostSem_release := release.

(** ** The step relation: any interleaving of critical sections *)

Inductive event :=
| EAcquire (t : nat) (priority : Z)
| EResume (t : nat)
| ERelease (t : nat)
| ECancel (t : nat).

Inductive sem_step : event -> sem -> sem -> Prop :=
| step_acquire t priority s :
    threads s !! t = None -> sem_step (EAcquire t priority) s (acquire_enter t priority s)
| step_resume t th s :
    threads s !! t = Some th -> th_phase th = Woken -> sem_step (EResume t) s (acquire_resume t s)
| step_release t th s :
    threads s !! t = Some th -> th_phase th = Holding -> sem_step (ERelease t) s (release t s)
| step_cancel t s : sem_step (ECancel t) s (cancel t s).

Definition sem_next (s s' : sem) : Prop := exists e, sem_step e s s'.
Definition sem_reachable (lim : Z) : sem -> Prop := rtc sem_next (newBudgetSem lim).

(** ** Specification vocabulary *)

(** A goroutine owns a slot once granted, even before it has resumed. *)
Definition owns (th : thread) : bool :=
  match th_phase th with Holding => true | _ => th_ready th end.

Definition owned (ths : gmap nat thread) : gset nat :=
  dom (filter (fun kv : nat * thread => owns kv.2 = true) ths).
Definition owners (s : sem) : gset nat := owned (threads s).

Definition by_priority (w w' : waiter) : Prop := w_priority w' <= w_priority w.

Record sem_inv (s : sem) : Prop := {
  inv_held : held s = Z.of_nat (size (owners s));
  inv_limit : held s <= Z.max 0 (limit s);
  inv_full : waiters s <> [] -> limit s <= held s;
  inv_sorted : StronglySorted by_priority (waiters s);
  inv_nodup : NoDup (w_id <$> waiters s);
  inv_queued : forall t, t ∈ w_id <$> waiters s <->
    exists th, threads s !! t = Some th /\ owns th = false;
  inv_granted : forall t th, threads s !! t = Some th -> th_ready th = true -> th_phase th <> Parked
}.

(** The abstract semaphore: who owns a slot, and the queue. *)
Record abs := MkAbs { a_limit : Z; a_owners : gset nat; a_queue : list waiter }.

Definition alpha (s : sem) : abs := MkAbs (limit s) (owners s) (waiters s).

(** Its five moves; [AStutter] is a goroutine going round its wait loop. *)
Inductive abs_step : abs -> abs -> Prop :=
| AGrantFree t l o :
    Z.of_nat (size o) < l -> t ∉ o -> abs_step (MkAbs l o []) (MkAbs l ({[t]} ∪ o) [])
| AEnqueue t p l o q1 q2 :
    l <= Z.of_nat (size o) -> t ∉ o ->
    Forall (fun w => p <= w_priority w) q1 -> Forall (fun w => w_priority w < p) q2 ->
    abs_step (MkAbs l o (q1 ++ q2)) (MkAbs l o (q1 ++ MkWaiter t p :: q2))
| ALeave t p l o q1 q2 : abs_step (MkAbs l o (q1 ++ MkWaiter t p :: q2)) (MkAbs l o (q1 ++ q2))
| AReleaseFree t l o : t ∈ o -> abs_step (MkAbs l o []) (MkAbs l (o ∖ {[t]}) [])
| AHandOver t w l o q :
    t ∈ o -> w_id w ∉ o -> abs_step (MkAbs l o (w :: q)) (MkAbs l ({[w_id w]} ∪ (o ∖ {[t]})) q)
| AStutter a : abs_step a a.

(** ** Lemmas: the queue *)

Lemma insert_pos_le p ws : (insert_pos p ws <= length ws)%nat.
Proof. induction ws as [|w ws IH]; simpl; [lia|]. case_match; lia. Qed.

Lemma insert_waiter_eq w ws :
  insert_waiter w ws =
  take (insert_pos (w_priority w) ws) ws ++ w :: drop (insert_pos (w_priority w) ws) ws.
Proof.
  unfold insert_waiter. pose proof (insert_pos_le (w_priority w) ws) as Hle.
  set (p := insert_pos (w_priority w) ws) in *. case_bool_decide as Hp.
  - by rewrite Hp, take_ge, drop_ge.
  - assert (length (take (p + 1) ws) = p + 1)%nat as Hl by (rewrite length_take; lia).
    rewrite insert_take_drop by (rewrite length_app, length_drop; lia).
    rewrite take_app_le by lia. rewrite take_take, Nat.min_l by lia.
    rewrite drop_app_ge by lia. rewrite Hl.
    by replace (S p - (p + 1))%nat with O by lia.
Qed.

Lemma insert_pos_take p ws : Forall (fun w => p <= w_priority w) (take (insert_pos p ws) ws).
Proof.
  induction ws as [|w ws IH]; simpl; [constructor|].
  destruct (Z.ltb_spec (w_priority w) p); simpl; by constructor.
Qed.

Lemma insert_pos_drop p ws :
  StronglySorted by_priority ws -> Forall (fun w => w_priority w < p) (drop (insert_pos p ws) ws).
Proof.
  induction ws as [|w ws IH]; intros Hs; simpl; [constructor|].
  apply StronglySorted_inv in Hs as [Hs Hw].
  destruct (Z.ltb_spec (w_priority w) p); simpl; [|by apply IH].
  constructor; [done|]. eapply Forall_impl; [exact Hw|]. unfold by_priority. intros; lia.
Qed.

Lemma StronglySorted_app_inv {A} (R : A -> A -> Prop) l1 l2 :
  StronglySorted R (l1 ++ l2) <->
  StronglySorted R l1 /\ StronglySorted R l2 /\ forall x y, x ∈ l1 -> y ∈ l2 -> R x y.
Proof.
  induction l1 as [|x l1 IH]; simpl.
  - split; [intros Hs; split_and!; [constructor|done|by intros ?? ?%not_elem_of_nil]|tauto].
  - split.
    + intros [Hs Hx]%StronglySorted_inv. apply IH in Hs as (H1 & H2 & H3).
      apply Forall_app in Hx as [Hx1 Hx2]. split_and!; [by constructor|done|].
      intros a b [->|Ha]%elem_of_cons Hb; [|by apply H3].
      rewrite Forall_forall in Hx2. by apply Hx2.
    + intros ([Hs Hx]%StronglySorted_inv & H2 & H3). constructor.
      * apply IH. split_and!; [done|done|]. intros a b Ha Hb. apply H3; [by right|done].
      * apply Forall_app. split; [done|]. apply Forall_forall. intros b Hb. apply H3; [by left|done].
Qed.

(** Enqueuing splits the queue at the priority: nobody of equal or higher priority
    is overtaken. *)
Lemma insert_waiter_split w ws :
  StronglySorted by_priority ws ->
  exists q1 q2, ws = q1 ++ q2 /\ insert_waiter w ws = q1 ++ w :: q2 /\
    Forall (fun x => w_priority w <= w_priority x) q1 /\
    Forall (fun x => w_priority x < w_priority w) q2.
Proof.
  intros Hs. eexists (take _ ws), (drop _ ws). split; [symmetry; apply take_drop|].
  split; [apply insert_waiter_eq|]. split; [apply insert_pos_take|by apply insert_pos_drop].
Qed.

Lemma insert_waiter_sorted w ws :
  StronglySorted by_priority ws -> StronglySorted by_priority (insert_waiter w ws).
Proof.
  intros Hs. destruct (insert_waiter_split w ws Hs) as (q1 & q2 & -> & -> & H1 & H2).
  apply StronglySorted_app_inv in Hs as (Hs1 & Hs2 & H12). rewrite Forall_forall in H1, H2.
  apply StronglySorted_app_inv. split_and!; [done| |].
  - constructor; [done|]. apply Forall_forall. intros x Hx. specialize (H2 x Hx).
    unfold by_priority. lia.
  - intros x y Hx [->|Hy]%elem_of_cons; [|by apply H12]. by apply (H1 x Hx).
Qed.

Lemma insert_waiter_perm w ws : insert_waiter w ws ≡ₚ w :: ws.
Proof.
  rewrite insert_waiter_eq, <- Permutation_middle.
  by rewrite take_drop.
Qed.

Lemma remove_waiter_split t ws :
  NoDup (w_id <$> ws) -> t ∈ w_id <$> ws ->
  exists q1 p q2, ws = q1 ++ MkWaiter t p :: q2 /\ remove_waiter t ws = q1 ++ q2.
Proof.
  induction ws as [|[i p] ws IH]; [by intros _ ?%not_elem_of_nil|].
  rewrite fmap_cons. intros [Hn Hnd]%NoDup_cons Hin. cbn [remove_waiter w_id].
  case_bool_decide as Heq; [subst; by exists [], p, ws|].
  apply elem_of_cons in Hin as [->|Hin]; [done|].
  destruct (IH Hnd Hin) as (q1 & p' & q2 & -> & ->). by exists (MkWaiter i p :: q1), p', q2.
Qed.

Lemma remove_waiter_absent t ws : t ∉ w_id <$> ws -> remove_waiter t ws = ws.
Proof.
  induction ws as [|w ws IH]; [done|]. rewrite fmap_cons. intros Hn.
  apply not_elem_of_cons in Hn as [Hne Hn]. simpl. rewrite bool_decide_false by done.
  by rewrite IH.
Qed.

Lemma remove_waiter_app t p q1 q2 :
  t ∉ w_id <$> q1 -> remove_waiter t (q1 ++ MkWaiter t p :: q2) = q1 ++ q2.
Proof.
  induction q1 as [|w q1 IH]; intros Hn; simpl; [by rewrite bool_decide_true|].
  rewrite fmap_cons in Hn. apply not_elem_of_cons in Hn as [Hne Hn].
  rewrite bool_decide_false by done. by rewrite IH.
Qed.

(** A goroutine that queues up and gives up in one critical section leaves no trace. *)
Lemma remove_insert_waiter t p ws :
  t ∉ w_id <$> ws -> remove_waiter t (insert_waiter (MkWaiter t p) ws) = ws.
Proof.
  intros Hn. rewrite insert_waiter_eq. simpl. set (n := insert_pos p ws).
  assert (t ∉ w_id <$> take n ws) as Hq.
  { intros Hin. apply Hn. rewrite <- (take_drop n ws), fmap_app. apply elem_of_app. by left. }
  rewrite remove_waiter_app by done. apply take_drop.
Qed.

(** ** Lemmas: ownership *)

Lemma elem_of_owned ths t : t ∈ owned ths <-> exists th, ths !! t = Some th /\ owns th = true.
Proof.
  unfold owned. rewrite elem_of_dom. unfold is_Some.
  setoid_rewrite map_lookup_filter_Some. done.
Qed.

Lemma owned_insert_true ths t th : owns th = true -> owned (<[t := th]> ths) = {[t]} ∪ owned ths.
Proof.
  intros Ho. apply set_eq. intros u. rewrite elem_of_union, elem_of_singleton, !elem_of_owned.
  destruct (decide (u = t)) as [->|Hne].
  - rewrite lookup_insert_eq. naive_solver.
  - rewrite lookup_insert_ne by done. naive_solver.
Qed.

Lemma owned_insert_false ths t th :
  owns th = false -> t ∉ owned ths -> owned (<[t := th]> ths) = owned ths.
Proof.
  intros Ho Hn. apply set_eq. intros u. rewrite !elem_of_owned.
  destruct (decide (u = t)) as [->|Hne].
  - rewrite lookup_insert_eq. rewrite elem_of_owned in Hn.
    split; [intros (th' & [= <-] & ?); congruence|by intros ?%Hn].
  - by rewrite lookup_insert_ne.
Qed.

Lemma owned_delete ths t : owned (delete t ths) = owned ths ∖ {[t]}.
Proof.
  apply set_eq. intros u. rewrite elem_of_difference, elem_of_singleton, !elem_of_owned.
  destruct (decide (u = t)) as [->|Hne].
  - rewrite lookup_delete_eq. split; [by intros (? & ? & ?)|by intros [_ ?]].
  - rewrite lookup_delete_ne by done. tauto.
Qed.

Lemma owns_wake th : owns (wake th) = owns th.
Proof. by destruct th as [[] []]. Qed.

Lemma owned_wake ths : owned (wake <$> ths) = owned ths.
Proof.
  apply set_eq. intros u. rewrite !elem_of_owned, lookup_fmap.
  destruct (ths !! u) as [th|]; simpl; [|naive_solver]. split.
  - intros (? & [= <-] & Ho). rewrite owns_wake in Ho. eauto.
  - intros (? & [= <-] & Ho). rewrite <- owns_wake in Ho. eauto.
Qed.

Lemma owned_ready ths t : is_Some (ths !! t) -> owned (alter set_ready t ths) = {[t]} ∪ owned ths.
Proof.
  intros [th Hth]. rewrite <- (insert_id ths t th Hth) at 1.
  rewrite alter_insert_eq. apply owned_insert_true. by destruct th as [[] []].
Qed.

Lemma size_add (x : nat) (o : gset nat) : x ∉ o -> Z.of_nat (size ({[x]} ∪ o)) = Z.of_nat (size o) + 1.
Proof. intros Hx. rewrite size_union by set_solver. rewrite size_singleton. lia. Qed.

Lemma size_remove (x : nat) (o : gset nat) : x ∈ o -> Z.of_nat (size (o ∖ {[x]})) = Z.of_nat (size o) - 1.
Proof.
  intros Hx. rewrite size_difference by set_solver. rewrite size_singleton.
  assert (size o <> O); [|lia]. intros Hz. apply size_empty_inv in Hz. set_solver.
Qed.

(** ** Lemmas: each critical section keeps the invariant and is an abstract move *)

Definition simulated (s s' : sem) : Prop := sem_inv s' /\ abs_step (alpha s) (alpha s').

Lemma not_owned_absent s t : threads s !! t = None -> t ∉ owners s.
Proof. intros Hn. unfold owners. rewrite elem_of_owned. intros (th & ? & _). congruence. Qed.

Lemma not_queued_absent s t : sem_inv s -> threads s !! t = None -> t ∉ w_id <$> waiters s.
Proof. intros Hi Hn Hin. apply (inv_queued _ Hi) in Hin as (th & ? & _). congruence. Qed.

Lemma owner_spec s t th : threads s !! t = Some th -> (t ∈ owners s <-> owns th = true).
Proof.
  intros Hth. unfold owners. rewrite elem_of_owned. split; [intros (th' & ? & ?); congruence|eauto].
Qed.

Lemma full_of_slow s :
  sem_inv s -> bool_decide (held s < limit s) && bool_decide (length (waiters s) = 0%nat) = false ->
  limit s <= held s.
Proof.
  intros Hi Hf. apply andb_false_iff in Hf as [?%bool_decide_eq_false|Hw%bool_decide_eq_false]; [lia|].
  apply (inv_full _ Hi). intros Hz. by rewrite Hz in Hw.
Qed.

Lemma acquire_enter_spec t p s :
  sem_inv s -> threads s !! t = None -> simulated s (acquire_enter t p s).
Proof.
  intros Hi Hn. pose proof (not_owned_absent _ _ Hn) as Ho.
  pose proof (not_queued_absent _ _ Hi Hn) as Hq. unfold acquire_enter.
  destruct (bool_decide _ && _) eqn:Hfast.
  - apply andb_true_iff in Hfast as [Hlt%bool_decide_eq_true Hw%bool_decide_eq_true].
    apply nil_length_inv in Hw. destruct Hi as [Hh Hl Hf Hs Hnd Hqd Hg].
    split; [split; simpl; try done|].
    + unfold owners; simpl. rewrite owned_insert_true, size_add by done. fold (owners s). lia.
    + lia.
    + intros u. rewrite Hqd. destruct (decide (u = t)) as [->|Hne].
      * rewrite lookup_insert_eq. split; intros (? & ? & ?); simplify_eq.
      * by rewrite lookup_insert_ne.
    + intros u th. destruct (decide (u = t)) as [->|Hne]; [|rewrite lookup_insert_ne by done; apply Hg].
      rewrite lookup_insert_eq. by intros [= <-].
    + unfold alpha, owners; simpl. rewrite Hw, owned_insert_true by done.
      apply AGrantFree; [fold (owners s); lia|done].
  - pose proof (full_of_slow _ Hi Hfast) as Hfull. clear Hfast. case_bool_decide as Hc.
    + assert (abandon t (set_waiters (insert_waiter (MkWaiter t p) (waiters s)) s) = s) as ->.
      { unfold abandon; simpl. rewrite remove_insert_waiter, delete_id by done. by destruct s. }
      split; [done|constructor].
    + destruct Hi as [Hh Hl Hf Hs Hnd Hqd Hg].
      split; [split; simpl; try done|].
      * unfold owners; simpl. by rewrite owned_insert_false.
      * by apply insert_waiter_sorted.
      * rewrite insert_waiter_perm. by apply NoDup_cons.
      * intros u. rewrite insert_waiter_perm, fmap_cons, elem_of_cons, Hqd. simpl.
        destruct (decide (u = t)) as [->|Hne].
        -- rewrite lookup_insert_eq. split; [by eauto|by left].
        -- rewrite lookup_insert_ne by done. split; [by intros [?|?]|by right].
      * intros u th. destruct (decide (u = t)) as [->|Hne]; [|rewrite lookup_insert_ne by done; apply Hg].
        rewrite lookup_insert_eq. by intros [= <-].
      * destruct (insert_waiter_split (MkWaiter t p) _ Hs) as (q1 & q2 & Heq & Hins & H1 & H2).
        unfold alpha, owners; simpl. rewrite Hins, owned_insert_false by done.
        replace (waiters s) with (q1 ++ q2). fold (owners s). apply AEnqueue; [lia|done..].
Qed.

Lemma abandon_spec t th s :
  sem_inv s -> threads s !! t = Some th -> owns th = false -> simulated s (abandon t s).
Proof.
  intros Hi Hth Ho. assert (t ∉ owners s) as Hno by (rewrite (owner_spec _ _ _ Hth); congruence).
  assert (t ∈ w_id <$> waiters s) as Hq by (apply (inv_queued _ Hi); eauto).
  destruct Hi as [Hh Hl Hf Hs Hnd Hqd Hg].
  destruct (remove_waiter_split t (waiters s) Hnd Hq) as (q1 & p & q2 & Heq & Hrem).
  assert (owned (delete t (threads s)) = owners s) as Hown by (rewrite owned_delete; set_solver).
  rewrite Heq, fmap_app, fmap_cons in Hnd, Hqd. simpl in Hnd, Hqd.
  apply NoDup_app in Hnd as (Hn1 & Hn12 & [Hnt Hn2]%NoDup_cons).
  split; [split; simpl; rewrite ?Hrem; try done|].
  - unfold owners at 1; simpl. by rewrite Hown.
  - intros _. apply Hf. rewrite Heq. by destruct q1.
  - rewrite Heq in Hs. apply StronglySorted_app_inv in Hs as (? & [? ?]%StronglySorted_inv & H12).
    apply StronglySorted_app_inv. split_and!; [done..|]. intros. apply H12; [done|by right].
  - rewrite fmap_app. apply NoDup_app. split_and!; [done| |done].
    intros x Hx Hx2. apply (Hn12 x Hx). by right.
  - intros u. destruct (decide (u = t)) as [->|Hne].
    + rewrite lookup_delete_eq, fmap_app, elem_of_app. split; [|by intros (? & ? & _)].
      intros [Hx|Hx]; [|done]. destruct (Hn12 t Hx). left.
    + rewrite lookup_delete_ne by done. rewrite <- Hqd, fmap_app, !elem_of_app, elem_of_cons.
      naive_solver.
  - intros u th' Hu. apply (Hg u). by apply lookup_delete_Some in Hu as [_ ?].
  - unfold alpha, owners; simpl. rewrite Hown, Hrem, Heq. apply ALeave.
Qed.

Lemma acquire_resume_spec t th s :
  sem_inv s -> threads s !! t = Some th -> th_phase th = Woken -> simulated s (acquire_resume t s).
Proof.
  intros Hi Hth Hw. unfold acquire_resume. rewrite Hth. destruct (th_ready th) eqn:Hr.
  - assert (t ∈ owners s) as Ht.
    { apply (owner_spec _ _ _ Hth). unfold owns. by rewrite Hw. }
    assert (owned (<[t := MkThread Holding true]> (threads s)) = owners s) as Hown.
    { rewrite owned_insert_true by done. unfold owners in *. set_solver. }
    assert (owns th = true) as Ho by (by apply (owner_spec _ _ _ Hth)).
    destruct Hi as [Hh Hl Hf Hs Hnd Hqd Hg].
    split; [split; simpl; try done|].
    + unfold owners at 1; simpl. by rewrite Hown.
    + intros u. rewrite Hqd. destruct (decide (u = t)) as [->|Hne]; [|by rewrite lookup_insert_ne].
      rewrite lookup_insert_eq. split; intros (? & ? & ?); simplify_eq; congruence.
    + intros u th'. destruct (decide (u = t)) as [->|Hne]; [|rewrite lookup_insert_ne by done; apply Hg].
      rewrite lookup_insert_eq. by intros [= <-].
    + unfold alpha, owners at 2; simpl. rewrite Hown. constructor.
  - assert (owns th = false) as Ho by (unfold owns; by rewrite Hw, Hr).
    case_bool_decide as Hc; [by eapply abandon_spec|].
    assert (t ∉ owners s) as Hno by (rewrite (owner_spec _ _ _ Hth); congruence).
    assert (owned (<[t := MkThread Parked false]> (threads s)) = owners s) as Hown
      by (by rewrite owned_insert_false).
    destruct Hi as [Hh Hl Hf Hs Hnd Hqd Hg].
    split; [split; simpl; try done|].
    + unfold owners at 1; simpl. by rewrite Hown.
    + intros u. rewrite Hqd. destruct (decide (u = t)) as [->|Hne]; [|by rewrite lookup_insert_ne].
      rewrite lookup_insert_eq. split; intros (? & ? & ?); simplify_eq; eauto.
    + intros u th'. destruct (decide (u = t)) as [->|Hne]; [|rewrite lookup_insert_ne by done; apply Hg].
      rewrite lookup_insert_eq. by intros [= <-].
    + unfold alpha, owners at 2; simpl. rewrite Hown. constructor.
Qed.

Lemma release_free_spec t th s :
  sem_inv s -> threads s !! t = Some th -> th_phase th = Holding -> waiters s = [] ->
  simulated s (release t s).
Proof.
  intros Hi Hth Hp Hw. assert (t ∈ owners s) as Ht.
  { apply (owner_spec _ _ _ Hth). unfold owns. by rewrite Hp. }
  destruct Hi as [Hh Hl Hf Hs Hnd Hqd Hg]. unfold release; simpl. rewrite Hw.
  split; [split; simpl; try done|].
  - unfold owners; simpl. rewrite owned_delete, size_remove by done. fold (owners s). lia.
  - lia.
  - intros u. rewrite Hqd. destruct (decide (u = t)) as [->|Hne]; [|by rewrite lookup_delete_ne].
    rewrite lookup_delete_eq. split; [|by intros (? & ? & ?)]. intros (th' & ? & Ho). simplify_eq.
    unfold owns in Ho. by rewrite Hp in Ho.
  - intros u th' Hu. apply (Hg u). by apply lookup_delete_Some in Hu as [_ ?].
  - unfold alpha, owners at 2; simpl. rewrite owned_delete, Hw. by apply AReleaseFree.
Qed.

Lemma release_hand_over_spec t th w q s :
  sem_inv s -> threads s !! t = Some th -> th_phase th = Holding -> waiters s = w :: q ->
  simulated s (release t s).
Proof.
  intros Hi Hth Hp Hw. assert (owns th = true) as Hoth by (unfold owns; by rewrite Hp).
  assert (t ∈ owners s) as Ht by (by apply (owner_spec _ _ _ Hth)).
  destruct (proj1 (inv_queued _ Hi (w_id w))) as (thw & Hthw & How).
  { rewrite Hw, fmap_cons. left. }
  assert (w_id w <> t) as Hne by (intros He; rewrite He in Hthw; congruence).
  assert (w_id w ∉ owners s) as Hnw by (rewrite (owner_spec _ _ _ Hthw); congruence).
  destruct Hi as [Hh Hl Hf Hs Hnd Hqd Hg].
  set (ths := wake <$> alter set_ready (w_id w) (delete t (threads s))).
  assert (owned ths = {[w_id w]} ∪ (owners s ∖ {[t]})) as Hown.
  { unfold ths. rewrite owned_wake, owned_ready, owned_delete; [done|].
    rewrite lookup_delete_ne by done. by eexists. }
  assert (forall u, ths !! u = wake <$> (if decide (u = w_id w) then Some (set_ready thw)
             else if decide (u = t) then None else threads s !! u)) as Hlook.
  { intros u. unfold ths. rewrite lookup_fmap, lookup_alter. repeat case_decide; subst; try done.
    - by rewrite lookup_delete_ne, Hthw by done.
    - by rewrite lookup_delete_eq.
    - by rewrite lookup_delete_ne. }
  rewrite Hw, fmap_cons in Hnd, Hqd. apply NoDup_cons in Hnd as [Hnq Hnd].
  assert (release t s = MkSem (limit s) (held s - 1 + 1) q ths (cancelled s)) as ->
    by (unfold release; simpl; by rewrite Hw).
  split; [split; simpl; try done|].
  - unfold owners; simpl. rewrite Hown, size_add, size_remove by set_solver. lia.
  - lia.
  - intros _. specialize (Hf ltac:(by rewrite Hw)). lia.
  - rewrite Hw in Hs. by apply StronglySorted_inv in Hs as [? _].
  - intros u. rewrite Hlook. specialize (Hqd u). rewrite elem_of_cons in Hqd.
    repeat case_decide; subst; simpl.
    + split; [done|]. intros (? & [= <-] & Ho). rewrite owns_wake in Ho. by destruct thw as [[] []].
    + split; [|by intros (? & ? & _)]. intros Hin. destruct (proj1 Hqd (or_intror Hin)) as (? & ? & ?).
      congruence.
    + destruct (threads s !! u) as [thu|]; simpl; split.
      * intros Hin. destruct (proj1 Hqd (or_intror Hin)) as (? & [= <-] & Ho).
        eexists. split; [done|]. by rewrite owns_wake.
      * intros (? & [= <-] & Ho). rewrite owns_wake in Ho.
        destruct (proj2 Hqd) as [?|?]; [by eexists|done|done].
      * intros Hin. by destruct (proj1 Hqd (or_intror Hin)) as (? & ? & _).
      * by intros (? & ? & _).
  - intros u thu. rewrite Hlook. intros Hu Hr.
    apply fmap_Some in Hu as (th' & _ & ->). by destruct th' as [[] ?].
  - unfold alpha, owners at 2; simpl. rewrite Hown, Hw. by apply AHandOver.
Qed.

Lemma cancel_spec t s : sem_inv s -> simulated s (cancel t s).
Proof. intros []. split; [by split|]. constructor. Qed.

Lemma sem_step_simulated e s s' : sem_inv s -> sem_step e s s' -> simulated s s'.
Proof.
  intros Hi Hst. destruct Hst as [t p s Hn|t th s Hth Hw|t th s Hth Hp|t s].
  - by apply acquire_enter_spec.
  - by eapply acquire_resume_spec.
  - destruct (waiters s) as [|w q] eqn:Hq; [by eapply release_free_spec|].
    by eapply release_hand_over_spec.
  - by apply cancel_spec.
Qed.

Lemma newBudgetSem_inv lim : sem_inv (newBudgetSem lim).
Proof.
  split; simpl; try constructor; try done.
  - lia.
  - by intros ?%not_elem_of_nil.
  - intros (th & Hth & _). by rewrite lookup_empty in Hth.
Qed.

Lemma sem_reachable_inv lim s : sem_reachable lim s -> sem_inv s /\ limit s = lim.
Proof.
  unfold sem_reachable. intros Hr.
  assert (sem_inv (newBudgetSem lim) /\ limit (newBudgetSem lim) = lim) as Hi
    by (split; [apply newBudgetSem_inv|done]).
  revert Hi. induction Hr as [s|s s1 s2 [e He] Hr IH]; intros [Hi Hl]; [done|].
  apply IH. destruct (sem_step_simulated _ _ _ Hi He) as [Hi' Ha]. split; [done|].
  inversion Ha; unfold alpha in *; simplify_eq/=; congruence.
Qed.

(** A run of the semaphore as a function, for the concrete schedules. *)
Definition run_event (s : sem) (e : event) : sem :=
  match e with
  | EAcquire t p => acquire_enter t p s
  | EResume t => acquire_resume t s
  | ERelease t => release t s
  | ECancel t => cancel t s
  end.

Definition enabled (s : sem) (e : event) : bool :=
  match e with
  | EAcquire t _ => bool_decide (threads s !! t = None)
  | EResume t => bool_decide (th_phase <$> threads s !! t = Some Woken)
  | ERelease t => bool_decide (th_phase <$> threads s !! t = Some Holding)
  | ECancel _ => true
  end.

Fixpoint run_events (s : sem) (es : list event) : option sem :=
  match es with
  | [] => Some s
  | e :: es' => if enabled s e then run_events (run_event s e) es' else None
  end.

#[export] Instance thread_eq_dec : EqDecision thread.
Proof. solve_decision. Defined.

Lemma enabled_step s e : enabled s e = true -> sem_step e s (run_event s e).
Proof.
  destruct e as [t p|t|t|t]; simpl; [intros Hb%bool_decide_eq_true..|intros _].
  - by constructor.
  - apply fmap_Some in Hb as (th & ? & ?). by econstructor.
  - apply fmap_Some in Hb as (th & ? & ?). by econstructor.
  - constructor.
Qed.

Lemma run_events_reachable lim es s :
  run_events (newBudgetSem lim) es = Some s -> sem_reachable lim s.
Proof.
  unfold sem_reachable. generalize (newBudgetSem lim) as s0.
  induction es as [|e es IH]; simpl; intros s0 Hr; [simplify_eq; constructor|].
  destruct (enabled s0 e) eqn:He; [|done]. econstructor; [|by apply IH].
  exists e. by apply enabled_step.
Qed.

(** One slot, taken by goroutine 1; 2 (low), 3 (high) and 4 (low) queue behind it. *)
Definition busy_schedule : list event :=
  [EAcquire 1 0; EAcquire 2 0; EAcquire 3 1; EAcquire 4 0].
Definition busy_sem : sem := default (newBudgetSem 1) (run_events (newBudgetSem 1) busy_schedule).

Lemma busy_sem_reachable : sem_reachable 1 busy_sem.
Proof. apply (run_events_reachable 1 busy_schedule). vm_compute. reflexivity. Qed.

(** ** Properties *)

(** [C23] In every interleaving of acquire, resume, release and cancellation, the
    counter [held] is exactly the number of goroutines that own a slot (returned
    from [acquire] and not yet released, or granted and not yet resumed), it never
    exceeds the limit, and so at most [limit] goroutines are past [acquire]: a
    cancelled waiter never leaks a slot. *)
Theorem semaphore_bound lim s :
  sem_reachable lim s ->
  held s = Z.of_nat (size (owners s)) /\ 0 <= held s <= Z.max 0 lim /\
  Z.of_nat (size (filter (fun kv : nat * thread => th_phase kv.2 = Holding) (threads s))) <= Z.max 0 lim.
Proof.
  intros [Hi <-]%sem_reachable_inv. pose proof (inv_held _ Hi). pose proof (inv_limit _ Hi).
  split_and!; [done|lia|lia|].
  etrans; [|eassumption]. rewrite (inv_held _ Hi). apply inj_le.
  rewrite <- size_dom. apply subseteq_size. intros t. rewrite elem_of_dom. intros [th Hth].
  apply map_lookup_filter_Some in Hth as [Hth Hp]. unfold owners. rewrite elem_of_owned.
  exists th. split; [done|]. unfold owns. simpl in Hp. by rewrite Hp.
Qed.

Lemma semaphore_bound_witness :
  sem_reachable 1 busy_sem /\ held busy_sem = 1 /\ 0 <= held busy_sem <= 1.
Proof.
  split; [apply busy_sem_reachable|]. split; [vm_compute; reflexivity|].
  destruct (semaphore_bound 1 busy_sem busy_sem_reachable) as (_ & H & _). exact H.
Defined.

(** [C25] The semaphore conserves work and loses no wakeup: in every reachable state
    the queue holds exactly the goroutines still waiting, goroutines only wait while
    every slot is taken, and a goroutine that was granted a slot is never left
    asleep in [cond.Wait]. *)
Theorem semaphore_work_conserving lim s :
  sem_reachable lim s ->
  (forall t, t ∈ w_id <$> waiters s <-> exists th, threads s !! t = Some th /\ owns th = false) /\
  (waiters s <> [] -> held s = Z.max 0 lim) /\
  (forall t th, threads s !! t = Some th -> th_phase th = Parked -> th_ready th = false).
Proof.
  intros [Hi <-]%sem_reachable_inv. pose proof (inv_limit _ Hi). split_and!.
  - apply Hi.
  - intros Hw. pose proof (inv_full _ Hi Hw). pose proof (inv_held _ Hi). lia.
  - intros t th Hth Hp. destruct (th_ready th) eqn:Hr; [|done].
    by destruct (inv_granted _ Hi t th Hth Hr).
Qed.

Lemma semaphore_work_conserving_witness :
  w_id <$> waiters busy_sem = [3; 2; 4]%nat /\ held busy_sem = 1.
Proof.
  split; [vm_compute; reflexivity|].
  destruct (semaphore_work_conserving 1 busy_sem busy_sem_reachable) as (_ & H & _).
  apply H. vm_compute. discriminate.
Defined.

(** [C24] Slots are handed out by priority, first come first served within a
    priority.  A goroutine that has to queue is placed behind everyone of equal or
    higher priority and ahead of everyone of lower priority, whose relative order is
    kept; and a release with a non-empty queue makes the head of the queue, which has
    the highest priority waiting, the owner of the slot, leaving the number of held
    slots unchanged. *)
Theorem semaphore_priority_order lim s :
  sem_reachable lim s ->
  (forall t p, threads s !! t = None -> t ∉ cancelled s -> lim <= held s ->
     exists q1 q2, waiters s = q1 ++ q2 /\
       waiters (acquire_enter t p s) = q1 ++ MkWaiter t p :: q2 /\
       Forall (fun w => p <= w_priority w) q1 /\ Forall (fun w => w_priority w < p) q2) /\
  (forall t th w q, threads s !! t = Some th -> th_phase th = Holding -> waiters s = w :: q ->
     waiters (release t s) = q /\ held (release t s) = held s /\
     owners (release t s) = {[w_id w]} ∪ (owners s ∖ {[t]}) /\
     Forall (fun w' => w_priority w' <= w_priority w) q).
Proof.
  intros [Hi <-]%sem_reachable_inv. split.
  - intros t p Hn Hc Hf. unfold acquire_enter.
    rewrite (bool_decide_false (held s < limit s)) by lia. simpl. rewrite bool_decide_false by done.
    simpl. apply (insert_waiter_split (MkWaiter t p)), Hi.
  - intros t th w q Hth Hp Hw.
    destruct (release_hand_over_spec t th w q s Hi Hth Hp Hw) as [Hi' Ha].
    assert (waiters (release t s) = q) as Hq by (unfold release; simpl; by rewrite Hw).
    assert (held (release t s) = held s) as Hh by (unfold release; simpl; rewrite Hw; simpl; lia).
    split_and!; [done|done| |].
    + destruct (proj1 (inv_queued _ Hi (w_id w))) as (thw & Hthw & How).
      { rewrite Hw, fmap_cons. left. }
      assert (w_id w <> t) as Hne.
      { intros He. rewrite He, Hth in Hthw. injection Hthw as <-. unfold owns in How. by rewrite Hp in How. }
      unfold release; simpl. rewrite Hw. unfold owners; simpl.
      rewrite owned_wake, owned_ready, owned_delete; [done|]. rewrite lookup_delete_ne by done. by eexists.
    + pose proof (inv_sorted _ Hi) as Hs. rewrite Hw in Hs. by apply StronglySorted_inv in Hs as [_ ?].
Qed.

Lemma semaphore_priority_order_witness :
  waiters (acquire_enter 5 1 busy_sem) =
    [MkWaiter 3 1; MkWaiter 5 1; MkWaiter 2 0; MkWaiter 4 0] /\
  owners (release 1 busy_sem) = {[3%nat]} ∪ (owners busy_sem ∖ {[1%nat]}).
Proof.
  split; [vm_compute; reflexivity|].
  destruct (semaphore_priority_order 1 busy_sem busy_sem_reachable) as [_ Hr].
  eapply (Hr 1%nat (MkThread Holding false) (MkWaiter 3 1) [MkWaiter 2 0; MkWaiter 4 0]);
    vm_compute; reflexivity.
Defined.

(** [C22] Every reachable step of the monitor (critical sections, wakeups and
    cancellations interleaved in any order) is a step of the abstract priority
    semaphore: grant a free slot when nobody waits, enqueue behind one's priority
    class when no slot is free, leave the queue, free a slot, hand a slot to the head
    of the queue, or do nothing. *)
Theorem semaphore_refines lim s s' :
  sem_reachable lim s -> sem_next s s' -> abs_step (alpha s) (alpha s') /\ sem_reachable lim s'.
Proof.
  intros Hr [e He]. split.
  - apply (sem_step_simulated e s s'); [by apply (sem_reachable_inv lim)|done].
  - eapply rtc_r; [exact Hr|]. by exists e.
Qed.

Lemma semaphore_refines_witness :
  abs_step (alpha busy_sem) (alpha (release 1 busy_sem)).
Proof.
  apply (semaphore_refines 1 busy_sem _ busy_sem_reachable).
  exists (ERelease 1). eapply step_release with (th := MkThread Holding false); vm_compute; reflexivity.
Defined.

(** [C40] Cancelling a context does not wake the goroutine that waits: the condition
    variable is only broadcast by [release], so a goroutine asleep in [cond.Wait]
    stays asleep and queued under any sequence of acquisitions, resumptions and
    cancellations (its own included), until somebody releases a slot. *)
Theorem cancel_does_not_wake s s' t :
  (threads s !! t) = Some (MkThread Parked false) ->
  rtc (fun a b => exists e, sem_step e a b /\ forall u, e <> ERelease u) s s' ->
  threads s' !! t = Some (MkThread Parked false).
Proof.
  intros Ht Hr. revert Ht. induction Hr as [s|s s1 s2 (e & He & Hnr) _ IH]; [done|].
  intros Ht. apply IH. clear IH. destruct He as [u p s Hu|u th s Hu Hw|u th s Hu Hp|u s].
  - assert (u <> t) by (intros ->; congruence). unfold acquire_enter, abandon.
    repeat case_match; simpl; by rewrite ?lookup_delete_ne, ?lookup_insert_ne.
  - assert (u <> t) by (intros ->; simplify_eq; done). unfold acquire_resume, abandon.
    repeat case_match; simpl; by rewrite ?lookup_delete_ne, ?lookup_insert_ne.
  - by destruct (Hnr u).
  - done.
Qed.

Lemma cancel_does_not_wake_witness :
  threads (cancel 2 busy_sem) !! 2%nat = Some (MkThread Parked false).
Proof.
  apply (cancel_does_not_wake busy_sem _ 2); [vm_compute; reflexivity|].
  eapply rtc_l; [|apply rtc_refl]. exists (ECancel 2). split; [constructor|discriminate].
Defined.
