(* ===== verification/StateDB.v ===== *)
(** * The state store: stable inodes, file records, hidden files

    [internal/state/db.go].  The three tables are finite maps keyed by content
    key; the temporary table of [ReplaceFiles] is present only inside its
    transaction.  Each SQL text of the source is one [Stmt]; a function of the
    store sends its statements in the order of the code, returns at the first
    error and rolls an open transaction back.  Which statements fail, and the
    order in which [SELECT] delivers unordered rows, are left open. *)
From Stdlib Require Import Ascii.
From S2P Require Import Prelude GoStrings Sql.
Open Scope Z_scope.

(** ** Data *)

Record FileRecord := MkFileRecord {
  ContentKey : string;
  DownloadKind : string;
  DownloadID : string;
  FileID : string;
  Path : string;
  Size : Z
}.

#[export] Instance FileRecord_eq_dec : EqDecision FileRecord.
Proof. solve_decision. Defined.

Record HiddenDownload := MkHiddenDownload {
  hd_DownloadKind : string;
  hd_DownloadID : string;
  hd_DownloadName : string;
  hd_HiddenCount : Z;
  hd_TotalCount : Z;
  hd_TotalSize : Z
}.

(** A row of [inodes] and a row of [files]; [hidden_files] maps a key to its
    [hidden_at]. *)
Record InodeRow := MkInodeRow { ir_inode : Z; ir_path : string; ir_updated_at : string }.
Record FileRow := MkFileRow { fr_record : FileRecord; fr_updated_at : string }.

Record Tables := MkTables {
  inodes : gmap string InodeRow;
  files : gmap string FileRow;
  hidden_files : gmap string string;
  current_keys : option (gset string)
}.

Definition empty_tables : Tables := MkTables ∅ ∅ ∅ None.

Record DB := MkDB {
  conn : Conn Tables;
  nextInode : Z
}.

Definition set_inodes (m : gmap string InodeRow) (t : Tables) : Tables :=
  MkTables m (files t) (hidden_files t) (current_keys t).
Definition set_files (m : gmap string FileRow) (t : Tables) : Tables :=
  MkTables (inodes t) m (hidden_files t) (current_keys t).
Definition set_hidden (m : gmap string string) (t : Tables) : Tables :=
  MkTables (inodes t) (files t) m (current_keys t).
Definition set_current (m : option (gset string)) (t : Tables) : Tables :=
  MkTables (inodes t) (files t) (hidden_files t) m.

(** [fmt.Errorf("state: <what> <args>: %w", ...)]: what failed, the arguments
    printed, and the error wrapped, if any. *)
Inductive StateErr := Wrap (what : string) (args : list string) (cause : option string).

Definition uint64 (z : Z) : Z := z mod 2 ^ 64.

(** A function of the store: its result and the store it leaves. *)
Definition M (A : Type) : Type := DB -> result StateErr A * DB.

Definition retM {A} (a : A) : M A := fun db => (Ok a, db).
Definition bindM {A B} (m : M A) (k : A -> M B) : M B := fun db =>
  match m db with
  | (Ok a, db') => k a db'
  | (Err e, db') => (Err e, db')
  end.
Notation "x <~ m ;; k" := (bindM m (fun x => k)) (at level 100, m at next level, right associativity).
Notation "m1 ;;; m2" := (bindM m1 (fun _ => m2)) (at level 100, right associativity).

(** ** SQL statements *)

Definition select_max_inode : Stmt Tables (option Z) := fun _ t =>
  Ok (match (fun kv => ir_inode kv.2) <$> map_to_list (inodes t) with
      | [] => None
      | i :: l => Some (foldr Z.max i l)
      end, t).

(** Scanning into a [uint64] fails on a negative integer. *)
Definition select_inode (contentKey : string) : Stmt Tables (option Z) := fun _ t =>
  match inodes t !! contentKey with
  | None => Ok (None, t)
  | Some r =>
      if ir_inode r <? 0 then Err "sql: Scan error: converting to a uint64: invalid syntax"
      else Ok (Some (ir_inode r), t)
  end.

(** The driver rejects a [uint64] argument with its high bit set, and the
    primary key a second row for the key. *)
Definition insert_inode (contentKey : string) (ino : Z) (path : string) : Stmt Tables unit :=
  fun now t =>
  if 2 ^ 63 <=? ino then Err "uint64 values with high bit set are not supported"
  else match inodes t !! contentKey with
       | Some _ => Err "UNIQUE constraint failed: inodes.content_key"
       | None => Ok (tt, set_inodes (<[contentKey := MkInodeRow ino path now]> (inodes t)) t)
       end.

Definition upsert_file (f : FileRecord) : Stmt Tables unit := fun now t =>
  Ok (tt, set_files (<[ContentKey f := MkFileRow f now]> (files t)) t).

Definition create_temp_keys : Stmt Tables unit := fun _ t =>
  match current_keys t with
  | Some _ => Err "table _current_keys already exists"
  | None => Ok (tt, set_current (Some ∅) t)
  end.

Definition insert_temp_key (contentKey : string) : Stmt Tables unit := fun _ t =>
  match current_keys t with
  | None => Err "no such table: _current_keys"
  | Some ks => Ok (tt, set_current (Some ({[contentKey]} ∪ ks)) t)
  end.

Definition delete_stale_files : Stmt Tables Z := fun _ t =>
  match current_keys t with
  | None => Err "no such table: _current_keys"
  | Some ks =>
      let kept := filter (fun kv => kv.1 ∈ ks) (files t) in
      Ok (Z.of_nat (size (files t)) - Z.of_nat (size kept), set_files kept t)
  end.

Definition delete_stale_hidden : Stmt Tables Z := fun _ t =>
  let kept := filter (fun kv => is_Some (files t !! kv.1)) (hidden_files t) in
  Ok (Z.of_nat (size (hidden_files t)) - Z.of_nat (size kept), set_hidden kept t).

Definition drop_temp_keys : Stmt Tables unit := fun _ t => Ok (tt, set_current None t).

Definition select_file (contentKey : string) : Stmt Tables (option FileRecord) := fun _ t =>
  Ok (fr_record <$> files t !! contentKey, t).

Definition insert_hidden (contentKey : string) : Stmt Tables unit := fun now t =>
  match hidden_files t !! contentKey with
  | Some _ => Ok (tt, t)
  | None => Ok (tt, set_hidden (<[contentKey := now]> (hidden_files t)) t)
  end.

Definition delete_hidden (contentKey : string) : Stmt Tables unit := fun _ t =>
  Ok (tt, set_hidden (delete contentKey (hidden_files t)) t).

Definition delete_hidden_like (pat : string) : Stmt Tables unit := fun _ t =>
  Ok (tt, set_hidden (filter (fun kv => like pat kv.1 = false) (hidden_files t)) t).

Definition count_hidden (contentKey : string) : Stmt Tables Z := fun _ t =>
  Ok (match hidden_files t !! contentKey with Some _ => 1 | None => 0 end, t).

Definition count_hidden_like (pat : string) : Stmt Tables Z := fun _ t =>
  Ok (Z.of_nat (size (filter (fun kv => like pat kv.1 = true) (hidden_files t))), t).

Definition of_download (downloadKind downloadID : string) (f : FileRecord) : Prop :=
  DownloadKind f = downloadKind /\ DownloadID f = downloadID.

#[export] Instance of_download_dec k i f : Decision (of_download k i f).
Proof. unfold of_download. apply _. Defined.

Definition count_files_of (downloadKind downloadID : string) : Stmt Tables Z := fun _ t =>
  Ok (Z.of_nat (size (filter (fun kv => of_download downloadKind downloadID (fr_record kv.2)) (files t))), t).

Definition select_hidden_keys : Stmt Tables (gset string) := fun _ t =>
  Ok (dom (hidden_files t), t).

(** The rows of [files] in the order [SELECT] delivers them. *)
Definition select_files `{MapIter} : Stmt Tables (list FileRecord) := fun _ t =>
  Ok ((fun kv => fr_record kv.2) <$> map_range 0 (files t), t).

(** [ORDER BY h.hidden_at DESC] over the join. *)
Definition later (a b : string * FileRecord) : bool := str_lt b.1 a.1.

Definition select_hidden_files `{MapIter, SliceSort} : Stmt Tables (list FileRecord) := fun _ t =>
  Ok (snd <$> slice_sort later
        (omap (fun kv => match hidden_files t !! kv.1 with
                         | Some h => Some (h, fr_record kv.2)
                         | None => None
                         end) (map_range 0 (files t))), t).

(** One group of the [GROUP BY]: the rows of a download with their hidden mark. *)
Definition download_of (f : FileRecord) : string * string := (DownloadKind f, DownloadID f).

Definition pair_lt (a b : string * string) : bool :=
  str_lt a.1 b.1 || (bool_decide (a.1 = b.1) && str_lt a.2 b.2).

Definition min_str (a b : string) : string := if str_lt b a then b else a.

Record GroupRow := MkGroupRow {
  g_kind : string; g_id : string;
  g_hidden_count : Z; g_total_count : Z; g_total_size : Z; g_first_path : string
}.

Definition group_row (t : Tables) (d : string * string) : GroupRow :=
  let rows := filter (fun kv => of_download d.1 d.2 (fr_record kv.2)) (files t) in
  let recs := (fun kv => fr_record kv.2) <$> map_to_list rows in
  MkGroupRow d.1 d.2
    (Z.of_nat (size (filter (fun kv => is_Some (hidden_files t !! kv.1)) rows)))
    (Z.of_nat (size rows))
    (foldr (fun f acc => Size f + acc) 0 recs)
    (match Path <$> recs with [] => EmptyString | p :: l => foldr min_str p l end).

(** [SUM] raises an error when it leaves the 64-bit range; [HAVING] keeps the
    groups with a hidden file. *)
Definition select_hidden_downloads `{MapIter, SliceSort} : Stmt Tables (list GroupRow) := fun _ t =>
  let groups := slice_sort pair_lt
                  (remove_dups ((fun kv => download_of (fr_record kv.2)) <$> map_range 0 (files t))) in
  let rows := group_row t <$> groups in
  if existsb (fun g => negb (bool_decide (in_int64 (g_total_size g)))) rows then Err "integer overflow"
  else Ok (filter (fun g => 0 < g_hidden_count g) rows, t).

(** ** The operations *)

Section store.
Context (env : SqlEnv).

(** Sends a statement; [Wrap what args] is the [fmt.Errorf] around its error. *)
Definition send {A} (what : string) (args : list string) (f : Stmt Tables A) : M A := fun db =>
  match exec env f (conn db) with
  | (Ok a, c) => (Ok a, MkDB c (nextInode db))
  | (Err e, c) => (Err (Wrap what args (Some e)), MkDB c (nextInode db))
  end.

(** [tx, err := db.conn.Begin()] with [defer tx.Rollback()]: a body that does
    not reach its [Commit] leaves the tables as they were. *)
Definition transaction {A} (body : M A) : M A := fun db =>
  match send "begin tx" [] control db with
  | (Err e, db') => (Err e, db')
  | (Ok _, db') =>
      match body db' with
      | (Ok a, db'') => (Ok a, db'')
      | (Err e, db'') => (Err e, MkDB (rollback (tables (conn db')) (conn db'')) (nextInode db''))
      end
  end.

Fixpoint each {A} (f : A -> M unit) (l : list A) : M unit :=
  match l with
  | [] => retM tt
  | x :: l' => f x ;;; each f l'
  end.

Definition initSchema (disk : option Tables) (c : Conn Tables) : result string unit * Conn Tables :=
  exec env (fun _ _ => Ok (tt, default empty_tables disk)) c.

Definition initNextInode (c : Conn Tables) : result string Z * Conn Tables :=
  match exec env select_max_inode c with
  | (Ok (Some i), c') => (Ok (uint64 (uint64 i + 1)), c')
  | (Ok None, c') => (Ok 1, c')
  | (Err e, c') => (Err e, c')
  end.

(** [Open] on a database file that may not exist yet ([disk = None]); [n]
    statements were sent before.  Also the tick after it, for the next run. *)
Definition Open (disk : option Tables) (n : nat) : result StateErr DB * nat :=
  let c0 := MkConn (default empty_tables disk) n in
  match exec env control c0 with
  | (Err e, c) => (Err (Wrap "ping db" [] (Some e)), tick c)
  | (Ok _, c1) =>
      match initSchema disk c1 with
      | (Err e, c) => (Err (Wrap "init schema: init schema" [] (Some e)), tick c)
      | (Ok _, c2) =>
          match initNextInode c2 with
          | (Err e, c) => (Err (Wrap "init next inode: query max inode" [] (Some e)), tick c)
          | (Ok next, c3) => (Ok (MkDB c3 next), tick c3)
          end
      end
  end.

Definition AssignInode (contentKey path : string) : M Z :=
  found <~ send "lookup inode for" [contentKey] (select_inode contentKey) ;;
  match found with
  | Some ino => retM ino
  | None => fun db =>
      let ino := nextInode db in
      let db' := MkDB (conn db) (uint64 (nextInode db + 1)) in
      (send "insert inode for" [contentKey] (insert_inode contentKey ino path) ;;; retM ino) db'
  end.

Definition LookupInode (contentKey : string) : M Z :=
  found <~ send "lookup inode for" [contentKey] (select_inode contentKey) ;;
  match found with
  | Some ino => retM ino
  | None => fun db => (Err (Wrap "no inode for" [contentKey] None), db)
  end.

Definition UpsertFiles (fs : list FileRecord) : M unit :=
  match fs with
  | [] => retM tt
  | _ =>
      transaction (
        send "prepare upsert" [] control ;;;
        each (fun f => send "upsert file" [ContentKey f] (upsert_file f)) fs ;;;
        send "commit upsert" [] control)
  end.

Definition ReplaceFiles (fs : list FileRecord) : M Z :=
  transaction (
    send "create temp table" [] create_temp_keys ;;;
    send "prepare key insert" [] control ;;;
    each (fun f => send "insert key" [ContentKey f] (insert_temp_key (ContentKey f))) fs ;;;
    send "prepare upsert" [] control ;;;
    each (fun f => send "upsert file" [ContentKey f] (upsert_file f)) fs ;;;
    staleCount <~ send "delete stale files" [] delete_stale_files ;;
    send "delete stale hidden" [] delete_stale_hidden ;;;
    send "drop temp table" [] drop_temp_keys ;;;
    send "commit replace" [] control ;;;
    retM staleCount).

Definition LookupFile (contentKey : string) : M (option FileRecord) :=
  send "lookup file for" [contentKey] (select_file contentKey).

Definition ListFiles `{MapIter} : M (list FileRecord) :=
  fs <~ send "list files" [] select_files ;;
  send "list files rows" [] control ;;;
  retM fs.

Definition HideFile (contentKey : string) : M unit :=
  send "hide file" [contentKey] (insert_hidden contentKey).

Definition UnhideFile (contentKey : string) : M unit :=
  send "unhide file" [contentKey] (delete_hidden contentKey).

Definition download_prefix (downloadKind downloadID : string) : string :=
  downloadKind +:+ ":" +:+ downloadID +:+ ":".

Definition UnhideDownload (downloadKind downloadID : string) : M unit :=
  let prefix := download_prefix downloadKind downloadID in
  send "unhide download" [downloadKind; downloadID] (delete_hidden_like (prefix +:+ "%")).

Definition IsHidden (contentKey : string) : M bool :=
  count <~ send "is hidden" [contentKey] (count_hidden contentKey) ;;
  retM (0 <? count).

Definition IsDownloadFullyHidden (downloadKind downloadID : string) : M bool :=
  let prefix := download_prefix downloadKind downloadID in
  hiddenCount <~ send "count hidden for" [downloadKind; downloadID]
                      (count_hidden_like (prefix +:+ "%")) ;;
  totalCount <~ send "count total for" [downloadKind; downloadID]
                     (count_files_of downloadKind downloadID) ;;
  retM ((0 <? totalCount) && (totalCount <=? hiddenCount)).

Definition ListHiddenFiles `{MapIter, SliceSort} : M (list FileRecord) :=
  fs <~ send "list hidden files" [] select_hidden_files ;;
  send "list hidden files rows" [] control ;;;
  retM fs.

(** The third element of the first path, or the path itself. *)
Definition download_name (firstPath : string) : string :=
  default firstPath (SplitN firstPath slash 4 !! 2%nat).

Definition ListHiddenDownloads `{MapIter, SliceSort} : M (list HiddenDownload) :=
  rows <~ send "list hidden downloads" [] select_hidden_downloads ;;
  send "list hidden downloads rows" [] control ;;;
  retM ((fun g => MkHiddenDownload (g_kind g) (g_id g) (download_name (g_first_path g))
                    (g_hidden_count g) (g_total_count g) (g_total_size g)) <$> rows).

Definition HiddenSet : M (gset string) :=
  ks <~ send "hidden set" [] select_hidden_keys ;;
  send "hidden set rows" [] control ;;;
  retM ks.

End store.

(** ** Runs of the store

    A process opens the file, calls operations, and may be restarted at any
    time; a failed [Open] leaves the file for the next one.  [log] collects the
    inode numbers the callers were given. *)

Inductive Event :=
| EAssign (contentKey path : string)
| ELookup (contentKey : string)
| EUpsert (fs : list FileRecord)
| EReplace (fs : list FileRecord)
| EHide (contentKey : string)
| EUnhide (contentKey : string)
| EUnhideDownload (downloadKind downloadID : string)
| ERestart.

Inductive World := Up (db : DB) | Down (disk : option Tables) (n : nat).

Definition reported {A} (w : result StateErr A * DB) : list (string * Z) * World := ([], Up w.2).

Definition step (env : SqlEnv) (e : Event) (w : World) : list (string * Z) * World :=
  match w, e with
  | Up db, EAssign k p =>
      match AssignInode env k p db with
      | (Ok i, db') => ([(k, i)], Up db')
      | (Err _, db') => ([], Up db')
      end
  | Up db, ELookup k =>
      match LookupInode env k db with
      | (Ok i, db') => ([(k, i)], Up db')
      | (Err _, db') => ([], Up db')
      end
  | Up db, EUpsert fs => reported (UpsertFiles env fs db)
  | Up db, EReplace fs => reported (ReplaceFiles env fs db)
  | Up db, EHide k => reported (HideFile env k db)
  | Up db, EUnhide k => reported (UnhideFile env k db)
  | Up db, EUnhideDownload k d => reported (UnhideDownload env k d db)
  | Up db, ERestart =>
      match Open env (Some (tables (conn db))) (tick (conn db)) with
      | (Ok db', _) => ([], Up db')
      | (Err _, n) => ([], Down (Some (tables (conn db))) n)
      end
  | Down disk n, ERestart =>
      match Open env disk n with
      | (Ok db', _) => ([], Up db')
      | (Err _, n') => ([], Down disk n')
      end
  | Down disk n, _ => ([], Down disk n)
  end.

Fixpoint run (env : SqlEnv) (evs : list Event) (w : World) : list (string * Z) * World :=
  match evs with
  | [] => ([], w)
  | e :: evs' =>
      let '(l1, w1) := step env e w in
      let '(l2, w2) := run env evs' w1 in
      (l1 ++ l2, w2)
  end.

(** ** Proofs: what a function may change *)

Section frame.
Context (env : SqlEnv).

(** [f] keeps [R] between the tables before and after, whatever it returns. *)
Definition keeps {A} (R : Tables -> Tables -> Prop) (m : M A) : Prop :=
  forall db, R (tables (conn db)) (tables (conn (m db).2)) /\ nextInode (m db).2 = nextInode db.

Lemma send_cases {A} what args (f : Stmt Tables A) db :
  (exists e, send env what args f db = (Err (Wrap what args (Some e)), MkDB (MkConn (tables (conn db)) (S (tick (conn db)))) (nextInode db))
     /\ (fault env (tick (conn db)) = Some e \/ f (strftime_now env (tick (conn db))) (tables (conn db)) = Err e)) \/
  (exists a t, send env what args f db = (Ok a, MkDB (MkConn t (S (tick (conn db)))) (nextInode db))
     /\ f (strftime_now env (tick (conn db))) (tables (conn db)) = Ok (a, t)).
Proof.
  unfold send, exec. destruct (fault env _) as [e|] eqn:Hf; [left; eauto|].
  destruct (f _ _) as [[a t]|e] eqn:Hs; [right|left]; eauto 10.
Qed.

Lemma keeps_send {A} R what args (f : Stmt Tables A) :
  (forall t, R t t) -> (forall now t a t', f now t = Ok (a, t') -> R t t') -> keeps R (send env what args f).
Proof.
  intros Hr Hf db. destruct (send_cases what args f db) as [(e & -> & _)|(a & t & -> & Ht)]; simpl; eauto.
Qed.

Lemma keeps_ret {A} R (a : A) : (forall t, R t t) -> keeps R (retM a).
Proof. intros Hr db. by split. Qed.

Lemma keeps_bind {A B} R (m : M A) (k : A -> M B) :
  Transitive R -> keeps R m -> (forall a, keeps R (k a)) -> keeps R (bindM m k).
Proof.
  intros Ht Hm Hk db. unfold bindM. destruct (Hm db) as [H1 H2].
  destruct (m db) as [[a|e] db']; simpl in *; [|done].
  destruct (Hk a db') as [H3 H4]. split; [by etrans|congruence].
Qed.

Lemma keeps_each {A} R (f : A -> M unit) l :
  (forall t, R t t) -> Transitive R -> (forall x, keeps R (f x)) -> keeps R (each f l).
Proof. intros Hr Ht Hf. induction l; simpl; [by apply keeps_ret|]. by apply keeps_bind. Qed.

Lemma keeps_transaction {A} R (body : M A) :
  (forall t, R t t) -> Transitive R -> keeps R body -> keeps R (transaction env body).
Proof.
  intros Hr Ht Hb db. unfold transaction.
  destruct (send_cases "begin tx" [] control db) as [(e & -> & _)|(a & t & -> & Hc)]; [by split|].
  unfold control in Hc. simplify_eq.
  match goal with |- context [body ?d] => destruct (Hb d) as [H1 H2]; destruct (body d) as [[x|e] db'] end;
    simpl in *; split; done || apply Hr.
Qed.

End frame.

(** Every operation but [AssignInode] leaves the [inodes] table alone. *)
Definition same_inodes (t t' : Tables) : Prop := inodes t' = inodes t.

#[export] Instance same_inodes_refl : Reflexive same_inodes.
Proof. by intros t. Qed.
#[export] Instance same_inodes_trans : Transitive same_inodes.
Proof. intros a b c H1 H2. unfold same_inodes in *. congruence. Qed.

Ltac keeps_tac :=
  repeat first
    [ apply keeps_transaction; [done|typeclasses eauto|]
    | apply keeps_each; [done|typeclasses eauto|intros ?]
    | apply keeps_bind; [typeclasses eauto| |intros ?]
    | apply keeps_ret; done
    | apply keeps_send; [done|] ].

Ltac stmt_tac :=
  intros; repeat match goal with
  | H : ?f _ _ = Ok _ |- _ => progress (unfold f in H)
  | H : _ _ _ = Ok _ |- _ => cbv beta iota zeta delta
      [control upsert_file create_temp_keys insert_temp_key delete_stale_files delete_stale_hidden
       drop_temp_keys insert_hidden delete_hidden delete_hidden_like] in H
  end; repeat (case_match; simplify_eq/=); simplify_eq/=; try done.

Section inodes_kept.
Context (env : SqlEnv).

Lemma UpsertFiles_inodes fs : keeps same_inodes (UpsertFiles env fs).
Proof. unfold UpsertFiles. destruct fs; keeps_tac; stmt_tac. Qed.

Lemma ReplaceFiles_inodes fs : keeps same_inodes (ReplaceFiles env fs).
Proof. unfold ReplaceFiles. keeps_tac; stmt_tac. Qed.

Lemma HideFile_inodes k : keeps same_inodes (HideFile env k).
Proof. unfold HideFile. keeps_tac; stmt_tac. Qed.

Lemma UnhideFile_inodes k : keeps same_inodes (UnhideFile env k).
Proof. unfold UnhideFile. keeps_tac; stmt_tac. Qed.

Lemma UnhideDownload_inodes k d : keeps same_inodes (UnhideDownload env k d).
Proof. unfold UnhideDownload. keeps_tac; stmt_tac. Qed.

End inodes_kept.

(** ** Inode numbers *)

Definition inodes_ok (m : gmap string InodeRow) : Prop :=
  (forall k r, m !! k = Some r -> 1 <= ir_inode r < 2 ^ 63) /\
  (forall k1 k2 r1 r2, m !! k1 = Some r1 -> m !! k2 = Some r2 -> ir_inode r1 = ir_inode r2 -> k1 = k2).

(** [n] bounds the inode numbers drawn so far by this process. *)
Definition db_ok (n : Z) (db : DB) : Prop :=
  inodes_ok (inodes (tables (conn db))) /\
  (forall k r, inodes (tables (conn db)) !! k = Some r -> ir_inode r < nextInode db) /\
  1 <= nextInode db <= 2 ^ 63 + n.

Definition world_inodes (w : World) : gmap string InodeRow :=
  match w with
  | Up db => inodes (tables (conn db))
  | Down disk _ => inodes (default empty_tables disk)
  end.

Definition world_ok (n : Z) (w : World) : Prop :=
  match w with Up db => db_ok n db | Down _ _ => inodes_ok (world_inodes w) end.

Lemma world_ok_inodes n w : world_ok n w -> inodes_ok (world_inodes w).
Proof. destruct w; [by intros [? _]|done]. Qed.

Lemma max_inode_spec t now o t' :
  select_max_inode now t = Ok (o, t') -> inodes_ok (inodes t) -> t' = t /\
  match o with
  | None => inodes t = ∅
  | Some i => 1 <= i < 2 ^ 63 /\ forall k r, inodes t !! k = Some r -> ir_inode r <= i
  end.
Proof.
  intros Hs [Hb _]. unfold select_max_inode in Hs. injection Hs as <- <-. split; [done|].
  assert (forall k r, inodes t !! k = Some r <-> (k, r) ∈ map_to_list (inodes t)) as Hin
    by (intros; by rewrite elem_of_map_to_list).
  assert (forall i l, (forall j, j ∈ i :: l -> 1 <= j < 2 ^ 63) ->
            1 <= foldr Z.max i l < 2 ^ 63 /\ forall j, j ∈ i :: l -> j <= foldr Z.max i l) as Hmax.
  { intros i l. induction l as [|x l IH]; intros Hj; simpl.
    - split; [apply Hj; by left|]. intros j Hj'. apply list_elem_of_singleton in Hj'. lia.
    - destruct IH as [H1 H2]; [intros j Hj'; apply Hj; set_solver|].
      assert (1 <= x < 2 ^ 63) by (apply Hj; set_solver).
      split; [lia|]. intros j Hj'.
      assert (j = x \/ j ∈ i :: l) as [->|Hl] by set_solver; [lia|]. specialize (H2 j Hl). lia. }
  destruct ((fun kv => ir_inode kv.2) <$> map_to_list (inodes t)) as [|i l] eqn:Hl.
  - apply map_to_list_empty_iff. by apply fmap_nil_inv in Hl.
  - destruct (Hmax i l) as [H1 H2].
    + intros j. rewrite <- Hl. intros ([k r] & -> & Hk)%list_elem_of_fmap. apply (Hb k), Hin, Hk.
    + split; [done|]. intros k r Hk. apply H2. rewrite <- Hl.
      apply list_elem_of_fmap. exists (k, r). split; [done|]. by apply Hin.
Qed.

Lemma exec_cases {A} env (f : Stmt Tables A) c :
  (exists e, exec env f c = (Err e, MkConn (tables c) (S (tick c)))) \/
  (exists a t, exec env f c = (Ok a, MkConn t (S (tick c))) /\ f (strftime_now env (tick c)) (tables c) = Ok (a, t)).
Proof.
  unfold exec. destruct (fault env _); [eauto|]. destruct (f _ _) as [[a t]|e] eqn:Hs; eauto 10.
Qed.

Lemma Open_ok env disk n db n' :
  inodes_ok (inodes (default empty_tables disk)) -> Open env disk n = (Ok db, n') ->
  inodes (tables (conn db)) = inodes (default empty_tables disk) /\ db_ok 0 db.
Proof.
  intros Hok. unfold Open, initSchema, initNextInode.
  destruct (exec_cases env control (MkConn (default empty_tables disk) n)) as [(e & ->)|(a & t & -> & Hc)]; [done|].
  unfold control in Hc. simplify_eq/=.
  destruct (exec_cases env (fun (_ : string) (_ : Tables) => Ok (tt, default empty_tables disk))
    (MkConn (default empty_tables disk) (S n))) as [(e & ->)|(a & t & -> & Hc)]; [done|].
  simplify_eq/=.
  destruct (exec_cases env select_max_inode (MkConn (default empty_tables disk) (S (S n))))
    as [(e & ->)|(o & t & -> & Hc)]; [done|].
  apply max_inode_spec in Hc as [-> Ho]; [|done]. simpl in *.
  destruct o as [i|]; intros He; simplify_eq/=; (split; [done|]); split_and!; try done; simpl.
  - destruct Ho as [Hi Hm]. unfold uint64. rewrite (Z.mod_small i), Z.mod_small by lia.
    intros k r Hk. specialize (Hm k r Hk). lia.
  - destruct Ho as [Hi _]. unfold uint64. rewrite (Z.mod_small i), Z.mod_small by lia. lia.
  - destruct Ho as [Hi _]. unfold uint64. rewrite (Z.mod_small i), Z.mod_small by lia. lia.
  - rewrite Ho. intros k r. by rewrite lookup_empty.
Qed.

Lemma inodes_ok_insert m k p u i :
  inodes_ok m -> m !! k = None -> 1 <= i < 2 ^ 63 -> (forall k r, m !! k = Some r -> ir_inode r < i) ->
  inodes_ok (<[k := MkInodeRow i p u]> m).
Proof.
  intros [Hb Hinj] Hk Hi Hlt. split.
  - intros k' r [[<- <-]|[_ ?]]%lookup_insert_Some; [done|eauto].
  - intros k1 k2 r1 r2 [[<- <-]|[Hn1 H1]]%lookup_insert_Some [[<- <-]|[Hn2 H2]]%lookup_insert_Some;
      simpl; intros He; [done| | |eauto].
    + specialize (Hlt _ _ H2). lia.
    + specialize (Hlt _ _ H1). lia.
Qed.

Lemma select_inode_spec k now t o t' :
  select_inode k now t = Ok (o, t') -> t' = t /\ o = ir_inode <$> inodes t !! k.
Proof. unfold select_inode. intros. repeat case_match; by simplify_eq/=. Qed.

Lemma LookupInode_db env k db db' r :
  LookupInode env k db = (r, db') -> tables (conn db') = tables (conn db) /\ nextInode db' = nextInode db /\
  forall i, r = Ok i -> ir_inode <$> inodes (tables (conn db)) !! k = Some i.
Proof.
  unfold LookupInode, bindM.
  destruct (send_cases env "lookup inode for" [k] (select_inode k) db) as [(e & -> & _)|(o & t & -> & Hs)].
  - intros ?. by simplify_eq/=.
  - apply select_inode_spec in Hs as [-> ->]. unfold retM. destruct (inodes _ !! k); intros ?; simplify_eq/=; split_and!; naive_solver.
Qed.

(** What [AssignInode] does to the store: nothing, or it draws the next number
    and, unless the insertion fails, records it. *)
Lemma AssignInode_cases env k p db :
  let '(r, db') := AssignInode env k p db in
  let m := inodes (tables (conn db)) in let m' := inodes (tables (conn db')) in
  (nextInode db' = nextInode db /\ m' = m /\ forall i, r = Ok i -> ir_inode <$> m !! k = Some i) \/
  (m !! k = None /\ nextInode db' = uint64 (nextInode db + 1) /\
   ((m' = m /\ exists e, r = Err e) \/
    (r = Ok (nextInode db) /\ nextInode db < 2 ^ 63 /\ exists u, m' = <[k := MkInodeRow (nextInode db) p u]> m))).
Proof.
  unfold AssignInode, bindM.
  destruct (send_cases env "lookup inode for" [k] (select_inode k) db) as [(e & -> & _)|(o & t & -> & Hs)].
  { unfold retM. simpl. left. split_and!; naive_solver. }
  apply select_inode_spec in Hs as [-> ->]. destruct (inodes _ !! k) as [row|] eqn:Hk; simpl.
  { unfold retM. simpl. left. split_and!; naive_solver. }
  match goal with |- context [send env ?w ?a ?f ?d] =>
    destruct (send_cases env w a f d) as [(e & -> & _)|([] & t & -> & Hi)] end;
    unfold retM; simpl in *; right; (split; [done|]).
  - split; [done|]. left. eauto.
  - split; [done|]. right. unfold insert_inode in Hi. case_match eqn:Hb; [done|].
    rewrite Hk in Hi. simplify_eq/=. split_and!; [done|lia|eauto].
Qed.

Definition grows (m m' : gmap string InodeRow) : Prop :=
  forall k r, m !! k = Some r -> m' !! k = Some r.

Lemma grows_refl m : grows m m.
Proof. by intros k r. Qed.

Definition in_table (m : gmap string InodeRow) (ki : string * Z) : Prop :=
  ir_inode <$> m !! ki.1 = Some ki.2.

Lemma in_table_grows m m' ki : grows m m' -> in_table m ki -> in_table m' ki.
Proof. unfold in_table. intros Hg. destruct (m !! _) eqn:Hk; [|done]. by rewrite (Hg _ _ Hk). Qed.

Lemma db_ok_mono n n' db : n <= n' -> db_ok n db -> db_ok n' db.
Proof. intros Hn (H1 & H2 & H3). split_and!; [done..|lia|lia]. Qed.

Lemma db_ok_same n db db' :
  inodes (tables (conn db')) = inodes (tables (conn db)) -> nextInode db' = nextInode db ->
  db_ok n db -> db_ok n db'.
Proof. unfold db_ok. by intros -> ->. Qed.

Lemma reported_ok {A} n (m : M A) db :
  0 <= n -> keeps same_inodes m -> db_ok n db ->
  let '(l, w) := reported (m db) in
  world_ok (n + 1) w /\ grows (inodes (tables (conn db))) (world_inodes w) /\ Forall (in_table (world_inodes w)) l.
Proof.
  intros Hn Hk Hok. destruct (Hk db) as [H1 H2]. unfold reported. simpl.
  unfold same_inodes in H1. split_and!; [|rewrite H1; apply grows_refl|done].
  apply (db_ok_same _ db); [done..|]. apply (db_ok_mono n); [lia|done].
Qed.

Lemma AssignInode_ok env n k p db :
  0 <= n < 2 ^ 63 - 1 -> db_ok n db ->
  let '(r, db') := AssignInode env k p db in
  db_ok (n + 1) db' /\ grows (inodes (tables (conn db))) (inodes (tables (conn db'))) /\
  forall i, r = Ok i -> in_table (inodes (tables (conn db'))) (k, i).
Proof.
  intros Hn (Hi & Hlt & Hnext). pose proof (AssignInode_cases env k p db) as Hc.
  destruct (AssignInode env k p db) as [r db'].
  destruct Hc as [(H1 & H2 & H3)|(Hk & H1 & [[H2 [e ->]]|(-> & Hb & u & H2)])].
  - rewrite H2. split_and!; [|apply grows_refl|exact H3].
    unfold db_ok. rewrite H1, H2. split; [exact Hi|split; [done|lia]].
  - rewrite H2. split_and!; [|apply grows_refl|done].
    unfold db_ok. rewrite H1, H2. unfold uint64. rewrite Z.mod_small by lia.
    split; [exact Hi|split; [|lia]]. intros k' r' Hk'. specialize (Hlt _ _ Hk'). lia.
  - unfold db_ok. rewrite H1, H2. unfold uint64. rewrite Z.mod_small by lia. split_and!; try lia.
    + apply inodes_ok_insert; [done|done|lia|done].
    + intros k' r' [[<- <-]|[_ Hk']]%lookup_insert_Some; simpl; [lia|]. specialize (Hlt _ _ Hk'). lia.
    + intros k' r' Hk'. rewrite lookup_insert_ne; [done|]. congruence.
    + intros i [= <-]. unfold in_table. simpl. by rewrite lookup_insert_eq.
Qed.

Lemma step_ok env e n w :
  0 <= n < 2 ^ 63 - 1 -> world_ok n w ->
  let '(l, w') := step env e w in
  world_ok (n + 1) w' /\ grows (world_inodes w) (world_inodes w') /\ Forall (in_table (world_inodes w')) l.
Proof.
  intros Hn Hw. destruct w as [db|disk t].
  - destruct e as [k p|k|fs|fs|k|k|k d|]; cbn [step].
    + pose proof (AssignInode_ok env n k p db Hn Hw) as Ha.
      destruct (AssignInode env k p db) as [[i|e] db'], Ha as (H1 & H2 & H3); simpl; split_and!; auto.
    + destruct (LookupInode env k db) as [r db'] eqn:Hl. apply LookupInode_db in Hl as (H1 & H2 & H3).
      assert (db_ok (n + 1) db') by
        (apply (db_ok_same _ db); [by rewrite H1|done|]; apply (db_ok_mono n); [lia|done]).
      destruct r as [i|e]; simpl; rewrite H1; split_and!; auto using grows_refl.
      constructor; [|done]. by apply H3.
    + apply (reported_ok n); [lia|apply UpsertFiles_inodes|done].
    + apply (reported_ok n); [lia|apply ReplaceFiles_inodes|done].
    + apply (reported_ok n); [lia|apply HideFile_inodes|done].
    + apply (reported_ok n); [lia|apply UnhideFile_inodes|done].
    + apply (reported_ok n); [lia|apply UnhideDownload_inodes|done].
    + destruct (Open env _ _) as [[db'|e] t] eqn:Ho.
      * apply Open_ok in Ho as [H1 H2]; [|apply Hw]. simpl. rewrite H1.
        split_and!; [|apply grows_refl|done]. apply (db_ok_mono 0); [lia|done].
      * simpl. split_and!; [apply Hw|apply grows_refl|done].
  - destruct e; simpl; try (split_and!; [done|apply grows_refl|done]).
    destruct (Open env _ _) as [[db'|e] t'] eqn:Ho; simpl.
    + apply Open_ok in Ho as [H1 H2]; [|done]. rewrite H1.
      split_and!; [|apply grows_refl|done]. apply (db_ok_mono 0); [lia|done].
    + split_and!; [done|apply grows_refl|done].
Qed.

Lemma run_ok env evs n w :
  0 <= n -> n + Z.of_nat (length evs) < 2 ^ 63 -> world_ok n w ->
  let '(l, w') := run env evs w in
  inodes_ok (world_inodes w') /\ grows (world_inodes w) (world_inodes w') /\ Forall (in_table (world_inodes w')) l.
Proof.
  revert n w. induction evs as [|e evs IH]; intros n w Hn Hlen Hw; simpl in *.
  - split_and!; [by apply (world_ok_inodes n)|apply grows_refl|done].
  - assert (0 <= n < 2 ^ 63 - 1) as Hn' by lia.
    pose proof (step_ok env e n w Hn' Hw) as Hs. destruct (step env e w) as [l1 w1].
    destruct Hs as (H1 & H2 & H3).
    assert (0 <= n + 1) as Hn1 by lia. assert (n + 1 + Z.of_nat (length evs) < 2 ^ 63) as Hlen1 by lia.
    pose proof (IH (n + 1) w1 Hn1 Hlen1 H1) as Hr. destruct (run env evs w1) as [l2 w2].
    destruct Hr as (H4 & H5 & H6). split_and!; [done|by intros k r ?%H2%H5|].
    apply Forall_app. split; [|done]. eapply Forall_impl; [exact H3|]. intros ki. by apply in_table_grows.
Qed.

(** [C14] Inode numbers are stable and unique.  Over any sequence of store
    operations and restarts, from a new database file and with any statements
    failing, two callers are given the same inode number exactly when they asked
    for the same content key, and every number is in 1 .. 2^63-1. *)
Theorem inodes_stable_unique env evs :
  Z.of_nat (length evs) < 2 ^ 63 ->
  let log := (run env evs (Down None 0)).1 in
  (forall k1 k2 i1 i2, (k1, i1) ∈ log -> (k2, i2) ∈ log -> (i1 = i2 <-> k1 = k2)) /\
  (forall k i, (k, i) ∈ log -> 1 <= i < 2 ^ 63).
Proof.
  intros Hlen. assert (world_ok 0 (Down None 0)) as Hw by done.
  assert (0 + Z.of_nat (length evs) < 2 ^ 63) as Hlen' by lia.
  pose proof (run_ok env evs 0 _ ltac:(lia) Hlen' Hw) as Hr. destruct (run env evs (Down None 0)) as [l w].
  destruct Hr as ([Hb Hinj] & _ & Hl). simpl. rewrite Forall_forall in Hl.
  assert (forall k i, (k, i) ∈ l -> exists r, world_inodes w !! k = Some r /\ ir_inode r = i) as Hrow.
  { intros k i Hk%Hl. unfold in_table in Hk. simpl in Hk. destruct (world_inodes w !! k) as [r|]; naive_solver. }
  split.
  - intros k1 k2 i1 i2 (r1 & E1 & <-)%Hrow (r2 & E2 & <-)%Hrow. split; [eauto|]. intros ->. congruence.
  - intros k i (r & E & <-)%Hrow. eauto.
Qed.

Definition inode_run : list Event :=
  [ERestart; EAssign "torrent:1:1" "/movies/A/a.mkv"; EAssign "torrent:1:2" "/movies/A/b.mkv";
   EAssign "torrent:1:1" "/movies/B/a.mkv"; ERestart; ELookup "torrent:1:2"; EAssign "dir:/movies" "/movies"].

Definition inode_log : list (string * Z) :=
  [("torrent:1:1", 1); ("torrent:1:2", 2); ("torrent:1:1", 1); ("torrent:1:2", 2); ("dir:/movies", 3)].

Lemma inodes_stable_unique_witness :
  (run calm inode_run (Down None 0)).1 = inode_log /\
  forall k i, (k, i) ∈ inode_log -> 1 <= i < 2 ^ 63.
Proof.
  assert ((run calm inode_run (Down None 0)).1 = inode_log) as Hl by (vm_compute; reflexivity).
  split; [exact Hl|]. rewrite <- Hl.
  apply (inodes_stable_unique calm inode_run). vm_compute. reflexivity.
Defined.

(** ** [ReplaceFiles] *)

(** The outcome of a function: an error, or a value with tables related to the
    ones before; the second only when a statement failed. *)
Definition yields {A} (m : M A) (db : DB) (env : SqlEnv) (Q : A -> Tables -> Prop) : Prop :=
  nextInode (m db).2 = nextInode db /\
  match m db with
  | (Ok a, db') => Q a (tables (conn db'))
  | (Err _, _) => exists n, fault env n <> None
  end.

Section yields.
Context (env : SqlEnv).

Lemma yields_send {A} what args (f : Stmt Tables A) db (Q : A -> Tables -> Prop) :
  (forall now, exists a t, f now (tables (conn db)) = Ok (a, t) /\ Q a t) ->
  yields (send env what args f) db env Q.
Proof.
  intros Hf. unfold yields.
  destruct (send_cases env what args f db) as [(e & -> & He)|(a & t & -> & Hs)]; simpl.
  - destruct (Hf (strftime_now env (tick (conn db)))) as (a & t & Hok & _).
    split; [done|]. destruct He as [He|He]; [|congruence]. exists (tick (conn db)). by rewrite He.
  - split; [done|]. destruct (Hf (strftime_now env (tick (conn db)))) as (a' & t' & Hok & HQ). congruence.
Qed.

Lemma yields_ret {A} (a : A) db (Q : A -> Tables -> Prop) :
  Q a (tables (conn db)) -> yields (retM a) db env Q.
Proof. by split. Qed.

Lemma yields_bind {A B} (m : M A) (k : A -> M B) db P Q :
  yields m db env P ->
  (forall a db', P a (tables (conn db')) -> yields (k a) db' env Q) ->
  yields (bindM m k) db env Q.
Proof.
  unfold yields, bindM. intros [H1 H2] Hk. destruct (m db) as [[a|e] db']; simpl in *; [|done].
  destruct (Hk a db' H2) as [H3 H4]. split; [congruence|done].
Qed.

Lemma yields_each {A} what (args : A -> list string) (f : A -> Stmt Tables unit) (R : list A -> Tables -> Prop) l db :
  R [] (tables (conn db)) ->
  (forall l x t now, R l t -> exists t', f x now t = Ok (tt, t') /\ R (l ++ [x]) t') ->
  yields (each (fun x => send env what (args x) (f x)) l) db env (fun _ t => R l t).
Proof.
  intros H0 Hstep. assert (forall l0 db, R l0 (tables (conn db)) ->
    yields (each (fun x => send env what (args x) (f x)) l) db env (fun _ t => R (l0 ++ l) t)) as Hg; [|by apply (Hg [])].
  clear db H0. induction l as [|x l IH]; intros done0 db H0; simpl.
  - apply yields_ret. by rewrite app_nil_r.
  - eapply yields_bind.
    + apply (yields_send _ _ _ _ (fun _ t => R (done0 ++ [x]) t)). intros now.
      destruct (Hstep done0 x _ now H0) as (t' & E & HR). eauto.
    + intros u db' HR. replace (done0 ++ x :: l) with ((done0 ++ [x]) ++ l) by (by rewrite <- app_assoc). by apply IH.
Qed.

(** An error of the body, or of [Begin], leaves the tables untouched. *)
Lemma transaction_spec {A} (body : M A) db (Q : A -> Tables -> Prop) :
  (forall db', tables (conn db') = tables (conn db) -> yields body db' env Q) ->
  yields (transaction env body) db env Q /\
  (is_Ok (transaction env body db).1 = false ->
   tables (conn (transaction env body db).2) = tables (conn db)).
Proof.
  intros Hb. unfold transaction, yields.
  destruct (send_cases env "begin tx" [] control db) as [(e & -> & [He|He])|(a & t & -> & Hc)].
  - simpl. split; [|done]. split; [done|]. exists (tick (conn db)). by rewrite He.
  - done.
  - unfold control in Hc. simplify_eq/=.
    match goal with |- context [body ?d] => destruct (Hb d eq_refl) as [H1 H2]; destruct (body d) as [[x|e] db'] end; done.
Qed.

End yields.

Ltac yields_stmt := intros ?; do 2 eexists; split; [reflexivity|].

(** The record [fs] holds for a key: the last one. *)
Definition last_record (fs : list FileRecord) (k : string) : option FileRecord :=
  last (filter (fun f => ContentKey f = k) fs).

Lemma last_record_snoc fs f k :
  last_record (fs ++ [f]) k = if decide (ContentKey f = k) then Some f else last_record fs k.
Proof.
  unfold last_record. rewrite filter_app. simpl. rewrite (filter_cons _ f []), filter_nil.
  destruct (decide _); [by rewrite last_snoc|by rewrite app_nil_r].
Qed.

Definition keys_of (fs : list FileRecord) : gset string := list_to_set (ContentKey <$> fs).

Lemma last_record_None fs k : last_record fs k = None <-> k ∉ keys_of fs.
Proof.
  unfold last_record, keys_of. rewrite last_None.
  induction fs as [|f fs IH]; [set_solver|]. rewrite filter_cons. simpl.
  destruct (decide _); [set_solver|]. rewrite IH. set_solver.
Qed.

(** The [files] table after the upserts of [fs]. *)
Definition upserted (t0 : Tables) (fs : list FileRecord) (t : Tables) : Prop :=
  inodes t = inodes t0 /\ hidden_files t = hidden_files t0 /\ current_keys t = current_keys t0 /\
  forall k, fr_record <$> files t !! k =
            match last_record fs k with Some f => Some f | None => fr_record <$> files t0 !! k end.

Lemma upsert_file_step t0 fs f t now :
  upserted t0 fs t -> exists t', upsert_file f now t = Ok (tt, t') /\ upserted t0 (fs ++ [f]) t'.
Proof.
  intros (H1 & H2 & H3 & H4). eexists. split; [reflexivity|]. split_and!; [done..|].
  intros k. simpl. rewrite last_record_snoc. destruct (decide (ContentKey f = k)) as [<-|Hk].
  - by rewrite lookup_insert_eq.
  - rewrite lookup_insert_ne by done. apply H4.
Qed.

Definition with_keys (t0 : Tables) (fs : list FileRecord) (t : Tables) : Prop :=
  t = set_current (Some (keys_of fs)) t0.

Lemma insert_key_step t0 fs f t now :
  with_keys t0 fs t ->
  exists t', insert_temp_key (ContentKey f) now t = Ok (tt, t') /\ with_keys t0 (fs ++ [f]) t'.
Proof.
  unfold with_keys. intros ->. eexists. split; [reflexivity|]. unfold set_current. simpl. do 2 f_equal.
  unfold keys_of. rewrite fmap_app, list_to_set_app_L. simpl. set_solver.
Qed.

(** What a completed [ReplaceFiles fs] leaves. *)
Definition replaced (t0 : Tables) (fs : list FileRecord) (stale : Z) (t : Tables) : Prop :=
  inodes t = inodes t0 /\ current_keys t = None /\
  (forall k, fr_record <$> files t !! k = last_record fs k) /\
  (forall k, hidden_files t !! k = if decide (k ∈ keys_of fs) then hidden_files t0 !! k else None) /\
  stale = Z.of_nat (size (filter (fun k => k ∉ keys_of fs) (dom (files t0)))).

Lemma size_nonzero (X : gset string) : size X <> 0%nat <-> X <> ∅.
Proof. rewrite size_non_empty_iff. split; intros H E; apply H; [by rewrite E|by apply leibniz_equiv]. Qed.

Lemma size_filter_not (X : gset string) (P : string -> Prop) `{forall k, Decision (P k)} :
  Z.of_nat (size X) - Z.of_nat (size (filter P X)) = Z.of_nat (size (filter (fun k => ~ P k) X)).
Proof.
  assert (filter P X ∪ filter (fun k => ~ P k) X = X) as Hx.
  { apply set_eq. intros k. rewrite elem_of_union, !elem_of_filter. destruct (decide (P k)); naive_solver. }
  rewrite <- Hx at 1. rewrite size_union; [lia|]. set_solver.
Qed.

Lemma dom_filter_keys {V} (m : gmap string V) (P : string -> Prop) `{forall k, Decision (P k)} :
  dom (filter (fun kv => P kv.1) m) = filter P (dom m).
Proof.
  apply set_eq. intros k. rewrite elem_of_filter, !elem_of_dom. unfold is_Some.
  setoid_rewrite map_lookup_filter_Some. simpl. naive_solver.
Qed.

Lemma upserted_dom t0 fs t : upserted t0 fs t -> dom (files t) = dom (files t0) ∪ keys_of fs.
Proof.
  intros (_ & _ & _ & H4). apply set_eq. intros k. specialize (H4 k).
  rewrite elem_of_union, !elem_of_dom. pose proof (last_record_None fs k) as Hn.
  rewrite <- (fmap_is_Some fr_record (files t !! k)), H4.
  rewrite <- (fmap_is_Some fr_record (files t0 !! k)).
  destruct (last_record fs k) as [f|].
  - split; [intros _; right|by eauto]. destruct (decide (k ∈ keys_of fs)); [done|]. exfalso. naive_solver.
  - split; [by left|]. intros [?|?]; [done|]. naive_solver.
Qed.

Lemma lookup_filter_key {V} (m : gmap string V) (P : string -> Prop) `{forall k, Decision (P k)} k :
  filter (fun kv => P kv.1) m !! k = if decide (P k) then m !! k else None.
Proof.
  destruct (decide (P k)) as [Hk|Hk].
  - apply option_eq. intros v. rewrite map_lookup_filter_Some. simpl. naive_solver.
  - apply map_lookup_filter_None. naive_solver.
Qed.

(** After the upserts the three cleanup statements produce [replaced]. *)
Lemma cleanup_spec t0 fs t :
  current_keys t0 = None -> upserted (set_current (Some (keys_of fs)) t0) fs t ->
  let ks := keys_of fs in
  let t1 := set_files (filter (fun kv => kv.1 ∈ ks) (files t)) t in
  let t2 := set_hidden (filter (fun kv => is_Some (files t1 !! kv.1)) (hidden_files t1)) t1 in
  replaced t0 fs (Z.of_nat (size (files t)) - Z.of_nat (size (files t1))) (set_current None t2).
Proof.
  intros Hc Hu. pose proof (upserted_dom _ _ _ Hu) as Hd. destruct Hu as (H1 & H2 & H3 & H4). simpl.
  assert (forall k, fr_record <$> filter (fun kv => kv.1 ∈ keys_of fs) (files t) !! k = last_record fs k) as Hf.
  { intros k. pose proof (lookup_filter_key (files t) (fun k => k ∈ keys_of fs) k) as Hx.
    cbv beta in Hx. rewrite Hx. specialize (H4 k).
    pose proof (last_record_None fs k) as Hn. destruct (decide _).
    - rewrite H4. destruct (last_record fs k); [done|]. naive_solver.
    - symmetry. by apply Hn. }
  split_and!; [done|done|exact Hf| |].
  - intros k. simpl.
    pose proof (lookup_filter_key (hidden_files t)
      (fun k => is_Some (filter (fun kv => kv.1 ∈ keys_of fs) (files t) !! k)) k) as Hx.
    cbv beta in Hx. rewrite Hx, H2. simpl.
    specialize (Hf k). pose proof (last_record_None fs k) as Hn.
    destruct (decide (k ∈ keys_of fs)) as [Hk|Hk].
    + rewrite decide_True; [done|]. rewrite <- (fmap_is_Some fr_record), Hf.
      destruct (last_record fs k); [done|]. naive_solver.
    + rewrite decide_False; [done|]. rewrite <- (fmap_is_Some fr_record), Hf.
      apply Hn in Hk. rewrite Hk. by intros [? ?].
  - pose proof (dom_filter_keys (files t) (fun k => k ∈ keys_of fs)) as Hx. cbv beta in Hx.
    rewrite <- !size_dom, Hx, size_filter_not, Hd.
    do 2 f_equal. apply set_eq. intros k. rewrite !elem_of_filter, elem_of_union. simpl. tauto.
Qed.

Lemma ReplaceFiles_yields env fs db :
  current_keys (tables (conn db)) = None ->
  yields (ReplaceFiles env fs) db env (replaced (tables (conn db)) fs) /\
  (is_Ok (ReplaceFiles env fs db).1 = false ->
   tables (conn (ReplaceFiles env fs db).2) = tables (conn db)).
Proof.
  intros Hc. unfold ReplaceFiles. apply transaction_spec. intros db1 E1.
  set (t0 := tables (conn db)) in *. set (tk := set_current (Some (keys_of fs)) t0).
  eapply (yields_bind _ _ _ _ (fun _ t => with_keys t0 [] t)).
  { apply yields_send. intros ?. rewrite E1. unfold create_temp_keys. rewrite Hc. by do 2 eexists. }
  intros ? db2 E2. eapply (yields_bind _ _ _ _ (fun _ t => with_keys t0 [] t)).
  { apply yields_send. yields_stmt. done. }
  intros ? db3 E3. eapply (yields_bind _ _ _ _ (fun _ t => t = tk)).
  { apply (yields_each _ _ _ _ (with_keys t0)); [done|]. intros. by apply insert_key_step. }
  intros ? db4 E4. eapply (yields_bind _ _ _ _ (fun _ t => upserted tk [] t)).
  { apply yields_send. yields_stmt. rewrite E4. by split_and!. }
  intros ? db5 E5. eapply (yields_bind _ _ _ _ (fun _ t => upserted tk fs t)).
  { apply (yields_each _ _ _ _ (upserted tk)); [done|]. intros. by apply upsert_file_step. }
  intros ? db6 E6. pose proof (cleanup_spec t0 fs (tables (conn db6)) Hc E6) as Hr. cbv zeta in Hr.
  assert (current_keys (tables (conn db6)) = Some (keys_of fs)) as Hk6 by apply E6.
  eapply (yields_bind _ _ _ _ (fun n t => t = set_files _ (tables (conn db6)) /\ n = _)).
  { apply yields_send. intros ?. unfold delete_stale_files. rewrite Hk6. by do 2 eexists. }
  intros n db7 [E7 ->]. eapply (yields_bind _ _ _ _ (fun _ t => t = _)).
  { apply yields_send. yields_stmt. reflexivity. }
  intros ? db8 E8. eapply (yields_bind _ _ _ _ (fun _ t => t = _)).
  { apply yields_send. yields_stmt. reflexivity. }
  intros ? db9 E9. eapply (yields_bind _ _ _ _ (fun _ t => t = _)).
  { apply yields_send. yields_stmt. reflexivity. }
  intros ? db10 E10. apply yields_ret. rewrite E10, E9, E8, E7. exact Hr.
Qed.

(** [C13] [ReplaceFiles] is atomic and exact.  Either it fails, only because a
    statement failed, and nothing in the database has changed; or it succeeds,
    and then the [files] table holds for each key the last record given for it
    and no other keys, a key is hidden exactly when it was and is among the
    records, every inode is kept, the temporary table is gone, and the number
    returned is that of the old keys that went. *)
Theorem ReplaceFiles_atomic_exact env fs db :
  current_keys (tables (conn db)) = None ->
  let '(r, db') := ReplaceFiles env fs db in
  let t := tables (conn db) in
  let t' := tables (conn db') in
  nextInode db' = nextInode db /\
  match r with
  | Err _ => t' = t /\ exists n, fault env n <> None
  | Ok stale =>
      inodes t' = inodes t /\ current_keys t' = None /\
      (forall k, fr_record <$> files t' !! k = last_record fs k) /\
      (forall k, is_Some (hidden_files t' !! k) <-> is_Some (hidden_files t !! k) /\ k ∈ keys_of fs) /\
      stale = Z.of_nat (size (filter (fun k => k ∉ keys_of fs) (dom (files t))))
  end.
Proof.
  intros Hc. destruct (ReplaceFiles_yields env fs db Hc) as [[H1 H2] H3].
  destruct (ReplaceFiles env fs db) as [[n|e] db']; simpl in *; (split; [done|]).
  - destruct H2 as (E1 & E2 & E3 & E4 & E5). split_and!; try done. intros k. rewrite E4.
    destruct (decide _); [tauto|]. split; [by intros [? ?]|tauto].
  - split; [by apply H3|done].
Qed.

Definition rec_a : FileRecord := MkFileRecord "torrent:1:1" "torrent" "1" "1" "/movies/A/a.mkv" 10.
Definition rec_b : FileRecord := MkFileRecord "torrent:1:2" "torrent" "1" "2" "/movies/A/b.mkv" 20.
Definition rec_c : FileRecord := MkFileRecord "usenet:1:1" "usenet" "1" "1" "/movies/C/c.mkv" 30.

(** A store with [a] and [b], both hidden. *)
Definition demo_db : DB :=
  MkDB (MkConn (MkTables ∅
    (<["torrent:1:1" := MkFileRow rec_a "t"]> (<["torrent:1:2" := MkFileRow rec_b "t"]> ∅))
    (<["torrent:1:1" := "t"]> (<["torrent:1:2" := "t"]> ∅)) None) 0) 1.

Lemma ReplaceFiles_atomic_exact_witness :
  let '(r, db') := ReplaceFiles calm [rec_b; rec_c] demo_db in
  r = Ok 1 /\ fr_record <$> files (tables (conn db')) !! "torrent:1:2" = Some rec_b /\
  (is_Some (hidden_files (tables (conn db')) !! "torrent:1:2") <->
   is_Some (hidden_files (tables (conn demo_db)) !! "torrent:1:2") /\ "torrent:1:2" ∈ keys_of [rec_b; rec_c]).
Proof.
  pose proof (ReplaceFiles_atomic_exact calm [rec_b; rec_c] demo_db eq_refl) as H.
  assert ((ReplaceFiles calm [rec_b; rec_c] demo_db).1 = Ok 1) as Hr by (vm_compute; reflexivity).
  destruct (ReplaceFiles calm [rec_b; rec_c] demo_db) as [r db']. simpl in Hr. subst r.
  destruct H as (_ & _ & _ & Hf & Hh & _). split; [reflexivity|]. split; [exact (Hf "torrent:1:2")|].
  exact (Hh "torrent:1:2").
Defined.

(** ** Hidden downloads *)

(** A download kind or id as the client produces them: no wildcard, no colon, no
    upper-case letter. *)
Definition plain_byte (c : ascii) : Prop := like_plain c /\ c <> colon /\ lower_byte c = c.

#[export] Instance plain_byte_dec c : Decision (plain_byte c).
Proof. unfold plain_byte. apply _. Defined.

Definition plain_id (s : string) : Prop := all_bytes plain_byte s.

#[export] Instance plain_id_dec s : Decision (plain_id s).
Proof. unfold plain_id. apply _. Defined.

(** [File.ContentKey] composes kind, download and file id. *)
Definition content_key (downloadKind downloadID fileID : string) : string :=
  downloadKind +:+ ":" +:+ downloadID +:+ ":" +:+ fileID.

Definition record_ok (f : FileRecord) : Prop :=
  ContentKey f = content_key (DownloadKind f) (DownloadID f) (FileID f) /\
  plain_id (DownloadKind f) /\ plain_id (DownloadID f).

#[export] Instance record_ok_dec f : Decision (record_ok f).
Proof. unfold record_ok. apply _. Defined.

(** The tables after a completed refresh: rows under their own key, no hidden
    entry without a file. *)
Definition tables_ok (t : Tables) : Prop :=
  map_Forall (fun k row => ContentKey (fr_record row) = k /\ record_ok (fr_record row)) (files t) /\
  dom (hidden_files t) ⊆ dom (files t).

#[export] Instance tables_ok_dec t : Decision (tables_ok t).
Proof. unfold tables_ok. apply _. Defined.

Lemma ToLower_app a b : ToLower (a +:+ b) = ToLower a +:+ ToLower b.
Proof. induction a as [|c a IH]; [done|]. simpl. by rewrite IH. Qed.

Lemma ToLower_plain s : plain_id s -> ToLower s = s.
Proof. induction s as [|c s IH]; [done|]. intros [(_ & _ & Hc) Hs]. simpl. rewrite Hc. f_equal. by apply IH. Qed.

Lemma all_bytes_app P a b : all_bytes P (a +:+ b) <-> all_bytes P a /\ all_bytes P b.
Proof. induction a as [|c a IH]; [simpl; tauto|]. simpl. rewrite IH. tauto. Qed.

Lemma all_bytes_impl (P Q : ascii -> Prop) s : (forall c, P c -> Q c) -> all_bytes P s -> all_bytes Q s.
Proof. intros Hi. induction s; naive_solver. Qed.

Lemma prefix_colon a a' s s' :
  all_bytes (fun c => c <> colon) a -> all_bytes (fun c => c <> colon) a' ->
  HasPrefix (a' +:+ String colon s') (a +:+ String colon s) = bool_decide (a = a') && HasPrefix s' s.
Proof.
  revert a'. induction a as [|c a IH]; intros [|c' a'] Ha Ha';
    rewrite ?app_nil_str, ?app_cons_str, HasPrefix_cons.
  - by rewrite !bool_decide_true.
  - destruct Ha' as [Hc' _]. by rewrite !bool_decide_false by congruence.
  - destruct Ha as [Hc _]. by rewrite !bool_decide_false by congruence.
  - destruct Ha as [Hc Ha], Ha' as [Hc' Ha']. rewrite IH by done. rewrite andb_assoc. f_equal.
    rewrite <- bool_decide_and. apply bool_decide_ext. naive_solver.
Qed.

(** On well-formed keys the [LIKE] pattern of a download selects its files. *)
Lemma like_download kind id f :
  plain_id kind -> plain_id id -> record_ok f ->
  like (download_prefix kind id +:+ "%") (ContentKey f) = bool_decide (of_download kind id f).
Proof.
  intros Hk Hi (He & Hfk & Hfi).
  assert (forall s, plain_id s -> all_bytes like_plain s) as Hl by (intros s; apply all_bytes_impl; by intros c (? & _)).
  assert (forall s, plain_id s -> all_bytes (fun c => c <> colon) s) as Hc by (intros s; apply all_bytes_impl; by intros c (_ & ? & _)).
  assert (all_bytes like_plain (download_prefix kind id)) as Hp.
  { unfold download_prefix. rewrite !all_bytes_app. split_and!; auto; by vm_compute. }
  change "%" with (str1 percent). rewrite like_prefix by done. rewrite He.
  unfold content_key, download_prefix. rewrite !ToLower_app, !(ToLower_plain kind), !(ToLower_plain id) by done.
  rewrite (ToLower_plain (DownloadKind f)), (ToLower_plain (DownloadID f)) by done.
  change (ToLower ":") with (String colon ""). rewrite !app_cons_str, !app_nil_str.
  rewrite !prefix_colon by auto. rewrite HasPrefix_nil, andb_true_r.
  rewrite <- bool_decide_and. apply bool_decide_ext. unfold of_download. naive_solver.
Qed.

(** The content keys of a download's files. *)
Definition download_keys (t : Tables) (kind id : string) : gset string :=
  dom (filter (fun kv => of_download kind id (fr_record kv.2)) (files t)).

Lemma elem_of_download_keys t kind id k :
  k ∈ download_keys t kind id <-> exists row, files t !! k = Some row /\ of_download kind id (fr_record row).
Proof.
  unfold download_keys. rewrite elem_of_dom. unfold is_Some. setoid_rewrite map_lookup_filter_Some. done.
Qed.

Lemma hidden_like_keys t kind id :
  tables_ok t -> plain_id kind -> plain_id id ->
  filter (fun k => like (download_prefix kind id +:+ "%") k = true) (dom (hidden_files t)) =
  dom (hidden_files t) ∩ download_keys t kind id.
Proof.
  intros [Hf Hd] Hk Hi. apply set_eq. intros k.
  rewrite elem_of_filter, elem_of_intersection, elem_of_download_keys.
  split; intros [H1 H2]; [split; [done|]|split; [|done]].
  - apply Hd, elem_of_dom in H2 as [row Hrow]. exists row. split; [done|].
    destruct (Hf _ _ Hrow) as [<- Hok]. rewrite like_download in H1 by done. by apply bool_decide_eq_true in H1.
  - clear H1. destruct H2 as (row & Hrow & Ho). destruct (Hf _ _ Hrow) as [<- Hok].
    rewrite like_download by done. by apply bool_decide_eq_true.
Qed.

(** [C34] [IsDownloadFullyHidden] answers the question its name asks.  In the
    tables a refresh leaves, and unless a statement fails, it returns true exactly
    when the download has a file and every file of it is hidden; it changes nothing.
    Kind and id contain no LIKE wildcard, no colon and no upper-case letter
    ([plain_id]), as the kinds and printed numbers the program passes do. *)
Theorem IsDownloadFullyHidden_exact env kind id db :
  tables_ok (tables (conn db)) -> plain_id kind -> plain_id id ->
  let '(r, db') := IsDownloadFullyHidden env kind id db in
  tables (conn db') = tables (conn db) /\
  match r with
  | Ok b => b = true <->
      download_keys (tables (conn db)) kind id <> ∅ /\
      download_keys (tables (conn db)) kind id ⊆ dom (hidden_files (tables (conn db)))
  | Err _ => exists n, fault env n <> None
  end.
Proof.
  intros Ht Hk Hi. unfold IsDownloadFullyHidden, bindM.
  match goal with |- context [send env ?w ?a ?f ?d] =>
    destruct (send_cases env w a f d) as [(e & -> & [He|He])|(hc & t & -> & Hs)] end; [|done|].
  { simpl. split; [done|]. eexists. by rewrite He. }
  unfold count_hidden_like in Hs. injection Hs as <- <-. cbn [conn tables tick].
  match goal with |- context [send env ?w ?a ?f ?d] =>
    destruct (send_cases env w a f d) as [(e & -> & [He|He])|(tc & t & -> & Hs)] end; [|done|].
  { simpl. split; [done|]. eexists. by rewrite He. }
  unfold count_files_of in Hs. simpl in Hs. injection Hs as <- <-. unfold retM. cbn [conn tables tick].
  split; [done|]. rewrite <- !size_dom. fold (download_keys (tables (conn db)) kind id).
  pose proof (dom_filter_keys (hidden_files (tables (conn db)))
    (fun k => like (download_prefix kind id +:+ "%") k = true)) as Hx. cbv beta in Hx. rewrite Hx.
  rewrite hidden_like_keys by done.
  set (X := download_keys (tables (conn db)) kind id). set (H := dom (hidden_files (tables (conn db)))).
  rewrite andb_true_iff, Z.ltb_lt, Z.leb_le.
  rewrite <- size_nonzero. split.
  - intros [H1 H2]. split; [lia|]. assert (H ∩ X = X) as Hxe; [|set_solver].
    apply set_subseteq_size_eq; [set_solver|lia].
  - intros [H1 H2]. split; [lia|]. assert (H ∩ X = X) as -> by set_solver. lia.
Qed.

Lemma IsDownloadFullyHidden_exact_witness :
  let '(r, db') := IsDownloadFullyHidden calm "torrent" "1" demo_db in
  r = Ok true /\ tables (conn db') = tables (conn demo_db).
Proof.
  assert (tables_ok (tables (conn demo_db))) as Hok by (apply (bool_decide_unpack _); vm_compute; exact I).
  assert (plain_id "torrent") as Hk by (apply (bool_decide_unpack _); vm_compute; exact I).
  assert (plain_id "1") as Hi by (apply (bool_decide_unpack _); vm_compute; exact I).
  pose proof (IsDownloadFullyHidden_exact calm "torrent" "1" demo_db Hok Hk Hi) as H.
  assert ((IsDownloadFullyHidden calm "torrent" "1" demo_db).1 = Ok true) as Hr by (vm_compute; reflexivity).
  destruct (IsDownloadFullyHidden calm "torrent" "1" demo_db) as [r db']. simpl in Hr. subst r.
  destruct H as [Ht _]. split; [reflexivity|exact Ht].
Defined.

(** A completed [ReplaceFiles] of well-formed records establishes [tables_ok]. *)
Lemma replaced_tables_ok t0 fs n t :
  Forall record_ok fs -> replaced t0 fs n t -> tables_ok t.
Proof.
  intros Hfs (_ & _ & Hf & Hh & _). split.
  - intros k row Hk. specialize (Hf k). rewrite Hk in Hf. simpl in Hf. symmetry in Hf.
    apply last_Some_elem_of, list_elem_of_filter in Hf as [<- Hin].
    split; [done|]. rewrite Forall_forall in Hfs. auto.
  - intros k. rewrite !elem_of_dom, Hh. destruct (decide _) as [Hk|]; [|by intros [? ?]]. intros _.
    rewrite <- (fmap_is_Some fr_record), Hf. pose proof (last_record_None fs k).
    destruct (last_record fs k); [done|]. naive_solver.
Qed.

(** [UnhideDownload] is exact.  In the tables a refresh leaves, and unless the
    statement fails, it unhides the files of that download and no others. *)
Theorem UnhideDownload_exact env kind id db :
  tables_ok (tables (conn db)) -> plain_id kind -> plain_id id ->
  let '(r, db') := UnhideDownload env kind id db in
  let t := tables (conn db) in
  let t' := tables (conn db') in
  match r with
  | Ok _ => t' = set_hidden (hidden_files t') t /\ tables_ok t' /\
      forall k, hidden_files t' !! k = if decide (k ∈ download_keys t kind id) then None else hidden_files t !! k
  | Err _ => t' = t /\ exists n, fault env n <> None
  end.
Proof.
  intros [Hf Hd] Hk Hi. unfold UnhideDownload.
  match goal with |- context [send env ?w ?a ?f ?d] =>
    destruct (send_cases env w a f d) as [(e & -> & [He|He])|(hc & t & -> & Hs)] end; [|done|].
  { simpl. split; [done|]. eexists. by rewrite He. }
  unfold delete_hidden_like in Hs. injection Hs as <- <-. cbn [conn tables hidden_files set_hidden].
  split; [done|]. set (t := tables (conn db)) in *.
  assert (forall k, filter (fun kv => like (download_prefix kind id +:+ "%") kv.1 = false) (hidden_files t) !! k =
            if decide (k ∈ download_keys t kind id) then None else hidden_files t !! k) as Hx.
  { intros k. pose proof (lookup_filter_key (hidden_files t) (fun k => like (download_prefix kind id +:+ "%") k = false) k) as Hx.
    cbv beta in Hx. rewrite Hx. destruct (hidden_files t !! k) as [h|] eqn:Hh; [|by destruct (decide _), (decide _)].
    assert (k ∈ dom (files t)) as [row Hrow]%elem_of_dom by (apply Hd, elem_of_dom; eauto).
    destruct (Hf _ _ Hrow) as [<- Hok]. rewrite like_download by done.
    destruct (decide (_ ∈ _)) as [Hin|Hin]; rewrite elem_of_download_keys in Hin.
    - rewrite decide_False; [done|]. destruct Hin as (? & ? & ?). simplify_eq. by rewrite bool_decide_true.
    - rewrite decide_True; [done|]. apply bool_decide_eq_false. naive_solver. }
  split; [split; [exact Hf|]|exact Hx].
  intros k. simpl. rewrite elem_of_dom, Hx. destruct (decide _); [by intros [? ?]|].
  rewrite <- elem_of_dom. apply Hd.
Qed.

Lemma UnhideDownload_exact_witness :
  let '(r, db') := UnhideDownload calm "torrent" "1" demo_db in
  r = Ok tt /\ hidden_files (tables (conn db')) !! "torrent:1:1" = None.
Proof.
  assert (tables_ok (tables (conn demo_db))) as Hok by (apply (bool_decide_unpack _); vm_compute; exact I).
  assert (plain_id "torrent") as Hk by (apply (bool_decide_unpack _); vm_compute; exact I).
  assert (plain_id "1") as Hi by (apply (bool_decide_unpack _); vm_compute; exact I).
  pose proof (UnhideDownload_exact calm "torrent" "1" demo_db Hok Hk Hi) as H.
  assert ((UnhideDownload calm "torrent" "1" demo_db).1 = Ok tt) as Hr by (vm_compute; reflexivity).
  destruct (UnhideDownload calm "torrent" "1" demo_db) as [r db']. simpl in Hr. subst r.
  destruct H as (_ & _ & H). split; [reflexivity|]. rewrite H.
  vm_compute. reflexivity.
Defined.

(** An id with a wildcard reaches other downloads: the pattern is not escaped. *)
Example UnhideDownload_wildcard :
  like (download_prefix "usenet" "a_b" +:+ "%") (content_key "usenet" "axb" "1") = true /\
  like (download_prefix "usenet" "ab" +:+ "%") (content_key "usenet" "AB" "1") = true.
Proof. split; vm_compute; reflexivity. Qed.

Section listing.
Context `{MI : MapIter, SS : SliceSort}.

Lemma elem_of_groups t d :
  d ∈ slice_sort pair_lt (remove_dups ((fun kv => download_of (fr_record kv.2)) <$> map_range 0 (files t)))
  <-> download_keys t d.1 d.2 <> ∅.
Proof.
  rewrite slice_sort_perm, elem_of_remove_dups, list_elem_of_fmap. split.
  - intros ([k row] & -> & Hk). apply elem_of_map_range in Hk. apply non_empty_inhabited_L with k.
    apply elem_of_download_keys. by exists row.
  - intros [k (row & Hk & Ho1 & Ho2)%elem_of_download_keys]%set_choose_L. exists (k, row).
    split; [|by apply elem_of_map_range]. destruct d; simpl in *. unfold download_of. simpl. by subst.
Qed.

Lemma group_row_counts t d :
  g_kind (group_row t d) = d.1 /\ g_id (group_row t d) = d.2 /\
  g_hidden_count (group_row t d) = Z.of_nat (size (dom (hidden_files t) ∩ download_keys t d.1 d.2)) /\
  g_total_count (group_row t d) = Z.of_nat (size (download_keys t d.1 d.2)).
Proof.
  unfold group_row. simpl. split_and!; [done..| |by rewrite <- size_dom].
  rewrite <- size_dom.
  pose proof (dom_filter_keys (filter (fun kv => of_download d.1 d.2 (fr_record kv.2)) (files t))
    (fun k => is_Some (hidden_files t !! k))) as Hx. cbv beta in Hx. rewrite Hx.
  do 2 f_equal. apply set_eq. intros k. rewrite elem_of_filter, elem_of_intersection, (elem_of_dom (hidden_files t)). done.
Qed.

(** [ListHiddenDownloads] lists exactly the downloads with a hidden file,
    once each, with the number of their files and of their hidden ones; in the
    tables a refresh leaves, the two numbers agree exactly for the downloads
    [IsDownloadFullyHidden] reports. *)
Theorem ListHiddenDownloads_exact env db ds :
  (ListHiddenDownloads env db).1 = Ok ds ->
  let t := tables (conn db) in
  NoDup ((fun d => (hd_DownloadKind d, hd_DownloadID d)) <$> ds) /\
  (forall kind id, (kind, id) ∈ (fun d => (hd_DownloadKind d, hd_DownloadID d)) <$> ds <->
                   dom (hidden_files t) ∩ download_keys t kind id <> ∅) /\
  (forall d, d ∈ ds ->
     let keys := download_keys t (hd_DownloadKind d) (hd_DownloadID d) in
     hd_HiddenCount d = Z.of_nat (size (dom (hidden_files t) ∩ keys)) /\
     hd_TotalCount d = Z.of_nat (size keys) /\
     (hd_HiddenCount d = hd_TotalCount d <-> keys ⊆ dom (hidden_files t))).
Proof.
  unfold ListHiddenDownloads, bindM.
  match goal with |- context [send env ?w ?a ?f ?d] =>
    destruct (send_cases env w a f d) as [(e & -> & _)|(rows & t & -> & Hs)] end; [done|].
  match goal with |- context [send env ?w ?a control ?d] =>
    destruct (send_cases env w a control d) as [(e & -> & _)|([] & t' & -> & Hc)] end; [done|].
  intros [= <-]. clear t' Hc. set (t0 := tables (conn db)) in *. cbv zeta.
  unfold select_hidden_downloads in Hs. cbv zeta in Hs.
  set (gs := slice_sort _ _) in Hs. case_match eqn:Hov; [done|]. clear Hov. injection Hs as <- <-.
  rewrite <- list_fmap_compose. unfold compose. simpl.
  assert (NoDup gs) as Hnd by (unfold gs; rewrite slice_sort_perm; apply NoDup_remove_dups).
  assert (forall d, d ∈ gs <-> download_keys t0 d.1 d.2 <> ∅) as Hin by apply elem_of_groups.
  assert (forall g, g ∈ filter (fun g => 0 < g_hidden_count g) (group_row t0 <$> gs) <->
            exists d, g = group_row t0 d /\ dom (hidden_files t0) ∩ download_keys t0 d.1 d.2 <> ∅) as Hel.
  { intros g. rewrite list_elem_of_filter, list_elem_of_fmap.
    assert (forall d, 0 < g_hidden_count (group_row t0 d) <-> dom (hidden_files t0) ∩ download_keys t0 d.1 d.2 <> ∅) as Hpos.
    { intros d. destruct (group_row_counts t0 d) as (_ & _ & -> & _).
      rewrite <- size_nonzero. lia. }
    split.
    - intros (Hp & d & -> & Hd). exists d. split; [done|]. by apply Hpos.
    - intros (d & -> & Hp). split; [by apply Hpos|]. exists d. split; [done|]. apply Hin. set_solver. }
  split_and!.
  - clear Hel Hin. induction Hnd as [|d gs' Hd Hnd IH]; [constructor|].
    rewrite fmap_cons, filter_cons. destruct (decide _); [|done]. rewrite fmap_cons. constructor; [|done].
    destruct (group_row_counts t0 d) as (-> & -> & _). intros Hx.
    apply list_elem_of_fmap in Hx as (g & Hg & Hx). apply list_elem_of_filter in Hx as [_ Hx].
    apply list_elem_of_fmap in Hx as (d' & -> & Hx).
    destruct (group_row_counts t0 d') as (E1 & E2 & _). rewrite E1, E2 in Hg. apply Hd.
    destruct d, d'. simpl in *. by simplify_eq.
  - intros kind id. rewrite list_elem_of_fmap. split.
    + intros (g & Hg & Hx). apply Hel in Hx as (d & -> & Hp).
      destruct d as [k i]. simpl in Hg, Hp. by simplify_eq.
    + intros Hp. exists (group_row t0 (kind, id)). split; [done|]. apply Hel. by exists (kind, id).
  - intros hd Hd. apply list_elem_of_fmap in Hd as (g & -> & Hg). apply Hel in Hg as (d & -> & _).
    destruct (group_row_counts t0 d) as (E1 & E2 & E3 & E4). cbv zeta. cbn [hd_DownloadKind hd_DownloadID hd_HiddenCount hd_TotalCount]. rewrite E1, E2, E3, E4.
    split_and!; [done|done|]. split.
    + intros He. assert (dom (hidden_files t0) ∩ download_keys t0 d.1 d.2 = download_keys t0 d.1 d.2); [|set_solver].
      apply set_subseteq_size_eq; [set_solver|lia].
    + intros Hs. do 2 f_equal. set_solver.
Qed.

End listing.

Lemma ListHiddenDownloads_exact_witness :
  exists ds, (ListHiddenDownloads (H := default_iter) (H0 := default_sort) calm demo_db).1 = Ok ds /\
    ds = [MkHiddenDownload "torrent" "1" "A" 2 2 30] /\
    NoDup ((fun d => (hd_DownloadKind d, hd_DownloadID d)) <$> ds).
Proof.
  assert ((ListHiddenDownloads (H := default_iter) (H0 := default_sort) calm demo_db).1 =
          Ok [MkHiddenDownload "torrent" "1" "A" 2 2 30]) as Hr by (vm_compute; reflexivity).
  exists [MkHiddenDownload "torrent" "1" "A" 2 2 30]. split; [exact Hr|]. split; [reflexivity|].
  exact (proj1 (ListHiddenDownloads_exact (MI := default_iter) (SS := default_sort) calm demo_db _ Hr)).
Defined.

(** ** [AssignInode] for the catalog *)

(** Nothing but the [inodes] table may differ. *)
Definition same_files (t t' : Tables) : Prop :=
  files t' = files t /\ hidden_files t' = hidden_files t /\ current_keys t' = current_keys t.

#[export] Instance same_files_refl : Reflexive same_files.
Proof. by intros t. Qed.
#[export] Instance same_files_trans : Transitive same_files.
Proof. intros a b c (H1 & H2 & H3) (H4 & H5 & H6). unfold same_files. split_and!; congruence. Qed.

Definition no_faults (env : SqlEnv) : Prop := forall n, fault env n = None.

Lemma AssignInode_frame env k p db :
  same_files (tables (conn db)) (tables (conn (AssignInode env k p db).2)).
Proof.
  unfold AssignInode, bindM.
  destruct (send_cases env "lookup inode for" [k] (select_inode k) db) as [(e & -> & _)|(o & t & -> & Hs)]; [done|].
  apply select_inode_spec in Hs as [-> ->]. destruct (inodes _ !! k) as [row|]; simpl; [done|].
  match goal with |- context [send env ?w ?a ?f ?d] =>
    destruct (send_cases env w a f d) as [(e & -> & _)|([] & t & -> & Hi)] end; [done|].
  simpl in *. unfold insert_inode in Hi. repeat case_match; by simplify_eq/=.
Qed.

(** Without faults, and with numbers left, an inode is assigned. *)
Lemma AssignInode_succeeds env k p db n :
  no_faults env -> 0 <= n < 2 ^ 63 - 1 -> db_ok n db -> nextInode db < 2 ^ 63 ->
  let '(r, db') := AssignInode env k p db in
  (exists i, r = Ok i) /\ db_ok (n + 1) db' /\ nextInode db' <= nextInode db + 1.
Proof.
  intros Hf Hn Hok Hroom. pose proof (AssignInode_ok env n k p db Hn Hok) as Ha.
  pose proof (AssignInode_cases env k p db) as Hc. destruct Hok as ([Hb _] & _ & Hnx).
  assert (is_Ok (AssignInode env k p db).1 = true) as Hr.
  { unfold AssignInode, bindM.
    destruct (send_cases env "lookup inode for" [k] (select_inode k) db) as [(e & -> & [He|He])|(o & t & -> & Hs)].
    - by rewrite Hf in He.
    - unfold select_inode in He. destruct (inodes _ !! k) as [row|] eqn:Hk; [|done].
      specialize (Hb _ _ Hk). destruct (Z.ltb_spec (ir_inode row) 0); [lia|done].
    - apply select_inode_spec in Hs as [-> ->]. destruct (inodes _ !! k) as [row|] eqn:Hk; simpl; [done|].
      match goal with |- context [send env ?w ?a ?f ?d] =>
        destruct (send_cases env w a f d) as [(e & -> & [He|He])|([] & t & -> & Hi)] end; [|simpl in *|done].
      + by rewrite Hf in He.
      + unfold insert_inode in He. rewrite Hk in He. destruct (Z.leb_spec (2 ^ 63) (nextInode db)); [lia|done]. }
  destruct (AssignInode env k p db) as [[i|e] db']; [|done]. split; [eauto|]. split; [apply Ha|].
  destruct Hc as [(-> & _)|(_ & -> & _)]; [lia|]. unfold uint64. rewrite Z.mod_small; lia.
Qed.

(** [HiddenSet] and [ListFiles] read the tables. *)
Lemma HiddenSet_spec env db :
  tables (conn (HiddenSet env db).2) = tables (conn db) /\
  (forall x, (HiddenSet env db).1 = Ok x -> x = dom (hidden_files (tables (conn db)))) /\
  (no_faults env -> is_Ok (HiddenSet env db).1 = true).
Proof.
  unfold HiddenSet, bindM.
  match goal with |- context [send env ?w ?a select_hidden_keys ?d] =>
    destruct (send_cases env w a select_hidden_keys d) as [(e & -> & Hs)|(rows & t & -> & Hs)] end.
  { simpl. split_and!; [done|done|]. intros Hf. destruct Hs as [Hs|Hs]; [by rewrite Hf in Hs|done]. }
  unfold select_hidden_keys in Hs. injection Hs as <- <-.
  match goal with |- context [send env ?w ?a control ?d] =>
    destruct (send_cases env w a control d) as [(e & -> & Hs)|([] & t & -> & Hs)] end; simpl.
  - split_and!; [done|done|]. intros Hf. destruct Hs as [Hs|Hs]; [by rewrite Hf in Hs|done].
  - unfold control in Hs. simplify_eq/=. split_and!; [done| |done]. by intros x [= <-].
Qed.

Lemma HiddenSet_next env db : nextInode (HiddenSet env db).2 = nextInode db.
Proof.
  unfold HiddenSet. refine (proj2 (keeps_bind (fun _ _ => True) _ _ _ _ _ db)); [done| |].
  - by apply keeps_send.
  - intros x. apply keeps_bind; [done|by apply keeps_send|]. intros []. by apply keeps_ret.
Qed.

Lemma ListFiles_spec `{MapIter} env db :
  tables (conn (ListFiles env db).2) = tables (conn db) /\
  (forall x, (ListFiles env db).1 = Ok x -> x ≡ₚ (fun kv => fr_record kv.2) <$> map_to_list (files (tables (conn db)))) /\
  (no_faults env -> is_Ok (ListFiles env db).1 = true).
Proof.
  unfold ListFiles, bindM.
  match goal with |- context [send env ?w ?a select_files ?d] =>
    destruct (send_cases env w a select_files d) as [(e & -> & Hs)|(rows & t & -> & Hs)] end.
  { simpl. split_and!; [done|done|]. intros Hf. destruct Hs as [Hs|Hs]; [by rewrite Hf in Hs|done]. }
  unfold select_files in Hs. injection Hs as <- <-.
  match goal with |- context [send env ?w ?a control ?d] =>
    destruct (send_cases env w a control d) as [(e & -> & Hs)|([] & t & -> & Hs)] end; simpl.
  - split_and!; [done|done|]. intros Hf. destruct Hs as [Hs|Hs]; [by rewrite Hf in Hs|done].
  - unfold control in Hs. simplify_eq/=. split_and!; [done| |done]. intros x [= <-]. by rewrite map_range_perm.
Qed.
