(* ===== verification/Classify.v ===== *)
(** * Domain types and media classification

    [internal/catalog/types.go] and [classify.go]: downloads, files and their
    content keys, and the choice between movie and series from tags and file
    names. *)
From Stdlib Require Import Ascii.
From S2P Require Import Prelude GoStrings Regexp.
Open Scope Z_scope.

Definition KindTorrent : string := "torrent".
Definition KindUsenet : string := "usenet".
Definition KindWebDL : string := "webdl".

Definition MediaMovie : string := "movie".
Definition MediaSeries : string := "series".
Definition MediaAnime : string := "anime".

Record File := MkFile {
  f_DownloadKind : string;
  f_DownloadID : string;
  f_FileID : string;
  f_Name : string;
  f_Size : Z;
  f_MimeType : string;
  f_MediaType : string
}.

#[export] Instance File_eq_dec : EqDecision File.
Proof. solve_decision. Defined.

Record Download := MkDownload {
  d_Kind : string;
  d_ID : string;
  d_Name : string;
  d_Hash : string;
  d_Files : list File
}.

Definition ContentKey (f : File) : string :=
  f_DownloadKind f +:+ ":" +:+ f_DownloadID f +:+ ":" +:+ f_FileID f.

(** [(?i)\bS\d{1,2}E\d{1,2}\b|\bS\d{1,2}\b|\bE\d{1,3}\b] *)
Definition seasonEpisodeRe : regex :=
  RAlt (RSeq RBoundary (RSeq fold_S (RSeq (RRepeat is_digit 1 2)
         (RSeq fold_E (RSeq (RRepeat is_digit 1 2) RBoundary)))))
  (RAlt (RSeq RBoundary (RSeq fold_S (RSeq (RRepeat is_digit 1 2) RBoundary)))
        (RSeq RBoundary (RSeq fold_E (RSeq (RRepeat is_digit 1 3) RBoundary)))).

(** [strings.ToLower], as far as equality with an ASCII text can tell: the
    ASCII letters, and the two other letters whose lower case is ASCII, the
    dotted capital I (U+0130) and the Kelvin sign (U+212A). *)
Fixpoint go_ToLower (s : string) : string :=
  match s with
  | EmptyString => EmptyString
  | String c s1 =>
      match s1 with
      | String c2 s2 =>
          if bool_decide (c = ascii_of_nat 196 /\ c2 = ascii_of_nat 176) then String "i" (go_ToLower s2)
          else
            match s2 with
            | String c3 s3 =>
                if bool_decide (c = ascii_of_nat 226 /\ c2 = ascii_of_nat 132 /\ c3 = ascii_of_nat 170)
                then String "k" (go_ToLower s3)
                else String (lower_byte c) (go_ToLower s1)
            | EmptyString => String (lower_byte c) (go_ToLower s1)
            end
      | EmptyString => String (lower_byte c) EmptyString
      end
  end.

(** What a tag says, if it is a type tag. *)
Definition tag_type (tag : string) : option string :=
  let t := go_ToLower tag in
  if bool_decide (t = "type=movie") then Some MediaMovie
  else if bool_decide (t = "type=series") then Some MediaSeries
  else if bool_decide (t = "type=anime") then Some MediaSeries
  else None.

Fixpoint classify_tags (tags : list string) : option string :=
  match tags with
  | [] => None
  | tag :: tags' => match tag_type tag with Some m => Some m | None => classify_tags tags' end
  end.

Definition ClassifyMediaType (tags : list string) (filename fallback : string) : string :=
  match classify_tags tags with
  | Some m => m
  | None => if MatchString seasonEpisodeRe filename then MediaSeries else fallback
  end.

(** With a movie fallback, anime is never the answer: the tree has no directory
    of its own for it. *)
Lemma ClassifyMediaType_range tags filename :
  ClassifyMediaType tags filename MediaMovie = MediaMovie \/
  ClassifyMediaType tags filename MediaMovie = MediaSeries.
Proof.
  unfold ClassifyMediaType. assert (forall m, classify_tags tags = Some m -> m = MediaMovie \/ m = MediaSeries) as Ht.
  { induction tags as [|t tags IH]; simpl; [done|]. unfold tag_type. intros m.
    repeat case_bool_decide; intros; simplify_eq; auto. }
  destruct (classify_tags tags) as [m|]; [by apply Ht|]. destruct (MatchString _ _); auto.
Qed.

Example classify_examples :
  ClassifyMediaType ["x"; "TYPE=Anime"] "a.mkv" MediaMovie = MediaSeries /\
  ClassifyMediaType [] "Show.s01e02.mkv" MediaMovie = MediaSeries /\
  ClassifyMediaType [] "Show S2.mkv" MediaMovie = MediaSeries /\
  ClassifyMediaType [] "part E123.mkv" MediaMovie = MediaSeries /\
  ClassifyMediaType [] "USS12X.mkv" MediaMovie = MediaMovie /\
  ClassifyMediaType ["type=movie"] "Show.S01E02.mkv" MediaMovie = MediaMovie.
Proof. split_and!; vm_compute; reflexivity. Qed.
