(* ===== verification/Tree.v ===== *)
(** * The virtual directory tree

    [internal/catalog/tree.go]: the placement of video files under
    [/movies], [/series] and [/all], the completion of parent directories, and
    lookups.  [File] pointers are the file values: nothing mutates a [File] after
    the tree is built.  The loop of [buildParentDirs] runs with fuel, one more
    than the longest key has bytes; TreeProps shows it is enough for clean paths. *)
From Stdlib Require Import Ascii.
From S2P Require Import Prelude GoStrings Regexp Classify.
From stdpp Require Import pretty.
Open Scope Z_scope.

Record DirEntry := MkDirEntry {
  Name : string;
  EntryFile : option File
}.

#[export] Instance DirEntry_eq_dec : EqDecision DirEntry.
Proof. solve_decision. Defined.

(** [Tree.dirs]; a missing key is the nil slice. *)
Abbreviation Tree := (gmap string (list DirEntry)).

Definition dir_entries (t : Tree) (p : string) : list DirEntry := default [] (t !! p).

(** [t.dirs[p] = append(t.dirs[p], e)] *)
Definition append_entry (p : string) (e : DirEntry) (t : Tree) : Tree :=
  <[p := dir_entries t p ++ [e]]> t.

(** ** Titles and seasons *)

(** [^[0-9a-fA-F]{16,}$] *)
Definition hashRe : regex := RSeq RStart (RSeq (RMany is_hex 16) REnd).

(** [(?i)\bS(\d{1,2})E\d{1,2}\b|\bS(\d{1,2})\b] *)
Definition seasonRe : regex :=
  RAlt (RSeq RBoundary (RSeq fold_S (RSeq (RGroup 1 (RRepeat is_digit 1 2))
         (RSeq fold_E (RSeq (RRepeat is_digit 1 2) RBoundary)))))
       (RSeq RBoundary (RSeq fold_S (RSeq (RGroup 2 (RRepeat is_digit 1 2)) RBoundary))).

Definition firstPathSegment (p : string) : string :=
  default EmptyString (List.find (fun seg => bool_decide (seg <> EmptyString)) (TrimSpace <$> Split p slash)).

Definition downloadTitle (d : Download) : string :=
  match d_Files d with
  | f0 :: _ =>
      if MatchString hashRe (d_Name d) then
        let seg := firstPathSegment (f_Name f0) in
        if bool_decide (seg <> EmptyString) then seg else d_Name d
      else d_Name d
  | [] => d_Name d
  end.

Definition extractSeason (filename : string) : Z :=
  match FindStringSubmatch seasonRe filename with
  | None => 1
  | Some m =>
      match List.find (fun g => bool_decide (g <> EmptyString /\ 0 < Atoi_digits g)) [group 1 m; group 2 m] with
      | Some g => Atoi_digits g
      | None => 1
      end
  end.

(** ** Placing the files *)

Definition is_video (f : File) : bool := HasPrefix (f_MimeType f) "video/".

(** The directory of a video file: [mt], the season and the [path.Join]. *)
Definition file_dir (title : string) (f : File) : string :=
  let mt := if bool_decide (f_MediaType f = EmptyString) then MediaMovie else f_MediaType f in
  let mt := if bool_decide (mt = MediaAnime) then MediaSeries else mt in
  if bool_decide (mt = MediaSeries) then
    path_Join ["/series"; title; "Season " +:+ pretty (extractSeason (f_Name f))]
  else path_Join ["/movies"; title].

Definition file_entry (f : File) : DirEntry := MkDirEntry (path_Base (f_Name f)) (Some f).

Definition addDownload (t : Tree) (d : Download) : Tree :=
  let title := downloadTitle d in
  foldl (fun t f => if is_video f then append_entry (file_dir title f) (file_entry f) t else t)
        t (d_Files d).

Definition addAllFile (title : string) (st : gset string * Tree) (f : File) : gset string * Tree :=
  let '(seen, t) := st in
  if negb (is_video f) then (seen, t)
  else if decide (ContentKey f ∈ seen) then (seen, t)
  else ({[ContentKey f]} ∪ seen, append_entry (path_Join ["/all"; title]) (file_entry f) t).

Definition addAllDir (downloads : list Download) (t : Tree) : Tree :=
  (foldl (fun st d => foldl (addAllFile (downloadTitle d)) st (d_Files d)) (∅, t) downloads).2.

(** ** Parent directories *)

Definition is_dir_entry (name : string) (e : DirEntry) : bool :=
  bool_decide (Name e = name) && bool_decide (EntryFile e = None).

(** What one unseen key adds to its parent, if anything. *)
Definition parent_addition (t : Tree) (p : string) : option (string * DirEntry) :=
  let parent := path_Dir p in
  if bool_decide (parent = p) then None
  else
    let childName := path_Base p in
    if existsb (is_dir_entry childName) (dir_entries t parent) then None
    else Some (parent, MkDirEntry childName None).

Definition apply_additions (additions : list (string * DirEntry)) (t : Tree) : Tree :=
  foldl (fun t a => append_entry a.1 a.2 t) t additions.

Section tree.
Context `{MI : MapIter, SS : SliceSort}.

Fixpoint parents_loop (fuel round : nat) (seen : gset string) (t : Tree) : option Tree :=
  match fuel with
  | O => None
  | S fuel' =>
      let fresh := filter (fun p => p ∉ seen) (map_range round t).*1 in
      let additions := omap (parent_addition t) fresh in
      match additions with
      | [] => Some t
      | _ => parents_loop fuel' (S round) (seen ∪ list_to_set fresh) (apply_additions additions t)
      end
  end.

Definition max_key_length (t : Tree) : nat :=
  foldr (fun kv n => Nat.max (String.length kv.1) n) O (map_to_list t).

Definition buildParentDirs (t : Tree) : option Tree :=
  parents_loop (2 + max_key_length t) 0 ∅ t.

Definition name_lt (a b : DirEntry) : bool := str_lt (Name a) (Name b).

(** [for p := range t.dirs { sort.Slice(t.dirs[p], ...) }] *)
Definition sort_dirs (t : Tree) : Tree := slice_sort name_lt <$> t.

Definition BuildTree (downloads : list Download) (allDir : bool) : option Tree :=
  let t := foldl addDownload ∅ downloads in
  let t := if allDir then addAllDir downloads t else t in
  sort_dirs <$> buildParentDirs t.

End tree.

(** ** Queries *)

Definition ListDir (t : Tree) (p : string) : list DirEntry := dir_entries t (path_Clean p).

Definition Lookup (t : Tree) (p : string) : option File :=
  let clean := path_Clean p in
  let dir := path_Dir clean in
  let name := path_Base clean in
  match List.find (fun e => bool_decide (Name e = name) && bool_decide (EntryFile e <> None)) (dir_entries t dir) with
  | Some e => EntryFile e
  | None => None
  end.

(** ** A small library *)

Definition demo_file (kind id fid name mt : string) : File := MkFile kind id fid name 100 "video/x-matroska" mt.

Definition demo_downloads : list Download :=
  [MkDownload "torrent" "1" "The Matrix" "h1" [demo_file "torrent" "1" "1" "The Matrix/film.mkv" "movie";
                                               MkFile "torrent" "1" "2" "The Matrix/cover.jpg" 5 "image/jpeg" "movie"];
   MkDownload "usenet" "7" "0123456789abcdef" "h2" [demo_file "usenet" "7" "1" "Show/Show.S02E01.mkv" "series";
                                                    demo_file "usenet" "7" "2" "Show/Show.S02E02.mkv" "anime"]].

Definition names_of (o : option Tree) (p : string) : option (list string) :=
  (fun t => Name <$> ListDir t p) <$> o.

Example demo_tree :
  let o := @BuildTree default_iter default_sort demo_downloads true in
  names_of o "/" = Some ["all"; "movies"; "series"] /\
  names_of o "/series" = Some ["Show"] /\
  names_of o "/series/Show" = Some ["Season 2"] /\
  names_of o "/series/Show/Season 2/" = Some ["Show.S02E01.mkv"; "Show.S02E02.mkv"] /\
  names_of o "/all/Show" = Some ["Show.S02E01.mkv"; "Show.S02E02.mkv"] /\
  (fun t => f_FileID <$> Lookup t "/movies/The Matrix/film.mkv") <$> o = Some (Some "1").
Proof. split_and!; vm_compute; reflexivity. Qed.
