(* ===== verification/TreeProps.v ===== *)
(** * Properties of the directory tree

    The loop of [buildParentDirs] stops and completes the tree: every directory
    is listed once in its parent, from the root down, and only directories above
    a file exist.  The files are where [placements] says, each directory sorted
    by name. *)
From Stdlib Require Import Ascii.
From S2P Require Import Prelude GoStrings Regexp Classify Tree.
Open Scope Z_scope.

Definition is_subdir (e : DirEntry) : Prop := EntryFile e = None.

#[export] Instance is_subdir_dec e : Decision (is_subdir e).
Proof. unfold is_subdir. destruct (EntryFile e); [right; done|left; done]. Defined.

Definition subdirs_in (t : Tree) (p : string) : list DirEntry := filter is_subdir (dir_entries t p).
Definition files_in (t : Tree) (p : string) : list DirEntry :=
  filter (fun e => ~ is_subdir e) (dir_entries t p).

(** ** Appending entries *)

Definition entries_for (p : string) (l : list (string * DirEntry)) : list DirEntry :=
  (filter (fun a => a.1 = p) l).*2.

Lemma entries_for_cons p a l :
  entries_for p (a :: l) = if decide (a.1 = p) then a.2 :: entries_for p l else entries_for p l.
Proof. unfold entries_for. rewrite filter_cons. by destruct (decide _). Qed.

Lemma entries_for_app p l1 l2 : entries_for p (l1 ++ l2) = entries_for p l1 ++ entries_for p l2.
Proof. unfold entries_for. by rewrite filter_app, fmap_app. Qed.

Lemma elem_of_entries_for p l e : e ∈ entries_for p l <-> (p, e) ∈ l.
Proof.
  unfold entries_for. rewrite list_elem_of_fmap. setoid_rewrite list_elem_of_filter. split.
  - by intros ([p' e'] & -> & <- & Hin).
  - intros Hin. by exists (p, e).
Qed.

Lemma dir_entries_append t p e q :
  dir_entries (append_entry p e t) q = dir_entries t q ++ (if decide (p = q) then [e] else []).
Proof.
  unfold dir_entries at 1, append_entry. destruct (decide (p = q)) as [->|Hpq].
  - by rewrite lookup_insert_eq.
  - by rewrite lookup_insert_ne, app_nil_r.
Qed.

Lemma dir_entries_apply l t q :
  dir_entries (apply_additions l t) q = dir_entries t q ++ entries_for q l.
Proof.
  revert t. induction l as [|[p e] l IH]; intros t; [by rewrite app_nil_r|].
  change (apply_additions ((p, e) :: l) t) with (apply_additions l (append_entry p e t)).
  rewrite IH, dir_entries_append, entries_for_cons. simpl.
  destruct (decide (p = q)); by rewrite <- app_assoc.
Qed.

Lemma dom_apply l t : dom (apply_additions l t) = dom t ∪ list_to_set l.*1.
Proof.
  revert t. induction l as [|[p e] l IH]; intros t; [set_solver|].
  change (apply_additions ((p, e) :: l) t) with (apply_additions l (append_entry p e t)).
  rewrite IH. unfold append_entry. rewrite dom_insert_L. set_solver.
Qed.

Lemma apply_additions_app l1 l2 t :
  apply_additions (l1 ++ l2) t = apply_additions l2 (apply_additions l1 t).
Proof. unfold apply_additions. by rewrite foldl_app. Qed.

(** Every key carries an entry. *)
Definition no_empty_dir (t : Tree) : Prop := forall p, p ∈ dom t -> dir_entries t p <> [].

Lemma no_empty_dir_apply l t : no_empty_dir t -> no_empty_dir (apply_additions l t).
Proof.
  intros Ht p. rewrite dom_apply, dir_entries_apply, elem_of_union, elem_of_list_to_set, list_elem_of_fmap.
  intros [Hp%Ht|([q e] & -> & Hin)] He.
  - by apply app_eq_nil in He as [He _].
  - apply app_eq_nil in He as [_ He]. apply elem_of_entries_for in Hin. simpl in He. rewrite He in Hin.
    by apply not_elem_of_nil in Hin.
Qed.

(** ** The loop of [buildParentDirs] *)

(** [p] lies [n] levels above [q]. *)
Definition ancestor (n : nat) (p q : string) : Prop := Nat.iter n path_Dir q = p.

(** The state of the loop: [seen] are the keys whose entry in their parent has
    been made, on top of a tree [t0] that had no directory entries. *)
Record loop_inv (t0 : Tree) (seen : gset string) (t : Tree) : Prop := {
  li_clean : forall p, p ∈ dom t -> clean_path p;
  li_seen : seen ⊆ dom t;
  li_files : forall p, files_in t p = files_in t0 p;
  li_subdirs : forall p x, MkDirEntry x None ∈ subdirs_in t p <->
                 exists q, q ∈ seen /\ q <> "/" /\ path_Dir q = p /\ path_Base q = x;
  li_nodup : forall p, NoDup (subdirs_in t p);
  li_parents : forall q, q ∈ seen -> q <> "/" -> path_Dir q ∈ dom t;
  li_incl : dom t0 ⊆ dom t;
  li_above : forall p, p ∈ dom t -> exists n q, q ∈ dom t0 /\ ancestor n p q;
  li_nonempty : no_empty_dir t
}.

Definition parent_entry (q : string) : string * DirEntry := (path_Dir q, MkDirEntry (path_Base q) None).

Lemma is_dir_entry_true t p x :
  existsb (is_dir_entry x) (dir_entries t p) = true <-> MkDirEntry x None ∈ subdirs_in t p.
Proof.
  rewrite existsb_exists. unfold subdirs_in. rewrite list_elem_of_filter. split.
  - intros (e & Hin & Hd). unfold is_dir_entry in Hd. apply andb_true_iff in Hd as [H1 H2].
    apply bool_decide_eq_true in H1, H2. destruct e as [n f]. simpl in *. subst.
    split; [done|]. by apply list_elem_of_In.
  - intros [_ Hin]. exists (MkDirEntry x None). split; [by apply list_elem_of_In|].
    unfold is_dir_entry. simpl. by rewrite !bool_decide_true.
Qed.

Lemma parent_addition_fresh t0 seen t q :
  loop_inv t0 seen t -> q ∈ dom t -> q ∉ seen ->
  parent_addition t q = if decide (q = "/") then None else Some (parent_entry q).
Proof.
  intros Hi Hq Hs. pose proof (li_clean _ _ _ Hi q Hq) as Hc. unfold parent_addition.
  destruct (decide (q = "/")) as [->|Hn]; [done|].
  rewrite bool_decide_false by (rewrite Dir_fixpoint; done).
  destruct (existsb _ _) eqn:He; [|done]. apply is_dir_entry_true in He.
  apply (li_subdirs _ _ _ Hi) in He as (q' & Hq' & Hn' & Hd & Hb). exfalso.
  pose proof (li_seen _ _ _ Hi q' Hq') as Hdom. apply Hs.
  by rewrite <- (clean_path_eq q' q) by (done || by apply (li_clean _ _ _ Hi)).
Qed.

Lemma omap_additions t0 seen t (l : list string) :
  loop_inv t0 seen t -> (forall q, q ∈ l -> q ∈ dom t /\ q ∉ seen) ->
  omap (parent_addition t) l = parent_entry <$> filter (fun q => q <> "/") l.
Proof.
  intros Hi. induction l as [|q l IH]; intros Hl; [done|].
  change (omap (parent_addition t) (q :: l)) with
    (match parent_addition t q with
     | Some a => a :: omap (parent_addition t) l
     | None => omap (parent_addition t) l
     end).
  rewrite filter_cons. destruct (Hl q) as [Hq Hs]; [by left|].
  rewrite (parent_addition_fresh t0 seen), IH by (done || intros q' ?; apply Hl; by right).
  destruct (decide (q = "/")) as [->|Hn].
  - by rewrite decide_False by tauto.
  - by rewrite decide_True.
Qed.

Lemma filter_subdir_entries p (l : list string) :
  filter is_subdir (entries_for p (parent_entry <$> l)) = entries_for p (parent_entry <$> l) /\
  filter (fun e => ~ is_subdir e) (entries_for p (parent_entry <$> l)) = [].
Proof.
  induction l as [|q l [IH1 IH2]]; [done|]. rewrite fmap_cons, entries_for_cons. simpl.
  destruct (decide _); [|done]. split.
  - rewrite filter_cons, decide_True by done. by rewrite IH1.
  - rewrite filter_cons, decide_False by (intros H; by apply H). done.
Qed.

Lemma NoDup_parent_entries p (l : list string) :
  NoDup l -> (forall q, q ∈ l -> clean_path q /\ q <> "/") -> NoDup (entries_for p (parent_entry <$> l)).
Proof.
  intros Hnd Hc. induction Hnd as [|q l Hq Hnd IH]; [constructor|].
  rewrite fmap_cons, entries_for_cons. simpl.
  assert (NoDup (entries_for p (parent_entry <$> l))) as Hl by (apply IH; intros ? ?; apply Hc; by right).
  destruct (decide (path_Dir q = p)) as [Hp|]; [|done]. constructor; [|done].
  rewrite elem_of_entries_for, list_elem_of_fmap. intros (q' & He & Hq'). unfold parent_entry in He.
  injection He as Hd Hb. apply Hq. destruct (Hc q) as [? ?]; [by left|]. destruct (Hc q') as [? ?]; [by right|].
  by rewrite (clean_path_eq q q') by congruence.
Qed.

Lemma subdirs_in_apply t p (l : list string) :
  subdirs_in (apply_additions (parent_entry <$> l) t) p = subdirs_in t p ++ entries_for p (parent_entry <$> l).
Proof.
  unfold subdirs_in. rewrite dir_entries_apply, filter_app. f_equal. apply filter_subdir_entries.
Qed.

Lemma files_in_apply t p (l : list string) :
  files_in (apply_additions (parent_entry <$> l) t) p = files_in t p.
Proof.
  unfold files_in. rewrite dir_entries_apply, filter_app.
  by rewrite (proj2 (filter_subdir_entries p l)), app_nil_r.
Qed.

Lemma elem_of_parent_entries p x (l : list string) :
  MkDirEntry x None ∈ entries_for p (parent_entry <$> l) <->
  exists q, q ∈ l /\ path_Dir q = p /\ path_Base q = x.
Proof.
  rewrite elem_of_entries_for, list_elem_of_fmap. unfold parent_entry. split.
  - intros (q & He & Hq). injection He as -> ->. eauto.
  - intros (q & Hq & <- & <-). eauto.
Qed.

Lemma dom_apply_parents t (l : list string) p :
  p ∈ dom (apply_additions (parent_entry <$> l) t) <-> p ∈ dom t \/ exists q, q ∈ l /\ path_Dir q = p.
Proof.
  rewrite dom_apply, elem_of_union, elem_of_list_to_set, <- list_fmap_compose, list_elem_of_fmap.
  unfold compose, parent_entry. simpl. split; intros [?|(q & ? & ?)]; eauto.
Qed.

(** One round: the keys seen for the first time get their entry. *)
Lemma round_inv t0 seen t (fresh : list string) :
  loop_inv t0 seen t -> NoDup fresh -> (forall q, q ∈ fresh -> q ∈ dom t /\ q ∉ seen) ->
  loop_inv t0 (seen ∪ list_to_set fresh)
    (apply_additions (parent_entry <$> filter (fun q => q <> "/") fresh) t).
Proof.
  intros Hi Hnd Hf. set (l := filter (fun q => q <> "/") fresh).
  assert (forall q, q ∈ l <-> q ∈ fresh /\ q <> "/") as Hl by (intros q; unfold l; rewrite list_elem_of_filter; tauto).
  assert (forall q, q ∈ l -> clean_path q) as Hlc.
  { intros q [Hq _]%Hl. apply (li_clean _ _ _ Hi). by apply Hf. }
  split.
  - intros p [Hp|(q & Hq & <-)]%dom_apply_parents; [by apply (li_clean _ _ _ Hi)|]. by apply clean_path_Dir, Hlc.
  - intros p Hp. apply dom_apply_parents. left. apply elem_of_union in Hp as [Hp|Hp].
    + by apply (li_seen _ _ _ Hi).
    + apply elem_of_list_to_set in Hp. by apply Hf.
  - intros p. rewrite files_in_apply. apply (li_files _ _ _ Hi).
  - intros p x. rewrite subdirs_in_apply, elem_of_app, (li_subdirs _ _ _ Hi), elem_of_parent_entries.
    setoid_rewrite elem_of_union. setoid_rewrite elem_of_list_to_set. setoid_rewrite Hl. naive_solver.
  - intros p. rewrite subdirs_in_apply. apply NoDup_app. split_and!.
    + apply (li_nodup _ _ _ Hi).
    + intros [x [f|]] Hx.
      * apply list_elem_of_filter in Hx as [Hx _]. done.
      * rewrite elem_of_parent_entries. intros (q & Hq & Hd & Hb).
        apply (li_subdirs _ _ _ Hi) in Hx as (q' & Hq' & Hn' & Hd' & Hb').
        pose proof (Hlc q Hq). apply Hl in Hq as [Hq Hn]. destruct (Hf q Hq) as [_ Hs]. apply Hs.
        rewrite <- (clean_path_eq q' q); try done; [|congruence|congruence].
        by apply (li_clean _ _ _ Hi), (li_seen _ _ _ Hi).
    + apply NoDup_parent_entries; [by apply NoDup_filter|]. intros q Hq. split; [by apply Hlc|]. by apply Hl.
  - intros q Hq Hn. apply dom_apply_parents. apply elem_of_union in Hq as [Hq|Hq].
    + left. by apply (li_parents _ _ _ Hi).
    + right. exists q. split; [|done]. apply Hl. split; [by apply elem_of_list_to_set in Hq|done].
  - intros p Hp. apply dom_apply_parents. left. by apply (li_incl _ _ _ Hi).
  - intros p [Hp|(q & Hq & <-)]%dom_apply_parents; [by apply (li_above _ _ _ Hi)|].
    apply Hl in Hq as [Hq _]. destruct (Hf q Hq) as [Hdom _].
    destruct (li_above _ _ _ Hi q Hdom) as (n & r & Hr & <-). by exists (S n), r.
  - apply no_empty_dir_apply, Hi.
Qed.

Lemma loop_inv_init t0 :
  (forall p, p ∈ dom t0 -> clean_path p) -> no_empty_dir t0 -> (forall p, subdirs_in t0 p = []) -> loop_inv t0 ∅ t0.
Proof.
  intros Hc Hn Hs. split; try done.
  - intros p x. rewrite Hs. split; [by intros ?%not_elem_of_nil|]. intros (q & ? & _). set_solver.
  - intros p. rewrite Hs. constructor.
  - intros p Hp. by exists O, p.
Qed.

(** The completed tree. *)
Definition completed (t0 t : Tree) : Prop := exists seen, loop_inv t0 seen t /\ forall p, p ∈ dom t -> p ∉ seen -> p = "/".

Section loop.
Context `{MI : MapIter}.

Definition fresh_keys (round : nat) (seen : gset string) (t : Tree) : list string :=
  filter (fun p => p ∉ seen) (map_range round t).*1.

Lemma elem_of_fresh round seen t p : p ∈ fresh_keys round seen t <-> p ∈ dom t /\ p ∉ seen.
Proof.
  unfold fresh_keys. rewrite list_elem_of_filter, list_elem_of_fmap. split.
  - intros [Hs ([k v] & -> & Hin)]. split; [|done]. apply elem_of_map_range in Hin. apply elem_of_dom. eauto.
  - intros [[v Hv]%elem_of_dom Hs]. split; [done|]. exists (p, v). split; [done|]. by apply elem_of_map_range.
Qed.

(** Every round reaches one level higher, so the depth bounds the rounds. *)
Lemma parents_loop_completes fuel round D t0 seen t :
  loop_inv t0 seen t -> (D - round < fuel)%nat ->
  (forall p, p ∈ dom t -> p ∉ seen -> (path_depth p + round <= D)%nat) ->
  exists t', parents_loop fuel round seen t = Some t' /\ completed t0 t'.
Proof.
  revert round seen t. induction fuel as [|fuel IH]; intros round seen t Hi Hfuel Hd; [lia|].
  cbn [parents_loop]. fold (fresh_keys round seen t).
  assert (forall q, q ∈ fresh_keys round seen t -> q ∈ dom t /\ q ∉ seen) as Hf by (intros q; apply elem_of_fresh).
  rewrite (omap_additions t0 seen) by done.
  assert (NoDup (fresh_keys round seen t)) as Hnd by apply NoDup_filter, NoDup_map_range.
  pose proof (round_inv _ _ _ _ Hi Hnd Hf) as Hr.
  destruct (filter (fun q => q <> "/") (fresh_keys round seen t)) as [|q l] eqn:Hl.
  - exists t. split; [done|]. exists seen. split; [done|]. intros p Hp Hs.
    destruct (decide (p = "/")) as [|Hn]; [done|]. exfalso.
    assert (p ∈ filter (fun q => q <> "/") (fresh_keys round seen t)) as Hin by (by apply list_elem_of_filter; split; [|apply elem_of_fresh]).
    rewrite Hl in Hin. by apply not_elem_of_nil in Hin.
  - rewrite <- Hl in *.
    assert (forall x, x ∈ filter (fun q => q <> "/") (fresh_keys round seen t) ->
              x ∈ dom t /\ x <> "/" /\ (path_depth x + round <= D)%nat /\ path_depth x = S (path_depth (path_Dir x))) as Hx.
    { intros x [Hn Hx]%list_elem_of_filter. destruct (Hf x Hx) as [Hdom Hs]. split_and!; auto.
      apply path_depth_Dir; [by apply (li_clean _ _ _ Hi)|done]. }
    assert (q ∈ filter (fun q => q <> "/") (fresh_keys round seen t)) as Hq by (rewrite Hl; by left).
    destruct (Hx q Hq) as (_ & _ & H1 & H2).
    destruct (parent_entry <$> filter (fun q => q <> "/") (fresh_keys round seen t)) as [|a adds] eqn:Ha.
    { rewrite Hl in Ha. done. }
    rewrite <- Ha in *. apply IH; [done|lia|].
    intros p Hp Hs. apply dom_apply_parents in Hp as [Hp|(x & Hin & <-)].
    + exfalso. apply Hs, elem_of_union. destruct (decide (p ∈ seen)); [by left|right].
      apply elem_of_list_to_set. by apply elem_of_fresh.
    + destruct (Hx x Hin) as (_ & _ & H3 & H4). lia.
Qed.

End loop.

(** ** The completed tree *)

Record navigable (t0 t : Tree) : Prop := {
  nv_clean : forall p, p ∈ dom t -> clean_path p;
  nv_files : forall p, files_in t p = files_in t0 p;
  nv_subdirs : forall p x, MkDirEntry x None ∈ subdirs_in t p <->
                 exists q, q ∈ dom t /\ q <> "/" /\ path_Dir q = p /\ path_Base q = x;
  nv_nodup : forall p, NoDup (subdirs_in t p);
  nv_parents : forall q, q ∈ dom t -> path_Dir q ∈ dom t;
  nv_above : forall p, p ∈ dom t <-> exists n q, q ∈ dom t0 /\ ancestor n p q;
  nv_nonempty : no_empty_dir t
}.

Lemma completed_navigable t0 t : completed t0 t -> navigable t0 t.
Proof.
  intros (seen & Hi & Hlast). pose proof (li_seen _ _ _ Hi) as Hs.
  assert (forall q, q ∈ dom t -> q <> "/" -> q ∈ seen) as Hin.
  { intros q Hq Hn. destruct (decide (q ∈ seen)); [done|]. by destruct Hn; apply Hlast. }
  assert (forall q, q ∈ dom t -> path_Dir q ∈ dom t) as Hpar.
  { intros q Hq. destruct (decide (q = "/")) as [->|Hn]; [done|]. apply (li_parents _ _ _ Hi); auto. }
  split; [apply Hi|apply Hi| |apply Hi|done| |apply Hi].
  - intros p x. rewrite (li_subdirs _ _ _ Hi).
    split; intros (q & Hq & Hn & ?); exists q; (split; [by auto|done]).
  - intros p. split; [apply (li_above _ _ _ Hi)|]. intros (n & q & Hq & <-).
    induction n as [|n IH]; [by apply (li_incl _ _ _ Hi)|]. by apply Hpar.
Qed.

Lemma path_depth_length p : clean_path p -> (path_depth p <= String.length p)%nat.
Proof.
  intros Hc. pose proof (clean_path_Count p Hc) as H1.
  assert (Count p slash <= Z.of_nat (String.length p)) as H2; [|lia].
  clear. induction p as [|c p IH]; [done|]. cbn [Count String.length]. case_bool_decide; lia.
Qed.

Lemma max_key_length_le t p : p ∈ dom t -> (String.length p <= max_key_length t)%nat.
Proof.
  intros [v Hv]%elem_of_dom. apply elem_of_map_to_list in Hv. unfold max_key_length.
  induction (map_to_list t) as [|kv l IH]; [by apply not_elem_of_nil in Hv|].
  simpl. apply elem_of_cons in Hv as [<-|Hv]; simpl; [lia|]. specialize (IH Hv). lia.
Qed.

Lemma buildParentDirs_navigable `{MapIter} t0 :
  (forall p, p ∈ dom t0 -> clean_path p) -> no_empty_dir t0 -> (forall p, subdirs_in t0 p = []) ->
  exists t, buildParentDirs t0 = Some t /\ navigable t0 t.
Proof.
  intros Hc Hn Hs. unfold buildParentDirs.
  destruct (parents_loop_completes (2 + max_key_length t0) 0 (max_key_length t0) t0 ∅ t0) as (t & -> & Ht).
  - by apply loop_inv_init.
  - lia.
  - intros p Hp _. pose proof (path_depth_length p (Hc p Hp)). pose proof (max_key_length_le t0 p Hp). lia.
  - exists t. split; [done|]. by apply completed_navigable.
Qed.

(** ** Where the files are *)

Definition main_placements (downloads : list Download) : list (string * DirEntry) :=
  d ← downloads;
  (fun f => (file_dir (downloadTitle d) f, file_entry f)) <$> filter (fun f => is_video f = true) (d_Files d).

(** The video files with their titles, each content key once. *)
Definition titled_files (downloads : list Download) : list (string * File) :=
  d ← downloads; (fun f => (downloadTitle d, f)) <$> filter (fun f => is_video f = true) (d_Files d).

Fixpoint first_by_key (seen : gset string) (l : list (string * File)) : list (string * File) :=
  match l with
  | [] => []
  | tf :: l' =>
      if decide (ContentKey tf.2 ∈ seen) then first_by_key seen l'
      else tf :: first_by_key ({[ContentKey tf.2]} ∪ seen) l'
  end.

Definition all_placements (downloads : list Download) : list (string * DirEntry) :=
  (fun tf => (path_Join ["/all"; tf.1], file_entry tf.2)) <$> first_by_key ∅ (titled_files downloads).

Definition placements (downloads : list Download) (allDir : bool) : list (string * DirEntry) :=
  main_placements downloads ++ (if allDir then all_placements downloads else []).

Lemma addDownload_placements t d :
  addDownload t d = apply_additions (main_placements [d]) t.
Proof.
  unfold addDownload, main_placements. simpl. rewrite app_nil_r. revert t.
  induction (d_Files d) as [|f fs IH]; intros t; [done|]. simpl. rewrite IH, filter_cons.
  destruct (is_video f) eqn:Hv; [by rewrite decide_True|by rewrite decide_False].
Qed.

Lemma addDownloads_placements downloads t :
  foldl addDownload t downloads = apply_additions (main_placements downloads) t.
Proof.
  revert t. induction downloads as [|d ds IH]; intros t; [done|]. simpl. rewrite IH, addDownload_placements.
  rewrite <- apply_additions_app. unfold main_placements. simpl. by rewrite app_nil_r.
Qed.

Definition key_set (l : list (string * File)) : gset string := list_to_set ((fun tf => ContentKey tf.2) <$> l).

Lemma key_set_cons tf l : key_set (tf :: l) = {[ContentKey tf.2]} ∪ key_set l.
Proof. unfold key_set. by rewrite fmap_cons, list_to_set_cons. Qed.

Lemma key_set_app l1 l2 : key_set (l1 ++ l2) = key_set l1 ∪ key_set l2.
Proof. unfold key_set. by rewrite fmap_app, list_to_set_app_L. Qed.

Lemma first_by_key_app seen l1 l2 :
  first_by_key seen (l1 ++ l2) = first_by_key seen l1 ++ first_by_key (key_set l1 ∪ seen) l2.
Proof.
  revert seen. induction l1 as [|tf l1 IH]; intros seen.
  - simpl. f_equal. unfold key_set. set_solver.
  - simpl. pose proof (key_set_cons tf l1) as Hk. destruct (decide _) as [Hin|Hin]; rewrite IH, Hk; simpl; [|f_equal]; do 2 f_equal; set_solver.
Qed.

Lemma addAllFile_fold title fs seen t :
  foldl (addAllFile title) (seen, t) fs =
  (let l := (fun f => (title, f)) <$> filter (fun f => is_video f = true) fs in
   (key_set l ∪ seen,
    apply_additions ((fun tf => (path_Join ["/all"; tf.1], file_entry tf.2)) <$> first_by_key seen l) t)).
Proof.
  revert seen t. induction fs as [|f fs IH]; intros seen t; cbv zeta.
  - simpl. f_equal. unfold key_set. set_solver.
  - simpl foldl. rewrite filter_cons. destruct (is_video f) eqn:Hv; simpl negb; cbv iota.
    + rewrite (decide_True (P := true = true)) by done. rewrite fmap_cons. simpl first_by_key.
      destruct (decide (ContentKey f ∈ seen)) as [Hin|Hin]; rewrite IH; cbv zeta;
        rewrite key_set_cons; simpl; f_equal; clear IH Hv;
        match goal with |- context [key_set ?l] => generalize (key_set l); intros X end; set_solver.
    + rewrite (decide_False (P := false = true)) by done. apply IH.
Qed.

Lemma addAllDir_placements downloads t :
  addAllDir downloads t = apply_additions (all_placements downloads) t.
Proof.
  unfold addAllDir, all_placements.
  assert (forall seen t, foldl (fun st d => foldl (addAllFile (downloadTitle d)) st (d_Files d)) (seen, t) downloads =
    (key_set (titled_files downloads) ∪ seen,
     apply_additions ((fun tf => (path_Join ["/all"; tf.1], file_entry tf.2)) <$> first_by_key seen (titled_files downloads)) t)) as Hg;
    [|by rewrite Hg].
  induction downloads as [|d ds IH]; intros seen t'; simpl.
  - f_equal. unfold key_set. set_solver.
  - rewrite addAllFile_fold. cbv zeta. rewrite IH. unfold titled_files at 3 4. simpl.
    fold (titled_files ds). rewrite first_by_key_app, fmap_app, apply_additions_app. f_equal.
    rewrite key_set_app. repeat match goal with |- context [key_set ?l] => generalize (key_set l); intros ? end.
    set_solver.
Qed.

(** The tree before [buildParentDirs]. *)
Definition file_tree (downloads : list Download) (allDir : bool) : Tree :=
  apply_additions (placements downloads allDir) ∅.

Lemma BuildTree_eq `{MapIter, SliceSort} downloads allDir :
  BuildTree downloads allDir = sort_dirs <$> buildParentDirs (file_tree downloads allDir).
Proof.
  unfold BuildTree, file_tree, placements. rewrite addDownloads_placements. destruct allDir.
  - by rewrite addAllDir_placements, <- apply_additions_app.
  - by rewrite app_nil_r.
Qed.

Lemma file_dir_clean title f : clean_path (file_dir title f).
Proof. unfold file_dir. case_bool_decide; by apply path_Join_rooted. Qed.

Lemma elem_of_placements downloads allDir p e :
  (p, e) ∈ placements downloads allDir -> clean_path p /\ exists f, e = file_entry f /\ is_video f = true.
Proof.
  unfold placements. rewrite elem_of_app. intros [Hm|Ha].
  - apply list_elem_of_bind in Hm as (d & Hm & _). apply list_elem_of_fmap in Hm as (f & [= -> ->] & Hf).
    apply list_elem_of_filter in Hf as [Hf _]. split; [apply file_dir_clean|eauto].
  - destruct allDir; [|by apply not_elem_of_nil in Ha].
    apply list_elem_of_fmap in Ha as ([title f] & [= -> ->] & Hf). split; [by apply path_Join_rooted|].
    exists f. split; [done|].
    assert (forall seen l, (title, f) ∈ first_by_key seen l -> (title, f) ∈ l) as Hsub.
    { clear. intros seen l. revert seen. induction l as [|tf l IH]; intros seen; simpl; [done|].
      destruct (decide _); [intros ?%IH; by right|]. intros [->|?%IH]%elem_of_cons; [by left|by right]. }
    apply Hsub, list_elem_of_bind in Hf as (d & Hf & _). apply list_elem_of_fmap in Hf as (f' & [= -> ->] & Hf).
    by apply list_elem_of_filter in Hf as [Hf _].
Qed.

Lemma dir_entries_file_tree downloads allDir p :
  dir_entries (file_tree downloads allDir) p = entries_for p (placements downloads allDir).
Proof. unfold file_tree. rewrite dir_entries_apply. unfold dir_entries. by rewrite lookup_empty. Qed.

Lemma dom_file_tree downloads allDir p :
  p ∈ dom (file_tree downloads allDir) <-> exists e, (p, e) ∈ placements downloads allDir.
Proof.
  unfold file_tree. rewrite dom_apply, dom_empty_L, elem_of_union, elem_of_list_to_set, list_elem_of_fmap.
  split; [intros [?|([q e] & -> & ?)]; [set_solver|eauto]|]. intros [e He]. right. by exists (p, e).
Qed.

(** ** Theorems on [BuildTree] *)

Section build.
Context `{MI : MapIter, SS : SliceSort}.

Lemma name_lt_strict_weak : StrictWeak name_lt.
Proof. apply (strict_weak_on str_lt Name), str_lt_strict_weak. Qed.

Lemma dir_entries_sort t p : dir_entries (sort_dirs t) p ≡ₚ dir_entries t p.
Proof.
  unfold dir_entries, sort_dirs. rewrite lookup_fmap. destruct (t !! p); simpl; [apply slice_sort_perm|done].
Qed.

Lemma dir_entries_sorted t p : sorted_by name_lt (dir_entries (sort_dirs t) p).
Proof.
  unfold dir_entries, sort_dirs. rewrite lookup_fmap. destruct (t !! p); simpl; [|constructor].
  apply slice_sort_sorted, name_lt_strict_weak.
Qed.

Lemma dom_sort t : dom (sort_dirs t) = dom t.
Proof. apply dom_fmap_L. Qed.

Lemma BuildTree_navigable_files downloads allDir :
  exists t, BuildTree downloads allDir = Some (sort_dirs t) /\ navigable (file_tree downloads allDir) t.
Proof.
  rewrite BuildTree_eq.
  destruct (buildParentDirs_navigable (file_tree downloads allDir)) as (t & -> & Ht).
  - intros p [e He]%dom_file_tree. by apply elem_of_placements in He as [? _].
  - apply no_empty_dir_apply. intros p. set_solver.
  - intros p. unfold subdirs_in. rewrite dir_entries_file_tree.
    assert (forall e, e ∈ entries_for p (placements downloads allDir) -> ~ is_subdir e) as Hf.
    { intros e He%elem_of_entries_for. apply elem_of_placements in He as (_ & f & -> & _). by intros ?. }
    induction (entries_for p _) as [|e l IH]; [done|]. rewrite filter_cons, decide_False by (apply Hf; by left).
    apply IH. intros e' He'. apply Hf. by right.
  - by exists t.
Qed.

Lemma files_in_file_tree downloads allDir p :
  files_in (file_tree downloads allDir) p = entries_for p (placements downloads allDir).
Proof.
  unfold files_in. rewrite dir_entries_file_tree.
  assert (forall e, e ∈ entries_for p (placements downloads allDir) -> ~ is_subdir e) as Hf.
  { intros e He%elem_of_entries_for. apply elem_of_placements in He as (_ & f & -> & _). by intros ?. }
  induction (entries_for p _) as [|e l IH]; [done|]. rewrite filter_cons, decide_True by (apply Hf; by left).
  f_equal. apply IH. intros e' He'. apply Hf. by right.
Qed.

Lemma elem_of_split t p e :
  e ∈ dir_entries t p <-> e ∈ subdirs_in t p \/ e ∈ files_in t p.
Proof.
  unfold subdirs_in, files_in. rewrite !list_elem_of_filter. destruct (decide (is_subdir e)); naive_solver.
Qed.

(** [C15] [BuildTree] returns a tree in which every file is where the mapping rules
    put it and nowhere else: the file entries of a directory are, up to order, the
    video files whose title, media type and season lead there (under [/all], the
    first of each content key), and every listing is sorted by name.  [Lookup]
    finds a path exactly when a file was placed there. *)
Theorem BuildTree_places_files downloads allDir :
  exists t, BuildTree downloads allDir = Some t /\
  (forall p, sorted_by name_lt (ListDir t p) /\
             files_in t (path_Clean p) ≡ₚ entries_for (path_Clean p) (placements downloads allDir)) /\
  (forall p, let place f := (path_Dir (path_Clean p), MkDirEntry (path_Base (path_Clean p)) (Some f)) in
     match Lookup t p with
     | Some f => place f ∈ placements downloads allDir
     | None => forall f, place f ∉ placements downloads allDir
     end).
Proof.
  destruct (BuildTree_navigable_files downloads allDir) as (t & -> & Ht). exists (sort_dirs t). split; [done|].
  assert (forall p, files_in (sort_dirs t) p ≡ₚ entries_for p (placements downloads allDir)) as Hf.
  { intros p. rewrite <- files_in_file_tree, <- (nv_files _ _ Ht). unfold files_in. by rewrite dir_entries_sort. }
  split; [intros p; split; [apply dir_entries_sorted|apply Hf]|].
  intros p. cbv zeta. unfold Lookup. set (d := path_Dir (path_Clean p)). set (x := path_Base (path_Clean p)).
  assert (forall f, (d, MkDirEntry x (Some f)) ∈ placements downloads allDir <->
            MkDirEntry x (Some f) ∈ dir_entries (sort_dirs t) d) as Hin.
  { intros f. rewrite <- elem_of_entries_for, <- Hf. unfold files_in. rewrite list_elem_of_filter. split; [tauto|].
    intros ?. by split. }
  destruct (List.find _ _) as [e|] eqn:Hfind.
  - apply list_find_first_Some in Hfind as [He Hp]. apply andb_true_iff in Hp as [H1 H2].
    apply bool_decide_eq_true in H1, H2. destruct e as [n [f|]]; simpl in *; [|done]. subst. by apply Hin.
  - intros f He%Hin. pose proof (list_find_first_None _ _ Hfind _ He) as Hn. simpl in Hn.
    by rewrite !bool_decide_true in Hn.
Qed.

Lemma filter_once (e : DirEntry) (l : list DirEntry) :
  e ∈ filter is_subdir l -> NoDup (filter is_subdir l) -> filter (fun e' => e' = e) l = [e].
Proof.
  intros Hin Hnd. assert (is_subdir e) as Hs by (by apply list_elem_of_filter in Hin as [? _]).
  induction l as [|x l IH]; [by apply not_elem_of_nil in Hin|].
  rewrite filter_cons in *. destruct (decide (x = e)) as [->|Hx].
  - rewrite decide_True in Hnd by done. apply NoDup_cons in Hnd as [Hn _]. f_equal.
    assert (e ∉ l) as Hl by (intros ?; apply Hn; by apply list_elem_of_filter).
    clear -Hl. induction l as [|y l IH]; [done|]. rewrite filter_cons.
    apply not_elem_of_cons in Hl as [? ?]. rewrite decide_False by congruence. by apply IH.
  - destruct (decide (is_subdir x)) as [Hsx|Hsx]; [|by apply IH].
    apply NoDup_cons in Hnd as [_ Hnd]. apply IH; [|done]. set_solver.
Qed.

(** [C16] The tree [BuildTree] returns can be walked from the root.  Every
    directory but the root is listed exactly once, under its base name, in its
    parent, which exists; every directory listed exists and is not empty; and
    the directories are those above (or holding) a placed file. *)
Theorem BuildTree_navigable downloads allDir :
  exists t, BuildTree downloads allDir = Some t /\
  (forall q, q ∈ dom t -> q <> "/" ->
     path_Dir q ∈ dom t /\ filter (fun e => e = MkDirEntry (path_Base q) None) (ListDir t (path_Dir q)) = [MkDirEntry (path_Base q) None]) /\
  (forall p x, MkDirEntry x None ∈ ListDir t p -> exists q, q ∈ dom t /\ path_Dir q = path_Clean p /\ path_Base q = x /\ ListDir t q <> []) /\
  (forall p, p ∈ dom t <-> exists n q e, (q, e) ∈ placements downloads allDir /\ ancestor n p q).
Proof.
  destruct (BuildTree_navigable_files downloads allDir) as (t & -> & Ht). exists (sort_dirs t). split; [done|].
  assert (forall p, subdirs_in (sort_dirs t) p ≡ₚ subdirs_in t p) as Hs
    by (intros p; unfold subdirs_in; by rewrite dir_entries_sort).
  rewrite dom_sort. split_and!.
  - intros q Hq Hn. split; [by apply (nv_parents _ _ Ht)|]. unfold ListDir.
    rewrite clean_path_Clean by (apply clean_path_Dir, (nv_clean _ _ Ht); done).
    apply filter_once; fold (subdirs_in (sort_dirs t) (path_Dir q)); rewrite Hs; [|apply (nv_nodup _ _ Ht)].
    apply (nv_subdirs _ _ Ht). by exists q.
  - intros p x Hx. assert (MkDirEntry x None ∈ subdirs_in t (path_Clean p)) as Hin.
    { rewrite <- Hs. unfold subdirs_in. by apply list_elem_of_filter. }
    apply (nv_subdirs _ _ Ht) in Hin as (q & Hq & _ & Hd & Hb). exists q. split_and!; try done.
    unfold ListDir. rewrite clean_path_Clean by (by apply (nv_clean _ _ Ht)).
    intros He. apply (nv_nonempty _ _ Ht q Hq). apply Permutation_nil_r. by rewrite <- He, dir_entries_sort.
  - intros p. rewrite (nv_above _ _ Ht). setoid_rewrite dom_file_tree. naive_solver.
Qed.

End build.
