(* ===== verification/TreeDB.v ===== *)
(** * Trees from the database, and hiding

    [internal/catalog/tree_from_db.go]: the tree rebuilt from file records,
    and the removal of hidden files with the directories they leave empty. *)
From Stdlib Require Import Ascii.
From S2P Require Import Prelude GoStrings StateDB Regexp Classify Tree TreeProps.
Open Scope Z_scope.

(** The [File] a record stands for; the MIME type is a placeholder. *)
Definition record_file (rec : FileRecord) : File :=
  MkFile (DownloadKind rec) (DownloadID rec) (FileID rec) (path_Base (Path rec)) (Size rec)
         "video/x-matroska" EmptyString.

Definition add_record (st : gset string * Tree) (rec : FileRecord) : gset string * Tree :=
  let '(seen, t) := st in
  if decide (StateDB.ContentKey rec ∈ seen) then (seen, t)
  else
    let seen := {[StateDB.ContentKey rec]} ∪ seen in
    if HasPrefix (Path rec) "/all/" then (seen, t)
    else (seen, append_entry (path_Dir (Path rec))
                  (MkDirEntry (path_Base (Path rec)) (Some (record_file rec))) t).

(** The non-empty segments of a cleaned path. *)
Definition splitPathRaw (p : string) : list string :=
  filter (fun seg => seg <> EmptyString) (Split p slash).

Definition splitPath (p : string) : list string :=
  let p := path_Clean p in
  if bool_decide (p = "/" \/ p = ".") then [] else splitPathRaw p.

Definition add_all_record (st : gset string * Tree) (rec : FileRecord) : gset string * Tree :=
  let '(seen, t) := st in
  let dirPath := path_Dir (Path rec) in
  match splitPath dirPath with
  | _ :: title :: _ =>
      let allDirPath := path_Join ["/all"; title] in
      let fileName := path_Base (Path rec) in
      let key := "all:" +:+ StateDB.ContentKey rec in
      if decide (key ∈ seen) then (seen, t)
      else
        let seen := {[key]} ∪ seen in
        match List.find (fun e => bool_decide (Name e = fileName) && bool_decide (EntryFile e <> None))
                        (dir_entries t dirPath) with
        | Some e => (seen, append_entry allDirPath (MkDirEntry fileName (EntryFile e)) t)
        | None => (seen, t)
        end
  | _ => (seen, t)
  end.

Definition buildAllDirFromDB (st : gset string * Tree) (records : list FileRecord) : gset string * Tree :=
  foldl add_all_record st records.

Section hides.
Context `{MI : MapIter, SS : SliceSort}.

Definition BuildTreeFromDB (records : list FileRecord) (allDir : bool) : option Tree :=
  let st := foldl add_record (∅, ∅) records in
  let st := if allDir && bool_decide (records <> []) then buildAllDirFromDB st records else st in
  sort_dirs <$> buildParentDirs st.2.

Definition hidden_entry (hidden : gset string) (e : DirEntry) : Prop :=
  match EntryFile e with Some f => ContentKey f ∈ hidden | None => False end.

#[export] Instance hidden_entry_dec hidden e : Decision (hidden_entry hidden e).
Proof. unfold hidden_entry. destruct (EntryFile e); apply _. Defined.

(** The tree without the hidden files and the directories this empties. *)
Definition filter_hidden (hidden : gset string) (t : Tree) : Tree :=
  omap (fun entries =>
          let kept := filter (fun e => ~ hidden_entry hidden e) entries in
          if bool_decide (kept = []) then None else Some kept) t.

(** Deeper paths first. *)
Definition deeper (p q : string) : bool :=
  let ni := Count p slash in
  let nj := Count q slash in
  if negb (ni =? nj) then nj <? ni else str_lt p q.

(** A subdirectory entry is kept when its path is a key of the tree. *)
Definition entry_valid (t : Tree) (dirPath : string) (e : DirEntry) : Prop :=
  match EntryFile e with
  | Some _ => True
  | None => is_Some (t !! (dirPath +:+ "/" +:+ Name e))
  end.

#[export] Instance entry_valid_dec t dirPath e : Decision (entry_valid t dirPath e).
Proof. unfold entry_valid. destruct (EntryFile e); apply _. Defined.

Definition prune_dir (t : Tree) (dirPath : string) : Tree :=
  match t !! dirPath with
  | None => t
  | Some entries =>
      let valid := filter (entry_valid t dirPath) entries in
      if bool_decide (valid = []) then delete dirPath t else <[dirPath := valid]> t
  end.

Definition ApplyHides (t : Tree) (hidden : gset string) : option Tree :=
  if bool_decide (hidden = ∅) then Some t
  else
    filtered ← buildParentDirs (filter_hidden hidden t);
    let paths := slice_sort deeper (map_range 1 filtered).*1 in
    Some (sort_dirs (foldl prune_dir filtered paths)).

End hides.

(** ** What hiding does *)

(** A tree as the builders leave it: clean keys, one entry for each directory in
    its parent, no empty directory. *)
Record tree_ok (t : Tree) : Prop := {
  tk_clean : forall p, p ∈ dom t -> clean_path p;
  tk_subdirs : forall p x, MkDirEntry x None ∈ dir_entries t p <->
                 exists q, q ∈ dom t /\ q <> "/" /\ path_Dir q = p /\ path_Base q = x;
  tk_parents : forall q, q ∈ dom t -> path_Dir q ∈ dom t;
  tk_nonempty : no_empty_dir t
}.

Lemma navigable_tree_ok `{SliceSort} t0 t : navigable t0 t -> tree_ok (sort_dirs t).
Proof.
  intros Ht. split.
  - intros p. rewrite dom_sort. apply Ht.
  - intros p x. rewrite dir_entries_sort, dom_sort. rewrite <- (nv_subdirs _ _ Ht).
    unfold subdirs_in. rewrite list_elem_of_filter. split; [by split|tauto].
  - intros q. rewrite dom_sort. apply Ht.
  - intros p. rewrite dom_sort. intros Hp He. apply (nv_nonempty _ _ Ht p Hp).
    apply Permutation_nil_r. by rewrite <- He, dir_entries_sort.
Qed.

(** [p] holds, or lies above, a file that stays visible. *)
Definition visible_under (t : Tree) (hidden : gset string) (p : string) : Prop :=
  exists n q e, e ∈ dir_entries t q /\ ancestor n p q /\ EntryFile e <> None /\ ~ hidden_entry hidden e.

Section apply_hides.
Context (t : Tree) (hidden : gset string) (Hok : tree_ok t).

Definition kept (p : string) : list DirEntry := filter (fun e => ~ hidden_entry hidden e) (dir_entries t p).

Lemma lookup_filter_hidden p :
  filter_hidden hidden t !! p = if bool_decide (kept p = []) then None else Some (kept p).
Proof.
  unfold filter_hidden, kept, dir_entries. rewrite lookup_omap. destruct (t !! p); simpl; done.
Qed.

Lemma dir_entries_filter_hidden p : dir_entries (filter_hidden hidden t) p = kept p.
Proof. unfold dir_entries at 1. rewrite lookup_filter_hidden. by case_bool_decide. Qed.

Lemma dom_filter_hidden p : p ∈ dom (filter_hidden hidden t) <-> kept p <> [].
Proof.
  rewrite elem_of_dom, lookup_filter_hidden. case_bool_decide; split; try done; try (by intros [? ?]); eauto.
Qed.

Lemma elem_of_dir_entries (t' : Tree) p e : e ∈ dir_entries t' p -> p ∈ dom t'.
Proof.
  unfold dir_entries. rewrite elem_of_dom. destruct (t' !! p); [by eauto|]. by intros ?%not_elem_of_nil.
Qed.

Lemma kept_in_dom p e : e ∈ kept p -> p ∈ dom t.
Proof. intros [_ He]%list_elem_of_filter. by apply elem_of_dir_entries in He. Qed.

Lemma kept_subdir p x : MkDirEntry x None ∈ kept p <-> MkDirEntry x None ∈ dir_entries t p.
Proof. unfold kept. rewrite list_elem_of_filter. split; [tauto|]. intros ?. split; [by intros []|done]. Qed.

Lemma filter_hidden_dom p : p ∈ dom (filter_hidden hidden t) -> p ∈ dom t.
Proof.
  rewrite dom_filter_hidden. destruct (kept p) as [|e l] eqn:He; [done|]. intros _.
  apply (kept_in_dom p e). rewrite He. by left.
Qed.

(** After filtering, every key still has its entry in the parent: the second run
    of [buildParentDirs] adds nothing. *)
Lemma buildParentDirs_filtered `{MapIter} : buildParentDirs (filter_hidden hidden t) = Some (filter_hidden hidden t).
Proof.
  unfold buildParentDirs. cbn [parents_loop Nat.add].
  assert (forall l : list string, (forall q, q ∈ l -> q ∈ dom (filter_hidden hidden t)) ->
            omap (parent_addition (filter_hidden hidden t)) l = []) as Ho.
  { induction l as [|q l IH]; intros Hl; [done|].
    change (omap (parent_addition (filter_hidden hidden t)) (q :: l)) with
      (match parent_addition (filter_hidden hidden t) q with
       | Some a => a :: omap (parent_addition (filter_hidden hidden t)) l
       | None => omap (parent_addition (filter_hidden hidden t)) l
       end).
    rewrite IH by (intros; apply Hl; by right).
    assert (q ∈ dom t) as Hq by (apply filter_hidden_dom, Hl; by left).
    unfold parent_addition. case_bool_decide as Hd; [done|].
    assert (existsb (is_dir_entry (path_Base q)) (dir_entries (filter_hidden hidden t) (path_Dir q)) = true) as ->; [|done].
    apply is_dir_entry_true. unfold subdirs_in. apply list_elem_of_filter. split; [done|].
    rewrite dir_entries_filter_hidden. apply kept_subdir, (tk_subdirs _ Hok). exists q. split_and!; try done.
    intros ->. done. }
  rewrite Ho; [done|]. intros q [_ Hq]%list_elem_of_filter.
  apply list_elem_of_fmap in Hq as ([k v] & -> & Hin). apply elem_of_map_range in Hin. apply elem_of_dom. eauto.
Qed.

(** ** The bottom-up pass *)

(** The subdirectory [x] of [p] is looked up as [p/x]; for the root that is
    [//x], never a key. *)
Definition stays (p : string) (e : DirEntry) : Prop :=
  EntryFile e <> None \/ (p <> "/" /\ visible_under t hidden (p +:+ "/" +:+ Name e)).

Lemma subdir_child p x :
  MkDirEntry x None ∈ dir_entries t p -> p <> "/" ->
  let q := p +:+ "/" +:+ x in q ∈ dom t /\ q <> "/" /\ path_Dir q = p /\ path_Base q = x.
Proof.
  intros (q & Hq & Hn & Hd & Hb)%(tk_subdirs _ Hok) Hp. cbv zeta.
  assert (p +:+ "/" +:+ x = q) as ->; [|done]. subst. apply child_path; [by apply (tk_clean _ Hok)|done|done].
Qed.

Lemma child_of q : q ∈ dom t -> q <> "/" -> MkDirEntry (path_Base q) None ∈ dir_entries t (path_Dir q).
Proof. intros Hq Hn. apply (tk_subdirs _ Hok). by exists q. Qed.

(** Visibility, one level at a time. *)
Lemma visible_under_cases p :
  p <> "/" -> visible_under t hidden p <-> exists e, e ∈ kept p /\ stays p e.
Proof.
  intros Hp. split.
  - intros (n & q & e & He & Ha & Hf & Hh). unfold ancestor in Ha. destruct n as [|n].
    + simpl in Ha. subst. exists e. split; [unfold kept; by apply list_elem_of_filter|by left].
    + simpl in Ha. set (c := Nat.iter n path_Dir q) in *.
      assert (c ∈ dom t) as Hc.
      { unfold c. clear Ha c. induction n as [|n IH]; [by apply elem_of_dir_entries in He|]. by apply (tk_parents _ Hok). }
      assert (c <> "/") as Hcn by (intros Hc0; apply Hp; rewrite <- Ha, Hc0; reflexivity).
      exists (MkDirEntry (path_Base c) None). split; [apply kept_subdir; rewrite <- Ha; by apply child_of|].
      right. split; [done|]. simpl. exists n, q, e. split_and!; try done.
      unfold ancestor. fold c. rewrite <- Ha. symmetry. apply child_path; [by apply (tk_clean _ Hok)|done|by rewrite Ha].
  - intros ([x [f|]] & [Hh He]%list_elem_of_filter & Hst).
    + by exists O, p, (MkDirEntry x (Some f)).
    + destruct Hst as [?|[_ (n & q & e & Heq & Ha & Hf & Hhe)]]; [done|]. simpl in Ha.
      exists (S n), q, e. split_and!; try done. destruct (subdir_child p x He Hp) as (_ & _ & Hd & _).
      unfold ancestor in *. simpl. by rewrite Ha.
Qed.

Lemma visible_in_filtered p : p <> "/" -> visible_under t hidden p -> p ∈ dom (filter_hidden hidden t).
Proof.
  intros Hp (e & He & _)%visible_under_cases; [|done]. apply dom_filter_hidden. intros Hk.
  rewrite Hk in He. by apply not_elem_of_nil in He.
Qed.

(** The state of the pass: the directories done are settled, the others as
    filtered. *)
Definition settled (cur : Tree) (p : string) : Prop :=
  (p ∈ dom cur <-> dir_entries cur p <> []) /\
  exists (P : DirEntry -> Prop) (_ : forall e, Decision (P e)),
    dir_entries cur p = filter P (kept p) /\ forall e, e ∈ kept p -> P e <-> stays p e.

Definition pass_inv (cur : Tree) (done : list string) : Prop :=
  forall p, (p ∈ done -> settled cur p) /\ (p ∉ done -> cur !! p = filter_hidden hidden t !! p).

Lemma settled_elem cur p e : settled cur p -> e ∈ dir_entries cur p <-> e ∈ kept p /\ stays p e.
Proof. intros (_ & P & HP & -> & Hs). rewrite list_elem_of_filter. naive_solver. Qed.

Lemma settled_visible cur p : p <> "/" -> settled cur p -> p ∈ dom cur <-> visible_under t hidden p.
Proof.
  intros Hp Hs. rewrite visible_under_cases by done. rewrite (proj1 Hs).
  setoid_rewrite <- (settled_elem cur p _ Hs). destruct (dir_entries cur p) as [|e l].
  - split; [done|]. intros [e He]. by apply not_elem_of_nil in He.
  - split; [|done]. intros _. exists e. by left.
Qed.

Lemma pass_dom cur done p : pass_inv cur done -> p ∈ dom cur -> p ∈ dom (filter_hidden hidden t).
Proof.
  intros Hi Hp. destruct (decide (p ∈ done)) as [Hd|Hd].
  - apply Hi in Hd. apply dom_filter_hidden. apply (proj1 Hd) in Hp.
    destruct Hd as (_ & P & HP & He & _). rewrite He in Hp. intros Hk. by rewrite Hk in Hp.
  - apply elem_of_dom. rewrite <- (proj2 (Hi p) Hd). by apply elem_of_dom.
Qed.

Lemma double_slash_unclean x : ~ clean_path ("//" +:+ x).
Proof.
  intros (l & Hl & He). apply (f_equal (fun s => Split s slash)) in He.
  change ("//" +:+ x) with (String slash (String slash x)) in He. cbn [Split] in He.
  rewrite !bool_decide_true in He by done.
  destruct l as [|y l].
  { change (Split (render []) slash) with [""; ""] in He. injection He as He. by apply Split_not_nil in He. }
  rewrite Split_render in He by (by apply elems_no_byte || done). injection He as <- _.
  inversion Hl as [|?? [Hy _] _]. done.
Qed.

Lemma child_deeper p x :
  MkDirEntry x None ∈ dir_entries t p -> p <> "/" -> deeper (p +:+ "/" +:+ x) p = true.
Proof.
  intros Hx Hp. destruct (subdir_child p x Hx Hp) as (Hq & Hn & Hd & _). unfold deeper.
  assert (p ∈ dom t) as Hpd by (by apply elem_of_dir_entries in Hx).
  rewrite !clean_path_Count by (by apply (tk_clean _ Hok)).
  rewrite (path_depth_Dir (p +:+ "/" +:+ x)) by (by apply (tk_clean _ Hok) || done). rewrite Hd.
  pose proof (path_depth_Dir p (tk_clean _ Hok p Hpd) Hp).
  destruct (Z.eqb_spec (Z.max 1 (Z.of_nat (S (path_depth p)))) (Z.max 1 (Z.of_nat (path_depth p)))); simpl; [exfalso; lia|apply Z.ltb_lt; lia].
Qed.

(** What the pass decides about an entry of the directory it visits. *)
Lemma entry_valid_stays cur done p rest e :
  pass_inv cur done -> (forall q, q ∈ dom (filter_hidden hidden t) -> q ∈ done ++ p :: rest) ->
  (forall r, r ∈ rest -> deeper r p = false) -> e ∈ kept p -> entry_valid cur p e <-> stays p e.
Proof.
  intros Hi Hall Hord He. unfold entry_valid, stays. destruct e as [x [f|]]; simpl; [naive_solver|].
  assert (MkDirEntry x None ∈ dir_entries t p) as Hx by (by apply kept_subdir).
  rewrite <- elem_of_dom. destruct (decide (p = "/")) as [->|Hp].
  - split; [|naive_solver]. intros Hd. exfalso. apply (double_slash_unclean x), (tk_clean _ Hok).
    apply filter_hidden_dom. by apply (pass_dom cur done).
  - set (q := p +:+ "/" +:+ x) in *. destruct (subdir_child p x Hx Hp) as (Hq & Hqn & Hqd & Hqb). fold q in Hq, Hqn, Hqd, Hqb.
    assert (q ∈ dom cur <-> visible_under t hidden q) as Hv; [|naive_solver].
    destruct (decide (q ∈ done)) as [Hdone|Hdone]; [apply settled_visible; [done|by apply Hi]|].
    assert (q ∉ dom (filter_hidden hidden t)) as Hnf.
    { intros [Hin|[Heq|Hin]%elem_of_cons]%Hall%elem_of_app; [done| |].
      - pose proof (child_deeper p x Hx Hp) as Hdeep. fold q in Hdeep. rewrite Heq in Hdeep. unfold deeper in Hdeep.
        rewrite Z.eqb_refl in Hdeep. simpl in Hdeep. by rewrite str_lt_irrefl in Hdeep.
      - pose proof (child_deeper p x Hx Hp) as Hdeep. fold q in Hdeep. rewrite (Hord q Hin) in Hdeep. done. }
    rewrite elem_of_dom, (proj2 (Hi q) Hdone), <- elem_of_dom. split; [done|].
    intros Hvis. by apply visible_in_filtered in Hvis.
Qed.

Lemma prune_step cur done p rest :
  pass_inv cur done -> p ∉ done -> (forall q, q ∈ dom (filter_hidden hidden t) <-> q ∈ done ++ p :: rest) ->
  (forall r, r ∈ rest -> deeper r p = false) -> pass_inv (prune_dir cur p) (done ++ [p]).
Proof.
  intros Hi Hnd Hall Hord.
  assert (p ∈ dom (filter_hidden hidden t)) as Hp by (apply Hall, elem_of_app; right; by left).
  assert (cur !! p = Some (kept p)) as Hcur.
  { rewrite (proj2 (Hi p) Hnd), lookup_filter_hidden, bool_decide_false; [done|]. by apply dom_filter_hidden. }
  assert (forall e, e ∈ kept p -> entry_valid cur p e <-> stays p e) as Hv.
  { intros e. apply (entry_valid_stays cur done p rest); try done. intros q. apply Hall. }
  assert (forall q, q <> p -> prune_dir cur p !! q = cur !! q) as Hother.
  { intros q Hq. unfold prune_dir. rewrite Hcur. case_bool_decide; [by rewrite lookup_delete_ne|by rewrite lookup_insert_ne]. }
  assert (prune_dir cur p !! p = if bool_decide (filter (entry_valid cur p) (kept p) = []) then None
            else Some (filter (entry_valid cur p) (kept p))) as Hself.
  { unfold prune_dir. rewrite Hcur. case_bool_decide; [by rewrite lookup_delete_eq|by rewrite lookup_insert_eq]. }
  intros q. destruct (decide (q = p)) as [->|Hq]; [split|].
  - intros _. split.
    + rewrite elem_of_dom. unfold dir_entries. rewrite Hself. case_bool_decide; simpl; [|by eauto].
      split; [by intros [? ?]|done].
    + exists (entry_valid cur p), _. split; [|done]. unfold dir_entries. rewrite Hself. by case_bool_decide.
  - intros Hn. exfalso. apply Hn, elem_of_app. right. by left.
  - destruct (Hi q) as [H1 H2]. rewrite elem_of_app, list_elem_of_singleton. split.
    + intros [Hd|?]; [|done]. unfold settled, dir_entries. rewrite elem_of_dom, Hother by done.
      rewrite <- elem_of_dom. by apply H1.
    + intros Hn. rewrite Hother by done. apply H2. tauto.
Qed.

Lemma prune_pass rest done cur :
  pass_inv cur done -> NoDup (done ++ rest) ->
  (forall q, q ∈ dom (filter_hidden hidden t) <-> q ∈ done ++ rest) -> sorted_by deeper rest ->
  pass_inv (foldl prune_dir cur rest) (done ++ rest).
Proof.
  revert done cur. induction rest as [|p rest IH]; intros done cur Hi Hnd Hall Hs; [by rewrite app_nil_r|].
  apply StronglySorted_inv in Hs as [Hs Hp]. rewrite Forall_forall in Hp. simpl.
  replace (done ++ p :: rest) with ((done ++ [p]) ++ rest) in * by (by rewrite <- app_assoc).
  apply IH; [|done|done|done]. apply (prune_step cur done p rest); [done| | |done].
  - rewrite <- app_assoc in Hnd. apply NoDup_app in Hnd as (_ & Hd & _). intros Hin. apply (Hd _ Hin). by left.
  - intros q. rewrite Hall, <- app_assoc. done.
Qed.

End apply_hides.

Lemma deeper_strict_weak : StrictWeak deeper.
Proof.
  destruct str_lt_strict_weak as [H1 H2 H3]. unfold deeper. split.
  - intros x. by rewrite Z.eqb_refl, H1.
  - intros x y. destruct (Z.eqb_spec (Count x slash) (Count y slash)) as [E|E]; simpl.
    + rewrite E, Z.eqb_refl. apply H2.
    + rewrite (proj2 (Z.eqb_neq _ _)) by congruence. simpl. lia.
  - intros x y z.
    destruct (Z.eqb_spec (Count y slash) (Count x slash)), (Z.eqb_spec (Count z slash) (Count y slash)),
      (Z.eqb_spec (Count z slash) (Count x slash)); simpl; try lia; eauto.
Qed.

Lemma filter_ext_in {A} (P Q : A -> Prop) `{forall x, Decision (P x), forall x, Decision (Q x)} (l : list A) :
  (forall x, x ∈ l -> P x <-> Q x) -> filter P l = filter Q l.
Proof.
  induction l as [|x l IH]; intros Hl; [done|]. rewrite !filter_cons.
  rewrite IH by (intros y Hy; apply Hl; by right). apply decide_ext, Hl. by left.
Qed.

Section theorems.
Context `{MI : MapIter, SS : SliceSort}.

Lemma ApplyHides_settled t hidden :
  tree_ok t -> hidden <> ∅ ->
  exists cur, ApplyHides t hidden = Some (sort_dirs cur) /\ forall p, settled t hidden cur p.
Proof.
  intros Hok Hh. unfold ApplyHides. rewrite bool_decide_false by done.
  rewrite (buildParentDirs_filtered t hidden Hok). cbn [mbind option_bind].
  set (F := filter_hidden hidden t). set (paths := slice_sort deeper (map_range 1 F).*1).
  exists (foldl prune_dir F paths). split; [done|].
  assert (forall q, q ∈ dom F <-> q ∈ paths) as Hall.
  { intros q. unfold paths. rewrite slice_sort_perm, list_elem_of_fmap, elem_of_dom. split.
    - intros [v Hv]. exists (q, v). split; [done|]. by apply elem_of_map_range.
    - intros ([k v] & -> & Hv). apply elem_of_map_range in Hv. eauto. }
  assert (pass_inv t hidden (foldl prune_dir F paths) ([] ++ paths)) as Hp.
  { apply (prune_pass t hidden Hok); [|unfold paths; rewrite slice_sort_perm; apply NoDup_map_range|done|].
    - intros p. split; [by intros ?%not_elem_of_nil|done].
    - apply slice_sort_sorted, deeper_strict_weak. }
  intros p. destruct (Hp p) as [H1 H2]. destruct (decide (p ∈ paths)) as [Hin|Hin]; [by apply H1|].
  assert (p ∉ dom F) as Hnf by (by rewrite Hall).
  assert (kept t hidden p = []) as Hk.
  { destruct (decide (kept t hidden p = [])); [done|]. by destruct Hnf; apply dom_filter_hidden. }
  assert (dir_entries (foldl prune_dir F paths) p = []) as Hd.
  { unfold dir_entries. rewrite H2 by done. apply not_elem_of_dom in Hnf. fold F. by rewrite Hnf. }
  split.
  - rewrite Hd, elem_of_dom, H2, <- elem_of_dom by done. by split.
  - exists (fun _ => False), _. rewrite Hd, Hk. split; [done|]. by intros e ?%not_elem_of_nil.
Qed.

(** [C17] [ApplyHides] hides exactly the hidden files.  On a tree of the builders,
    with something hidden, it returns; each directory keeps its files that are not
    hidden, sorted; below the root a directory is listed, and exists, exactly
    when a visible file lies under it (so nothing empty is left, in one bottom-up
    pass); the root, whose children are looked up as [//name], loses all its
    directory entries. *)
Theorem ApplyHides_exact t hidden :
  tree_ok t -> hidden <> ∅ ->
  exists t', ApplyHides t hidden = Some t' /\
  (forall p, sorted_by name_lt (dir_entries t' p) /\
             files_in t' p ≡ₚ filter (fun e => ~ hidden_entry hidden e) (files_in t p)) /\
  (forall p x, p <> "/" ->
     MkDirEntry x None ∈ dir_entries t' p <->
     MkDirEntry x None ∈ dir_entries t p /\ visible_under t hidden (p +:+ "/" +:+ x)) /\
  (forall p, p <> "/" -> p ∈ dom t' <-> visible_under t hidden p) /\
  (forall x, MkDirEntry x None ∉ dir_entries t' "/").
Proof.
  intros Hok Hh. destruct (ApplyHides_settled t hidden Hok Hh) as (cur & -> & Hs).
  exists (sort_dirs cur). split; [done|]. rewrite dom_sort.
  assert (forall p x, p <> "/" -> MkDirEntry x None ∈ dir_entries cur p <->
            MkDirEntry x None ∈ dir_entries t p /\ visible_under t hidden (p +:+ "/" +:+ x)) as Hsub.
  { intros p x Hp. rewrite (settled_elem _ _ _ _ _ (Hs p)), kept_subdir. unfold stays. simpl. naive_solver. }
  split_and!.
  - intros p. split; [apply dir_entries_sorted|]. unfold files_in at 1. rewrite dir_entries_sort.
    destruct (Hs p) as (_ & P & HP & -> & HPs). unfold kept, files_in in *. rewrite !list_filter_filter.
    apply reflexive_eq, filter_ext_in. intros e He. split; [tauto|]. intros [H1 H2]. split_and!; try done.
    apply HPs; [by apply list_elem_of_filter|]. left. exact H2.
  - intros p x Hp. rewrite dir_entries_sort. by apply Hsub.
  - intros p Hp. by apply settled_visible.
  - intros x. rewrite dir_entries_sort, (settled_elem _ _ _ _ _ (Hs "/")). unfold stays. simpl. naive_solver.
Qed.

End theorems.
