(* ===== verification/TreeView.v ===== *)
(** * Trees up to what a reader sees

    Two trees are the same listing when every directory shows the same names
    with the same content keys, in any order.  Completing the parents and hiding
    respect this; it is the equivalence under which the tree rebuilt from the
    database and the tree of a refresh agree. *)
From Stdlib Require Import Ascii.
From S2P Require Import Prelude GoStrings StateDB Regexp Classify Tree TreeProps TreeDB.
Open Scope Z_scope.

Definition view (e : DirEntry) : string * option string := (Name e, ContentKey <$> EntryFile e).

Definition same_listing (t1 t2 : Tree) : Prop :=
  forall p, view <$> dir_entries t1 p ≡ₚ view <$> dir_entries t2 p.

#[export] Instance same_listing_equiv : Equivalence same_listing.
Proof.
  split.
  - by intros t p.
  - intros t1 t2 H p. by rewrite (H p).
  - intros t1 t2 t3 H1 H2 p. by rewrite (H1 p).
Qed.

Lemma same_listing_sort `{SliceSort} t : same_listing (sort_dirs t) t.
Proof. intros p. by rewrite dir_entries_sort. Qed.

(** A predicate on entries that only looks at the view, possibly in two trees. *)
Lemma view_filter (P1 P2 : DirEntry -> Prop)
    `{forall e, Decision (P1 e), forall e, Decision (P2 e)} (l1 l2 : list DirEntry) :
  view <$> l1 ≡ₚ view <$> l2 ->
  (forall e1 e2, e1 ∈ l1 -> e2 ∈ l2 -> view e1 = view e2 -> P1 e1 <-> P2 e2) ->
  view <$> filter P1 l1 ≡ₚ view <$> filter P2 l2.
Proof.
  intros Hp Hext.
  set (Q := fun v => Exists (fun e => view e = v /\ P1 e) l1).
  assert (forall v, Decision (Q v)) as HQ by (intros v; unfold Q; apply _).
  assert (forall e, e ∈ l2 -> exists e1, e1 ∈ l1 /\ view e1 = view e) as Hback.
  { intros e He. assert (view e ∈ view <$> l1) as Hv by (rewrite Hp; by apply list_elem_of_fmap_2).
    apply list_elem_of_fmap in Hv as (e1 & ? & ?). eauto. }
  assert (forall e, e ∈ l1 -> exists e2, e2 ∈ l2 /\ view e2 = view e) as Hforth.
  { intros e He. assert (view e ∈ view <$> l2) as Hv by (rewrite <- Hp; by apply list_elem_of_fmap_2).
    apply list_elem_of_fmap in Hv as (e1 & ? & ?). eauto. }
  assert (forall (P : DirEntry -> Prop) `{forall e, Decision (P e)} (l : list DirEntry), (forall e, e ∈ l -> P e <-> Q (view e)) ->
            view <$> filter P l = filter Q (view <$> l)) as Hfm.
  { clear. intros P HP l. induction l as [|e l IH]; intros Hl; [done|].
    rewrite fmap_cons, !filter_cons. specialize (Hl e (ltac:(by left))) as He.
    rewrite <- IH by (intros; apply Hl; by right).
    destruct (decide (P e)), (decide (Q (view e))); tauto || done. }
  rewrite (Hfm P1), (Hfm P2); [by rewrite Hp| |].
  - intros e2 He2. unfold Q. rewrite Exists_exists. split.
    + intros HP2. destruct (Hback e2 He2) as (e1 & H1 & Hv). exists e1. split_and!; try done. by apply (Hext e1 e2).
    + intros (e1 & H1 & Hv & HP1). by apply (Hext e1 e2).
  - intros e1 He1. unfold Q. rewrite Exists_exists. split; [by eauto|].
    intros (e & He & Hv & HP). destruct (Hforth e1 He1) as (e2 & He2 & Hv2).
    apply (Hext e1 e2); try done. by apply (Hext e e2); [..|congruence|].
Qed.

Lemma view_elem t1 t2 p e :
  same_listing t1 t2 -> e ∈ dir_entries t1 p -> exists e', e' ∈ dir_entries t2 p /\ view e' = view e.
Proof.
  intros Hs He. assert (view e ∈ view <$> dir_entries t2 p) as Hv by (rewrite <- (Hs p); by apply list_elem_of_fmap_2).
  apply list_elem_of_fmap in Hv as (e' & ? & ?). eauto.
Qed.

Lemma view_hidden hidden e1 e2 : view e1 = view e2 -> hidden_entry hidden e1 <-> hidden_entry hidden e2.
Proof.
  intros Hv. unfold view in Hv. injection Hv as _ Hk. unfold hidden_entry.
  destruct (EntryFile e1), (EntryFile e2); simpl in *; try done. injection Hk as ->. done.
Qed.

Lemma view_file e1 e2 : view e1 = view e2 -> EntryFile e1 <> None <-> EntryFile e2 <> None.
Proof. intros [= _ Hk]. destruct (EntryFile e1), (EntryFile e2); done. Qed.

Lemma visible_under_listing t1 t2 hidden p :
  same_listing t1 t2 -> visible_under t1 hidden p -> visible_under t2 hidden p.
Proof.
  intros Hs (n & q & e & He & Ha & Hf & Hh). destruct (view_elem t1 t2 q e Hs He) as (e' & He' & Hv).
  exists n, q, e'. split_and!; [done|done|by apply (view_file e' e)|]. by rewrite (view_hidden _ e' e Hv).
Qed.

(** Hiding the same files gives the same listing. *)
Lemma ApplyHides_listing `{MapIter, SliceSort} t1 t2 hidden :
  tree_ok t1 -> tree_ok t2 -> same_listing t1 t2 -> hidden <> ∅ ->
  exists t1' t2', ApplyHides t1 hidden = Some t1' /\ ApplyHides t2 hidden = Some t2' /\ same_listing t1' t2'.
Proof.
  intros H1 H2 Hs Hh.
  destruct (ApplyHides_settled t1 hidden H1 Hh) as (c1 & E1 & S1).
  destruct (ApplyHides_settled t2 hidden H2 Hh) as (c2 & E2 & S2).
  exists (sort_dirs c1), (sort_dirs c2). split_and!; [done|done|].
  rewrite !same_listing_sort. intros p.
  destruct (S1 p) as (_ & P1 & D1 & -> & HP1). destruct (S2 p) as (_ & P2 & D2 & -> & HP2).
  unfold kept in *. rewrite !list_filter_filter. apply view_filter; [apply Hs|].
  intros e1 e2 He1 He2 Hv. rewrite (view_hidden hidden e1 e2) by done.
  assert (~ hidden_entry hidden e2 -> P1 e1 <-> P2 e2) as HP; [|tauto].
  intros Hn. rewrite HP1 by (apply list_elem_of_filter; by rewrite (view_hidden hidden e1 e2)).
  rewrite HP2 by (by apply list_elem_of_filter). unfold stays. rewrite (view_file e1 e2) by done.
  assert (Name e1 = Name e2) as -> by (by injection Hv).
  assert (visible_under t1 hidden (p +:+ "/" +:+ Name e2) <-> visible_under t2 hidden (p +:+ "/" +:+ Name e2)) as ->; [|done].
  split; by apply visible_under_listing.
Qed.

(** ** Trees from placements *)

Definition vplaced (l : list (string * DirEntry)) : list (string * (string * option string)) :=
  (fun a => (a.1, view a.2)) <$> l.

Definition placed_ok (l : list (string * DirEntry)) : Prop :=
  forall p e, (p, e) ∈ l -> clean_path p /\ ~ is_subdir e.

Lemma entries_for_view p l : view <$> entries_for p l = (filter (fun a => a.1 = p) (vplaced l)).*2.
Proof.
  unfold vplaced. induction l as [|[q e] l IH]; [done|].
  rewrite entries_for_cons, fmap_cons, filter_cons. simpl.
  destruct (decide (q = p)); rewrite ?fmap_cons; [f_equal|]; exact IH.
Qed.

Lemma dir_entries_placed l p : dir_entries (apply_additions l ∅) p = entries_for p l.
Proof. rewrite dir_entries_apply. unfold dir_entries. by rewrite lookup_empty. Qed.

Lemma dom_placed l p : p ∈ dom (apply_additions l ∅) <-> p ∈ (vplaced l).*1.
Proof.
  rewrite dom_apply, dom_empty_L. unfold vplaced. rewrite <- list_fmap_compose.
  rewrite elem_of_union, elem_of_list_to_set. change (fst ∘ (fun a => (a.1, view a.2))) with (@fst string DirEntry).
  set_solver.
Qed.

Lemma filter_none {A} (P : A -> Prop) `{forall x, Decision (P x)} (l : list A) :
  (forall x, x ∈ l -> ~ P x) -> filter P l = [].
Proof.
  induction l as [|x l IH]; intros Hl; [done|]. rewrite filter_cons, decide_False by (apply Hl; by left).
  apply IH. intros y Hy. apply Hl. by right.
Qed.

Lemma filter_all {A} (P : A -> Prop) `{forall x, Decision (P x)} (l : list A) :
  (forall x, x ∈ l -> P x) -> filter P l = l.
Proof.
  induction l as [|x l IH]; intros Hl; [done|]. rewrite filter_cons, decide_True by (apply Hl; by left).
  f_equal. apply IH. intros y Hy. apply Hl. by right.
Qed.

(** Completing the parents of placed files. *)
Lemma placed_tree `{MapIter} l :
  placed_ok l ->
  exists t, buildParentDirs (apply_additions l ∅) = Some t /\ navigable (apply_additions l ∅) t /\
            forall p, files_in t p = entries_for p l.
Proof.
  intros Hl.
  assert (forall p e, e ∈ entries_for p l -> ~ is_subdir e) as Hf
    by (intros p e He%elem_of_entries_for; by apply Hl in He as [_ ?]).
  destruct (buildParentDirs_navigable (apply_additions l ∅)) as (t & Ht & Hn).
  - intros p. rewrite dom_placed. unfold vplaced. rewrite <- list_fmap_compose, list_elem_of_fmap.
    intros ([q e] & -> & Hq). by apply Hl in Hq as [? _].
  - apply no_empty_dir_apply. intros p. set_solver.
  - intros p. unfold subdirs_in. rewrite dir_entries_placed. by apply filter_none, Hf.
  - exists t. split_and!; [done|done|]. intros p. rewrite (nv_files _ _ Hn). unfold files_in.
    rewrite dir_entries_placed. by apply filter_all, Hf.
Qed.

Lemma dir_entries_split t p : dir_entries t p ≡ₚ subdirs_in t p ++ files_in t p.
Proof.
  unfold subdirs_in, files_in. induction (dir_entries t p) as [|e l IH]; [done|]. rewrite !filter_cons.
  destruct (decide (is_subdir e)) as [Hs|Hs].
  - rewrite decide_False by tauto. simpl. by rewrite <- IH.
  - rewrite decide_True by done. rewrite <- Permutation_middle. by rewrite <- IH.
Qed.

Lemma navigable_listing l1 l2 t1 t2 :
  vplaced l1 ≡ₚ vplaced l2 ->
  navigable (apply_additions l1 ∅) t1 -> navigable (apply_additions l2 ∅) t2 ->
  (forall p, files_in t1 p = entries_for p l1) -> (forall p, files_in t2 p = entries_for p l2) ->
  same_listing t1 t2.
Proof.
  intros Hv H1 H2 F1 F2 p. rewrite !dir_entries_split, !fmap_app.
  assert (forall q, q ∈ dom t1 <-> q ∈ dom t2) as Hdom.
  { intros q. rewrite (nv_above _ _ H1), (nv_above _ _ H2). setoid_rewrite dom_placed. by setoid_rewrite Hv. }
  assert (subdirs_in t1 p ≡ₚ subdirs_in t2 p) as ->.
  { apply NoDup_Permutation; [apply H1|apply H2|]. intros [x [f|]].
    - unfold subdirs_in. rewrite !list_elem_of_filter. by split; intros [? _].
    - rewrite (nv_subdirs _ _ H1), (nv_subdirs _ _ H2). by setoid_rewrite Hdom. }
  f_equiv. rewrite F1, F2, !entries_for_view. by rewrite Hv.
Qed.

(** ** Trees from any records *)

(** The tree of a builder so far holds files at clean paths. *)
Definition placed_state (st : gset string * Tree) : Prop :=
  exists l, placed_ok l /\ st.2 = apply_additions l ∅.

Lemma placed_state_append seen seen' t p e :
  placed_state (seen, t) -> clean_path p -> EntryFile e <> None -> placed_state (seen', append_entry p e t).
Proof.
  intros (l & Hl & Ht) Hp He. simpl in Ht. subst t. exists (l ++ [(p, e)]). split.
  - intros q x [Hin|Hin]%elem_of_app; [by apply Hl|]. apply list_elem_of_singleton in Hin as [= -> ->]. by split.
  - cbn [snd]. by rewrite apply_additions_app.
Qed.

Lemma add_record_placed st r : is_rooted (Path r) = true -> placed_state st -> placed_state (add_record st r).
Proof.
  intros Hr. destruct st as [seen t]. intros Hs. unfold add_record.
  destruct (decide _); [done|]. destruct (HasPrefix (Path r) "/all/"); [done|].
  apply (placed_state_append seen); [done|by apply Dir_rooted|done].
Qed.

Lemma add_all_record_placed st r : placed_state st -> placed_state (add_all_record st r).
Proof.
  destruct st as [seen t]. intros Hs. unfold add_all_record. destruct (splitPath _) as [|x [|title rest]]; [done..|].
  destruct (decide _); [done|]. destruct (List.find _ _) as [e|] eqn:Hf; [|done].
  apply List.find_some in Hf as [_ Hb]. apply andb_true_iff in Hb as [_ Hb]. apply bool_decide_eq_true in Hb.
  apply (placed_state_append seen); [done|by apply path_Join_rooted|done].
Qed.

Lemma foldl_placed (f : gset string * Tree -> FileRecord -> gset string * Tree) (P : FileRecord -> Prop) l st :
  (forall st r, P r -> placed_state st -> placed_state (f st r)) -> Forall P l -> placed_state st ->
  placed_state (foldl f st l).
Proof.
  intros Hf Hl. revert st. induction Hl as [|r l Hr Hl IH]; intros st Hs; [done|]. apply IH. by apply Hf.
Qed.

Lemma BuildTreeFromDB_ok `{MapIter, SliceSort} records allDir :
  Forall (fun r => is_rooted (Path r) = true) records ->
  exists t, BuildTreeFromDB records allDir = Some t /\ tree_ok t.
Proof.
  intros Hr. unfold BuildTreeFromDB. cbv zeta.
  match goal with |- context [buildParentDirs ?st.2] => assert (placed_state st) as (l & Hl & ->) end.
  { assert (placed_state (foldl add_record (∅, ∅) records)) as Hs.
    { apply (foldl_placed _ (fun r => is_rooted (Path r) = true)); [|done|].
      - intros. by apply add_record_placed.
      - exists []. split; [by intros p e ?%not_elem_of_nil|done]. }
    destruct (allDir && _); [|done]. apply (foldl_placed _ (fun _ => True)); [|by apply Forall_true|done].
    intros. by apply add_all_record_placed. }
  destruct (placed_tree l Hl) as (t & -> & Hn & _). exists (sort_dirs t). split; [done|]. by apply (navigable_tree_ok _ _ Hn).
Qed.
