(* ===== verification/Catalog.v ===== *)
(** * The catalog

    [internal/catalog/catalog.go]: a refresh fetches the three kinds of downloads,
    builds the tree, assigns inodes, replaces the file records, hides what is
    hidden, swaps the tree in and notifies the FUSE layer; at startup the tree is
    rebuilt from the records instead.  The downloader is an argument; the
    [onRefresh] callback works on a state [S] of its own and on the database.  A
    result is [None] only if a tree loop ran out of fuel, which does not happen. *)
From Stdlib Require Import Ascii.
From S2P Require Import Prelude GoStrings Metrics Sql StateDB Regexp Classify Tree TreeProps TreeDB.
Open Scope Z_scope.

Inductive CatalogErr :=
| ErrRefreshInProgress
| ErrFetch (cause : string)        (* "upsert file records: ..." *)
| ErrReplace (cause : StateErr)    (* "replace file records: ..." *)
| ErrLoad (cause : StateErr).      (* "load from db: ..." *)

Section catalog.
Context `{MI : MapIter, SS : SliceSort}.
Context {S : Type} (env : SqlEnv).

(** [client] is the [Downloader]; nil in a catalog made from a static tree.  All
    the other fields of the struct, with the callback's state. *)
Record Catalog := MkCatalog {
  client : option (string -> result string (list Download));
  stateDB : DB;
  metrics : option Metrics;
  allDirEnabled : bool;
  tree : Tree;
  refreshing : bool;
  onRefresh : option (Tree -> S * DB -> S * DB);
  cb_state : S
}.

Definition set_db (db : DB) (c : Catalog) : Catalog :=
  MkCatalog (client c) db (metrics c) (allDirEnabled c) (tree c) (refreshing c) (onRefresh c) (cb_state c).
Definition set_metrics (m : option Metrics) (c : Catalog) : Catalog :=
  MkCatalog (client c) (stateDB c) m (allDirEnabled c) (tree c) (refreshing c) (onRefresh c) (cb_state c).
Definition set_tree (t : Tree) (c : Catalog) : Catalog :=
  MkCatalog (client c) (stateDB c) (metrics c) (allDirEnabled c) t (refreshing c) (onRefresh c) (cb_state c).
Definition set_refreshing (b : bool) (c : Catalog) : Catalog :=
  MkCatalog (client c) (stateDB c) (metrics c) (allDirEnabled c) (tree c) b (onRefresh c) (cb_state c).

Definition NewCatalogFromTree (db : DB) (s : S) (t : Tree) : Catalog :=
  MkCatalog None db None false t false None s.

Definition NewCatalog (cl : string -> result string (list Download)) (db : DB) (m : Metrics)
    (allDir : bool) (s : S) : Catalog :=
  MkCatalog (Some cl) db (Some m) allDir ∅ false None s.

Definition SetOnRefresh (fn : Tree -> S * DB -> S * DB) (c : Catalog) : Catalog :=
  MkCatalog (client c) (stateDB c) (metrics c) (allDirEnabled c) (tree c) (refreshing c) (Some fn) (cb_state c).

(** [if c.onRefresh != nil { c.onRefresh() }]: the callback reads the new tree. *)
Definition notify (c : Catalog) : Catalog :=
  match onRefresh c with
  | None => c
  | Some fn =>
      let '(s, db) := fn (tree c) (cb_state c, stateDB c) in
      MkCatalog (client c) db (metrics c) (allDirEnabled c) (tree c) (refreshing c) (onRefresh c) s
  end.

Definition count_metric (k : counter) (c : Catalog) : Catalog := set_metrics (add_opt k 1 (metrics c)) c.
Definition store_metric (k : counter) (v : Z) (c : Catalog) : Catalog :=
  set_metrics (Metrics.store k v <$> metrics c) c.

(** The fetch loop: the first failing kind ends it. *)
Fixpoint fetch_all (cl : string -> result string (list Download)) (kinds : list string)
    (acc : list Download) (c : Catalog) : result CatalogErr (list Download) * Catalog :=
  match kinds with
  | [] => (Ok acc, c)
  | kind :: kinds' =>
      match cl kind with
      | Err e => (Err (ErrFetch e), c)
      | Ok ds => fetch_all cl kinds' (acc ++ ds) (count_metric CAPICallCount c)
      end
  end.

(** The file record of an entry; its path is the directory and the name. *)
Definition entry_record (dirPath : string) (name : string) (f : File) : FileRecord :=
  MkFileRecord (ContentKey f) (f_DownloadKind f) (f_DownloadID f) (f_FileID f)
               (dirPath +:+ "/" +:+ name) (f_Size f).

(** One entry of the walk: directories and the derived [/all] entries are
    skipped; a file whose inode cannot be assigned is left out. *)
Definition walk_entry (dirPath : string) (st : list FileRecord * DB) (e : DirEntry) : list FileRecord * DB :=
  match EntryFile e with
  | None => st
  | Some f =>
      if HasPrefix dirPath "/all/" then st
      else
        let '(acc, db) := st in
        match AssignInode env (ContentKey f) (dirPath +:+ "/" +:+ Name e) db with
        | (Err _, db') => (acc, db')
        | (Ok _, db') => (acc ++ [entry_record dirPath (Name e) f], db')
        end
  end.

Definition walk (t : Tree) (db : DB) : list FileRecord * DB :=
  foldl (fun st kv => foldl (walk_entry kv.1) st kv.2) ([], db) (map_range 2 t).

(** The hidden set is applied if it could be read and is not empty. *)
Definition hide (t : Tree) (db : DB) : option (Tree * DB) :=
  match HiddenSet env db with
  | (Err _, db') => Some (t, db')
  | (Ok hidden, db') =>
      if bool_decide (hidden = ∅) then Some (t, db')
      else t' ← ApplyHides t hidden; Some (t', db')
  end.

Definition Refresh (c : Catalog) : option (result CatalogErr unit * Catalog) :=
  if refreshing c then Some (Err ErrRefreshInProgress, c)
  else
    let done (r : result CatalogErr unit) (c : Catalog) := Some (r, set_refreshing false c) in
    let c := count_metric CRefreshCount (set_refreshing true c) in
    match client c with
    | None => done (Ok tt) c
    | Some cl =>
        match fetch_all cl [KindTorrent; KindUsenet; KindWebDL] [] c with
        | (Err e, c) => done (Err e) c
        | (Ok allDownloads, c) =>
            t ← BuildTree allDownloads (allDirEnabled c);
            let '(fs, db) := walk t (stateDB c) in
            match ReplaceFiles env fs db with
            | (Err e, db) => done (Err (ErrReplace e)) (set_db db c)
            | (Ok _, db) =>
                '(t', db) ← hide t db;
                let c := notify (set_tree t' (set_db db c)) in
                done (Ok tt) (store_metric CCatalogItems (Z.of_nat (length fs)) c)
            end
        end
    end.

(** A refresh up to the moment the new tree is in place, and the rest of it: the
    notification and the metric.  Without a number of items it has ended early. *)
Definition refresh_until_swap (c : Catalog) : option (result CatalogErr (option Z) * Catalog) :=
  if refreshing c then Some (Err ErrRefreshInProgress, c)
  else
    let c := count_metric CRefreshCount (set_refreshing true c) in
    match client c with
    | None => Some (Ok None, set_refreshing false c)
    | Some cl =>
        match fetch_all cl [KindTorrent; KindUsenet; KindWebDL] [] c with
        | (Err e, c) => Some (Err e, set_refreshing false c)
        | (Ok ds, c) =>
            t ← BuildTree ds (allDirEnabled c);
            let '(fs, db) := walk t (stateDB c) in
            match ReplaceFiles env fs db with
            | (Err e, db) => Some (Err (ErrReplace e), set_refreshing false (set_db db c))
            | (Ok _, db) =>
                '(t', db) ← hide t db;
                Some (Ok (Some (Z.of_nat (length fs))), set_tree t' (set_db db c))
            end
        end
    end.

Definition refresh_after_swap (items : Z) (c : Catalog) : Catalog :=
  set_refreshing false (store_metric CCatalogItems items (notify c)).

Definition LoadFromDB (c : Catalog) : option (result CatalogErr unit * Catalog) :=
  match ListFiles env (stateDB c) with
  | (Err e, db) => Some (Err (ErrLoad e), set_db db c)
  | (Ok records, db) =>
      if bool_decide (records = []) then Some (Ok tt, set_db db c)
      else
        t ← BuildTreeFromDB records (allDirEnabled c);
        '(t', db) ← hide t db;
        let c := notify (set_tree t' (set_db db c)) in
        Some (Ok tt, store_metric CCatalogItems (Z.of_nat (length records)) c)
  end.

Definition SetTree (t : Tree) (c : Catalog) : Catalog := notify (set_tree t c).

Lemma Refresh_halves c :
  Refresh c =
  '(r, c') ← refresh_until_swap c;
  Some (match r with
        | Err e => (Err e, c')
        | Ok None => (Ok tt, c')
        | Ok (Some items) => (Ok tt, refresh_after_swap items c')
        end).
Proof.
  unfold Refresh, refresh_until_swap. destruct (refreshing c); [done|].
  destruct (client _) as [cl|]; [|done]. destruct (fetch_all _ _ _ _) as [[ds|e] c1]; [|done].
  destruct (BuildTree _ _) as [t|]; [|done]. cbn [mbind option_bind].
  destruct (walk t _) as [fs db]. destruct (ReplaceFiles env fs db) as [[n|e] db']; [|done].
  by destruct (hide t db') as [[t' db'']|].
Qed.

End catalog.
Arguments Catalog S : clear implicits.
