(* ===== verification/CatalogProps.v ===== *)
(** * Properties of the catalog

    A library is the list of video files with their titles.  On a well-formed
    one, a refresh records exactly these files and shows them less the hidden
    ones; the tree a later process rebuilds from the database has the same
    listing; a refresh that fails leaves the tree in place. *)
From Stdlib Require Import Ascii.
From S2P Require Import Prelude GoStrings Metrics Sql StateDB Regexp Classify Tree TreeProps TreeDB TreeView Catalog.
From stdpp Require Import pretty.
Open Scope Z_scope.

(** ** Well-formed libraries *)

Definition tf_dir (tf : string * File) : string := file_dir tf.1 tf.2.
Definition tf_name (tf : string * File) : string := path_Base (f_Name tf.2).
Definition tf_place (tf : string * File) : string * DirEntry := (tf_dir tf, file_entry tf.2).
Definition tf_all (tf : string * File) : string * DirEntry := (path_Join ["/all"; tf.1], file_entry tf.2).
Definition tf_record (tf : string * File) : FileRecord := entry_record (tf_dir tf) (tf_name tf) tf.2.
Definition tf_key (tf : string * File) : string := ContentKey tf.2.

(** Titles and names that are proper path elements, the three kinds, one file
    per content key and one per place. *)
Record library_ok (l : list (string * File)) : Prop := {
  lk_titles : Forall (fun tf => elem_ok tf.1) l;
  lk_names : Forall (fun tf => elem_ok (tf_name tf)) l;
  lk_kinds : Forall (fun tf => f_DownloadKind tf.2 ∈ [KindTorrent; KindUsenet; KindWebDL]) l;
  lk_keys : NoDup (tf_key <$> l);
  lk_places : NoDup ((fun tf => (tf_dir tf, tf_name tf)) <$> l)
}.

#[export] Instance library_ok_dec l : Decision (library_ok l).
Proof.
  refine (cast_if (decide ((Forall (fun tf => elem_ok tf.1) l /\ Forall (fun tf => elem_ok (tf_name tf)) l) /\
    Forall (fun tf => f_DownloadKind tf.2 ∈ [KindTorrent; KindUsenet; KindWebDL]) l /\
    NoDup (tf_key <$> l) /\ NoDup ((fun tf => (tf_dir tf, tf_name tf)) <$> l)))).
  - abstract (destruct_and!; by split).
  - abstract (intros []; tauto).
Defined.

#[export] Instance library_ok_proper : Proper ((≡ₚ) ==> iff) library_ok.
Proof. intros l1 l2 Hp. split; intros [H1 H2 H3 H4 H5]; split; by rewrite ?Hp in * || rewrite <- ?Hp in *. Qed.

Lemma main_placements_titled ds : main_placements ds = tf_place <$> titled_files ds.
Proof.
  unfold main_placements, titled_files. induction ds as [|d ds IH]; [done|].
  rewrite !bind_cons, fmap_app, IH. f_equal. by rewrite <- list_fmap_compose.
Qed.

Lemma first_by_key_NoDup seen l :
  NoDup (tf_key <$> l) -> (forall tf, tf ∈ l -> tf_key tf ∉ seen) -> first_by_key seen l = l.
Proof.
  revert seen. induction l as [|tf l IH]; intros seen Hnd Hs; [done|].
  rewrite fmap_cons in Hnd. apply NoDup_cons in Hnd as [Hn Hnd]. simpl.
  rewrite decide_False by (apply Hs; by left). f_equal. apply IH; [done|].
  intros tf' Hin. assert (tf_key tf' <> tf_key tf).
  { intros He. apply Hn. rewrite <- He. by apply list_elem_of_fmap_2. }
  assert (tf_key tf' ∉ seen) by (apply Hs; by right). unfold tf_key in *. set_solver.
Qed.

Lemma all_placements_titled ds :
  library_ok (titled_files ds) -> all_placements ds = tf_all <$> titled_files ds.
Proof. intros Hl. unfold all_placements. rewrite first_by_key_NoDup; [done|apply Hl|set_solver]. Qed.

(** ** Directories of placed files *)

Lemma season_elem_ok (z : Z) : elem_ok ("Season " +:+ pretty z).
Proof. split_and!; [done|done|done|]. apply no_byte_app; [done|by apply pretty_no_byte]. Qed.

(** The elements of the directory of a titled file. *)
Lemma tf_dir_render tf :
  elem_ok tf.1 ->
  exists cat rest, (cat = "movies" \/ cat = "series") /\ Forall elem_ok (cat :: tf.1 :: rest) /\
    tf_dir tf = render (cat :: tf.1 :: rest).
Proof.
  intros Ht. unfold tf_dir, file_dir. case_bool_decide.
  - exists "series", ["Season " +:+ pretty (extractSeason (f_Name tf.2))].
    assert (Forall elem_ok ["series"; tf.1; "Season " +:+ pretty (extractSeason (f_Name tf.2))]) as Hok.
    { constructor; [by apply (bool_decide_unpack _)|]. constructor; [done|]. constructor; [apply season_elem_ok|constructor]. }
    split_and!; [by right|done|]. by rewrite <- (Clean_render _ Hok).
  - exists "movies", []. assert (Forall elem_ok ["movies"; tf.1]) as Hok.
    { constructor; [by apply (bool_decide_unpack _)|]. constructor; [done|constructor]. }
    split_and!; [by left|done|]. by rewrite <- (Clean_render _ Hok).
Qed.

Lemma all_dir_render title : elem_ok title -> path_Join ["/all"; title] = render ["all"; title].
Proof.
  intros Ht. assert (Forall elem_ok ["all"; title]) as Hok.
  { constructor; [by apply (bool_decide_unpack _)|]. constructor; [done|constructor]. }
  by rewrite <- (Clean_render _ Hok).
Qed.

Lemma tf_dir_not_all tf : elem_ok tf.1 -> HasPrefix (tf_dir tf) "/all/" = false.
Proof. intros (cat & rest & [->| ->] & _ & ->)%tf_dir_render; done. Qed.

Lemma all_dir_all title : elem_ok title -> HasPrefix (path_Join ["/all"; title]) "/all/" = true.
Proof.
  intros Ht. rewrite all_dir_render by done. change (render ["all"; title]) with ("/all/" +:+ title).
  cbn. by destruct title.
Qed.

(** The path of a record decodes to its directory and name. *)
Lemma tf_record_path tf :
  elem_ok tf.1 -> elem_ok (tf_name tf) ->
  path_Dir (Path (tf_record tf)) = tf_dir tf /\ path_Base (Path (tf_record tf)) = tf_name tf /\
  HasPrefix (Path (tf_record tf)) "/all/" = false /\
  exists cat rest, splitPath (tf_dir tf) = cat :: tf.1 :: rest.
Proof.
  intros Ht Hn. destruct (tf_dir_render tf Ht) as (cat & rest & Hcat & Hok & Hd).
  assert (Forall elem_ok ((cat :: tf.1 :: rest) ++ [tf_name tf])) as Hok' by (apply Forall_app; split; [done|]; constructor; [done|constructor]).
  assert (Path (tf_record tf) = render ((cat :: tf.1 :: rest) ++ [tf_name tf])) as Hp.
  { unfold tf_record, entry_record. cbn [Path]. rewrite Hd. by apply render_snoc. }
  rewrite Hp, Dir_render, Base_render by done. split_and!; [done|done| |].
  - by destruct Hcat as [->| ->].
  - exists cat, rest. unfold splitPath. rewrite Hd, Clean_render by done.
    rewrite bool_decide_false.
    + unfold splitPathRaw. rewrite Split_render by (by apply elems_no_byte || done).
      rewrite filter_cons, decide_False by tauto. apply filter_all.
      intros x Hx. rewrite Forall_forall in Hok. by apply Hok.
    + intros [He|He].
      * by apply (render_inj _ []) in He.
      * by destruct Hcat as [->| ->].
Qed.

(** ** The walk of a refresh *)

Section walk.
Context `{MI : MapIter, SS : SliceSort} (env : SqlEnv).

Definition flat (t : Tree) : list (string * DirEntry) :=
  kv ← map_range 2 t; (fun e => (kv.1, e)) <$> kv.2.

Definition rec_of (pe : string * DirEntry) : option FileRecord :=
  match EntryFile pe.2 with
  | None => None
  | Some f => if HasPrefix pe.1 "/all/" then None else Some (entry_record pe.1 (Name pe.2) f)
  end.

Definition walk_pe (st : list FileRecord * DB) (pe : string * DirEntry) : list FileRecord * DB :=
  walk_entry env pe.1 st pe.2.

Lemma walk_flat t db : walk env t db = foldl walk_pe ([], db) (flat t).
Proof.
  unfold walk, flat. generalize (@nil FileRecord, db). induction (map_range 2 t) as [|[p es] l IH]; intros st; [done|].
  rewrite bind_cons, foldl_app. simpl. rewrite IH. f_equal. clear. revert st.
  induction es as [|e es IH]; intros st; [done|]. simpl. by rewrite IH.
Qed.

Lemma walk_same_files l st :
  same_files (tables (conn st.2)) (tables (conn (foldl walk_pe st l).2)).
Proof.
  revert st. induction l as [|[p e] l IH]; intros st; [done|]. simpl. etrans; [|apply IH].
  unfold walk_pe, walk_entry. simpl. destruct (EntryFile e) as [f|]; [|done]. case_match; [done|].
  destruct st as [acc db]. pose proof (AssignInode_frame env (ContentKey f) (p +:+ "/" +:+ Name e) db) as Hf.
  by destruct (AssignInode _ _ _ _) as [[i|er] db'].
Qed.

(** Without faults and with inode numbers left, every file is recorded. *)
Lemma walk_records l acc db n :
  no_faults env -> db_ok n db -> 0 <= n -> n + Z.of_nat (length (omap rec_of l)) < 2 ^ 63 - 1 ->
  nextInode db + Z.of_nat (length (omap rec_of l)) <= 2 ^ 63 ->
  (foldl walk_pe (acc, db) l).1 = acc ++ omap rec_of l.
Proof.
  intros Hf. revert acc db n. induction l as [|[p e] l IH]; intros acc db n Hok Hn Hlen Hnext.
  { simpl. by rewrite app_nil_r. }
  change (omap rec_of ((p, e) :: l)) with
    (match rec_of (p, e) with Some r => r :: omap rec_of l | None => omap rec_of l end) in *.
  simpl foldl. unfold walk_pe at 2, walk_entry. unfold rec_of in Hlen at 1, Hnext at 1. unfold rec_of at 1.
  cbn [fst snd] in *. destruct (EntryFile e) as [f|]; [|by apply (IH acc db n)].
  destruct (HasPrefix p "/all/"); [by apply (IH acc db n)|]. cbn [length] in *.
  pose proof (AssignInode_succeeds env (ContentKey f) (p +:+ "/" +:+ Name e) db n Hf) as Ha.
  destruct (AssignInode _ _ _ _) as [r db']. destruct Ha as ([i ->] & Hok' & Hnext'); [lia|done|lia|].
  rewrite (IH _ _ (n + 1)); [by rewrite <- app_assoc|done|lia|lia|lia].
Qed.

End walk.

(** Two lists of placements with the same entries in each directory. *)
#[export] Instance entries_for_proper p : Proper ((≡ₚ) ==> (≡ₚ)) (entries_for p).
Proof. intros l1 l2 Hp. unfold entries_for. by rewrite Hp. Qed.

Lemma perm_by_dir (l1 l2 : list (string * DirEntry)) :
  (forall p, entries_for p l1 ≡ₚ entries_for p l2) -> l1 ≡ₚ l2.
Proof.
  revert l2. induction l1 as [|[p e] l1 IH]; intros l2 Hl.
  - destruct l2 as [|[p e] l2]; [done|]. specialize (Hl p). rewrite entries_for_cons in Hl. simpl in Hl.
    rewrite decide_True in Hl by done. by apply Permutation_nil_l in Hl.
  - assert ((p, e) ∈ l2) as Hin.
    { apply elem_of_entries_for. rewrite <- Hl, entries_for_cons. simpl. rewrite decide_True by done. by left. }
    apply elem_of_Permutation in Hin as [l2' Hp]. rewrite Hp. constructor. apply IH. intros q.
    specialize (Hl q). rewrite Hp, !entries_for_cons in Hl. simpl in Hl.
    destruct (decide (p = q)); [by apply Permutation_cons_inv in Hl|done].
Qed.

Lemma entries_for_filter (P : DirEntry -> Prop) `{forall e, Decision (P e)} p (l : list (string * DirEntry)) :
  entries_for p (filter (fun pe => P pe.2) l) = filter P (entries_for p l).
Proof.
  induction l as [|[q e] l IH]; [done|]. rewrite filter_cons. simpl.
  destruct (decide (P e)) as [He|He]; rewrite ?entries_for_cons; simpl; destruct (decide (q = p)); try done.
  - rewrite filter_cons, decide_True by done. by rewrite IH.
  - rewrite filter_cons, decide_False by done. done.
Qed.

Lemma entries_for_here p (es : list DirEntry) :
  entries_for p ((fun e => (p, e)) <$> es) = es.
Proof. induction es as [|e es IH]; [done|]. rewrite fmap_cons, entries_for_cons. simpl. rewrite decide_True by done. by rewrite IH. Qed.

Lemma entries_for_elsewhere p q (es : list DirEntry) :
  q <> p -> entries_for p ((fun e => (q, e)) <$> es) = [].
Proof.
  intros Hq. induction es as [|e es IH]; [done|]. rewrite fmap_cons, entries_for_cons. simpl.
  by rewrite decide_False.
Qed.

Definition flatten (l : list (string * list DirEntry)) : list (string * DirEntry) :=
  kv ← l; (fun e => (kv.1, e)) <$> kv.2.

Lemma entries_for_flatten_other p l : p ∉ l.*1 -> entries_for p (flatten l) = [].
Proof.
  unfold flatten. induction l as [|[q es] l IH]; intros Hp; [done|].
  rewrite fmap_cons in Hp. apply not_elem_of_cons in Hp as [Hq Hp].
  rewrite bind_cons, entries_for_app, IH by done. rewrite entries_for_elsewhere; [done|]. congruence.
Qed.

Lemma entries_for_flatten p (l : list (string * list DirEntry)) (t : Tree) :
  l ≡ₚ map_to_list t -> entries_for p (flatten l) ≡ₚ dir_entries t p.
Proof.
  intros Hl. unfold dir_entries. destruct (t !! p) as [es|] eqn:Hp; simpl.
  - assert (l ≡ₚ (p, es) :: map_to_list (delete p t)) as Hl'.
    { rewrite Hl. rewrite <- (insert_delete_id t p es) at 1 by done. apply map_to_list_insert, lookup_delete_eq. }
    unfold flatten. rewrite Hl', bind_cons, entries_for_app. simpl. rewrite entries_for_here.
    fold (flatten (map_to_list (delete p t))). rewrite entries_for_flatten_other; [by rewrite app_nil_r|].
    intros Hin. apply list_elem_of_fmap in Hin as ([q es'] & -> & Hin).
    apply elem_of_map_to_list in Hin. simpl in Hin. by rewrite lookup_delete_eq in Hin.
  - rewrite entries_for_flatten_other; [done|]. intros Hin.
    apply list_elem_of_fmap in Hin as ([q es'] & -> & Hin). rewrite Hl in Hin.
    apply elem_of_map_to_list in Hin. simpl in Hp. congruence.
Qed.

Lemma library_placements ds allDir :
  library_ok (titled_files ds) ->
  placements ds allDir = (tf_place <$> titled_files ds) ++ (if allDir then tf_all <$> titled_files ds else []).
Proof. intros Hl. unfold placements. by rewrite main_placements_titled, all_placements_titled. Qed.

Lemma placements_ok ds allDir : placed_ok (placements ds allDir).
Proof. intros p e Hin. apply elem_of_placements in Hin as (Hc & f & -> & _). by split. Qed.

Section walk2.
Context `{MI : MapIter, SS : SliceSort}.

Lemma omap_skip {A B} (f : A -> option B) (P : A -> Prop) `{forall x, Decision (P x)} (l : list A) :
  (forall x, x ∈ l -> ~ P x -> f x = None) -> omap f (filter P l) = omap f l.
Proof.
  induction l as [|x l IH]; intros Hx; [done|]. rewrite filter_cons.
  assert (omap f (filter P l) = omap f l) as He by (apply IH; intros y Hy; apply Hx; by right).
  change (omap f (x :: l)) with (match f x with Some y => y :: omap f l | None => omap f l end).
  rewrite <- He. destruct (decide (P x)) as [|Hn]; [done|]. by rewrite (Hx x (ltac:(by left)) Hn).
Qed.

Lemma omap_all {A B} (f : A -> option B) (g : A -> B) (l : list A) :
  (forall x, x ∈ l -> f x = Some (g x)) -> omap f l = g <$> l.
Proof.
  induction l as [|x l IH]; intros Hx; [done|].
  change (omap f (x :: l)) with (match f x with Some y => y :: omap f l | None => omap f l end).
  rewrite (Hx x) by (by left). rewrite IH by (intros y Hy; apply Hx; by right). done.
Qed.

Lemma omap_app {A B} (f : A -> option B) (l1 l2 : list A) : omap f (l1 ++ l2) = omap f l1 ++ omap f l2.
Proof. induction l1 as [|x l1 IH]; [done|]. simpl. destruct (f x); [simpl; f_equal|]; exact IH. Qed.

Lemma omap_fmap {A B C} (f : B -> option C) (g : A -> B) (l : list A) :
  omap f (g <$> l) = omap (fun x => f (g x)) l.
Proof. induction l as [|x l IH]; [done|]. simpl. destruct (f (g x)); [f_equal|]; exact IH. Qed.

(** The files of the walk are the placed ones outside [/all]. *)
Lemma flat_records ds allDir t :
  library_ok (titled_files ds) ->
  (forall p, files_in t p = entries_for p (placements ds allDir)) ->
  omap rec_of (flat (sort_dirs t)) ≡ₚ tf_record <$> titled_files ds.
Proof.
  intros Hl Hf.
  assert (filter (fun pe => ~ is_subdir pe.2) (flat (sort_dirs t)) ≡ₚ placements ds allDir) as Hp.
  { apply perm_by_dir. intros p. pose proof (entries_for_filter (fun e => ~ is_subdir e) p (flat (sort_dirs t))) as Hx.
    cbv beta in Hx. rewrite Hx, <- Hf. clear Hx.
    change (flat (sort_dirs t)) with (flatten (map_range 2 (sort_dirs t))).
    rewrite (entries_for_flatten p _ (sort_dirs t)) by apply map_range_perm. unfold files_in. by rewrite dir_entries_sort. }
  rewrite <- (omap_skip rec_of (fun pe => ~ is_subdir pe.2)).
  2: { intros [p e] _ Hn. unfold rec_of. simpl in *. unfold is_subdir in Hn. destruct (EntryFile e); [|done]. by destruct Hn. }
  rewrite Hp, library_placements by done. rewrite omap_app.
  pose proof (lk_titles _ Hl) as Ht. rewrite Forall_forall in Ht.
  assert (omap rec_of (tf_place <$> titled_files ds) = tf_record <$> titled_files ds) as ->.
  { rewrite omap_fmap. apply omap_all. intros tf Htf. unfold rec_of, tf_place. simpl.
    by rewrite tf_dir_not_all by auto. }
  assert (omap rec_of (if allDir then tf_all <$> titled_files ds else []) = []) as ->; [|by rewrite app_nil_r].
  destruct allDir; [|done]. rewrite omap_fmap.
  assert (forall l, (forall tf, tf ∈ l -> elem_ok tf.1) -> omap (fun tf => rec_of (tf_all tf)) l = []) as Hg; [|by apply Hg].
  induction l as [|tf l IH]; intros Hin; [done|].
  change (omap (fun tf => rec_of (tf_all tf)) (tf :: l)) with
    (match rec_of (tf_all tf) with
     | Some y => y :: omap (fun tf => rec_of (tf_all tf)) l
     | None => omap (fun tf => rec_of (tf_all tf)) l
     end).
  assert (rec_of (tf_all tf) = None) as ->.
  { unfold rec_of, tf_all. cbn [snd fst EntryFile file_entry]. rewrite all_dir_all; [done|]. apply Hin. by left. }
  apply IH. intros ? ?. apply Hin. by right.
Qed.

End walk2.

(** ** From the records back to the tree *)

Lemma NoDup_fmap_inj {A B} (f : A -> B) (l : list A) x y :
  NoDup (f <$> l) -> x ∈ l -> y ∈ l -> f x = f y -> x = y.
Proof.
  induction l as [|z l IH]; intros Hnd Hx Hy He; [by apply not_elem_of_nil in Hx|].
  rewrite fmap_cons in Hnd. apply NoDup_cons in Hnd as [Hz Hnd].
  apply elem_of_cons in Hx as [->|Hx], Hy as [->|Hy]; [done| | |by apply IH].
  - exfalso. apply Hz. rewrite He. by apply list_elem_of_fmap_2.
  - exfalso. apply Hz. rewrite <- He. by apply list_elem_of_fmap_2.
Qed.

Lemma last_record_NoDup recs k r :
  NoDup (StateDB.ContentKey <$> recs) -> last_record recs k = Some r <-> r ∈ recs /\ StateDB.ContentKey r = k.
Proof.
  intros Hnd. unfold last_record. split.
  - intros Hl%last_Some_elem_of. apply list_elem_of_filter in Hl. tauto.
  - intros [Hr Hk]. destruct (last _) as [r'|] eqn:Hl.
    + apply last_Some_elem_of, list_elem_of_filter in Hl as [Hk' Hr']. f_equal.
      apply (NoDup_fmap_inj StateDB.ContentKey recs); congruence || done.
    + apply last_None in Hl. assert (r ∈ filter (fun f => StateDB.ContentKey f = k) recs) as Hin by (by apply list_elem_of_filter).
      rewrite Hl in Hin. by apply not_elem_of_nil in Hin.
Qed.

Lemma stored_records t recs :
  NoDup (StateDB.ContentKey <$> recs) -> (forall k, fr_record <$> files t !! k = last_record recs k) ->
  (fun kv => fr_record kv.2) <$> map_to_list (files t) ≡ₚ recs.
Proof.
  intros Hnd Hf.
  assert (forall k row, (k, row) ∈ map_to_list (files t) -> fr_record row ∈ recs /\ StateDB.ContentKey (fr_record row) = k) as Hrow.
  { intros k row Hin%elem_of_map_to_list. apply last_record_NoDup; [done|]. rewrite <- Hf. by rewrite Hin. }
  apply NoDup_Permutation.
  - apply NoDup_fmap_2_strong; [|apply NoDup_map_to_list].
    intros [k1 r1] [k2 r2] H1 H2 He. simpl in He. pose proof (Hrow _ _ H1) as [_ <-]. pose proof (Hrow _ _ H2) as [_ <-].
    apply elem_of_map_to_list in H1, H2. rewrite He in *. congruence.
  - by apply NoDup_fmap_1 in Hnd.
  - intros r. rewrite list_elem_of_fmap. split.
    + intros ([k row] & -> & Hin). by apply Hrow in Hin as [? _].
    + intros Hr. assert (last_record recs (StateDB.ContentKey r) = Some r) as Hl by (by apply last_record_NoDup).
      rewrite <- Hf in Hl. apply fmap_Some in Hl as (row & Hrow' & ->).
      exists (StateDB.ContentKey (fr_record row), row). split; [done|]. by apply elem_of_map_to_list.
Qed.

Definition db_entry (tf : string * File) : DirEntry :=
  MkDirEntry (tf_name tf) (Some (record_file (tf_record tf))).
Definition db_place (tf : string * File) : string * DirEntry := (tf_dir tf, db_entry tf).
Definition db_all (tf : string * File) : string * DirEntry := (path_Join ["/all"; tf.1], db_entry tf).

Definition keys (l : list (string * File)) : gset string := list_to_set (tf_key <$> l).

Lemma keys_cons tf l : keys (tf :: l) = {[tf_key tf]} ∪ keys l.
Proof. unfold keys. by rewrite fmap_cons, list_to_set_cons. Qed.

Lemma elem_of_keys l k : k ∈ keys l <-> exists tf, tf ∈ l /\ tf_key tf = k.
Proof. unfold keys. rewrite elem_of_list_to_set, list_elem_of_fmap. naive_solver. Qed.

Lemma view_db_entry tf : view (db_entry tf) = view (file_entry tf.2).
Proof. done. Qed.

Lemma library_record l tf :
  library_ok l -> tf ∈ l ->
  elem_ok tf.1 /\ elem_ok (tf_name tf) /\ path_Dir (Path (tf_record tf)) = tf_dir tf /\
  path_Base (Path (tf_record tf)) = tf_name tf /\ HasPrefix (Path (tf_record tf)) "/all/" = false /\
  exists cat rest, splitPath (tf_dir tf) = cat :: tf.1 :: rest.
Proof.
  intros [H1 H2 _ _ _] Hin. rewrite Forall_forall in H1, H2.
  pose proof (tf_record_path tf (H1 _ Hin) (H2 _ Hin)). naive_solver.
Qed.

Lemma record_file_name l tf :
  library_ok l -> tf ∈ l ->
  MkDirEntry (path_Base (Path (tf_record tf))) (Some (record_file (tf_record tf))) = db_entry tf.
Proof. intros Hl Hin. destruct (library_record l tf Hl Hin) as (_ & _ & _ & -> & _). done. Qed.

(** The first loop of [BuildTreeFromDB]. *)
Lemma add_records lib l seen t :
  library_ok lib -> (forall tf, tf ∈ l -> tf ∈ lib) -> NoDup (tf_key <$> l) -> (forall tf, tf ∈ l -> tf_key tf ∉ seen) ->
  foldl add_record (seen, t) (tf_record <$> l) = (keys l ∪ seen, apply_additions (db_place <$> l) t).
Proof.
  intros Hlib. revert seen t. induction l as [|tf l IH]; intros seen t Hin Hnd Hs.
  - simpl. f_equal. unfold keys. set_solver.
  - rewrite fmap_cons in Hnd. apply NoDup_cons in Hnd as [Hn Hnd].
    assert (tf ∈ lib) as Htf by (apply Hin; by left).
    destruct (library_record lib tf Hlib Htf) as (_ & _ & Hd & Hb & Ha & _).
    assert (tf_key tf ∉ seen) as Hks by (apply Hs; by left).
    rewrite !fmap_cons. cbn [foldl].
    assert (add_record (seen, t) (tf_record tf) =
            ({[StateDB.ContentKey (tf_record tf)]} ∪ seen, append_entry (tf_dir tf) (db_entry tf) t)) as ->.
    { unfold add_record. rewrite decide_False by done. by rewrite Ha, Hd, (record_file_name lib tf). }
    rewrite IH; [|intros; apply Hin; by right|done|].
    + rewrite keys_cons. f_equal. change (StateDB.ContentKey (tf_record tf)) with (tf_key tf).
      generalize (keys l). intros X. set_solver.
    + intros tf' Htf'. change (StateDB.ContentKey (tf_record tf)) with (tf_key tf).
      assert (tf_key tf' <> tf_key tf) by (intros He; apply Hn; rewrite <- He; by apply list_elem_of_fmap_2).
      assert (tf_key tf' ∉ seen) by (apply Hs; by right). set_solver.
Qed.

(** A key of the library is not one of the [all:] markers. *)
Lemma key_not_marker l tf k : library_ok l -> tf ∈ l -> tf_key tf <> "all:" +:+ k.
Proof.
  intros Hl Hin. pose proof (lk_kinds _ Hl) as Hk. rewrite Forall_forall in Hk. specialize (Hk tf Hin).
  unfold tf_key, ContentKey. set_unfold in Hk. destruct Hk as [->|[->|[->|[]]]]; done.
Qed.

Lemma marker_inj k1 k2 : "all:" +:+ k1 = "all:" +:+ k2 -> k1 = k2.
Proof. rewrite !app_cons_str, !app_nil_str. intros He. by injection He. Qed.

(** The entry of a file in its own directory is found again. *)
Lemma find_db_entry lib (extra : list (string * DirEntry)) tf :
  library_ok lib -> tf ∈ lib -> entries_for (tf_dir tf) extra = [] ->
  List.find (fun e => bool_decide (Name e = tf_name tf) && bool_decide (EntryFile e <> None))
    (dir_entries (apply_additions ((db_place <$> lib) ++ extra) ∅) (tf_dir tf)) = Some (db_entry tf).
Proof.
  intros Hl Hin He. rewrite dir_entries_placed, entries_for_app, He, app_nil_r.
  destruct (List.find _ _) as [e|] eqn:Hf.
  - apply list_find_first_Some in Hf as [Hd Hp]. apply elem_of_entries_for, list_elem_of_fmap in Hd as (tf' & Hd & Hin').
    injection Hd as Hd ->. apply andb_true_iff in Hp as [Hn _]. apply bool_decide_eq_true in Hn. simpl in Hn.
    do 2 f_equal. apply (NoDup_fmap_inj (fun tf => (tf_dir tf, tf_name tf)) lib); [apply Hl|done|done|congruence].
  - assert (db_entry tf ∈ entries_for (tf_dir tf) (db_place <$> lib)) as Hx.
    { apply elem_of_entries_for. by apply (list_elem_of_fmap_2 db_place). }
    apply (list_find_first_None _ _ Hf) in Hx. simpl in Hx. by rewrite !bool_decide_true in Hx.
Qed.

Lemma all_not_here lib tf l :
  library_ok lib -> tf ∈ lib -> (forall x, x ∈ l -> x ∈ lib) -> entries_for (tf_dir tf) (db_all <$> l) = [].
Proof.
  intros Hl Hin Hsub. induction l as [|x l IH]; [done|]. rewrite fmap_cons, entries_for_cons.
  destruct (library_record lib tf Hl Hin) as (Ht & _). destruct (library_record lib x Hl (Hsub x (ltac:(by left)))) as (Hx & _).
  rewrite decide_False; [apply IH; intros y Hy; apply Hsub; by right|]. cbn [db_all fst]. intros He.
  pose proof (tf_dir_not_all tf Ht) as Hn. rewrite <- He, all_dir_all in Hn by done. done.
Qed.

(** The second loop: every file once more, under its title in [/all]. *)
Lemma add_all_records lib done0 l seen :
  library_ok lib -> (forall x, x ∈ done0 -> x ∈ lib) -> (forall x, x ∈ l -> x ∈ lib) -> NoDup (tf_key <$> l) ->
  (forall x, x ∈ l -> "all:" +:+ tf_key x ∉ seen) ->
  (foldl add_all_record (seen, apply_additions ((db_place <$> lib) ++ (db_all <$> done0)) ∅) (tf_record <$> l)).2
  = apply_additions ((db_place <$> lib) ++ (db_all <$> (done0 ++ l))) ∅.
Proof.
  intros Hl. revert done0 seen. induction l as [|tf l IH]; intros done0 seen Hd Hin Hnd Hs; [by rewrite app_nil_r|].
  rewrite fmap_cons in Hnd. apply NoDup_cons in Hnd as [Hn Hnd].
  assert (tf ∈ lib) as Htf by (apply Hin; by left).
  destruct (library_record lib tf Hl Htf) as (_ & _ & Hpd & Hpb & _ & cat & rest & Hsp).
  rewrite fmap_cons. cbn [foldl].
  assert (add_all_record (seen, apply_additions ((db_place <$> lib) ++ (db_all <$> done0)) ∅) (tf_record tf) =
    ({["all:" +:+ tf_key tf]} ∪ seen, apply_additions ((db_place <$> lib) ++ (db_all <$> (done0 ++ [tf]))) ∅)) as ->.
  { unfold add_all_record. rewrite Hpd, Hsp, Hpb. cbv zeta. change (StateDB.ContentKey (tf_record tf)) with (tf_key tf).
    rewrite decide_False by (apply Hs; by left). rewrite find_db_entry by (done || by apply (all_not_here lib)).
    f_equal. rewrite fmap_app, app_assoc, (apply_additions_app _ (db_all <$> [tf])). done. }
  rewrite IH; [by rewrite <- app_assoc| | |done|].
  - intros x [?|Hx]%elem_of_app; [by apply Hd|]. apply list_elem_of_singleton in Hx. by subst.
  - intros x Hx. apply Hin. by right.
  - intros x Hx. assert ("all:" +:+ tf_key x ∉ seen) by (apply Hs; by right).
    assert ("all:" +:+ tf_key x <> "all:" +:+ tf_key tf); [|set_solver].
    intros He%marker_inj. apply Hn. rewrite <- He. by apply list_elem_of_fmap_2.
Qed.

Lemma BuildTreeFromDB_placed `{MapIter, SliceSort} lib allDir :
  library_ok lib ->
  BuildTreeFromDB (tf_record <$> lib) allDir =
  sort_dirs <$> buildParentDirs (apply_additions ((db_place <$> lib) ++ (if allDir then db_all <$> lib else [])) ∅).
Proof.
  intros Hl. unfold BuildTreeFromDB.
  rewrite (add_records lib lib) by (done || apply Hl || set_solver). cbv zeta.
  destruct allDir; cbn [andb]; [|by rewrite app_nil_r].
  case_bool_decide as He.
  - unfold buildAllDirFromDB.
    pose proof (add_all_records lib [] lib (keys lib ∪ ∅) Hl) as Ha. rewrite !app_nil_r in Ha.
    rewrite Ha; [done|by intros ? ?%not_elem_of_nil|done|apply Hl|].
    intros x Hx. rewrite elem_of_union, elem_of_keys. intros [(tf & Htf & Hk)|?]; [|set_solver].
    by apply (key_not_marker lib tf (tf_key x)).
  - destruct lib; [done|discriminate He].
Qed.

(** ** Refreshing *)

Section refresh.
Context `{MI : MapIter, SS : SliceSort} {S : Type} (env : SqlEnv).
Implicit Types c : Catalog S.

Lemma hide_spec t db :
  tree_ok t ->
  exists t' db', hide env t db = Some (t', db') /\ tables (conn db') = tables (conn db) /\
    (no_faults env -> ApplyHides t (dom (hidden_files (tables (conn db)))) = Some t').
Proof.
  intros Hok. unfold hide. destruct (HiddenSet_spec env db) as (H1 & H2 & H3).
  destruct (HiddenSet env db) as [[hidden|e] db']; simpl in *.
  - specialize (H2 hidden eq_refl). subst hidden. case_bool_decide as Hh.
    + exists t, db'. split_and!; [done|done|]. intros _. unfold ApplyHides. by rewrite bool_decide_true.
    + destruct (ApplyHides_settled t _ Hok Hh) as (cur & Ht & _). rewrite Ht. by exists (sort_dirs cur), db'.
  - exists t, db'. split_and!; [done|done|]. intros Hf. by apply H3 in Hf.
Qed.

(** The callback leaves the file records alone. *)
Definition callback_ok c : Prop :=
  forall fn t s db, onRefresh c = Some fn -> same_files (tables (conn db)) (tables (conn (fn t (s, db)).2)).

Lemma notify_spec c :
  tree (notify c) = tree c /\ refreshing (notify c) = refreshing c /\ client (notify c) = client c /\
  metrics (notify c) = metrics c /\ allDirEnabled (notify c) = allDirEnabled c /\
  (callback_ok c -> same_files (tables (conn (stateDB c))) (tables (conn (stateDB (notify c))))).
Proof.
  unfold notify, callback_ok. destruct (onRefresh c) as [fn|]; [|by split_and!].
  destruct (fn (tree c) (cb_state c, stateDB c)) as [s db] eqn:Hfn. simpl. split_and!; try done.
  intros Hcb. specialize (Hcb fn (tree c) (cb_state c) (stateDB c) eq_refl). by rewrite Hfn in Hcb.
Qed.

(** The fetch loop: all the lists in order, or the first failure; only the call
    counter moves. *)
Lemma fetch_all_spec cl kinds acc c :
  let '(r, c') := fetch_all cl kinds acc c in
  tree c' = tree c /\ stateDB c' = stateDB c /\ cb_state c' = cb_state c /\ client c' = client c /\
  allDirEnabled c' = allDirEnabled c /\ refreshing c' = refreshing c /\ onRefresh c' = onRefresh c /\
  match r with
  | Ok ds => exists lists, cl <$> kinds = Ok <$> lists /\ ds = acc ++ concat lists
  | Err e => exists k x, k ∈ kinds /\ cl k = Err x /\ e = ErrFetch x
  end.
Proof.
  revert acc c. induction kinds as [|k kinds IH]; intros acc c; simpl.
  - split_and!; try done. exists []. by rewrite app_nil_r.
  - destruct (cl k) as [ds|x] eqn:Hk; [|split_and!; try done; exists k, x; by split_and!; [left|..]].
    specialize (IH (acc ++ ds) (count_metric CAPICallCount c)). destruct (fetch_all _ _ _ _) as [r c'].
    destruct IH as (H1 & H2 & H3 & H4 & H5 & H6 & H7 & H8). split_and!; try done. destruct r as [ds'|e].
    + destruct H8 as (lists & Hl & ->). exists (ds :: lists). split; [change (Ok ds :: (cl <$> kinds) = Ok ds :: (Ok <$> lists)); by rewrite Hl|]. simpl. by rewrite app_assoc.
    + destruct H8 as (k' & x & Hin & ? & ?). exists k', x. split_and!; try done. by right.
Qed.

Lemma BuildTree_ok ds allDir :
  exists t, BuildTree ds allDir = Some (sort_dirs t) /\ navigable (apply_additions (placements ds allDir) ∅) t /\
    tree_ok (sort_dirs t) /\ forall p, files_in t p = entries_for p (placements ds allDir).
Proof.
  rewrite BuildTree_eq. unfold file_tree.
  destruct (placed_tree (placements ds allDir) (placements_ok ds allDir)) as (t & -> & Hn & Hf).
  exists t. split_and!; [done|done|by apply (navigable_tree_ok _ _ Hn)|done].
Qed.

(** The steps of a refresh of the downloads [ds] that succeeds: the tree [t] before
    hiding, the records [fs] its walk collects, the database [dbw] after the walk,
    and the catalog [c3] that notifies. *)
Record refreshed c (ds : list Download) (t : Tree) (fs : list FileRecord) (dbw : DB) (c3 : Catalog S) : Prop := {
  rf_build : BuildTree ds (allDirEnabled c) = Some (sort_dirs t);
  rf_nav : navigable (apply_additions (placements ds (allDirEnabled c)) ∅) t;
  rf_tree_ok : tree_ok (sort_dirs t);
  rf_files : forall p, files_in t p = entries_for p (placements ds (allDirEnabled c));
  rf_walk : walk env (sort_dirs t) (stateDB c) = (fs, dbw);
  rf_replaced : exists n, replaced (tables (conn dbw)) fs n (tables (conn (stateDB c3)));
  rf_next : nextInode (stateDB c3) = nextInode dbw;
  rf_shown : no_faults env ->
    ApplyHides (sort_dirs t) (dom (hidden_files (tables (conn (stateDB c3))))) = Some (tree c3);
  rf_idle : refreshing c3 = true;
  rf_frame : client c3 = client c /\ allDirEnabled c3 = allDirEnabled c /\
             onRefresh c3 = onRefresh c /\ cb_state c3 = cb_state c
}.

(** What the API answers to a refresh. *)
Definition fetched c (ds : list Download) : Prop :=
  exists cl lists, client c = Some cl /\
    cl <$> [KindTorrent; KindUsenet; KindWebDL] = Ok <$> lists /\ ds = concat lists.

Definition notified c (fs : list FileRecord) : Catalog S := refresh_after_swap (Z.of_nat (length fs)) c.

(** The refresh reached the new tree, [c3], and then notified. *)
Definition swapped c (fs : list FileRecord) (c3 : Catalog S) : Prop :=
  refresh_until_swap env c = Some (Ok (Some (Z.of_nat (length fs))), c3).

Lemma swapped_Refresh c fs c3 : swapped c fs c3 -> Refresh env c = Some (Ok tt, notified c3 fs).
Proof. intros Hs. by rewrite Refresh_halves, Hs. Qed.

(** A failed refresh: what it leaves alone. *)
Definition refresh_failed c (e : CatalogErr) c' : Prop :=
  refreshing c' = false /\ tree c' = tree c /\ cb_state c' = cb_state c /\ client c' = client c /\
  allDirEnabled c' = allDirEnabled c /\ onRefresh c' = onRefresh c /\
  match e with
  | ErrFetch x => stateDB c' = stateDB c /\ exists cl k, k ∈ [KindTorrent; KindUsenet; KindWebDL] /\ client c = Some cl /\ cl k = Err x
  | ErrReplace _ => same_files (tables (conn (stateDB c))) (tables (conn (stateDB c'))) /\ ~ no_faults env
  | ErrRefreshInProgress | ErrLoad _ => False
  end.

Lemma ReplaceFiles_next fs db : nextInode (ReplaceFiles env fs db).2 = nextInode db.
Proof. apply (ReplaceFiles_inodes env fs db). Qed.

Lemma hide_next t db t' db' : hide env t db = Some (t', db') -> nextInode db' = nextInode db.
Proof.
  unfold hide. intros Hh. pose proof (HiddenSet_next env db) as Hn.
  destruct (HiddenSet env db) as [[hidden|e] db1]; cbn [snd] in Hn; [|by simplify_eq].
  case_bool_decide; [by simplify_eq|]. by destruct (ApplyHides t hidden); simplify_eq/=.
Qed.

Lemma Refresh_cases c :
  current_keys (tables (conn (stateDB c))) = None -> refreshing c = false ->
  (client c = None /\ exists c', Refresh env c = Some (Ok tt, c') /\ refreshing c' = false /\ tree c' = tree c /\
     stateDB c' = stateDB c /\ cb_state c' = cb_state c /\ client c' = None /\ allDirEnabled c' = allDirEnabled c /\
     onRefresh c' = onRefresh c) \/
  (exists e c', Refresh env c = Some (Err e, c') /\ refresh_failed c e c') \/
  (exists ds t fs dbw c3, fetched c ds /\ refreshed c ds t fs dbw c3 /\ swapped c fs c3).
Proof.
  intros Hck Hr. unfold swapped. rewrite Refresh_halves. unfold refresh_until_swap. rewrite Hr. cbv zeta. set (c1 := count_metric CRefreshCount (set_refreshing true c)).
  assert (client c1 = client c) as -> by done.
  destruct (client c) as [cl|] eqn:Hcl; [|left; split; [done|]; eexists; by split_and!]. right.
  pose proof (fetch_all_spec cl [KindTorrent; KindUsenet; KindWebDL] [] c1) as Hf.
  destruct (fetch_all _ _ _ _) as [[ds|e] c2]; destruct Hf as (H1 & H2 & H3 & H4 & H5 & H6 & H7 & H8).
  2: { left. destruct H8 as (k & x & Hk & Hx & ->). eexists _, _. split; [done|].
       unfold refresh_failed. cbn [refreshing tree cb_state client allDirEnabled onRefresh stateDB set_refreshing].
       rewrite Hcl, H4. split_and!; try done. by exists cl, k. }
  change (stateDB c1) with (stateDB c) in H2. change (allDirEnabled c1) with (allDirEnabled c) in H5.
  rewrite H5. destruct (BuildTree_ok ds (allDirEnabled c)) as (t & Hb & Hn & Htok & Hfiles). rewrite Hb. cbn [mbind option_bind].
  pose proof (walk_same_files env (flat (sort_dirs t)) ([], stateDB c)) as Hw. rewrite <- walk_flat in Hw.
  rewrite H2. destruct (walk env (sort_dirs t) (stateDB c)) as [fs dbw] eqn:Hwalk. simpl in Hw.
  assert (current_keys (tables (conn dbw)) = None) as Hck' by (destruct Hw as (_ & _ & ->); done).
  pose proof (ReplaceFiles_yields env fs dbw Hck') as [[_ Hy] Hrb]. pose proof (ReplaceFiles_next fs dbw) as Hnx.
  destruct (ReplaceFiles env fs dbw) as [[n|e] db1]; cbn [fst snd] in *.
  - right. destruct (hide_spec (sort_dirs t) db1 Htok) as (t' & db2 & Hh & Ht2 & Hah). rewrite Hh.
    pose proof (hide_next _ _ _ _ Hh) as Hn2. exists ds, t, fs, dbw, (set_tree t' (set_db db2 c2)).
    split; [exists cl; destruct H8 as (lists & ? & ->); by exists lists|]. split; [|done].
    split; cbn; rewrite ?Ht2; try done.
    + by exists n.
    + by rewrite Hn2.
  - left. eexists _, _. split; [done|]. unfold refresh_failed.
    cbn [refreshing tree cb_state client allDirEnabled onRefresh stateDB set_refreshing set_db].
    rewrite Hcl, H4. split_and!; try done; [by rewrite Hrb|].
    intros Hnf. destruct Hy as [m Hm]. by apply Hm, Hnf.
Qed.

(** [C10] A refresh always ends, and one that fails changes nothing a reader of the
    catalog sees: while another refresh runs it does nothing at all; when a fetch
    fails the tree, the database and the FUSE state are untouched; when the
    records cannot be replaced the tree, the FUSE state, the file records and the
    hidden files are.  Afterwards the catalog accepts the next refresh. *)
Theorem Refresh_failsafe c :
  current_keys (tables (conn (stateDB c))) = None ->
  exists r c', Refresh env c = Some (r, c') /\
  match r with
  | Ok _ => refreshing c' = false
  | Err ErrRefreshInProgress => refreshing c = true /\ c' = c
  | Err (ErrFetch x) =>
      refreshing c' = false /\ tree c' = tree c /\ stateDB c' = stateDB c /\ cb_state c' = cb_state c /\
      exists cl k, client c = Some cl /\ cl k = Err x
  | Err (ErrReplace _) =>
      refreshing c' = false /\ tree c' = tree c /\ cb_state c' = cb_state c /\
      same_files (tables (conn (stateDB c))) (tables (conn (stateDB c'))) /\ ~ no_faults env
  | Err (ErrLoad _) => False
  end.
Proof.
  intros Hck. destruct (refreshing c) eqn:Hr.
  { exists (Err ErrRefreshInProgress), c. unfold Refresh. by rewrite Hr. }
  destruct (Refresh_cases c Hck Hr) as [(_ & c' & -> & H & _)|[(e & c' & -> & H)|(ds & t & fs & dbw & c3 & _ & _ & ->%swapped_Refresh)]].
  - by eexists _, _.
  - exists (Err e), c'. split; [done|]. destruct H as (H1 & H2 & H3 & _ & _ & _ & H4). destruct e; try done.
    destruct H4 as [H4 (cl & k & _ & H5)]. split_and!; try done. by exists cl, k.
  - by eexists _, _.
Qed.

(** A refresh about to run on a well-formed library with a working database. *)
Record refresh_ready c (cl : string -> result string (list Download)) (ds : list Download) : Prop := {
  rr_faults : no_faults env;
  rr_idle : refreshing c = false;
  rr_client : client c = Some cl;
  rr_fetch : exists l1 l2 l3, cl KindTorrent = Ok l1 /\ cl KindUsenet = Ok l2 /\ cl KindWebDL = Ok l3 /\ ds = l1 ++ l2 ++ l3;
  rr_library : library_ok (titled_files ds);
  rr_db : db_ok 0 (stateDB c);
  rr_temp : current_keys (tables (conn (stateDB c))) = None;
  rr_room : nextInode (stateDB c) + Z.of_nat (length (titled_files ds)) < 2 ^ 63 - 1;
  rr_callback : callback_ok c
}.

Lemma walk_ready (t : Tree) db (fs : list FileRecord) :
  no_faults env -> db_ok 0 db -> omap rec_of (flat t) ≡ₚ fs ->
  nextInode db + Z.of_nat (length fs) < 2 ^ 63 - 1 -> (walk env t db).1 ≡ₚ fs.
Proof.
  intros Hf Hok Hp Hn. rewrite walk_flat. assert (1 <= nextInode db) by apply Hok.
  rewrite <- Hp in Hn. rewrite (walk_records env _ [] db 0); [done|done|done|lia|lia|lia].
Qed.

(** A ready refresh goes through all its steps. *)
Lemma Refresh_ready_steps c cl ds :
  refresh_ready c cl ds ->
  exists t fs dbw c3, refreshed c ds t fs dbw c3 /\ swapped c fs c3 /\
    fs ≡ₚ tf_record <$> titled_files ds /\ same_files (tables (conn (stateDB c))) (tables (conn dbw)).
Proof.
  intros [Hnf Hidle Hcl (l1 & l2 & l3 & E1 & E2 & E3 & ->) Hlib Hdb Htemp Hroom Hcb].
  destruct (Refresh_cases c Htemp Hidle) as [(H & _)|[(e & c' & _ & H)|(ds & t & fs & dbw & c3 & Hfe & Hrf & HR)]].
  { by rewrite Hcl in H. }
  { exfalso. destruct H as (_ & _ & _ & _ & _ & _ & H). destruct e; try done; [|by destruct H].
    destruct H as (_ & cl' & k & Hk & Hc' & Hx). rewrite Hcl in Hc'. injection Hc' as <-.
    rewrite !elem_of_cons in Hk. destruct Hk as [->|[->|[->|Hk]]]; [congruence..|by apply not_elem_of_nil in Hk]. }
  assert (ds = l1 ++ l2 ++ l3) as ->.
  { destruct Hfe as (cl' & lists & Hc' & Hl & ->). rewrite Hcl in Hc'. injection Hc' as <-. cbn in Hl.
    rewrite E1, E2, E3 in Hl. destruct lists as [|x1 [|x2 [|x3 [|]]]]; try done. cbn in Hl. injection Hl as <- <- <-.
    simpl. by rewrite app_nil_r. }
  set (ds := l1 ++ l2 ++ l3) in *. exists t, fs, dbw, c3. pose proof (rf_walk _ _ _ _ _ _ Hrf) as Hwalk.
  pose proof (flat_records ds (allDirEnabled c) t Hlib (rf_files _ _ _ _ _ _ Hrf)) as Hflat.
  assert ((walk env (sort_dirs t) (stateDB c)).1 ≡ₚ tf_record <$> titled_files ds) as Hw.
  { apply walk_ready; [done|done|done|]. rewrite length_fmap. exact Hroom. }
  pose proof (walk_same_files env (flat (sort_dirs t)) ([], stateDB c)) as Hws. rewrite <- walk_flat in Hws.
  by rewrite Hwalk in Hw, Hws.
Qed.

(** What a successful refresh leaves: the replaced tables, and the tree of the
    library after hiding. *)
Lemma Refresh_outcome c cl ds :
  refresh_ready c cl ds ->
  exists c' t recs n,
    Refresh env c = Some (Ok tt, c') /\ refreshing c' = false /\ allDirEnabled c' = allDirEnabled c /\
    recs ≡ₚ tf_record <$> titled_files ds /\
    (exists t1, replaced (tables (conn (stateDB c))) recs n (set_inodes (inodes (tables (conn (stateDB c)))) t1) /\
                same_files t1 (tables (conn (stateDB c')))) /\
    metrics c' = Metrics.store CCatalogItems (Z.of_nat (length (titled_files ds))) <$> metrics c' /\
    tree_ok (sort_dirs t) /\ navigable (apply_additions (placements ds (allDirEnabled c)) ∅) t /\
    (forall p, files_in t p = entries_for p (placements ds (allDirEnabled c))) /\
    ApplyHides (sort_dirs t) (dom (hidden_files (tables (conn (stateDB c'))))) = Some (tree c').
Proof.
  intros Hready. destruct (Refresh_ready_steps c cl ds Hready) as (t & fs & dbw & c3 & Hrf & HR%swapped_Refresh & Hw & Hws).
  destruct Hready as [Hnf _ _ _ _ _ _ _ Hcb].
  destruct Hrf as [_ Hn Htok Hfiles _ [n Hrep] _ Hah _ (F1 & F2 & F3 & F4)].
  pose proof (notify_spec c3) as (N1 & N2 & N3 & N4 & N5 & N6).
  assert (length fs = length (titled_files ds)) as Hlen by (rewrite Hw; apply length_fmap).
  assert (same_files (tables (conn (stateDB c3))) (tables (conn (stateDB (notify c3))))) as Hsf.
  { apply N6. intros fn t0 s0 db0 Hfn. apply (Hcb fn). by rewrite <- F3. }
  exists (notified c3 fs), t, fs, n. unfold notified, refresh_after_swap.
  cbn [store_metric set_refreshing set_metrics allDirEnabled metrics stateDB tree refreshing]. rewrite N5, N1, N4, F2.
  split_and!; try done.
  - exists (tables (conn (stateDB c3))). split; [|done]. destruct Hrep as (Y1 & Y2 & Y3 & Y4 & Y5).
    destruct Hws as (W1 & W2 & W3). split_and!; try done; simpl; rewrite <- ?W1, <- ?W2; done.
  - rewrite Hlen. by destruct (metrics c3).
  - destruct Hsf as (_ & -> & _). by apply Hah.
Qed.

Lemma tf_record_keys (l : list (string * File)) : StateDB.ContentKey <$> (tf_record <$> l) = tf_key <$> l.
Proof. by rewrite <- list_fmap_compose. Qed.

Lemma library_records_NoDup l recs :
  library_ok l -> recs ≡ₚ tf_record <$> l -> NoDup (StateDB.ContentKey <$> recs).
Proof. intros Hl ->. rewrite tf_record_keys. apply Hl. Qed.

(** [C9] A refresh on a well-formed library with a working database succeeds, and
    afterwards: the database holds exactly the records of the library's files; a
    key is hidden exactly when it was and is still in the library; the tree shows
    in each directory, sorted, exactly the placed files that are not hidden; the
    item gauge counts the files. *)
Theorem Refresh_exact c cl ds :
  refresh_ready c cl ds ->
  exists c', Refresh env c = Some (Ok tt, c') /\ refreshing c' = false /\
  let lib := titled_files ds in
  let t := tables (conn (stateDB c')) in
  let hidden := dom (hidden_files t) in
  (forall k r, fr_record <$> files t !! k = Some r <-> exists tf, tf ∈ lib /\ tf_key tf = k /\ r = tf_record tf) /\
  (forall k, k ∈ hidden <->
     k ∈ dom (hidden_files (tables (conn (stateDB c)))) /\ exists tf, tf ∈ lib /\ tf_key tf = k) /\
  (forall p, sorted_by name_lt (dir_entries (tree c') p) /\
     files_in (tree c') p ≡ₚ filter (fun e => ~ hidden_entry hidden e) (entries_for p (placements ds (allDirEnabled c)))) /\
  (forall m, metrics c' = Some m -> CatalogItems m = Z.of_nat (length lib)).
Proof.
  intros Hr. pose proof (rr_library _ _ _ Hr) as Hlib.
  destruct (Refresh_outcome c cl ds Hr) as (c' & t & recs & n & HR & Hidle & _ & Hp & (t1 & Hrep & Hsf) & Hm & Hok & _ & Hfiles & Hah).
  exists c'. split; [done|]. split; [done|]. cbv zeta. destruct Hrep as (_ & _ & Hf & Hh & _). destruct Hsf as (S1 & S2 & _).
  pose proof (library_records_NoDup _ _ Hlib Hp) as Hnd.
  assert (forall k, k ∈ keys_of recs <-> exists tf, tf ∈ titled_files ds /\ tf_key tf = k) as Hkeys.
  { intros k. unfold keys_of. rewrite elem_of_list_to_set, Hp, tf_record_keys, list_elem_of_fmap. naive_solver. }
  split_and!.
  - intros k r. rewrite S1. change (files t1) with (files (set_inodes (inodes (tables (conn (stateDB c)))) t1)).
    rewrite Hf, last_record_NoDup, Hp, list_elem_of_fmap by done. split.
    + intros ((tf & -> & Hin) & Hk). by exists tf.
    + intros (tf & Hin & Hk & ->). split; [by exists tf|done].
  - intros k. rewrite <- Hkeys, !elem_of_dom, S2. change (hidden_files t1) with (hidden_files (set_inodes (inodes (tables (conn (stateDB c)))) t1)).
    rewrite Hh. destruct (decide _); [tauto|]. split; [by intros [? ?]|tauto].
  - set (hidden := dom (hidden_files (tables (conn (stateDB c'))))) in *.
    assert (forall p, files_in (sort_dirs t) p ≡ₚ entries_for p (placements ds (allDirEnabled c))) as Hs.
    { intros p. rewrite <- Hfiles. unfold files_in. by rewrite dir_entries_sort. }
    destruct (decide (hidden = ∅)) as [He|He].
    + unfold ApplyHides in Hah. rewrite bool_decide_true in Hah by done. injection Hah as <-.
      intros p. split; [apply dir_entries_sorted|]. rewrite Hs, filter_all; [done|].
      intros e _. unfold hidden_entry. rewrite He. destruct (EntryFile e); set_solver.
    + destruct (ApplyHides_settled (sort_dirs t) hidden Hok He) as (cur & Ht & Hset). rewrite Ht in Hah.
      injection Hah as <-. intros p. split; [apply dir_entries_sorted|].
      rewrite <- Hs. unfold files_in at 1. rewrite dir_entries_sort.
      destruct (Hset p) as (_ & P & HP & -> & HPs). unfold kept, files_in in *. rewrite !list_filter_filter.
      apply reflexive_eq, TreeDB.filter_ext_in. intros e Hin. split; [tauto|]. intros [H1 H2]. split_and!; try done.
      apply HPs; [by apply list_elem_of_filter|]. left. exact H2.
  - intros m Hmm. rewrite Hmm in Hm. simpl in Hm. injection Hm as Hm. by rewrite Hm.
Qed.

(** The rebuilt tree places the same names and keys. *)
Lemma db_placements_listing ds lib (all : bool) :
  library_ok (titled_files ds) -> titled_files ds ≡ₚ lib ->
  let l2 := (db_place <$> lib) ++ (if all then db_all <$> lib else []) in
  vplaced (placements ds all) ≡ₚ vplaced l2 /\ placed_ok l2.
Proof.
  intros Hlib Hperm l2. split.
  - unfold l2. rewrite library_placements by done. unfold vplaced. rewrite !fmap_app. f_equiv.
    + rewrite <- !list_fmap_compose. by rewrite Hperm.
    + destruct all; [|done]. rewrite <- !list_fmap_compose. by rewrite Hperm.
  - intros p e. unfold l2. rewrite elem_of_app. intros [Hin|Hin].
    + apply list_elem_of_fmap in Hin as (tf & [= -> ->] & _). split; [apply file_dir_clean|done].
    + destruct all; [|by apply not_elem_of_nil in Hin].
      apply list_elem_of_fmap in Hin as (tf & [= -> ->] & _). split; [by apply path_Join_rooted|done].
Qed.

(** A library without files has an empty tree. *)
Lemma no_files_no_entries ds (all : bool) t p :
  library_ok (titled_files ds) -> titled_files ds = [] -> navigable (apply_additions (placements ds all) ∅) t -> dir_entries t p = [].
Proof.
  intros Hlib He Hnav. unfold dir_entries. destruct (t !! p) as [es|] eqn:Hes; [|done]. exfalso.
  assert (p ∈ dom t) as Hdp by (apply elem_of_dom; eauto).
  apply (nv_above _ _ Hnav) in Hdp as (m & q & Hq & _).
  rewrite library_placements, He in Hq by done. destruct all; set_solver.
Qed.

(** [C18] A restart shows the same library, when the library is well formed and the
    database executes its statements ([refresh_ready]: titles and names that are single
    path elements, one file per content key and per place).  A process that loads its
    tree from the database such a refresh left, before any call to the API, lists in
    every directory the same names with the same content keys as the refreshed catalog
    did.  (A title with a slash in it is loaded differently.) *)
Theorem restart_same_library c cl ds c' (c2 : Catalog S) :
  refresh_ready c cl ds -> Refresh env c = Some (Ok tt, c') ->
  tables (conn (stateDB c2)) = tables (conn (stateDB c')) -> allDirEnabled c2 = allDirEnabled c -> tree c2 = ∅ ->
  exists c2', LoadFromDB env c2 = Some (Ok tt, c2') /\ same_listing (tree c') (tree c2').
Proof.
  intros Hr HR Htab Hall Hempty. pose proof (rr_library _ _ _ Hr) as Hlib.
  destruct (Refresh_outcome c cl ds Hr) as (c'0 & t & recs & n & HR' & _ & _ & Hp & (t1 & Hrep & Hsf) & _ & Hok & Hnav & Hfiles & Hah).
  rewrite HR in HR'. injection HR' as <-. destruct Hrep as (_ & _ & Hf & Hh & _). destruct Hsf as (S1 & S2 & _).
  pose proof (library_records_NoDup _ _ Hlib Hp) as Hnd.
  assert ((fun kv => fr_record kv.2) <$> map_to_list (files (tables (conn (stateDB c2)))) ≡ₚ recs) as Hst.
  { apply stored_records; [done|]. intros k. rewrite Htab, S1. apply Hf. }
  unfold LoadFromDB. destruct (ListFiles_spec env (stateDB c2)) as (L1 & L2 & L3).
  destruct (ListFiles env (stateDB c2)) as [[rs|e] db]; [|by specialize (L3 (rr_faults _ _ _ Hr))].
  simpl in L1. specialize (L2 rs eq_refl). rewrite Hst, Hp in L2.
  destruct (Permutation_map_inv _ _ L2) as (lib & -> & Hperm).
  assert (library_ok lib) as Hlib2 by (by rewrite <- Hperm). change (map tf_record lib) with (tf_record <$> lib).
  rewrite Hall. case_bool_decide as Hnil.
  - eexists. split; [done|]. simpl. rewrite Hempty.
    assert (lib = []) as -> by (by apply fmap_nil_inv in Hnil).
    apply Permutation_sym, Permutation_nil in Hperm. rewrite Hperm in Hp. apply Permutation_sym, Permutation_nil in Hp. subst recs.
    assert (dom (hidden_files (tables (conn (stateDB c')))) = ∅) as Hhid.
    { rewrite S2. change (hidden_files t1) with (hidden_files (set_inodes (inodes (tables (conn (stateDB c)))) t1)).
      apply set_eq. intros k. rewrite elem_of_dom, Hh.
      destruct (decide _); [set_solver|]. split; [by intros [? ?]|set_solver]. }
    unfold ApplyHides in Hah. rewrite bool_decide_true in Hah by done. injection Hah as <-.
    rewrite same_listing_sort. intros p. by rewrite (no_files_no_entries ds (allDirEnabled c) t).
  - rewrite BuildTreeFromDB_placed by done.
    destruct (db_placements_listing ds lib (allDirEnabled c) Hlib Hperm) as [Hv Hl2].
    set (l2 := (db_place <$> lib) ++ (if allDirEnabled c then db_all <$> lib else [])).
    set (l1 := placements ds (allDirEnabled c)) in *.
    destruct (placed_tree l2 Hl2) as (t2 & -> & Hnav2 & Hf2). cbn [fmap option_fmap option_map mbind option_bind].
    assert (same_listing t t2) as Hsl by (by apply (navigable_listing l1 l2)).
    assert (tree_ok (sort_dirs t2)) as Hok2 by (by apply (navigable_tree_ok _ _ Hnav2)).
    destruct (hide_spec (sort_dirs t2) db Hok2) as (t2' & db2 & -> & _ & Hah2). cbn [mbind option_bind].
    eexists. split; [reflexivity|]. cbn [tree store_metric set_metrics].
    match goal with |- context [notify ?c3] => destruct (notify_spec c3) as (-> & _) end. cbn [tree set_tree].
    specialize (Hah2 (rr_faults _ _ _ Hr)). rewrite L1, Htab in Hah2.
    assert (same_listing (sort_dirs t) (sort_dirs t2)) as Hss by (by rewrite !same_listing_sort).
    destruct (decide (dom (hidden_files (tables (conn (stateDB c')))) = ∅)) as [He|He].
    + unfold ApplyHides in Hah, Hah2. rewrite bool_decide_true in Hah, Hah2 by done.
      injection Hah as <-. by injection Hah2 as <-.
    + destruct (ApplyHides_listing (sort_dirs t) (sort_dirs t2) _ Hok Hok2 Hss He) as (u1 & u2 & U1 & U2 & U3).
      rewrite U1 in Hah. rewrite U2 in Hah2. injection Hah as <-. by injection Hah2 as <-.
Qed.

End refresh.

(** ** A small catalog *)

Definition demo_fetch (kind : string) : result string (list Download) :=
  if bool_decide (kind = KindTorrent) then Ok (take 1 demo_downloads)
  else if bool_decide (kind = KindUsenet) then Ok (drop 1 demo_downloads)
  else Ok [].

(** A new database in which one file of the library was hidden before. *)
Definition demo_store : DB :=
  MkDB (MkConn (MkTables ∅ ∅ (<["usenet:7:1" := "t"]> ∅) None) 0) 1.

Definition demo_catalog : Catalog unit := NewCatalog demo_fetch demo_store Metrics.New true tt.

Lemma demo_ready_for {S} (c : Catalog S) :
  refreshing c = false -> client c = Some demo_fetch -> stateDB c = demo_store -> callback_ok c ->
  refresh_ready calm c demo_fetch demo_downloads.
Proof.
  intros Hi Hc Hdb Hcb. split.
  - by intros n.
  - done.
  - done.
  - exists (take 1 demo_downloads), (drop 1 demo_downloads), []. split_and!; vm_compute; reflexivity.
  - apply (bool_decide_unpack _). vm_compute. exact I.
  - rewrite Hdb. assert (forall k (r : InodeRow), (∅ : gmap string InodeRow) !! k = Some r -> False) as He
      by (intros k r Hk; by rewrite lookup_empty in Hk).
    split; [split|split; [|done]]; simpl; intros; exfalso; eauto.
  - by rewrite Hdb.
  - rewrite Hdb. vm_compute. reflexivity.
  - done.
Qed.

Lemma demo_ready : refresh_ready calm demo_catalog demo_fetch demo_downloads.
Proof. by apply demo_ready_for. Qed.

Lemma ApplyHides_exact_witness :
  exists t t', @BuildTree default_iter default_sort demo_downloads true = Some t /\
    @ApplyHides default_iter default_sort t {["usenet:7:1"]} = Some t' /\
    (forall x, MkDirEntry x None ∉ dir_entries t' "/").
Proof.
  destruct (@BuildTree_ok default_iter default_sort demo_downloads true) as (t & Ht & _ & Hok & _).
  assert ({["usenet:7:1"]} <> (∅ : gset string)) as Hh by apply non_empty_singleton_L.
  destruct (@ApplyHides_exact default_iter default_sort _ _ Hok Hh) as (t' & Ht' & _ & _ & _ & Hroot).
  exists (@sort_dirs default_sort t), t'. split; [exact Ht|]. split; [exact Ht'|exact Hroot].
Defined.

Lemma Refresh_failsafe_witness :
  exists r c', @Refresh default_iter default_sort unit calm demo_catalog = Some (r, c') /\
    (match r with Err (ErrLoad _) => False | _ => True end).
Proof.
  destruct (@Refresh_failsafe default_iter default_sort unit calm demo_catalog eq_refl) as (r & c' & Hr & Hm).
  exists r, c'. split; [exact Hr|]. destruct r as [u|[]]; exact I || exact Hm.
Defined.

Lemma Refresh_exact_witness :
  exists c', @Refresh default_iter default_sort unit calm demo_catalog = Some (Ok tt, c') /\
    forall m, metrics c' = Some m -> CatalogItems m = 3.
Proof.
  destruct (@Refresh_exact default_iter default_sort unit calm _ _ _ demo_ready) as (c' & Hr & _ & _ & _ & _ & Hm).
  exists c'. split; [exact Hr|exact Hm].
Defined.

Lemma restart_same_library_witness :
  exists c' c2 c2', @Refresh default_iter default_sort unit calm demo_catalog = Some (Ok tt, c') /\
    c2 = NewCatalog demo_fetch (MkDB (conn (stateDB c')) 1) Metrics.New true tt /\
    @LoadFromDB default_iter default_sort unit calm c2 = Some (Ok tt, c2') /\ same_listing (tree c') (tree c2').
Proof.
  destruct (@Refresh_outcome default_iter default_sort unit calm _ _ _ demo_ready) as (c' & _ & _ & _ & Hr & _).
  destruct (@restart_same_library default_iter default_sort unit calm _ _ _ c'
    (NewCatalog demo_fetch (MkDB (conn (stateDB c')) 1) Metrics.New true tt) demo_ready Hr eq_refl eq_refl eq_refl)
    as (c2' & Hl & Hs).
  eexists c', _, c2'. split; [exact Hr|]. split; [reflexivity|]. split; [exact Hl|exact Hs].
Defined.
