(* ===== verification/Errors.v ===== *)
(** * Go error values

    The errors the streaming code tells apart: the CDN's [HTTPStatusError], the two
    context errors, the two end-of-file errors, an opaque [fmt.Errorf] and a [%w]
    wrapper.  [errors.As] and [errors.Is] walk the wrappers. *)
From S2P Require Import Prelude.
Open Scope Z_scope.

Inductive go_err :=
| HTTPStatusError (StatusCode : Z)
| Canceled
| DeadlineExceeded
| EOF
| ErrUnexpectedEOF
| Errorf (msg : string)
| Wrapf (msg : string) (e : go_err).

#[export] Instance go_err_eq_dec : EqDecision go_err.
Proof. solve_decision. Defined.

(** [errors.Is(err, target)] for the sentinel errors above. *)
Fixpoint errors_Is (target e : go_err) : bool :=
  bool_decide (e = target) ||
  match e with Wrapf _ e' => errors_Is target e' | _ => false end.

(** [errors.As(err, &hse)]: the status code found. *)
Fixpoint as_status (e : go_err) : option Z :=
  match e with
  | HTTPStatusError c => Some c
  | Wrapf _ e' => as_status e'
  | _ => None
  end.

Definition isRetryable (e : go_err) : bool :=
  match as_status e with
  | Some c => (c =? 429) || ((500 <=? c) && (c <? 600))
  | None =>
      if errors_Is DeadlineExceeded e then true
      else if errors_Is Canceled e then false
      else true
  end.

Lemma isRetryable_wrap msg e : isRetryable (Wrapf msg e) = isRetryable e.
Proof. done. Qed.
