(* ===== verification/CDN.v ===== *)
(** * internal/stream: the CDN range client (cdn.go)

    [CDNClient] caches the redirect of an API URL to its CDN URL, keeps one priority
    semaphore per CDN host (Semaphore.v) and issues range requests.  The network is a
    parameter: a type of world states [net] with a clock, and what [http.Client.Do]
    answers to a GET of a URL with a Range header in a given state.  The functions of
    net/url it calls are parameters too.  The text of an error is only kept where the
    code looks at it.  [ResolveURL] is taken one call at a time: [singleflight] only
    shares the result of a resolution between concurrent callers. *)
From S2P Require Import Prelude Metrics Http Errors Semaphore.
From stdpp Require Import strings pretty.
Open Scope Z_scope.

(** ** Data *)

(** The part of [http.Response] the client looks at. *)
Record response := MkHttp { hr_StatusCode : Z; hr_Location : string }.

Record cdnURLCacheEntry := MkEntry { resolvedURL : string; resolvedAt : Z; failed : bool }.

Record CDNClient := MkCDN {
  maxConnsPerHost : Z;
  hostSems : gmap string sem;
  cdn_metrics : option Metrics;
  urlCache : gmap string cdnURLCacheEntry;
  urlCacheTTL : Z;
  rateLimitCooldown : Z
}.

Definition maxRedirects : nat := 5.
Definition defaultRateLimitCooldown : Z := 10 * Second.

Definition NewCDNClient (maxConns : Z) (om : option Metrics) (ttl : Z) : CDNClient :=
  MkCDN maxConns ∅ om ∅ ttl defaultRateLimitCooldown.

Definition set_urlCache (uc : gmap string cdnURLCacheEntry) (c : CDNClient) : CDNClient :=
  MkCDN (maxConnsPerHost c) (hostSems c) (cdn_metrics c) uc (urlCacheTTL c) (rateLimitCooldown c).
Definition set_hostSems (hs : gmap string sem) (c : CDNClient) : CDNClient :=
  MkCDN (maxConnsPerHost c) hs (cdn_metrics c) (urlCache c) (urlCacheTTL c) (rateLimitCooldown c).
Definition set_cdn_metrics (om : option Metrics) (c : CDNClient) : CDNClient :=
  MkCDN (maxConnsPerHost c) (hostSems c) om (urlCache c) (urlCacheTTL c) (rateLimitCooldown c).

Definition SetRateLimitCooldown (d : Z) (c : CDNClient) : CDNClient :=
  MkCDN (maxConnsPerHost c) (hostSems c) (cdn_metrics c) (urlCache c) (urlCacheTTL c) d.

(** [bytes=%d-%d] *)
Definition range_header (start end_ : Z) : string :=
  "bytes=" +:+ fmt_d start +:+ "-" +:+ fmt_d end_.

(** 301, 302, 303, 307 and 308. *)
Definition is_redirect (status : Z) : bool :=
  (status =? 301) || (status =? 302) || (status =? 303) || (status =? 307) || (status =? 308).

(** [c.hostSems.LoadOrStore]: the semaphore of a host is created on first use. *)
Definition getHostSem (host : string) (c : CDNClient) : CDNClient :=
  match hostSems c !! host with
  | Some _ => c
  | None => set_hostSems (<[host := new_hostSem (maxConnsPerHost c)]> (hostSems c)) c
  end.

Definition InvalidateURL (apiURL : string) (c : CDNClient) : CDNClient :=
  set_urlCache (delete apiURL (urlCache c)) c.

Section network.
Context {net : Type}.
(** [time.Now()] *)
Context (clock : net -> Z).
(** [client.Do] of a GET with this Range header. *)
Context (http_Do : string -> string -> net -> net * result go_err response).
(** The error of [http.NewRequest] for a malformed URL, [url.Parse] followed by
    [u.Host] (None: error or empty), and the reference resolution of net/url. *)
Context (request_error : string -> option go_err).
Context (url_host : string -> option string).
Context (resolve_reference : string -> string -> result go_err string).

Definition hostFromURL (rawURL : string) : string := default rawURL (url_host rawURL).

(** [resolveURL] with its two parse errors. *)
Definition resolveURL (baseURL location : string) : result go_err string :=
  resolve_reference baseURL location.

(** ** Resolution *)

Fixpoint resolve_loop (redirects : nat) (rawURL currentURL : string) (w : net)
  : net * result go_err string :=
  match redirects with
  | O => (w, Err (Errorf ("too many redirects (5) for " +:+ rawURL)))
  | S redirects' =>
      match request_error currentURL with
      | Some e => (w, Err (Wrapf "create request" e))
      | None =>
          let '(w1, r) := http_Do currentURL "bytes=0-0" w in
          match r with
          | Err e => (w1, Err (Wrapf "request" e))
          | Ok resp =>
              let status := hr_StatusCode resp in
              if is_redirect status then
                if String.eqb (hr_Location resp) EmptyString then
                  (w1, Err (Errorf "redirect with no Location header"))
                else
                  match resolveURL currentURL (hr_Location resp) with
                  | Err e => (w1, Err (Wrapf "resolve redirect URL" e))
                  | Ok u => resolve_loop redirects' rawURL u w1
                  end
              else if status =? StatusTooManyRequests then
                (w1, Err (Errorf ("rate limited: status " +:+ fmt_d status)))
              else if 500 <=? status then
                (w1, Err (Errorf ("server error: status " +:+ fmt_d status)))
              else (w1, Ok currentURL)
          end
      end
  end.

Definition resolveRedirect (rawURL : string) (w : net) : net * result go_err string :=
  resolve_loop maxRedirects rawURL rawURL w.

(** The cached answer, if it still counts: a failure in its cool-down, or a URL within
    its time to live. *)
Definition cached_url (apiURL : string) (now : Z) (c : CDNClient) : option (result go_err string) :=
  entry ← urlCache c !! apiURL;
  if failed entry then
    if since now (resolvedAt entry) <? rateLimitCooldown c then
      Some (Err (Wrapf "cdn url resolution rate limited" (Errorf "rate limited")))
    else None
  else if since now (resolvedAt entry) <? urlCacheTTL c then Some (Ok (resolvedURL entry))
  else None.

Definition ResolveURL (apiURL : string) (c : CDNClient) (w : net)
  : CDNClient * net * result go_err string :=
  if urlCacheTTL c <=? 0 then (c, w, Ok apiURL) else
  match cached_url apiURL (clock w) c with
  | Some r => (c, w, r)
  | None =>
      let '(w1, r) := resolveRedirect apiURL w in
      match r with
      | Err e =>
          (set_urlCache (<[apiURL := MkEntry EmptyString (clock w1) true]> (urlCache c)) c, w1,
           Err (Wrapf "cdn url resolution" e))
      | Ok u =>
          (set_urlCache (<[apiURL := MkEntry u (clock w1) false]> (urlCache c)) c, w1, Ok u)
      end
  end.

(** ** Range requests *)

Fixpoint range_loop (redirects : nat) (reqURL currentURL : string) (start end_ : Z)
    (c : CDNClient) (w : net) : CDNClient * net * result go_err response :=
  match redirects with
  | O => (c, w, Err (Errorf ("too many redirects (5) for " +:+ reqURL)))
  | S redirects' =>
      match request_error currentURL with
      | Some e => (c, w, Err (Wrapf "create request" e))
      | None =>
          let '(w1, r) := http_Do currentURL (range_header start end_) w in
          match r with
          | Err e => (c, w1, Err (Wrapf "cdn request" e))
          | Ok resp =>
              let status := hr_StatusCode resp in
              let c1 := set_cdn_metrics (IncCDNStatusCode status <$> cdn_metrics c) c in
              if is_redirect status then
                if String.eqb (hr_Location resp) EmptyString then
                  (c1, w1, Err (Errorf "redirect with no Location header"))
                else
                  match resolveURL currentURL (hr_Location resp) with
                  | Err e => (c1, w1, Err (Wrapf "resolve redirect URL" e))
                  | Ok u => range_loop redirects' reqURL u start end_ c1 w1
                  end
              else if status =? StatusPartialContent then (c1, w1, Ok resp)
              else if status =? StatusOK then
                if negb (start =? 0) then
                  (c1, w1, Err (Errorf ("server returned 200 OK for non-zero offset " +:+ fmt_d start)))
                else (c1, w1, Ok resp)
              else (c1, w1, Err (HTTPStatusError status))
          end
      end
  end.

Definition doRangeRequest (reqURL : string) (start end_ : Z) (c : CDNClient) (w : net)
  : CDNClient * net * result go_err response :=
  range_loop maxRedirects reqURL reqURL start end_ c w.

(** [acquired] is what [hs.acquire] returned: an error, or the slot after any wait. *)
Definition FetchRange (rawURL : string) (start end_ : Z) (acquired : option go_err)
    (c : CDNClient) (w : net) : CDNClient * net * result go_err response :=
  let '(c1, w1, r) := ResolveURL rawURL c w in
  match r with
  | Err e => (c1, w1, Err (Wrapf "resolve CDN URL" e))
  | Ok resolved =>
      let c2 := getHostSem (hostFromURL resolved) c1 in
      match acquired with
      | Some e => (c2, w1, Err (Wrapf "semaphore" e))
      | None =>
          let c3 := set_cdn_metrics (add_opt CCDNRequestCount 1 (cdn_metrics c2)) c2 in
          let '(c4, w2, r2) := doRangeRequest resolved start end_ c3 w1 in
          match r2 with
          | Err e => (c4, w2, Err e)
          | Ok resp =>
              if (hr_StatusCode resp =? StatusForbidden) || (hr_StatusCode resp =? StatusUnauthorized) then
                let '(c5, w3, r3) := ResolveURL rawURL (InvalidateURL rawURL c4) w2 in
                match r3 with
                | Err e => (c5, w3, Err (Wrapf "re-resolve CDN URL" e))
                | Ok newResolved =>
                    if negb (String.eqb newResolved resolved) then doRangeRequest newResolved start end_ c5 w3
                    else (c5, w3, Err (HTTPStatusError (hr_StatusCode resp)))
                end
              else (c4, w2, Ok resp)
          end
      end
  end.

(** ** Lemmas *)

(** A response [doRangeRequest] accepts: 206, or 200 for a range from zero. *)
Definition acceptable (start : Z) (resp : response) : Prop :=
  hr_StatusCode resp = StatusPartialContent \/ (hr_StatusCode resp = StatusOK /\ start = 0).

Lemma range_loop_ok n reqURL cur start end_ c w c' w' resp :
  range_loop n reqURL cur start end_ c w = (c', w', Ok resp) ->
  acceptable start resp /\ exists u w0, http_Do u (range_header start end_) w0 = (w', Ok resp).
Proof.
  revert cur c w. induction n as [|n IH]; intros cur c w; simpl; [done|].
  destruct (request_error cur); [done|].
  destruct (http_Do cur (range_header start end_) w) as [w1 [resp1|e]] eqn:Hdo; [|done].
  destruct (is_redirect (hr_StatusCode resp1)).
  { destruct (String.eqb _ _); [done|]. destruct (resolveURL _ _); [apply IH|done]. }
  destruct (Z.eqb_spec (hr_StatusCode resp1) StatusPartialContent) as [Hp|_].
  { intros [= <- <- <-]. split; [by left|by exists cur, w]. }
  destruct (Z.eqb_spec (hr_StatusCode resp1) StatusOK) as [Ho|_]; [|done].
  destruct (Z.eqb_spec start 0) as [Hz|_]; [|done]. simpl.
  intros [= <- <- <-]. split; [by right|by exists cur, w].
Qed.

Lemma range_loop_cache n reqURL cur start end_ c w c' w' r :
  range_loop n reqURL cur start end_ c w = (c', w', r) -> urlCache c' = urlCache c.
Proof.
  revert cur c w. induction n as [|n IH]; intros cur c w; simpl; [by intros [= <- _ _]|].
  destruct (request_error cur); [by intros [= <- _ _]|].
  destruct (http_Do cur (range_header start end_) w) as [w1 [resp1|e]]; [|by intros [= <- _ _]].
  repeat case_match; try by intros [= <- _ _]. intros Hl. apply IH in Hl. exact Hl.
Qed.

Lemma acceptable_not_denied start resp :
  acceptable start resp ->
  (hr_StatusCode resp =? StatusForbidden) || (hr_StatusCode resp =? StatusUnauthorized) = false.
Proof. by intros [->|[-> _]]. Qed.

(** The branch of [FetchRange] for an expired URL is never taken. *)
Lemma FetchRange_eq rawURL start end_ c w :
  FetchRange rawURL start end_ None c w =
  let '(c1, w1, r) := ResolveURL rawURL c w in
  match r with
  | Err e => (c1, w1, Err (Wrapf "resolve CDN URL" e))
  | Ok resolved =>
      let c2 := getHostSem (hostFromURL resolved) c1 in
      doRangeRequest resolved start end_
        (set_cdn_metrics (add_opt CCDNRequestCount 1 (cdn_metrics c2)) c2) w1
  end.
Proof.
  unfold FetchRange. destruct (ResolveURL rawURL c w) as [[c1 w1] [resolved|e]]; [|done].
  cbv zeta. destruct (doRangeRequest _ _ _ _ _) as [[c4 w2] [resp|e]] eqn:Hdo; [|done].
  apply range_loop_ok in Hdo as [Hacc _]. by rewrite (acceptable_not_denied _ _ Hacc).
Qed.

Lemma getHostSem_cache h c : urlCache (getHostSem h c) = urlCache c.
Proof. unfold getHostSem. by case_match. Qed.

Lemma resolve_loop_ok n rawURL cur w w' u :
  resolve_loop n rawURL cur w = (w', Ok u) ->
  exists w0 resp, http_Do u "bytes=0-0" w0 = (w', Ok resp) /\
    is_redirect (hr_StatusCode resp) = false /\ hr_StatusCode resp <> 429 /\ hr_StatusCode resp < 500.
Proof.
  revert cur w. induction n as [|n IH]; intros cur w; simpl; [done|].
  destruct (request_error cur); [done|].
  destruct (http_Do cur "bytes=0-0" w) as [w1 [resp|e]] eqn:Hdo; [|done].
  destruct (is_redirect (hr_StatusCode resp)) eqn:Hr.
  { destruct (String.eqb _ _); [done|]. destruct (resolveURL _ _); [apply IH|done]. }
  destruct (Z.eqb_spec (hr_StatusCode resp) StatusTooManyRequests) as [|Hne]; [done|].
  destruct (Z.leb_spec 500 (hr_StatusCode resp)); [done|]. intros [= <- <-].
  exists w, resp. by split_and!.
Qed.

(** ** Properties *)

(** [C3] A successful [FetchRange] hands back the response to a request for exactly the
    bytes asked for, and that response is 206, or 200 for a range that starts at zero:
    the caller never mistakes a whole body for a range, nor an error page for data. *)
Theorem FetchRange_response rawURL start end_ acquired c w c' w' resp :
  FetchRange rawURL start end_ acquired c w = (c', w', Ok resp) ->
  acceptable start resp /\ acquired = None /\
  exists u w0, http_Do u (range_header start end_) w0 = (w', Ok resp).
Proof.
  destruct acquired as [e|].
  - unfold FetchRange. destruct (ResolveURL rawURL c w) as [[c1 w1] [u|e']]; done.
  - rewrite FetchRange_eq. destruct (ResolveURL rawURL c w) as [[c1 w1] [u|e']]; [|done].
    intros Hl. apply range_loop_ok in Hl as [? ?]. by split_and!.
Qed.

(** [C38] An expired CDN URL is not renewed.  When the cached URL of a file answers 401 or
    403, [FetchRange] fails with that status, which is not retryable, and leaves the
    cached URL in place: the branch that invalidates and resolves it again is never
    reached, because [doRangeRequest] already turned those statuses into errors. *)
Theorem expired_url_not_renewed rawURL start end_ c w u w1 resp :
  0 < urlCacheTTL c -> cached_url rawURL (clock w) c = Some (Ok u) -> request_error u = None ->
  http_Do u (range_header start end_) w = (w1, Ok resp) ->
  hr_StatusCode resp = StatusForbidden \/ hr_StatusCode resp = StatusUnauthorized ->
  exists c', FetchRange rawURL start end_ None c w =
      (c', w1, Err (HTTPStatusError (hr_StatusCode resp))) /\
    urlCache c' = urlCache c /\ isRetryable (HTTPStatusError (hr_StatusCode resp)) = false.
Proof.
  intros Ht Hcached Hreq Hdo Hst.
  assert (ResolveURL rawURL c w = (c, w, Ok u)) as Hres.
  { unfold ResolveURL. destruct (Z.leb_spec (urlCacheTTL c) 0); [lia|]. by rewrite Hcached. }
  rewrite FetchRange_eq, Hres. cbv zeta.
  set (c2 := set_cdn_metrics _ _). destruct (doRangeRequest u start end_ c2 w) as [[c' w'] r] eqn:Hd.
  pose proof (range_loop_cache _ _ _ _ _ _ _ _ _ _ Hd) as Hc.
  exists c'. split_and!.
  - revert Hd. unfold doRangeRequest, maxRedirects. cbn [range_loop]. rewrite Hreq, Hdo.
    destruct Hst as [Hs|Hs]; rewrite Hs; cbn; by intros [= <- <- <-].
  - rewrite Hc. apply getHostSem_cache.
  - by destruct Hst as [-> | ->].
Qed.

(** [C29] Resolutions are cached.  A resolution that asked the network only succeeds on an
    answer that is no redirect, no 429 and no server error; its URL is then returned
    without a request until it is older than the time to live, and a failed one is
    repeated without a request until the cool-down has passed. *)
Theorem ResolveURL_cached apiURL c w c' w' r :
  0 < urlCacheTTL c -> cached_url apiURL (clock w) c = None ->
  ResolveURL apiURL c w = (c', w', r) ->
  match r with
  | Ok u =>
      (exists w0 resp, http_Do u "bytes=0-0" w0 = (w', Ok resp) /\
        is_redirect (hr_StatusCode resp) = false /\ hr_StatusCode resp <> 429 /\ hr_StatusCode resp < 500) /\
      forall w2, since (clock w2) (clock w') < urlCacheTTL c ->
        ResolveURL apiURL c' w2 = (c', w2, Ok u)
  | Err _ =>
      forall w2, since (clock w2) (clock w') < rateLimitCooldown c ->
        exists e, ResolveURL apiURL c' w2 = (c', w2, Err e)
  end.
Proof.
  intros Ht Hc. unfold ResolveURL at 1. destruct (Z.leb_spec (urlCacheTTL c) 0); [lia|]. rewrite Hc.
  destruct (resolveRedirect apiURL w) as [w1 [u|e]] eqn:Hres; intros [= <- <- <-].
  - split; [by apply resolve_loop_ok in Hres|]. intros w2 H2. unfold ResolveURL; simpl.
    destruct (Z.leb_spec (urlCacheTTL c) 0); [lia|]. unfold cached_url; simpl.
    rewrite lookup_insert_eq; simpl. by destruct (Z.ltb_spec (since (clock w2) (clock w1)) (urlCacheTTL c)); [|lia].
  - intros w2 H2. unfold ResolveURL; simpl.
    destruct (Z.leb_spec (urlCacheTTL c) 0); [lia|]. unfold cached_url; simpl.
    rewrite lookup_insert_eq; simpl.
    destruct (Z.ltb_spec (since (clock w2) (clock w1)) (rateLimitCooldown c)); [|lia]. by eexists.
Qed.

End network.

(** ** A small network for the witnesses: the state is the clock in nanoseconds *)

Module Demo.

Definition do (u range : string) (w : Z) : Z * result go_err response :=
  (w + 1,
   Ok (if String.eqb u "api" then MkHttp 302 "cdn"
       else if String.eqb u "cdn" then MkHttp 206 EmptyString
       else MkHttp 403 EmptyString)).
Definition valid (u : string) : option go_err := None.
Definition host (u : string) : option string := Some u.
Definition resolve (base loc : string) : result go_err string := Ok loc.
Definition client : CDNClient := NewCDNClient 8 (Some New) (300 * Second).
(** A client that resolved "api" to a URL that has expired since. *)
Definition stale : CDNClient := set_urlCache {[ "api" := MkEntry "old" 0 false ]} client.

End Demo.

Lemma FetchRange_response_witness :
  exists c' w', FetchRange (fun w => w) Demo.do Demo.valid Demo.host Demo.resolve "api" 16 31 None Demo.client 0
    = (c', w', Ok (MkHttp 206 EmptyString)) /\ acceptable 16 (MkHttp 206 EmptyString).
Proof.
  eexists _, _. split; [vm_compute; reflexivity|].
  eapply (FetchRange_response (fun w => w) Demo.do Demo.valid Demo.host Demo.resolve "api" 16 31 None Demo.client 0).
  vm_compute; reflexivity.
Defined.

Lemma expired_url_not_renewed_witness :
  exists c', FetchRange (fun w => w) Demo.do Demo.valid Demo.host Demo.resolve "api" 16 31 None Demo.stale 5
    = (c', 6, Err (HTTPStatusError 403)) /\ urlCache c' = urlCache Demo.stale /\
      isRetryable (HTTPStatusError 403) = false.
Proof.
  apply (expired_url_not_renewed (fun w => w) Demo.do Demo.valid Demo.host Demo.resolve "api" 16 31 Demo.stale 5
           "old" 6 (MkHttp 403 EmptyString));
    [vm_compute; reflexivity|vm_compute; reflexivity|reflexivity|reflexivity|by left].
Defined.

Lemma ResolveURL_cached_witness :
  exists c', ResolveURL (fun w => w) Demo.do Demo.valid Demo.resolve "api" Demo.client 0 = (c', 2, Ok "cdn"%string) /\
    ResolveURL (fun w => w) Demo.do Demo.valid Demo.resolve "api" c' 50 = (c', 50, Ok "cdn"%string).
Proof.
  eexists. split; [vm_compute; reflexivity|].
  eapply (ResolveURL_cached (fun w => w) Demo.do Demo.valid Demo.resolve "api" Demo.client 0 _ 2 (Ok "cdn"%string));
    vm_compute; reflexivity.
Defined.
