(* ===== verification/Torbox.v ===== *)
(** * The TorBox API client

    [internal/torbox/client.go] and [types.go]: the paged listing of downloads with
    retries and a response cache, permalinks, deletion, and the redaction of the
    token in logged URLs.  What lies outside is one record of operations
    ([ApiEnv]): the HTTP client, the clock and the timers, [json.Unmarshal] into
    the response types, and the conversions of floating point numbers that Go
    leaves to the platform.  One call at a time: the channel [apiSem] of capacity
    one makes the calls of a client take turns. *)
From Stdlib Require Import Ascii SpecFloat.
From S2P Require Import Prelude GoStrings Errors Http Regexp Classify Metrics.
From stdpp Require Import pretty.
Open Scope Z_scope.

Definition maxCacheEntries : Z := 100.
Definition maxAPIResponseSize : Z := 50 * 1024 * 1024.
Definition Millisecond : Z := 1000000.

(** ** Values decoded from JSON *)

(** An [interface{}] filled by [json.Unmarshal]. *)
Inductive iface :=
| INil
| IBool (b : bool)
| INum (f : spec_float)
| IStr (s : string)
| IArr (l : list iface)
| IObj (m : gmap string iface).

Record apiFileItem := MkFileItem {
  fi_ID : spec_float;
  fi_ShortName : string;
  fi_Name : string;
  fi_Size : spec_float;
  fi_MimeType : string
}.

Record apiDownloadItem := MkItem {
  di_ID : spec_float;
  di_Hash : string;
  di_Name : string;
  di_Cached : bool;
  di_Files : list apiFileItem;
  di_Tags : iface
}.

(** ** The client *)

(** The interface [Config] of the package. *)
Class APIConfig (C : Type) := {
  APIKey : C -> string;
  APIBaseURL : C -> string;
  APITimeout : C -> Z
}.

Record cacheEntry := MkCacheEntry { ce_data : string; createdAt : Z }.

Record Client := MkClient {
  apiKey : string;
  baseURL : string;
  cache : gmap string cacheEntry;
  cacheTTL : Z
}.

Definition NewClient `{APIConfig C} (cfg : C) : Client :=
  MkClient (APIKey cfg) (APIBaseURL cfg) ∅ (5 * 60 * Second).

Definition set_cache (m : gmap string cacheEntry) (c : Client) : Client :=
  MkClient (apiKey c) (baseURL c) m (cacheTTL c).

Record api_request := MkApiRequest {
  rq_Method : string;
  rq_URL : string;
  rq_Query : gmap string string;
  rq_Headers : list (string * string);
  rq_Body : string
}.

Record api_response := MkApiResponse {
  ar_StatusCode : Z;
  ar_Status : string;
  ar_RetryAfter : string;
  ar_Body : result go_err string        (* what [io.ReadAll] of the body gives *)
}.

(** The outside: a type of world states and the operations on it. *)
Record ApiEnv (net : Type) := MkApiEnv {
  now : net -> Z;
  http_Do : api_request -> net -> net * result go_err api_response;
  (** [select] between [ctx.Done()] and a timer: the context's error if it won. *)
  wait : Z -> net -> net * option go_err;
  Intn : Z -> net -> Z;
  (** [http.NewRequest] refuses a malformed URL. *)
  request_error : string -> option go_err;
  ParseDuration : string -> option Z;
  Unmarshal : string -> result go_err (list apiDownloadItem);
  (** [%v] of a [float64], and [int64(f)] when [f] is out of range. *)
  fmt_float : spec_float -> string;
  int64_overflow : spec_float -> Z
}.
Arguments now {net}. Arguments http_Do {net}. Arguments wait {net}. Arguments Intn {net}.
Arguments request_error {net}. Arguments ParseDuration {net}. Arguments Unmarshal {net}.
Arguments fmt_float {net}. Arguments int64_overflow {net}.

(** ** Numbers *)

(** [m * 2^e] to the nearest integer, ties to even. *)
Definition round_half_even (m e : Z) : Z :=
  if 0 <=? e then m * 2 ^ e
  else
    let d := 2 ^ (- e) in
    let q := m / d in
    let r := m mod d in
    if 2 * r <? d then q else if d <? 2 * r then q + 1 else if Z.even q then q else q + 1.

Definition sign_str (s : bool) : string := if s then "-" else "".

(** [fmt.Sprintf("%.0f", f)] *)
Definition fmt_0f (f : spec_float) : string :=
  match f with
  | S754_zero s => sign_str s +:+ "0"
  | S754_infinity s => (if s then "-" else "+") +:+ "Inf"
  | S754_nan => "NaN"
  | S754_finite s m e => sign_str s +:+ pretty (round_half_even (Zpos m) e)
  end.

(** [int64(f)]: truncation towards zero, where it is defined. *)
Definition float_int64 (overflow : spec_float -> Z) (f : spec_float) : Z :=
  match f with
  | S754_zero _ => 0
  | S754_finite s m e =>
      let a := if 0 <=? e then Zpos m * 2 ^ e else Zpos m / 2 ^ (- e) in
      let z := if s then - a else a in
      if bool_decide (in_int64 z) then z else overflow f
  | _ => overflow f
  end.

(** ** Items to downloads *)

Section convert.
Context `{MI : MapIter} {net : Type} (E : ApiEnv net).

(** [fmt.Sprintf("%v", item)]: maps are printed in the order of their keys. *)
Fixpoint fmt_v (v : iface) : string :=
  match v with
  | INil => "<nil>"
  | IBool b => if b then "true" else "false"
  | INum f => fmt_float E f
  | IStr s => s
  | IArr l => "[" +:+ Join_with " " (fmt_v <$> l) +:+ "]"
  | IObj m =>
      let rows := map_fold (fun k x acc => (k, k +:+ ":" +:+ fmt_v x) :: acc) [] m in
      "map[" +:+ Join_with " " (insertion_sort (fun a b => str_lt a.1 b.1) rows).*2 +:+ "]"
  end.

Definition extractTags (raw : iface) : list string :=
  match raw with
  | IArr v => fmt_v <$> v
  | IObj v => (fun kv => kv.1 +:+ "=" +:+ fmt_v kv.2) <$> map_range 0 v
  | IStr v => [v]
  | INil | IBool _ | INum _ => []
  end.

(** The text after the last slash, or all of it. *)
Definition short_name (f : apiFileItem) : string :=
  if bool_decide (fi_ShortName f = EmptyString) then (path_Split (fi_Name f)).2
  else fi_ShortName f.

Definition item_file (kind dlID : string) (tags : list string) (f : apiFileItem) : File :=
  MkFile kind dlID (fmt_0f (fi_ID f)) (fi_Name f) (float_int64 (int64_overflow E) (fi_Size f))
         (fi_MimeType f) (ClassifyMediaType tags (short_name f) MediaMovie).

(** One item of a page; what is not cached at TorBox is skipped. *)
Definition item_download (kind : string) (item : apiDownloadItem) : option Download :=
  if di_Cached item then
    let id := fmt_0f (di_ID item) in
    Some (MkDownload kind id (di_Name item) (di_Hash item)
            (item_file kind id (extractTags (di_Tags item)) <$> di_Files item))
  else None.

End convert.

(** ** Requests *)

Section requests.
Context `{MI : MapIter, SS : SliceSort} {net : Type} (E : ApiEnv net).

Definition sorted_keys (params : gmap string string) : list string :=
  slice_sort str_lt (map_range 0 params).*1.

Definition cache_key (path : string) (params : gmap string string) : string :=
  foldl (fun key k => key +:+ "?" +:+ k +:+ "=" +:+ default EmptyString (params !! k)) path (sorted_keys params).

Definition limit_read (body : string) : string :=
  if Z.of_nat (String.length body) <=? maxAPIResponseSize then body
  else String.substring 0 (Z.to_nat maxAPIResponseSize) body.

Definition bearer (c : Client) : string * string := ("Authorization", "Bearer " +:+ apiKey c).

Definition get_request (c : Client) (path : string) (params : gmap string string) : api_request :=
  MkApiRequest "GET" (baseURL c +:+ path) params [bearer c] EmptyString.

(** [100ms << attempt] and up to 100 ms more; a cancelled context only ends the wait. *)
Definition backoff (attempt : Z) (w : net) : net :=
  (wait E (100 * 2 ^ attempt * Millisecond + Intn E 100 w * Millisecond) w).1.

(** The wait a 429 asks for, if its [Retry-After] is a number of seconds. *)
Definition retry_after (resp : api_response) (w : net) : net * option go_err :=
  if bool_decide (ar_RetryAfter resp = EmptyString) then (w, None)
  else match ParseDuration E (ar_RetryAfter resp +:+ "s") with
       | Some secs => wait E secs w
       | None => (w, None)
       end.

Definition maxRetries : Z := 3.

(** The loop over attempts [maxRetries - left], [maxRetries - left + 1], ... *)
Fixpoint get_attempts (left : nat) (c : Client) (path : string) (params : gmap string string) (w : net)
  : net * result go_err string :=
  match left with
  | O => (w, Err (Errorf "unreachable"))
  | S left' =>
      let attempt := maxRetries - Z.of_nat left in
      let retry w := get_attempts left' c path params (backoff attempt w) in
      match request_error E (baseURL c +:+ path) with
      | Some e => (w, Err (Wrapf "create request" e))
      | None =>
          let '(w1, r) := http_Do E (get_request c path params) w in
          match r with
          | Err e =>
              if attempt <? maxRetries - 1 then retry w1
              else (w1, Err (Wrapf "request failed after 3 attempts" e))
          | Ok resp =>
              match ar_Body resp with
              | Err e => (w1, Err (Wrapf "read response" e))
              | Ok body =>
                  if ar_StatusCode resp =? StatusTooManyRequests then
                    if attempt <? maxRetries - 1 then
                      match retry_after resp w1 with
                      | (w2, Some e) => (w2, Err e)
                      | (w2, None) => retry w2
                      end
                    else (w1, Err (Errorf ("rate limited after 3 retries: " +:+ ar_Status resp)))
                  else if 500 <=? ar_StatusCode resp then
                    if attempt <? maxRetries - 1 then retry w1
                    else (w1, Err (Errorf ("server error after 3 retries: " +:+ ar_Status resp)))
                  else if 400 <=? ar_StatusCode resp then
                    (w1, Err (Errorf ("client error: " +:+ ar_Status resp)))
                  else (w1, Ok (limit_read body))
              end
          end
      end
  end.

(** The entry created before every other one seen, and before now. *)
Definition oldest_entry (t : Z) (m : gmap string cacheEntry) : string :=
  (foldl (fun acc kv => if createdAt kv.2 <? acc.1 then (createdAt kv.2, kv.1) else acc)
         (t, EmptyString) (map_range 1 m)).2.

Definition store_response (key body : string) (w : net) (c : Client) : Client :=
  let m := <[key := MkCacheEntry body (now E w)]> (cache c) in
  if maxCacheEntries <? Z.of_nat (size m) then
    let oldest := oldest_entry (now E w) m in
    if bool_decide (oldest = EmptyString) then set_cache m c else set_cache (delete oldest m) c
  else set_cache m c.

(** The cached answer, unless the caller bypasses the cache. *)
Definition cached_response (key : string) (params : gmap string string) (w : net) (c : Client) : option string :=
  if bool_decide (params !! "bypass_cache" = Some "true") then None
  else
    entry ← cache c !! key;
    if since (now E w) (createdAt entry) <? cacheTTL c then Some (ce_data entry) else None.

Definition apiGet (path : string) (params : gmap string string) (c : Client) (w : net)
  : Client * net * result go_err string :=
  let key := cache_key path params in
  match cached_response key params w c with
  | Some body => (c, w, Ok body)
  | None =>
      match get_attempts (Z.to_nat maxRetries) c path params w with
      | (w', Err e) => (c, w', Err e)
      | (w', Ok body) => (store_response key body w' c, w', Ok body)
      end
  end.

(** ** Listing *)

Definition page_limit : Z := 1000.

Definition page_params (offset : Z) : gmap string string :=
  <["limit" := pretty page_limit]> (<["offset" := pretty offset]> {["bypass_cache" := "true"]}).

Definition api_kind (kind : string) : option string :=
  if bool_decide (kind = KindTorrent) then Some "torrents"
  else if bool_decide (kind = KindUsenet) then Some "usenet"
  else if bool_decide (kind = KindWebDL) then Some "webdl"
  else None.

(** The loop over pages; [None] when the fuel ends before a short page. *)
Fixpoint list_pages (fuel : nat) (kind path : string) (offset : Z) (acc : list Download) (c : Client) (w : net)
  : option (Client * net * result go_err (list Download)) :=
  match fuel with
  | O => None
  | S fuel' =>
      match apiGet path (page_params offset) c w with
      | (c1, w1, Err e) => Some (c1, w1, Err (Wrapf ("list " +:+ kind) e))
      | (c1, w1, Ok data) =>
          match Unmarshal E data with
          | Err e => Some (c1, w1, Err (Wrapf ("parse " +:+ kind +:+ " response") e))
          | Ok items =>
              if bool_decide (items = []) then Some (c1, w1, Ok acc)
              else
                let acc' := acc ++ omap (item_download E kind) items in
                if Z.of_nat (length items) <? page_limit then Some (c1, w1, Ok acc')
                else list_pages fuel' kind path (add64 offset page_limit) acc' c1 w1
          end
      end
  end.

Definition ListDownloads (fuel : nat) (kind : string) (c : Client) (w : net)
  : option (Client * net * result go_err (list Download)) :=
  match api_kind kind with
  | None => Some (c, w, Err (Errorf ("unknown download kind: " +:+ kind)))
  | Some k => list_pages fuel kind ("/" +:+ k +:+ "/mylist") 0 [] c w
  end.

(** ** Deletion *)

(** The JSON of the two-entry map, its keys sorted as [json.Marshal] does.  An
    id that [strconv.Atoi] accepts needs no escapes. *)
Definition control_body (idKey idValue : string) : string :=
  let q s := dquote +:+ s +:+ dquote in
  let op := q "operation" +:+ ":" +:+ q "delete" in
  let id := q idKey +:+ ":" +:+ idValue in
  "{" +:+ (if str_lt idKey "operation" then id +:+ "," +:+ op else op +:+ "," +:+ id) +:+ "}".

Definition post_request (c : Client) (path body : string) : api_request :=
  MkApiRequest "POST" (baseURL c +:+ path) ∅ [bearer c; ("Content-Type", "application/json")] body.

Definition apiPost (path body : string) (c : Client) (w : net) : net * result go_err string :=
  match request_error E (baseURL c +:+ path) with
  | Some e => (w, Err (Wrapf "create request" e))
  | None =>
      let '(w1, r) := http_Do E (post_request c path body) w in
      match r with
      | Err e => (w1, Err (Wrapf "request failed" e))
      | Ok resp =>
          match ar_Body resp with
          | Err e => (w1, Err (Wrapf "read response" e))
          | Ok body =>
              if 400 <=? ar_StatusCode resp then
                (w1, Err (Errorf ("client error: " +:+ ar_Status resp +:+ " (" +:+ TrimSpace (limit_read body) +:+ ")")))
              else (w1, Ok (limit_read body))
          end
      end
  end.

(** The endpoint and the body of a deletion; [id] is the number, printed. *)
Definition control_call (kind downloadID : string) (id : Z) : option (string * string) :=
  if bool_decide (kind = KindTorrent) then
    Some ("/torrents/controltorrent", control_body "torrent_id" (pretty id))
  else if bool_decide (kind = KindUsenet) then
    Some ("/usenet/controlusenetdownload", control_body "usenet_id" (dquote +:+ downloadID +:+ dquote))
  else if bool_decide (kind = KindWebDL) then
    Some ("/webdl/controlwebdownload", control_body "webdl_id" (pretty id))
  else None.

Definition DeleteDownload (kind downloadID : string) (c : Client) (w : net) : net * option go_err :=
  match Atoi downloadID with
  | None => (w, Some (Errorf ("invalid download id " +:+ downloadID)))
  | Some id =>
      match control_call kind downloadID id with
      | None => (w, Some (Errorf ("unknown download kind: " +:+ kind)))
      | Some (apiPath, body) =>
          match apiPost apiPath body c w with
          | (w1, Err e) => (w1, Some (Wrapf ("delete " +:+ kind +:+ " " +:+ downloadID) e))
          | (w1, Ok _) => (w1, None)
          end
      end
  end.

End requests.

(** ** URLs *)

Definition PermalinkURL (base token kind downloadID fileID : string) : string :=
  let '(idParam, apiPath) :=
    if bool_decide (kind = KindUsenet) then ("usenet_id", "usenet")
    else if bool_decide (kind = KindWebDL) then ("web_id", "webdl")
    else ("torrent_id", "torrents") in
  base +:+ "/" +:+ apiPath +:+ "/requestdl?token=" +:+ token +:+ "&" +:+ idParam +:+ "=" +:+ downloadID
    +:+ "&file_id=" +:+ fileID +:+ "&redirect=true".

Definition RedactToken (rawURL : string) : string :=
  match Index rawURL "token=" with
  | None => rawURL
  | Some idx =>
      let valStart := (idx + String.length "token=")%nat in
      let rest := str_drop valStart rawURL in
      match Index rest "&" with
      | None => str_take valStart rawURL +:+ "***"
      | Some valEnd => str_take valStart rawURL +:+ "***" +:+ str_drop valEnd rest
      end
  end.

(** ** Lemmas *)

(** [get_attempts] on an answer that needs no retry. *)
Definition good_answer (resp : api_response) (body : string) : Prop :=
  ar_Body resp = Ok body /\ ar_StatusCode resp < 400 /\
  Z.of_nat (String.length body) <= maxAPIResponseSize.

Section listing.
Context `{MI : MapIter, SS : SliceSort} {net : Type} (E : ApiEnv net).

Lemma get_attempts_good c path params w w1 resp body :
  request_error E (baseURL c +:+ path) = None ->
  http_Do E (get_request c path params) w = (w1, Ok resp) -> good_answer resp body ->
  get_attempts E (Z.to_nat maxRetries) c path params w = (w1, Ok body).
Proof.
  intros Hreq Hdo (Hb & Hs & Hl). change (Z.to_nat maxRetries) with 3%nat. cbn [get_attempts].
  rewrite Hreq, Hdo, Hb.
  destruct (Z.eqb_spec (ar_StatusCode resp) StatusTooManyRequests) as [H|_]; [unfold StatusTooManyRequests in H; lia|].
  destruct (Z.leb_spec 500 (ar_StatusCode resp)); [lia|]. destruct (Z.leb_spec 400 (ar_StatusCode resp)); [lia|].
  unfold limit_read. by rewrite (proj2 (Z.leb_le _ _)).
Qed.

Lemma cached_response_bypass key offset w c : cached_response E key (page_params offset) w c = None.
Proof. unfold cached_response. by rewrite bool_decide_true by (vm_compute; reflexivity). Qed.

Lemma store_response_frame key body w c :
  apiKey (store_response E key body w c) = apiKey c /\ baseURL (store_response E key body w c) = baseURL c.
Proof. unfold store_response. by repeat case_match. Qed.

(** A server with these items answers a page request with the items from the
    offset on, at most [page_limit] of them, whatever the state of the network. *)
Definition serves (c : Client) (path : string) (items : list apiDownloadItem) : Prop :=
  request_error E (baseURL c +:+ path) = None /\
  forall offset w, 0 <= offset <= Z.of_nat (length items) -> exists w1 resp body,
    http_Do E (get_request c path (page_params offset)) w = (w1, Ok resp) /\ good_answer resp body /\
    Unmarshal E body = Ok (take (Z.to_nat page_limit) (drop (Z.to_nat offset) items)).

Lemma serves_frame c c' path items :
  apiKey c' = apiKey c -> baseURL c' = baseURL c -> serves c path items -> serves c' path items.
Proof. intros Ha Hb. unfold serves, get_request, bearer. by rewrite Ha, Hb. Qed.

Lemma apiGet_page c path items offset w :
  serves c path items -> 0 <= offset <= Z.of_nat (length items) -> exists c1 w1 body,
    apiGet E path (page_params offset) c w = (c1, w1, Ok body) /\ serves c1 path items /\
    Unmarshal E body = Ok (take (Z.to_nat page_limit) (drop (Z.to_nat offset) items)).
Proof.
  intros Hs Ho. pose proof Hs as (Hreq & Hserve). destruct (Hserve offset w Ho) as (w1 & resp & body & Hdo & Hg & Hu).
  unfold apiGet. rewrite cached_response_bypass, (get_attempts_good c path _ w w1 resp body) by done.
  eexists _, w1, body. split; [reflexivity|]. split; [|done].
  destruct (store_response_frame (cache_key path (page_params offset)) body w1 c) as [Ha Hb].
  by apply (serves_frame c).
Qed.

Lemma list_pages_complete fuel kind path items offset acc c w :
  serves c path items -> 0 <= offset <= Z.of_nat (length items) ->
  Z.of_nat (length items) < 2 ^ 62 ->
  (Z.of_nat (length items) - offset) / page_limit < Z.of_nat fuel ->
  exists c' w', list_pages E fuel kind path offset acc c w =
    Some (c', w', Ok (acc ++ omap (item_download E kind) (drop (Z.to_nat offset) items))).
Proof.
  revert offset acc c w. induction fuel as [|fuel IH]; intros offset acc c w Hs Ho Hlen Hf.
  { pose proof (Z.div_pos (Z.of_nat (length items) - offset) page_limit ltac:(lia) ltac:(done)). lia. }
  destruct (apiGet_page c path items offset w Hs Ho) as (c1 & w1 & body & Hget & Hs1 & Hu).
  cbn [list_pages]. rewrite Hget, Hu.
  set (rest := drop (Z.to_nat offset) items) in *.
  assert (Z.of_nat (length rest) = Z.of_nat (length items) - offset) as Hr
    by (unfold rest; rewrite length_drop; lia).
  case_bool_decide as Hnil.
  - assert (rest = []) as Hrn by (destruct rest; [done|by unfold page_limit in Hnil]).
    rewrite Hrn, app_nil_r. by eexists _, _.
  - rewrite length_take. destruct (Z.ltb_spec (Z.of_nat (Z.to_nat page_limit `min` length rest)) page_limit) as [Hl|Hl].
    + eexists _, _. unfold page_limit in *. rewrite take_ge by lia. reflexivity.
    + unfold page_limit in *. unfold add64. rewrite wrap64_id by (unfold in_int64; lia).
      destruct (IH (offset + 1000) (acc ++ omap (item_download E kind) (take (Z.to_nat 1000) rest)) c1 w1 Hs1)
        as (c' & w' & ->); [lia|done| |].
      * replace (Z.of_nat (length items) - (offset + 1000)) with ((Z.of_nat (length items) - offset) + (-1) * 1000) by lia.
        rewrite Z.div_add by lia. lia.
      * eexists _, _. do 3 f_equal. rewrite <- app_assoc. f_equal.
        rewrite <- omap_app. f_equal. unfold rest. rewrite <- (take_drop (Z.to_nat 1000) (drop (Z.to_nat offset) items)) at 2.
        f_equal. rewrite drop_drop. f_equal. lia.
Qed.

(** [C30] The listing of a kind is complete.  Against a server that holds any number
    of items and answers each page request, [ListDownloads] ends and returns the
    cached items, each once, in the order of the server; the number of pages plus
    one is enough fuel.  An unknown kind is refused without a request. *)
Theorem ListDownloads_complete kind c w items :
  (forall k, api_kind kind = Some k -> serves c ("/" +:+ k +:+ "/mylist") items) ->
  Z.of_nat (length items) < 2 ^ 62 ->
  exists c' w' r, ListDownloads E (S (length items / 1000)) kind c w = Some (c', w', r) /\
  match api_kind kind with
  | Some _ => r = Ok (omap (item_download E kind) items)
  | None => w' = w /\ c' = c /\ is_Ok r = false
  end.
Proof.
  intros Hs Hlen. unfold ListDownloads. destruct (api_kind kind) as [k|]; [|by eexists _, _, _].
  destruct (list_pages_complete (S (length items / 1000)) kind ("/" +:+ k +:+ "/mylist") items 0 [] c w)
    as (c' & w' & ->); [by apply Hs|lia|done| |by eexists _, _, _].
  rewrite Z.sub_0_r. unfold page_limit. rewrite Nat2Z.inj_succ, Nat2Z.inj_div. lia.
Qed.

(** A deletion is at most one request, the POST of its kind. *)
Lemma DeleteDownload_one_request kind downloadID c w :
  let '(w', err) := DeleteDownload E kind downloadID c w in
  (w' = w /\ err <> None) \/
  exists id path body, Atoi downloadID = Some id /\ control_call kind downloadID id = Some (path, body) /\
    w' = (http_Do E (post_request c path body) w).1 /\
    (err = None -> exists resp, (http_Do E (post_request c path body) w).2 = Ok resp /\ ar_StatusCode resp < 400).
Proof.
  unfold DeleteDownload. destruct (Atoi downloadID) as [id|]; [|by left].
  destruct (control_call kind downloadID id) as [[path body]|] eqn:Hcc; [|by left].
  unfold apiPost. destruct (request_error E _) as [e|]; [by left|].
  destruct (http_Do E _ w) as [w1 [resp|e]] eqn:Hdo.
  - assert ((http_Do E (post_request c path body) w).2 = Ok resp) as H2 by (by rewrite Hdo).
    assert ((http_Do E (post_request c path body) w).1 = w1) as H1 by (by rewrite Hdo).
    destruct (ar_Body resp) as [b|e]; [destruct (Z.leb_spec 400 (ar_StatusCode resp)) as [Hc|Hc]|];
      right; exists id, path, body; split_and!; try done; intros _; by exists resp.
  - right. exists id, path, body. split_and!; [done|done|by rewrite Hdo|done].
Qed.

End listing.

(** ** Redaction *)

Lemma RedactToken_form base q tok tail :
  Index base "token=" = None -> no_byte "&" tok ->
  (forall x, Index (String slash (q +:+ "token=" +:+ x)) "token=" = Some (S (String.length q))) ->
  RedactToken (base +:+ String slash (q +:+ "token=" +:+ tok +:+ String "&" tail)) =
  base +:+ String slash (q +:+ "token=" +:+ "***" +:+ String "&" tail).
Proof.
  intros Hb Ht Hq. unfold RedactToken.
  rewrite (Index_app_sep base _ slash "token=" (S (String.length q))) by (done || apply Hq).
  set (pre := base +:+ String slash (q +:+ "token=")).
  assert (forall x, base +:+ String slash (q +:+ "token=" +:+ x) = pre +:+ x) as E.
  { intros x. unfold pre. by rewrite str_app_assoc, (app_cons_str slash (q +:+ "token=") x), str_app_assoc. }
  replace (String.length base + S (String.length q) + String.length "token=")%nat with (String.length pre)
    by (unfold pre; rewrite str_length_app; simpl; rewrite str_length_app; simpl; lia).
  cbv zeta. rewrite !E, str_drop_app, str_take_app. change "&"%string with (str1 "&").
  rewrite Index_byte, str_drop_app by done. done.
Qed.

(** A permalink is safe to log: [RedactToken] turns the permalink of a file into
    the same permalink with the API token replaced by three asterisks, and changes
    nothing else, unless the base URL itself has a [token=] in it or the token an
    ampersand. *)
Theorem RedactToken_hides_token base token kind downloadID fileID :
  Index base "token=" = None -> no_byte "&" token ->
  RedactToken (PermalinkURL base token kind downloadID fileID) =
  PermalinkURL base "***" kind downloadID fileID.
Proof.
  intros Hb Ht. unfold PermalinkURL.
  set (tail := fun idParam => idParam +:+ "=" +:+ downloadID +:+ "&file_id=" +:+ fileID +:+ "&redirect=true").
  destruct (bool_decide (kind = KindUsenet)); [|destruct (bool_decide (kind = KindWebDL))].
  - apply (RedactToken_form base "usenet/requestdl?" token (tail "usenet_id") Hb Ht). by intros [].
  - apply (RedactToken_form base "webdl/requestdl?" token (tail "web_id") Hb Ht). by intros [].
  - apply (RedactToken_form base "torrents/requestdl?" token (tail "torrent_id") Hb Ht). by intros [].
Qed.

Lemma RedactToken_hides_token_witness :
  RedactToken (PermalinkURL "https://api.torbox.app/v1/api" "secret" KindUsenet "7" "3") =
  "https://api.torbox.app/v1/api/usenet/requestdl?token=***&usenet_id=7&file_id=3&redirect=true".
Proof.
  rewrite (RedactToken_hides_token "https://api.torbox.app/v1/api" "secret" KindUsenet "7" "3");
    [reflexivity|reflexivity|vm_compute; reflexivity].
Defined.

(** ** A small server for the witnesses *)

Module Demo.

Definition num (n : positive) : spec_float := S754_finite false n 0.

Definition items : list apiDownloadItem :=
  [MkItem (num 7) "h1" "Show" true [MkFileItem (num 3) "Show.S01E01.mkv" "Show/Show.S01E01.mkv" (num 100) "video/x-matroska"] INil;
   MkItem (num 8) "h2" "Not cached" false [] INil;
   MkItem (num 9) "h3" "Film" true [MkFileItem (S754_zero false) EmptyString "Film/film.mkv" (num 5) "video/mp4"] (IArr [IStr "type=movie"])].

(** The body is the offset asked for; the state counts the requests. *)
Definition serve (r : api_request) (w : nat) : nat * result go_err api_response :=
  (S w, Ok (MkApiResponse 200 "200 OK" EmptyString (Ok (default EmptyString (rq_Query r !! "offset"))))).

Definition env : ApiEnv nat := {|
  now := Z.of_nat;
  http_Do := serve;
  wait := fun _ w => (w, None);
  Intn := fun _ _ => 0;
  request_error := fun _ => None;
  ParseDuration := fun _ => None;
  Unmarshal := fun body =>
    match Atoi body with
    | Some o => Ok (take 1000 (drop (Z.to_nat o) items))
    | None => Err (Errorf "json")
    end;
  fmt_float := fun _ => EmptyString;
  int64_overflow := fun _ => - 2 ^ 63
|}.

Definition client : Client := MkClient "key" "https://api" ∅ (300 * Second).

Lemma serves_items path : serves env client path items.
Proof.
  split; [done|]. intros offset w Ho. simpl in Ho.
  assert (offset = 0 \/ offset = 1 \/ offset = 2 \/ offset = 3) as Hc by lia.
  eexists _, _, (pretty offset). split; [reflexivity|].
  assert (page_params offset !! "offset" = Some (pretty offset)) as Hp.
  { unfold page_params. by rewrite lookup_insert_ne, lookup_insert_eq. }
  unfold get_request, good_answer. cbn [rq_Query ar_Body ar_StatusCode]. rewrite Hp.
  by destruct Hc as [-> | [-> | [-> | ->]]].
Qed.

End Demo.

Lemma ListDownloads_complete_witness :
  exists c' w', @ListDownloads default_iter default_sort nat Demo.env 1 KindUsenet Demo.client O =
    Some (c', w', Ok [MkDownload "usenet" "7" "Show" "h1"
                        [MkFile "usenet" "7" "3" "Show/Show.S01E01.mkv" 100 "video/x-matroska" "series"];
                      MkDownload "usenet" "9" "Film" "h3"
                        [MkFile "usenet" "9" "0" "Film/film.mkv" 5 "video/mp4" "movie"]]).
Proof.
  destruct (@ListDownloads_complete default_iter default_sort nat Demo.env KindUsenet Demo.client O Demo.items)
    as (c' & w' & r & Hl & Hr); [intros k _; apply Demo.serves_items|reflexivity|].
  exists c', w'. change (S (length Demo.items / 1000)) with 1%nat in Hl. rewrite Hl.
  change (api_kind KindUsenet) with (Some "usenet"%string) in Hr. cbv beta iota in Hr. rewrite Hr.
  do 2 f_equal.
Defined.
