(* ===== verification/Config.v ===== *)
(** * Configuration

    [internal/config/config.go]: the settings read from the environment.  A value
    that is unset, empty or does not parse takes its default; nothing is checked
    for its range.  [os.Getenv] is a function, empty for an unset variable. *)
From S2P Require Import Prelude GoStrings Torbox.
Open Scope Z_scope.

Record Config := MkConfig {
  cfg_APIKey : string;
  cfg_APIBaseURL : string;
  MountPath : string;
  CacheBudgetMB : Z;
  PrefetchWindowMB : Z;
  StreamMaxInflight : Z;
  StreamConcurrency : Z;
  AttrTimeoutSec : Z;
  EntryTimeoutSec : Z;
  CDNURLCacheTTLSec : Z;
  StreamMaxGlobalWindows : Z;
  CatalogRefreshInterval : Z;
  MetricsListenAddr : string;
  StateDBPath : string;
  LogLevel : string;
  DashboardEnabled : bool;
  DashboardUsername : string;
  DashboardPassword : string;
  AllDirEnabled : bool;
  Writable : bool;
  UID : Z;
  GID : Z
}.

(** [torboxConfig] gives a [Config] the methods of the client's interface. *)
Record torboxConfig := TorboxConfig { tc_Config : Config }.

#[export] Instance torboxConfig_api : APIConfig torboxConfig := {|
  APIKey := fun t => cfg_APIKey (tc_Config t);
  APIBaseURL := fun t => cfg_APIBaseURL (tc_Config t);
  APITimeout := fun _ => 60 * Second
|}.

(** [strconv.ParseBool] *)
Definition ParseBool (s : string) : option bool :=
  if bool_decide (s ∈ ["1"; "t"; "T"; "TRUE"; "true"; "True"]) then Some true
  else if bool_decide (s ∈ ["0"; "f"; "F"; "FALSE"; "false"; "False"]) then Some false
  else None.

Section load.
(** [os.Getenv] and [time.ParseDuration]. *)
Context (Getenv : string -> string) (ParseDuration : string -> option Z).

Definition env (key def : string) : string :=
  let v := Getenv key in if bool_decide (v <> EmptyString) then v else def.

Definition envInt (key : string) (def : Z) : Z :=
  let v := Getenv key in
  if bool_decide (v <> EmptyString) then default def (Atoi v) else def.

Definition envDuration (key : string) (def : Z) : Z :=
  let v := Getenv key in
  if bool_decide (v <> EmptyString) then default def (ParseDuration v) else def.

Definition envBool (key : string) (def : bool) : bool :=
  let v := Getenv key in
  if bool_decide (v <> EmptyString) then default def (ParseBool v) else def.

(** [os.Getuid] and [os.Getgid] are arguments. *)
Definition Load (uid gid : Z) : result string Config :=
  let apiKey := Getenv "TORBOX_API_KEY" in
  if bool_decide (apiKey = EmptyString) then Err "TORBOX_API_KEY is required"
  else Ok {|
    cfg_APIKey := apiKey;
    cfg_APIBaseURL := env "TORBOX_API_BASE_URL" "https://api.torbox.app/v1/api";
    MountPath := env "FUSE_MOUNT_PATH" "/mnt/torbox";
    CacheBudgetMB := envInt "FUSE_CACHE_BUDGET_MB" 256;
    PrefetchWindowMB := envInt "FUSE_PREFETCH_WINDOW_MB" 16;
    StreamMaxInflight := envInt "FUSE_STREAM_MAX_INFLIGHT" 2;
    StreamConcurrency := envInt "FUSE_STREAM_CONCURRENCY" 8;
    AttrTimeoutSec := envInt "FUSE_ATTR_TIMEOUT_SEC" 1;
    EntryTimeoutSec := envInt "FUSE_ENTRY_TIMEOUT_SEC" 1;
    CDNURLCacheTTLSec := envInt "FUSE_CDN_URL_CACHE_TTL_SEC" 300;
    StreamMaxGlobalWindows := envInt "FUSE_STREAM_MAX_GLOBAL_WINDOWS" 16;
    CatalogRefreshInterval := envDuration "CATALOG_REFRESH_INTERVAL" (3 * 3600 * Second);
    MetricsListenAddr := env "METRICS_LISTEN_ADDR" "127.0.0.1:9080";
    StateDBPath := env "STATE_DB_PATH" "/config/state.db";
    LogLevel := env "LOG_LEVEL" "info";
    DashboardEnabled := envBool "DASHBOARD_ENABLED" true;
    DashboardUsername := env "DASHBOARD_USERNAME" EmptyString;
    DashboardPassword := env "DASHBOARD_PASSWORD" EmptyString;
    AllDirEnabled := envBool "FUSE_ALL_DIR_ENABLED" false;
    Writable := envBool "FUSE_WRITABLE" false;
    UID := uint32 uid;
    GID := uint32 gid
  |}.

(** A setting that does not parse is as good as unset. *)
Lemma envInt_cases key def :
  envInt key def = def \/ (exists n, Atoi (Getenv key) = Some n /\ envInt key def = n).
Proof.
  unfold envInt. case_bool_decide; [|by left]. destruct (Atoi (Getenv key)) as [n|]; [right; eauto|by left].
Qed.

End load.

Definition demo_env (key : string) : string :=
  if bool_decide (key = "TORBOX_API_KEY") then "secret"
  else if bool_decide (key = "FUSE_CACHE_BUDGET_MB") then "-1"
  else if bool_decide (key = "FUSE_STREAM_CONCURRENCY") then "eight"
  else if bool_decide (key = "FUSE_ALL_DIR_ENABLED") then "t"
  else if bool_decide (key = "FUSE_WRITABLE") then "1"
  else EmptyString.

(** The defaults of a configuration with only a key, as a value for the witnesses. *)
Definition demo_config : Config :=
  match Load demo_env (fun _ => None) 1000 1000 with
  | Ok cfg => cfg
  | Err _ => MkConfig EmptyString EmptyString EmptyString 0 0 0 0 0 0 0 0 0 EmptyString EmptyString EmptyString
               false EmptyString EmptyString false false 0 0
  end.

(** A negative cache budget is accepted (and the eviction loop of the cache does
    not end with one); a value that is no number takes the default. *)
Example Load_example :
  CacheBudgetMB demo_config = -1 /\ StreamConcurrency demo_config = 8 /\ AllDirEnabled demo_config = true /\
  Writable demo_config = true /\ CatalogRefreshInterval demo_config = 3 * 3600 * Second.
Proof. split_and!; vm_compute; reflexivity. Qed.
