(* ===== verification/FuseTree.v ===== *)
(** * The FUSE inode tree

    [internal/fusefs/fs.go], the tree half: the inodes built from the catalog, their
    synchronisation after a refresh, and the removal of hidden files.  An
    [Inode] of go-fuse is its operations (a [DirNode] or a [FileNode]), its stable
    attributes and its children; the go-fuse calls used are [AddChild] without
    overwriting, [RmChild], [RmAllChildren], [GetChild] and [Children].  Nodes are
    values: an inode has one parent, and only the code here changes the tree.  A
    kernel notification is the catalog path of a directory and the name of the
    changed entry; their order does not matter, so they are collected in a set.
    The walks down the catalog run with fuel; [None] is only its end. *)
From Stdlib Require Import Ascii.
From S2P Require Import Prelude GoStrings Sql StateDB Regexp Classify Tree Torbox Config.
Open Scope Z_scope.

(** ** Data *)

(** What [Operations()] returns: the fields of a node that are not shared by all. *)
Inductive Ops :=
| DirNode
| FileNode (fileKey permalinkURL : string) (size : Z).

#[export] Instance Ops_eq_dec : EqDecision Ops.
Proof. solve_decision. Defined.

Inductive Inode := MkInode (ops : Ops) (mode ino : Z) (children : gmap string Inode).

Definition Operations (n : Inode) : Ops := let '(MkInode o _ _ _) := n in o.
Definition Mode (n : Inode) : Z := let '(MkInode _ m _ _) := n in m.
Definition Ino (n : Inode) : Z := let '(MkInode _ _ i _) := n in i.
Definition Children (n : Inode) : gmap string Inode := let '(MkInode _ _ _ ch) := n in ch.

Definition S_IFDIR : Z := 16384.
Definition S_IFREG : Z := 32768.
Definition dir_mode : Z := Z.lor S_IFDIR 493.    (* 0755 *)
Definition file_mode : Z := Z.lor S_IFREG 292.   (* 0444 *)

(** [AddChild(name, ch, false)] *)
Definition AddChild (name : string) (n : Inode) (ch : gmap string Inode) : gmap string Inode :=
  match ch !! name with
  | Some _ => ch
  | None => <[name := n]> ch
  end.

(** The inode reached from a directory's children by a chain of [GetChild]. *)
Fixpoint inode_at (ch : gmap string Inode) (ns : list string) : option Inode :=
  match ns with
  | [] => None
  | [n] => ch !! n
  | n :: ns' => c ← ch !! n; inode_at (Children c) ns'
  end.

Definition notifyEntry : Type := string * string.

(** Runs a fallible step over a list. *)
Fixpoint foldM {A B} (f : B -> A -> option B) (b : B) (l : list A) : option B :=
  match l with
  | [] => Some b
  | x :: l' => b' ← f b x; foldM f b' l'
  end.

(** ** Content keys and permalinks *)

(** The pieces between colons; a key with fewer than three gives empty parts. *)
Definition parseContentKey (key : string) : string * string * string :=
  match Split key colon with
  | kind :: downloadID :: fileID :: _ => (kind, downloadID, fileID)
  | _ => (EmptyString, EmptyString, EmptyString)
  end.

Definition PermalinkBuilderFromClient (cfg : Config) (fileKey : string) : string :=
  let '(kind, downloadID, fileID) := parseContentKey fileKey in
  PermalinkURL (APIBaseURL (TorboxConfig cfg)) (cfg_APIKey cfg) kind downloadID fileID.

Definition file_permalink (cfg : Config) (f : File) : string :=
  PermalinkURL (cfg_APIBaseURL cfg) (cfg_APIKey cfg) (f_DownloadKind f) (f_DownloadID f) (f_FileID f).

Section build.
Context (env : SqlEnv) (cfg : Config).

(** Children of a directory under construction, and the database. *)
Abbreviation Build := (gmap string Inode * DB)%type.

(** ** Building *)

Definition file_ops (f : File) : Ops :=
  FileNode (ContentKey f) (file_permalink cfg f) (uint64 (f_Size f)).

Definition addFileNode (name catalogPath : string) (f : File) (st : Build) : Build :=
  match AssignInode env (ContentKey f) catalogPath st.2 with
  | (Err _, db) => (st.1, db)
  | (Ok ino, db) => (AddChild name (MkInode (file_ops f) file_mode ino ∅) st.1, db)
  end.

(** [populate] is [populateDir] with the fuel left. *)
Definition addSubDirNode (populate : string -> Build -> option Build) (name catalogPath : string)
    (st : Build) : option Build :=
  match AssignInode env ("dir:" +:+ catalogPath) catalogPath st.2 with
  | (Err _, db) => Some (st.1, db)
  | (Ok ino, db) =>
      sub ← populate catalogPath (∅, db);
      Some (AddChild name (MkInode DirNode dir_mode ino sub.1) st.1, sub.2)
  end.

Definition populate_entry (populate : string -> Build -> option Build) (catalogPath : string)
    (st : Build) (e : DirEntry) : option Build :=
  let childPath := catalogPath +:+ "/" +:+ Name e in
  match EntryFile e with
  | Some f => Some (addFileNode (Name e) childPath f st)
  | None => addSubDirNode populate (Name e) childPath st
  end.

Fixpoint populateDir (fuel : nat) (t : Tree) (catalogPath : string) (st : Build) : option Build :=
  match fuel with
  | O => None
  | S fuel' => foldM (populate_entry (populateDir fuel' t) catalogPath) st (ListDir t catalogPath)
  end.

Definition addCategoryDir (fuel : nat) (t : Tree) (name catalogPath : string) (st : Build) : option Build :=
  if bool_decide (ListDir t catalogPath = []) then Some st
  else addSubDirNode (populateDir fuel t) name catalogPath st.

(** No path of the tree is longer than its longest key. *)
Definition tree_fuel (t : Tree) : nat := S (max_key_length t).

Definition catPaths : list string :=
  ["/movies"; "/series"] ++ (if AllDirEnabled cfg then ["/all"] else []).

(** The root's children after the mount is initialised. *)
Definition OnAdd (t : Tree) (st : Build) : option Build :=
  foldM (fun st p => addCategoryDir (tree_fuel t) t (path_Base p) p st) st catPaths.

(** ** Synchronisation *)

(** The state of a synchronisation: children, database, notifications. *)
Abbreviation Sync := (Build * gset notifyEntry)%type.

Definition sync_entry (populate : string -> Build -> option Build)
    (sync : string -> Inode -> DB -> option (Inode * DB * gset notifyEntry))
    (catalogPath : string) (st : Sync) (e : DirEntry) : option Sync :=
  let '(ch, db, notes) := st in
  let childPath := catalogPath +:+ "/" +:+ Name e in
  match ch !! Name e with
  | None =>
      st' ← match EntryFile e with
            | Some f => Some (addFileNode (Name e) childPath f (ch, db))
            | None => addSubDirNode populate (Name e) childPath (ch, db)
            end;
      Some (st', {[(catalogPath, Name e)]} ∪ notes)
  | Some existing =>
      match EntryFile e with
      | None =>
          '(n, db', notes') ← sync childPath existing db;
          Some (<[Name e := n]> ch, db', notes' ∪ notes)
      | Some _ => Some st
      end
  end.

Definition entry_names (es : list DirEntry) : gset string := list_to_set (Name <$> es).

Fixpoint syncDir (fuel : nat) (t : Tree) (catalogPath : string) (dir : Inode) (db : DB)
  : option (Inode * DB * gset notifyEntry) :=
  match fuel with
  | O => None
  | S fuel' =>
      let newEntries := ListDir t catalogPath in
      let newNames := entry_names newEntries in
      let kept := filter (fun kv => kv.1 ∈ newNames) (Children dir) in
      let removed := dom (Children dir) ∖ newNames in
      '(ch, db', notes) ←
        foldM (sync_entry (populateDir fuel' t) (syncDir fuel' t) catalogPath)
              (kept, db, set_map (pair catalogPath) removed) newEntries;
      Some (MkInode (Operations dir) (Mode dir) (Ino dir) ch, db', notes)
  end.

Definition sync_category (t : Tree) (st : Sync) (catPath : string) : option Sync :=
  let '(ch, db, notes) := st in
  let name := path_Base catPath in
  match ch !! name with
  | None =>
      st' ← addCategoryDir (tree_fuel t) t name catPath (ch, db);
      Some (st', {[("/", name)]} ∪ notes)
  | Some child =>
      '(n, db', notes') ← syncDir (tree_fuel t) t catPath child db;
      Some (<[name := n]> ch, db', notes' ∪ notes)
  end.

Definition SyncTree (t : Tree) (st : Build) : option Sync :=
  foldM (sync_category t) (st, ∅) catPaths.

End build.

(** ** Removing hidden files *)

(** [removeKeysFromDir]: file inodes with a matching key go, at every depth; [at]
    is the path of the directory, for the notifications. *)
Fixpoint removeKeysFromDir (contentKeys : gset string) (at_ : string) (dir : Inode) : Inode * gset notifyEntry :=
  let '(MkInode o mode ino children) := dir in
  let r := map_fold (fun name ch acc =>
      match Operations ch with
      | FileNode fileKey _ _ =>
          if decide (fileKey ∈ contentKeys) then (acc.1, {[(at_, name)]} ∪ acc.2)
          else (<[name := ch]> acc.1, acc.2)
      | DirNode =>
          let r := removeKeysFromDir contentKeys (at_ +:+ "/" +:+ name) ch in
          (<[name := r.1]> acc.1, r.2 ∪ acc.2)
      end) (∅, ∅) children in
  (MkInode o mode ino r.1, r.2).

(** [pruneEmptyDirs]: bottom-up, a directory left without children goes. *)
Fixpoint pruneEmptyDirs (at_ : string) (dir : Inode) : Inode * gset notifyEntry :=
  let '(MkInode o mode ino children) := dir in
  let r := map_fold (fun name ch acc =>
      match Operations ch with
      | FileNode _ _ _ => (<[name := ch]> acc.1, acc.2)
      | DirNode =>
          let r := pruneEmptyDirs (at_ +:+ "/" +:+ name) ch in
          if decide (Children r.1 = ∅) then (acc.1, {[(at_, name)]} ∪ (r.2 ∪ acc.2))
          else (<[name := r.1]> acc.1, r.2 ∪ acc.2)
      end) (∅, ∅) children in
  (MkInode o mode ino r.1, r.2).

(** One pass over the category directories of the root that exist. *)
Definition over_categories (cfg : Config) (f : string -> Inode -> Inode * gset notifyEntry)
    (st : gmap string Inode * gset notifyEntry) : gmap string Inode * gset notifyEntry :=
  foldl (fun st catPath =>
           let name := path_Base catPath in
           match st.1 !! name with
           | None => st
           | Some child => let r := f catPath child in (<[name := r.1]> st.1, r.2 ∪ st.2)
           end) st (catPaths cfg).

Definition removeContentKeys (cfg : Config) (contentKeys : gset string) (root : gmap string Inode)
  : gmap string Inode * gset notifyEntry :=
  over_categories cfg pruneEmptyDirs (over_categories cfg (removeKeysFromDir contentKeys) (root, ∅)).

Fixpoint collectFileKeys (n : Inode) : gset string :=
  let '(MkInode _ _ _ children) := n in
  map_fold (fun _ ch keys =>
      match Operations ch with
      | FileNode fileKey _ _ => {[fileKey]} ∪ keys
      | DirNode => collectFileKeys ch ∪ keys
      end) ∅ children.

(** ** Round trips *)

Lemma parse_ContentKey f :
  no_byte colon (f_DownloadKind f) -> no_byte colon (f_DownloadID f) -> no_byte colon (f_FileID f) ->
  parseContentKey (ContentKey f) = (f_DownloadKind f, f_DownloadID f, f_FileID f).
Proof.
  intros H1 H2 H3. unfold parseContentKey, ContentKey.
  change (":" +:+ f_DownloadID f +:+ ":" +:+ f_FileID f) with (String colon (f_DownloadID f +:+ String colon (f_FileID f))).
  rewrite !Split_app_sep. unfold no_byte in *. by rewrite H1, H2, H3.
Qed.

Lemma fmt_0f_no_colon f : no_byte colon (fmt_0f f).
Proof. by destruct f as [[]|[]| |[] m e]; try done; apply no_byte_app; try done; apply pretty_no_byte. Qed.

(** [C31] A content key determines the permalink.  For every file of every download
    the client lists, the permalink the stream reader builds from its content key
    is the one its node was made with, for any numbers the API uses as ids. *)
Theorem permalink_roundtrip `{MapIter} {net} (E : ApiEnv net) (cfg : Config) kind item d f :
  api_kind kind <> None -> item_download E kind item = Some d -> f ∈ d_Files d ->
  parseContentKey (ContentKey f) = (kind, d_ID d, f_FileID f) /\
  PermalinkBuilderFromClient cfg (ContentKey f) = file_permalink cfg f.
Proof.
  intros Hk Hd Hf. unfold item_download in Hd. destruct (di_Cached item); [|done]. injection Hd as <-.
  cbn [d_Files d_ID] in *. apply list_elem_of_fmap in Hf as (fi & -> & _).
  assert (no_byte colon kind) as Hkind.
  { unfold api_kind in Hk. repeat case_bool_decide; subst; done. }
  match goal with |- parseContentKey (ContentKey ?f) = _ /\ _ => pose proof (parse_ContentKey f) as Hp end.
  cbn [f_DownloadKind f_DownloadID f_FileID item_file] in *.
  specialize (Hp Hkind (fmt_0f_no_colon _) (fmt_0f_no_colon _)). split; [done|].
  unfold PermalinkBuilderFromClient. by rewrite Hp.
Qed.

Definition demo_item : apiDownloadItem :=
  MkItem (Torbox.Demo.num 7) "h" "Show" true
    [MkFileItem (Torbox.Demo.num 3) "e.mkv" "Show/e.mkv" (Torbox.Demo.num 9) "video/mp4"] INil.
Definition demo_item_file : File := MkFile "usenet" "7" "3" "Show/e.mkv" 9 "video/mp4" "movie".

Lemma permalink_roundtrip_witness :
  ContentKey demo_item_file = "usenet:7:3" /\
  PermalinkBuilderFromClient demo_config (ContentKey demo_item_file) = file_permalink demo_config demo_item_file.
Proof.
  split; [reflexivity|].
  refine (proj2 (@permalink_roundtrip default_iter nat Torbox.Demo.env demo_config KindUsenet demo_item
    (MkDownload "usenet" "7" "Show" "h" [demo_item_file]) demo_item_file _ _ _)); [discriminate|reflexivity|by left].
Defined.
