(* ===== verification/FuseTreeProps.v ===== *)
(** * The inode tree follows the catalog

    After a synchronisation the mount shows exactly the entries of the catalog
    tree under the category directories, keeping the inodes that were there; what
    is hidden disappears from every directory, with the directories it empties. *)
From Stdlib Require Import Ascii.
From S2P Require Import Prelude GoStrings Sql StateDB Regexp Classify Tree TreeProps TreeDB Torbox Config FuseTree.
Open Scope Z_scope.

(** ** Looking at the mount and at the catalog *)

Definition find_entry (x : string) (es : list DirEntry) : option DirEntry :=
  List.find (fun e => bool_decide (Name e = x)) es.

(** The entry of the catalog tree reached from directory [p] by these names. *)
Fixpoint entry_at (t : Tree) (p : string) (ns : list string) : option DirEntry :=
  match ns with
  | [] => None
  | x :: ns' =>
      e ← find_entry x (ListDir t p);
      match ns' with
      | [] => Some e
      | _ => if EntryFile e is Some _ then None else entry_at t (p +:+ "/" +:+ x) ns'
      end
  end.

(** A subdirectory's name is no other entry's name. *)
Definition dirs_unique (t : Tree) : Prop :=
  map_Forall (fun _ es => Forall (fun e => EntryFile e = None ->
    length (filter (fun e' => Name e' = Name e) es) = 1%nat) es) t.

(** The entries a walk of the catalog from [p] comes across. *)
Fixpoint visits (fuel : nat) (t : Tree) (p : string) : nat :=
  match fuel with
  | O => O
  | S fuel' =>
      foldr (fun e n => (if EntryFile e is Some _ then 1 else S (visits fuel' t (p +:+ "/" +:+ Name e))) + n)%nat
            O (ListDir t p)
  end.

(** What the walks need of a tree: clean paths, and a directory for each
    directory entry below the root. *)
Record walkable (t : Tree) : Prop := {
  wk_clean : forall p, p ∈ dom t -> clean_path p;
  wk_subdirs : forall p x, p <> "/" -> MkDirEntry x None ∈ dir_entries t p ->
                 exists q, q ∈ dom t /\ q <> "/" /\ path_Dir q = p /\ path_Base q = x
}.

Lemma tree_ok_walkable t : tree_ok t -> walkable t.
Proof. intros Hok. split; [apply Hok|]. intros p x _ Hx. by apply (tk_subdirs _ Hok). Qed.

Lemma foldM_app {A B} (f : B -> A -> option B) b l1 l2 :
  foldM f b (l1 ++ l2) = foldM f b l1 ≫= fun b' => foldM f b' l2.
Proof. revert b. induction l1 as [|x l1 IH]; intros b; [done|]. simpl. destruct (f b x); simpl; [apply IH|done]. Qed.

Lemma inode_at_cons ch x ns :
  ns <> [] -> inode_at ch (x :: ns) = inode_at (from_option Children ∅ (ch !! x)) ns.
Proof.
  destruct ns as [|y ns]; [done|]. intros _. change (inode_at ch (x :: y :: ns)) with (c ← ch !! x; inode_at (Children c) (y :: ns)).
  destruct (ch !! x); [done|]. simpl. by destruct ns; rewrite lookup_empty.
Qed.

Lemma inode_at_empty ns : inode_at ∅ ns = None.
Proof. destruct ns as [|x [|y ns]]; [done|apply lookup_empty|]. cbn [inode_at]. by rewrite lookup_empty. Qed.

Lemma entry_at_cons t p x ns :
  ns <> [] -> entry_at t p (x :: ns) =
    e ← find_entry x (ListDir t p); if EntryFile e is Some _ then None else entry_at t (p +:+ "/" +:+ x) ns.
Proof. by destruct ns. Qed.

Lemma find_entry_Some x es e : find_entry x es = Some e -> e ∈ es /\ Name e = x.
Proof.
  intros Hf. apply List.find_some in Hf as [Hin Hn]. split; [by apply list_elem_of_In|].
  by apply bool_decide_eq_true in Hn.
Qed.

Lemma find_entry_None x es : find_entry x es = None <-> forall e, e ∈ es -> Name e <> x.
Proof.
  split.
  - intros Hf e He Hn. apply list_elem_of_In in He. eapply List.find_none in Hf; [|exact He].
    simpl in Hf. by apply bool_decide_eq_false in Hf.
  - induction es as [|e es IH]; intros Hn; [done|]. unfold find_entry. simpl.
    rewrite bool_decide_false by (apply Hn; by left). apply IH. intros e' He'. apply Hn. by right.
Qed.

Lemma find_entry_app x es1 es2 :
  find_entry x (es1 ++ es2) = match find_entry x es1 with Some e => Some e | None => find_entry x es2 end.
Proof. unfold find_entry. induction es1 as [|e es IH]; [done|]. simpl. by case_bool_decide. Qed.

(** ** The database has numbers left *)

Definition ready (env : SqlEnv) (k : Z) (db : DB) : Prop :=
  no_faults env /\ db_ok 0 db /\ 0 <= k /\ nextInode db + k < 2 ^ 63 - 1.

Lemma AssignInode_ready env k key path db :
  ready env (k + 1) db -> 0 <= k ->
  exists ino db', AssignInode env key path db = (Ok ino, db') /\ ready env k db' /\
    same_files (tables (conn db)) (tables (conn db')).
Proof.
  intros (Hf & Hok & Hk & Hroom) Hk0. pose proof (AssignInode_succeeds env key path db 0 Hf ltac:(lia) Hok ltac:(lia)) as Ha.
  pose proof (AssignInode_frame env key path db) as Hfr.
  destruct (AssignInode env key path db) as [r db']. destruct Ha as ((i & ->) & (H1 & H2 & H3) & Hn).
  exists i, db'. split; [done|]. split; [|done]. split_and!; try done; try lia. split_and!; try done; lia.
Qed.

Lemma catPaths_ok cfg : NoDup (path_Base <$> catPaths cfg) /\ forall cat, cat ∈ catPaths cfg -> clean_path cat /\ cat <> "/".
Proof.
  unfold catPaths. split.
  - destruct (AllDirEnabled cfg); apply (bool_decide_unpack _); vm_compute; exact I.
  - intros cat Hin. assert (cat = "/movies" \/ cat = "/series" \/ cat = "/all") as Hcs
      by (destruct (AllDirEnabled cfg); set_solver).
    destruct Hcs as [->|[->| ->]]; (split; [|done]).
    + exists ["movies"]. split; [|done]. apply (bool_decide_unpack _). vm_compute. exact I.
    + exists ["series"]. split; [|done]. apply (bool_decide_unpack _). vm_compute. exact I.
    + exists ["all"]. split; [|done]. apply (bool_decide_unpack _). vm_compute. exact I.
Qed.

Section sync.
Context (env : SqlEnv) (cfg : Config) (t : Tree).
Hypothesis Hok : walkable t.
Hypothesis Huniq : dirs_unique t.

Definition node_ops (e : DirEntry) : Ops :=
  match EntryFile e with None => DirNode | Some f => file_ops cfg f end.

Definition node_mode (e : DirEntry) : Z := if EntryFile e is Some _ then file_mode else dir_mode.

(** The node [c] in the place of a catalog entry: the node that was there, or a
    new one made from the entry. *)
Definition node_for (e : DirEntry) (old : option Inode) (c : Inode) : Prop :=
  match old with
  | Some n => Operations c = Operations n /\ Mode c = Mode n /\ Ino c = Ino n
  | None => Operations c = node_ops e /\ Mode c = node_mode e
  end.

(** The mount below a directory after a synchronisation has exactly the
    catalog's entries. *)
Definition synced (p : string) (old new : gmap string Inode) : Prop :=
  forall ns, ns <> [] ->
    match entry_at t p ns with
    | None => inode_at new ns = None
    | Some e => exists c, inode_at new ns = Some c /\ node_for e (inode_at old ns) c
    end.

(** Where the catalog has a file, an existing node has no children. *)
Definition files_childless (p : string) (old : gmap string Inode) : Prop :=
  forall ns n e, inode_at old ns = Some n -> entry_at t p ns = Some e -> EntryFile e <> None -> Children n = ∅.

Definition entry_synced (p : string) (old : gmap string Inode) (e : DirEntry) (c : Inode) : Prop :=
  node_for e (old !! Name e) c /\
  match EntryFile e with
  | None => synced (p +:+ "/" +:+ Name e) (from_option Children ∅ (old !! Name e)) (Children c)
  | Some _ => Children c = ∅
  end.

(** [done] entries are in place, the other names are as they were at the start. *)
Definition progress (p : string) (old start : gmap string Inode) (done : list DirEntry) (m : gmap string Inode) : Prop :=
  forall x, match find_entry x done with
            | None => m !! x = start !! x
            | Some e => exists c, m !! x = Some c /\ entry_synced p old e c
            end.

Lemma progress_start p old start : progress p old start [] start.
Proof. by intros x. Qed.

Lemma find_entry_here e : find_entry (Name e) [e] = Some e.
Proof. unfold find_entry. simpl. by rewrite bool_decide_true. Qed.

Lemma progress_new p old start es m e c :
  find_entry (Name e) es = None -> progress p old start es m -> entry_synced p old e c ->
  progress p old start (es ++ [e]) (<[Name e := c]> m).
Proof.
  intros Hn Hp Hc x. rewrite find_entry_app. specialize (Hp x).
  destruct (decide (x = Name e)) as [->|Hx].
  - rewrite Hn, find_entry_here. exists c. by rewrite lookup_insert_eq.
  - destruct (find_entry x es) as [e'|].
    + destruct Hp as (c' & Hm & Hc'). exists c'. by rewrite lookup_insert_ne.
    + unfold find_entry. simpl. rewrite bool_decide_false by done. by rewrite lookup_insert_ne.
Qed.

Lemma progress_dup p old start es m e :
  find_entry (Name e) es <> None -> progress p old start es m -> progress p old start (es ++ [e]) m.
Proof.
  intros Hn Hp x. rewrite find_entry_app. specialize (Hp x).
  destruct (find_entry x es) as [e'|] eqn:Hx; [done|].
  unfold find_entry. simpl. case_bool_decide as He; [by rewrite He in Hn|done].
Qed.

Lemma progress_synced p old start m :
  (forall x, find_entry x (ListDir t p) = None -> start !! x = None) ->
  progress p old start (ListDir t p) m -> synced p old m.
Proof.
  intros Hs Hp ns Hns. destruct ns as [|x ns]; [done|]. specialize (Hp x).
  destruct (decide (ns = [])) as [->|Hn].
  - cbn [inode_at entry_at]. destruct (find_entry x (ListDir t p)) as [e|] eqn:He; simpl.
    + destruct Hp as (c & -> & Hc & _). apply find_entry_Some in He as [_ <-]. by exists c.
    + by rewrite Hp, Hs.
  - rewrite entry_at_cons, !(inode_at_cons _ x) by done.
    destruct (find_entry x (ListDir t p)) as [e|] eqn:He; simpl.
    + destruct Hp as (c & -> & _ & Hc). apply find_entry_Some in He as [_ <-]. cbn [from_option].
      destruct (EntryFile e); [by rewrite Hc, inode_at_empty|by apply Hc].
    + rewrite Hp, Hs by done. by rewrite inode_at_empty.
Qed.

Lemma subdir_path p e :
  clean_path p -> p <> "/" -> e ∈ dir_entries t p -> EntryFile e = None ->
  clean_path (p +:+ "/" +:+ Name e) /\ p +:+ "/" +:+ Name e <> "/" /\
  (String.length p < String.length (p +:+ "/" +:+ Name e) <= max_key_length t)%nat.
Proof.
  intros Hp Hp1 He Hf.
  assert (MkDirEntry (Name e) None ∈ dir_entries t p) as Hin by (destruct e; simpl in *; by subst).
  apply (wk_subdirs _ Hok) in Hin as (q & Hq & Hq1 & Hdir & Hbase); [|done].
  pose proof (wk_clean _ Hok q Hq) as Hc.
  assert (p +:+ "/" +:+ Name e = q) as E by (rewrite <- Hdir, <- Hbase; apply child_path; by rewrite ?Hdir).
  rewrite E. split_and!; [done|done| |by apply max_key_length_le].
  rewrite <- E, !str_length_app. simpl. lia.
Qed.

Lemma visits_split fuel p es1 e es2 :
  ListDir t p = es1 ++ e :: es2 ->
  (visits (S fuel) t p = foldr (fun e n => (if EntryFile e is Some _ then 1 else S (visits fuel t (p +:+ "/" +:+ Name e))) + n) O (es1 ++ e :: es2))%nat.
Proof. by cbn [visits]; intros ->. Qed.

Lemma ListDir_clean p : clean_path p -> ListDir t p = dir_entries t p.
Proof. intros Hp. unfold ListDir. by rewrite clean_path_Clean. Qed.

(** A repeated name is the name of files. *)
Lemma dup_is_file p es1 e es2 :
  ListDir t p = es1 ++ e :: es2 -> find_entry (Name e) es1 <> None -> EntryFile e <> None.
Proof.
  intros Hl Hf Hn. unfold ListDir, dir_entries in Hl.
  destruct (t !! path_Clean p) as [es|] eqn:Ht; simpl in Hl; [|by destruct es1].
  pose proof (Huniq _ _ Ht) as Hall. rewrite Hl, Forall_app, Forall_cons in Hall.
  destruct Hall as (_ & He & _). specialize (He Hn).
  destruct (find_entry (Name e) es1) as [e'|] eqn:Hf'; [|done]. apply find_entry_Some in Hf' as [Hin Hne].
  rewrite filter_app, length_app, filter_cons_True in He by done. simpl in He.
  assert (e' ∈ filter (fun e' => Name e' = Name e) es1) as Hin' by (by apply list_elem_of_filter).
  destruct (filter _ es1); [by apply not_elem_of_nil in Hin'|]. simpl in He. lia.
Qed.

(** Ready for [k] more inodes, with the files and hidden files of [db0]. *)
Definition room (db0 : DB) (k : nat) (db : DB) : Prop :=
  ready env (Z.of_nat k) db /\ same_files (tables (conn db0)) (tables (conn db)).

Lemma AssignInode_room db0 k key path db :
  room db0 (S k) db -> exists ino db', AssignInode env key path db = (Ok ino, db') /\ room db0 k db'.
Proof.
  intros [Hr Hs]. destruct (AssignInode_ready env (Z.of_nat k) key path db) as (ino & db' & Ha & Hr' & Hs').
  - by replace (Z.of_nat k + 1) with (Z.of_nat (S k)) by lia.
  - lia.
  - exists ino, db'. split; [done|]. split; [done|]. destruct Hs as (? & ? & ?), Hs' as (? & ? & ?). split_and!; congruence.
Qed.

Definition weight (fuel : nat) (p : string) (e : DirEntry) : nat :=
  if EntryFile e is Some _ then 1%nat else S (visits fuel t (p +:+ "/" +:+ Name e)).

Definition weights (fuel : nat) (p : string) (es : list DirEntry) : nat :=
  foldr (fun e n => weight fuel p e + n)%nat O es.

Lemma visits_S fuel p : visits (S fuel) t p = weights fuel p (ListDir t p).
Proof. done. Qed.

(** The loop over the entries of a directory: what each step does, they all do. *)
Lemma entries_fold {St} (ch : St -> gmap string Inode) (db : St -> DB) (step : St -> DirEntry -> option St)
    fuel p old start db0 :
  (forall es1 e es2 st k, ListDir t p = es1 ++ e :: es2 -> progress p old start es1 (ch st) ->
     room db0 (weight fuel p e + k) (db st) -> exists st', step st e = Some st' /\
     progress p old start (es1 ++ [e]) (ch st') /\ room db0 k (db st')) ->
  forall es2 es1 st k, ListDir t p = es1 ++ es2 -> progress p old start es1 (ch st) ->
    room db0 (weights fuel p es2 + k) (db st) -> exists st', foldM step st es2 = Some st' /\
    progress p old start (ListDir t p) (ch st') /\ room db0 k (db st').
Proof.
  intros Hstep es2. induction es2 as [|e es2 IH]; intros es1 st k Hl Hp Hr.
  - exists st. split; [done|]. rewrite app_nil_r in Hl. by rewrite Hl.
  - cbn [weights foldr] in Hr. rewrite <- Nat.add_assoc in Hr.
    destruct (Hstep es1 e es2 st _ Hl Hp Hr) as (st1 & Hs & Hp1 & Hr1). cbn [foldM]. rewrite Hs.
    cbn [mbind option_bind]. apply (IH (es1 ++ [e])); [by rewrite <- app_assoc|done|done].
Qed.

(** What [populateDir] with this much fuel does to the subdirectories of [p]. *)
Definition populates (fuel : nat) (db0 : DB) (p : string) : Prop :=
  forall e db k, e ∈ dir_entries t p -> EntryFile e = None ->
    let q := p +:+ "/" +:+ Name e in
    room db0 (visits fuel t q + k) db -> exists m db',
      populateDir env cfg fuel t q (∅, db) = Some (m, db') /\ synced q ∅ m /\ room db0 k db'.

(** A new entry. *)
Lemma add_entry fuel p old start es1 e es2 m db0 db k :
  clean_path p -> populates fuel db0 p ->
  ListDir t p = es1 ++ e :: es2 -> progress p old start es1 m ->
  find_entry (Name e) es1 = None -> m !! Name e = None -> old !! Name e = None ->
  room db0 (weight fuel p e + k) db -> exists m' db',
    populate_entry env cfg (populateDir env cfg fuel t) p (m, db) e = Some (m', db') /\
    progress p old start (es1 ++ [e]) m' /\ room db0 k db'.
Proof.
  intros Hc Hpop Hl Hp Hnew Hm Hold Hr. unfold populate_entry, addFileNode, addSubDirNode, AddChild, weight in *.
  assert (e ∈ dir_entries t p) as Hin.
  { rewrite <- (ListDir_clean p Hc), Hl. apply elem_of_app. right. by left. }
  destruct (EntryFile e) as [f|] eqn:Hf; cbn [fst snd].
  - destruct (AssignInode_room _ _ (ContentKey f) (p +:+ "/" +:+ Name e) db Hr) as (ino & db' & -> & Hr').
    rewrite Hm. eexists _, db'. split; [done|]. split; [|done].
    apply progress_new; [done|done|]. unfold entry_synced, node_for, node_ops, node_mode. by rewrite Hold, Hf.
  - destruct (AssignInode_room _ _ ("dir:" +:+ (p +:+ "/" +:+ Name e)) (p +:+ "/" +:+ Name e) db Hr) as (ino & db1 & -> & Hr1).
    destruct (Hpop e db1 k Hin Hf Hr1) as (sub & db' & -> & Hsub & Hr'). cbn [mbind option_bind fst snd]. rewrite Hm.
    eexists _, db'. split; [done|]. split; [|done].
    apply progress_new; [done|done|]. unfold entry_synced, node_for, node_ops, node_mode. by rewrite Hold, Hf.
Qed.

Lemma populate_spec fuel p db0 db k :
  (0 < fuel)%nat -> (max_key_length t < fuel + String.length p)%nat -> clean_path p -> p <> "/" ->
  room db0 (visits fuel t p + k) db -> exists m db',
    populateDir env cfg fuel t p (∅, db) = Some (m, db') /\ synced p ∅ m /\ room db0 k db'.
Proof.
  revert p db k. induction fuel as [|fuel IH]; intros p db k Hf0 Hf Hc Hp Hr; [lia|]. cbn [populateDir].
  assert (populates fuel db0 p) as Hpop.
  { intros e db1 k1 He Hfe q Hr1. destruct (subdir_path p e Hc Hp He Hfe) as (Hq & Hq1 & Hlen). apply IH; try done; unfold q; lia. }
  rewrite visits_S in Hr.
  destruct (entries_fold fst snd (populate_entry env cfg (populateDir env cfg fuel t) p) fuel p ∅ ∅ db0) with
    (es2 := ListDir t p) (es1 := @nil DirEntry) (st := (∅ : gmap string Inode, db)) (k := k)
    as ([m db'] & -> & Hm & Hr').
  - intros es1 e es2 [m1 db1] k1 Hl Hpr Hr1. cbn [fst snd] in *.
    destruct (find_entry (Name e) es1) as [e'|] eqn:Hdup.
    + assert (EntryFile e <> None) as Hfe by (apply (dup_is_file p es1 e es2 Hl); by rewrite Hdup).
      unfold populate_entry, addFileNode, weight in *. destruct (EntryFile e) as [f|]; [|done].
      destruct (AssignInode_room _ _ (ContentKey f) (p +:+ "/" +:+ Name e) db1 Hr1) as (ino & db2 & Ha & Hr2).
      cbn [fst snd]. rewrite Ha. eexists _. split; [done|]. split; [|done]. cbn [fst snd].
      pose proof (Hpr (Name e)) as Hx. rewrite Hdup in Hx. destruct Hx as (c & Hx & _).
      unfold AddChild. rewrite Hx. apply progress_dup; [by rewrite Hdup|done].
    + pose proof (Hpr (Name e)) as Hx. rewrite Hdup in Hx.
      destruct (add_entry fuel p ∅ ∅ es1 e es2 m1 db0 db1 k1) as (m' & db' & -> & H1 & H2);
        [done|done|done|done|done|by rewrite Hx|apply lookup_empty|done|]. by exists (m', db').
  - done.
  - apply progress_start.
  - done.
  - exists m, db'. split; [done|]. split; [|done].
    apply (progress_synced p ∅ ∅); [|done]. intros. apply lookup_empty.
Qed.

(** Descending into a subdirectory. *)
Lemma files_childless_sub p old e n :
  files_childless p old -> find_entry (Name e) (ListDir t p) = Some e -> EntryFile e = None ->
  old !! Name e = Some n -> files_childless (p +:+ "/" +:+ Name e) (Children n).
Proof.
  intros Hc Hf He Hn ns c e' Hin Hat. destruct (decide (ns = [])) as [->|Hns]; [done|].
  apply (Hc (Name e :: ns)).
  - rewrite inode_at_cons by done. by rewrite Hn.
  - rewrite entry_at_cons by done. rewrite Hf. simpl. by rewrite He.
Qed.

Lemma find_entry_first p es1 e es2 :
  ListDir t p = es1 ++ e :: es2 -> find_entry (Name e) es1 = None -> find_entry (Name e) (ListDir t p) = Some e.
Proof.
  intros -> Hn. rewrite find_entry_app, Hn. unfold find_entry. simpl. by rewrite bool_decide_true.
Qed.

Lemma room_le db0 k k' db : (k' <= k)%nat -> room db0 k db -> room db0 k' db.
Proof. intros Hle [(? & ? & ? & ?) ?]. split; [|done]. split_and!; try done; lia. Qed.

(** The children [syncDir] starts from: the ones whose name is still listed. *)
Definition still_listed (p : string) (old : gmap string Inode) : gmap string Inode :=
  filter (fun kv => kv.1 ∈ entry_names (ListDir t p)) old.

Lemma lookup_still_listed p old x :
  still_listed p old !! x = if find_entry x (ListDir t p) is Some _ then old !! x else None.
Proof.
  unfold still_listed. rewrite map_lookup_filter.
  assert (x ∈ entry_names (ListDir t p) <-> find_entry x (ListDir t p) <> None) as Hx.
  { unfold entry_names. rewrite elem_of_list_to_set, list_elem_of_fmap, find_entry_None. split.
    - intros (e & -> & He) Hno. by apply (Hno e).
    - intros Hn. destruct (find_entry x (ListDir t p)) as [e|] eqn:He.
      + apply find_entry_Some in He as [? <-]. eauto.
      + destruct Hn. by apply find_entry_None. }
  destruct (old !! x); simpl; [|by case_match]. destruct (find_entry x (ListDir t p)).
  - by rewrite option_guard_True by (by apply Hx).
  - rewrite option_guard_False; [done|]. rewrite Hx. tauto.
Qed.

(** What [syncDir] with this much fuel does to an existing subdirectory of [p]. *)
Definition syncs (fuel : nat) (db0 : DB) (p : string) : Prop :=
  forall e n db k, e ∈ dir_entries t p -> EntryFile e = None ->
    let q := p +:+ "/" +:+ Name e in
    files_childless q (Children n) -> room db0 (visits fuel t q + k) db -> exists m db' notes,
      syncDir env cfg fuel t q n db = Some (MkInode (Operations n) (Mode n) (Ino n) m, db', notes) /\
      synced q (Children n) m /\ room db0 k db'.

Lemma sync_step fuel p old es1 e es2 m db notes db0 k :
  clean_path p -> populates fuel db0 p -> syncs fuel db0 p -> files_childless p old ->
  ListDir t p = es1 ++ e :: es2 -> progress p old (still_listed p old) es1 m ->
  room db0 (weight fuel p e + k) db -> exists m' db' notes',
    sync_entry env cfg (populateDir env cfg fuel t) (syncDir env cfg fuel t) p (m, db, notes) e =
      Some (m', db', notes') /\
    progress p old (still_listed p old) (es1 ++ [e]) m' /\ room db0 k db'.
Proof.
  intros Hc Hpop Hsyn Hch Hl Hpr Hr. unfold sync_entry. pose proof (Hpr (Name e)) as Hx.
  assert (room db0 k db) as Hr0 by (apply (room_le db0 (weight fuel p e + k)); [lia|done]).
  destruct (find_entry (Name e) es1) as [e'|] eqn:Hdup.
  { assert (EntryFile e <> None) as Hfe by (apply (dup_is_file p es1 e es2 Hl); by rewrite Hdup).
    destruct Hx as (c & -> & _). destruct (EntryFile e) as [f|]; [|done]. eexists m, db, notes.
    split; [done|]. split; [apply progress_dup; [by rewrite Hdup|done]|done]. }
  pose proof (find_entry_first p es1 e es2 Hl Hdup) as Hfirst. rewrite lookup_still_listed, Hfirst in Hx. rewrite Hx.
  destruct (old !! Name e) as [n|] eqn:Hn.
  - destruct (EntryFile e) as [f|] eqn:Hfe.
    + exists m, db, notes. split; [done|]. split; [|done].
      rewrite <- (insert_id m (Name e) n) by done. apply progress_new; [done|done|].
      unfold entry_synced. rewrite Hn, Hfe. split; [done|].
      apply (Hch [Name e] n e); [done| |by rewrite Hfe]. cbn [entry_at]. by rewrite Hfirst.
    + assert (e ∈ dir_entries t p) as Hin.
      { rewrite <- (ListDir_clean p Hc), Hl. apply elem_of_app. right. by left. }
      destruct (Hsyn e n db k Hin Hfe) as (sub & db' & nt & -> & Hsy & Hr').
      * by apply (files_childless_sub p old).
      * apply (room_le db0 (weight fuel p e + k)); [|done]. unfold weight. rewrite Hfe. lia.
      * eexists _, db', _. split; [done|]. split; [|done].
        apply progress_new; [done|done|]. unfold entry_synced. by rewrite Hn, Hfe.
  - destruct (add_entry fuel p old (still_listed p old) es1 e es2 m db0 db k) as (m' & db' & Hadd & H1 & H2); try done.
    unfold populate_entry in Hadd. rewrite Hadd. by eexists m', db', _.
Qed.

Lemma syncDir_spec fuel p dir db0 db k :
  (0 < fuel)%nat -> (max_key_length t < fuel + String.length p)%nat -> clean_path p -> p <> "/" ->
  files_childless p (Children dir) ->
  room db0 (visits fuel t p + k) db -> exists m db' notes,
    syncDir env cfg fuel t p dir db = Some (MkInode (Operations dir) (Mode dir) (Ino dir) m, db', notes) /\
    synced p (Children dir) m /\ room db0 k db'.
Proof.
  revert p dir db k. induction fuel as [|fuel IH]; intros p dir db k Hf0 Hf Hc Hp Hch Hr; [lia|]. cbn [syncDir].
  assert (forall e, e ∈ dir_entries t p -> EntryFile e = None ->
    (0 < fuel)%nat /\ (max_key_length t < fuel + String.length (p +:+ "/" +:+ Name e))%nat /\
    clean_path (p +:+ "/" +:+ Name e) /\ p +:+ "/" +:+ Name e <> "/") as Hsub.
  { intros e He Hfe. destruct (subdir_path p e Hc Hp He Hfe) as (Hq & Hq1 & Hlen). split_and!; try done; lia. }
  assert (populates fuel db0 p) as Hpop.
  { intros e db1 k1 He Hfe q Hr1. destruct (Hsub e He Hfe) as (? & ? & ? & ?). by apply populate_spec. }
  assert (syncs fuel db0 p) as Hsyn.
  { intros e n db1 k1 He Hfe q Hch1 Hr1. destruct (Hsub e He Hfe) as (? & ? & ? & ?). by apply IH. }
  rewrite visits_S in Hr. fold (still_listed p (Children dir)).
  destruct (entries_fold (fun st : gmap string Inode * DB * gset notifyEntry => st.1.1) (fun st => st.1.2)
      (sync_entry env cfg (populateDir env cfg fuel t) (syncDir env cfg fuel t) p) fuel p (Children dir)
      (still_listed p (Children dir)) db0) with
    (es2 := ListDir t p) (es1 := @nil DirEntry)
    (st := (still_listed p (Children dir), db,
            set_map (pair p) (dom (Children dir) ∖ entry_names (ListDir t p)) : gset notifyEntry)) (k := k)
    as ([[m db'] notes] & Hfold & Hm & Hr'); [|done|apply progress_start|done|].
  - intros es1 e es2 [[m1 db1] nt] k1 Hl Hpr Hr1.
    destruct (sync_step fuel p (Children dir) es1 e es2 m1 db1 nt db0 k1) as (m' & db' & nt' & ? & ? & ?); try done.
    by exists (m', db', nt').
  - rewrite Hfold. eexists m, db', notes. split; [done|]. split; [|done].
    apply (progress_synced p _ (still_listed p (Children dir))); [|done]. intros x Hx. by rewrite lookup_still_listed, Hx.
Qed.

(** ** The whole mount *)

(** A category directory after a synchronisation.  One that was there stays, even
    empty; a new one needs an entry. *)
Definition category_synced (old new : gmap string Inode) (cat : string) : Prop :=
  match old !! path_Base cat with
  | Some n => exists c, new !! path_Base cat = Some c /\
      Operations c = Operations n /\ Mode c = Mode n /\ Ino c = Ino n /\ synced cat (Children n) (Children c)
  | None =>
      if decide (ListDir t cat = []) then new !! path_Base cat = None
      else exists c, new !! path_Base cat = Some c /\
        Operations c = DirNode /\ Mode c = dir_mode /\ synced cat ∅ (Children c)
  end.

Definition cat_weight (cat : string) : nat := S (visits (tree_fuel t) t cat).

Lemma category_synced_ext old old' new new' cat :
  old !! path_Base cat = old' !! path_Base cat -> new !! path_Base cat = new' !! path_Base cat ->
  category_synced old new cat -> category_synced old' new' cat.
Proof. unfold category_synced. by intros <- <-. Qed.

Lemma addCategoryDir_spec m cat db0 db k :
  clean_path cat -> cat <> "/" -> m !! path_Base cat = None -> room db0 (cat_weight cat + k) db ->
  exists m' db', addCategoryDir env cfg (tree_fuel t) t (path_Base cat) cat (m, db) = Some (m', db') /\
    category_synced m m' cat /\ (forall x, x <> path_Base cat -> m' !! x = m !! x) /\ room db0 k db'.
Proof.
  intros Hc Hp Hm Hr. unfold addCategoryDir, category_synced. rewrite Hm. case_bool_decide as Hl.
  - exists m, db. rewrite decide_True by done. split_and!; try done.
    apply (room_le db0 (cat_weight cat + k)); [lia|done].
  - unfold addSubDirNode. cbn [snd fst].
    destruct (AssignInode_room _ _ ("dir:" +:+ cat) cat db Hr) as (ino & db1 & -> & Hr1).
    destruct (populate_spec (tree_fuel t) cat db0 db1 k) as (sub & db' & -> & Hsub & Hr'); [unfold tree_fuel; lia|unfold tree_fuel; lia|done..|].
    cbn [mbind option_bind fst snd]. unfold AddChild. rewrite Hm. eexists _, db'. split; [done|].
    rewrite decide_False by done. split; [eexists; rewrite lookup_insert_eq; by split_and!|]. split; [|done].
    intros x Hx. by rewrite lookup_insert_ne.
Qed.

Lemma sync_category_spec m notes cat db0 db k :
  clean_path cat -> cat <> "/" ->
  (forall n, m !! path_Base cat = Some n -> files_childless cat (Children n)) ->
  room db0 (cat_weight cat + k) db ->
  exists m' db' notes', sync_category env cfg t (m, db, notes) cat = Some (m', db', notes') /\
    category_synced m m' cat /\ (forall x, x <> path_Base cat -> m' !! x = m !! x) /\ room db0 k db'.
Proof.
  intros Hc Hp Hch Hr. unfold sync_category. destruct (m !! path_Base cat) as [n|] eqn:Hm.
  - destruct (syncDir_spec (tree_fuel t) cat n db0 db k) as (sub & db' & nt & -> & Hsub & Hr');
      [unfold tree_fuel; lia|unfold tree_fuel; lia|done|done|by apply Hch| |].
    { apply (room_le db0 (cat_weight cat + k)); [unfold cat_weight; lia|done]. }
    eexists _, db', _. split; [done|]. unfold category_synced. rewrite Hm.
    split; [eexists; rewrite lookup_insert_eq; by split_and!|]. split; [|done].
    intros x Hx. by rewrite lookup_insert_ne.
  - destruct (addCategoryDir_spec m cat db0 db k Hc Hp Hm Hr) as (m' & db' & -> & H1 & H2 & H3).
    by eexists m', db', _.
Qed.

(** The loop over the categories, for a step that settles one of them. *)
Lemma categories_fold {St} (ch : St -> gmap string Inode) (db : St -> DB) (step : St -> string -> option St)
    (P : string -> option Inode -> Prop) db0 cats st k :
  NoDup (path_Base <$> cats) ->
  (forall cat st k, cat ∈ cats -> P cat (ch st !! path_Base cat) -> room db0 (cat_weight cat + k) (db st) ->
     exists st', step st cat = Some st' /\ category_synced (ch st) (ch st') cat /\
       (forall x, x <> path_Base cat -> ch st' !! x = ch st !! x) /\ room db0 k (db st')) ->
  (forall cat, cat ∈ cats -> P cat (ch st !! path_Base cat)) ->
  room db0 (foldr (fun cat n => cat_weight cat + n)%nat k cats) (db st) ->
  exists st', foldM step st cats = Some st' /\
    (forall cat, cat ∈ cats -> category_synced (ch st) (ch st') cat) /\
    (forall x, x ∉ path_Base <$> cats -> ch st' !! x = ch st !! x) /\ room db0 k (db st').
Proof.
  revert st. induction cats as [|cat cats IH]; intros st Hnd Hstep HP Hr.
  { exists st. split_and!; try done. by intros cat ?%not_elem_of_nil. }
  rewrite fmap_cons in Hnd. apply NoDup_cons in Hnd as [Hnin Hnd].
  destruct (Hstep cat st (foldr (fun cat n => cat_weight cat + n)%nat k cats)) as (st1 & Hs & H1 & H2 & H3);
    [by left|apply HP; by left|done|].
  assert (forall c, c ∈ cats -> path_Base c <> path_Base cat) as Hne.
  { intros c Hc Heq. apply Hnin. rewrite <- Heq. by apply list_elem_of_fmap_2. }
  destruct (IH st1) as (st2 & Hs2 & H4 & H5 & H6); [done| | |done|].
  - intros c st' k' Hc. apply Hstep. by right.
  - intros c Hc. rewrite H2 by auto. apply HP. by right.
  - exists st2. cbn [foldM]. rewrite Hs. split; [done|]. split; [|split; [|done]].
    + intros c [->|Hc]%elem_of_cons.
      * apply (category_synced_ext (ch st) (ch st) (ch st1) (ch st2)); [done| |done]. by rewrite H5.
      * apply (category_synced_ext (ch st1) (ch st) (ch st2) (ch st2)); [by rewrite H2 by auto|done|by apply H4].
    + intros x Hx. rewrite fmap_cons, not_elem_of_cons in Hx. destruct Hx as [Hx1 Hx2]. by rewrite H5, H2.
Qed.

(** The number of inodes a synchronisation may need. *)
Definition library_visits : nat := foldr (fun cat n => cat_weight cat + n)%nat O (catPaths cfg).

(** What [SyncTree] does, category by category. *)
Lemma SyncTree_spec m db :
  (forall cat n, cat ∈ catPaths cfg -> m !! path_Base cat = Some n -> files_childless cat (Children n)) ->
  ready env (Z.of_nat library_visits) db ->
  exists m' db' notes, SyncTree env cfg t (m, db) = Some (m', db', notes) /\
    (forall cat, cat ∈ catPaths cfg -> category_synced m m' cat) /\
    (forall x, x ∉ path_Base <$> catPaths cfg -> m' !! x = m !! x) /\
    same_files (tables (conn db)) (tables (conn db')).
Proof.
  intros Hch Hr. destruct (catPaths_ok cfg) as [Hnd Hcats].
  destruct (categories_fold (fun st : gmap string Inode * DB * gset notifyEntry => st.1.1) (fun st => st.1.2)
    (sync_category env cfg t) (fun cat o => forall n, o = Some n -> files_childless cat (Children n))
    db (catPaths cfg) (m, db, ∅) O Hnd) as ([[m' db'] notes] & Hs & H1 & H2 & [_ H3]).
  - intros cat [[m1 db1] nt] k Hin HP Hroom. destruct (Hcats cat Hin).
    destruct (sync_category_spec m1 nt cat db db1 k) as (m' & db' & nt' & ? & ? & ? & ?); try done.
    by exists (m', db', nt').
  - intros cat Hin n Hn. by apply (Hch cat n).
  - by split.
  - by exists m', db', notes.
Qed.

(** [C8] After a synchronisation the mount has exactly the names of the catalog.  With a
    working database, and unless a path of the mount turned from a directory into a
    file, [SyncTree] ends; below each category directory there is a node for every entry
    of the tree and no other node.  An entry without a node gets one with the operations
    (content key, permalink and size, or directory) and the mode of the catalog; an entry
    that has a node keeps it with its old operations, mode and inode number, so its
    content may be out of date.  The rest of the root, the file records and the hidden
    files stay as they are. *)
Theorem SyncTree_exact m db :
  (forall cat n, cat ∈ catPaths cfg -> m !! path_Base cat = Some n -> files_childless cat (Children n)) ->
  ready env (Z.of_nat library_visits) db ->
  exists m' db' notes, SyncTree env cfg t (m, db) = Some (m', db', notes) /\
    (forall cat, cat ∈ catPaths cfg -> category_synced m m' cat) /\
    (forall x, x ∉ path_Base <$> catPaths cfg -> m' !! x = m !! x) /\
    same_files (tables (conn db)) (tables (conn db')).
Proof. apply SyncTree_spec. Qed.

(** The first mount: every node is new. *)
Lemma OnAdd_exact db :
  ready env (Z.of_nat library_visits) db ->
  exists m' db', OnAdd env cfg t (∅, db) = Some (m', db') /\
    (forall cat, cat ∈ catPaths cfg -> category_synced ∅ m' cat) /\
    same_files (tables (conn db)) (tables (conn db')).
Proof.
  intros Hr. destruct (catPaths_ok cfg) as [Hnd Hcats].
  destruct (categories_fold fst snd (fun st p => addCategoryDir env cfg (tree_fuel t) t (path_Base p) p st)
    (fun _ o => o = None) db (catPaths cfg) (∅ : gmap string Inode, db) O Hnd) as ([m' db'] & Hs & H1 & _ & [_ H3]).
  - intros cat [m1 db1] k Hin HP Hroom. destruct (Hcats cat Hin).
    destruct (addCategoryDir_spec m1 cat db db1 k) as (m' & db' & ? & ? & ? & ?); try done. by exists (m', db').
  - intros cat _. apply lookup_empty.
  - by split.
  - by exists m', db'.
Qed.

End sync.
