(* ===== verification/FuseHide.v ===== *)
(** * What removing hidden files does to the mount

    [removeKeysFromDir], [pruneEmptyDirs], [removeContentKeys] and
    [collectFileKeys] of [internal/fusefs/fs.go], in terms of what can be seen at
    each path: files with other keys stay, and of the directories exactly the
    ones that still lead to a file. *)
From Stdlib Require Import Ascii.
From S2P Require Import Prelude GoStrings Sql StateDB Regexp Classify Tree Torbox Config FuseTree FuseTreeProps.
Open Scope Z_scope.

(** ** Induction over an inode tree *)

Fixpoint inode_size (n : Inode) : nat :=
  let '(MkInode _ _ _ ch) := n in S (map_fold (fun _ c acc => inode_size c + acc)%nat O ch).

Lemma Inode_tree_ind (P : Inode -> Prop) :
  (forall o m i ch, (forall x c, ch !! x = Some c -> P c) -> P (MkInode o m i ch)) -> forall n, P n.
Proof.
  intros Hstep. assert (forall s n, (inode_size n <= s)%nat -> P n) as H; [|by intros n; apply (H (inode_size n))].
  induction s as [|s IH]; intros [o m i ch] Hs; simpl in Hs; [lia|].
  apply Hstep. intros x c Hx. apply IH.
  rewrite (map_fold_delete_L _ _ x c) in Hs; [lia|intros; lia|done].
Qed.

(** ** What is seen at a path *)

(** What a lookup of a node tells: operations, mode and inode number. *)
Definition attrs (n : Inode) : Ops * Z * Z := (Operations n, Mode n, Ino n).

Definition node_at (ch : gmap string Inode) (ns : list string) : option (Ops * Z * Z) :=
  attrs <$> inode_at ch ns.

Definition ops_key (o : Ops) : option string :=
  match o with FileNode k _ _ => Some k | DirNode => None end.

(** The content key of the file at a path. *)
Definition file_at (ch : gmap string Inode) (ns : list string) : option string :=
  a ← node_at ch ns; ops_key a.1.1.

(** Files have no children. *)
Definition files_are_leaves (ch : gmap string Inode) : Prop :=
  forall ns n, inode_at ch ns = Some n -> Operations n <> DirNode -> Children n = ∅.

(** A node stays: a file whose key is not removed, or a directory above one. *)
Definition remains (keys : gset string) (ch : gmap string Inode) (ns : list string) (a : Ops * Z * Z) : Prop :=
  match ops_key a.1.1 with
  | Some k => k ∉ keys
  | None => exists ns' k, file_at ch (ns ++ ns') = Some k /\ k ∉ keys
  end.

(** [new] is [old] without the keys and the directories this empties. *)
Definition hidden_from (keys : gset string) (old new : gmap string Inode) : Prop :=
  forall ns a, node_at new ns = Some a <-> node_at old ns = Some a /\ remains keys old ns a.

Lemma file_at_cons ch x ns :
  ns <> [] -> file_at ch (x :: ns) = file_at (from_option Children ∅ (ch !! x)) ns.
Proof. intros Hn. unfold file_at, node_at. by rewrite inode_at_cons. Qed.

Lemma node_at_cons ch x ns :
  ns <> [] -> node_at ch (x :: ns) = node_at (from_option Children ∅ (ch !! x)) ns.
Proof. intros Hn. unfold node_at. by rewrite inode_at_cons. Qed.

Lemma file_at_empty ns : file_at ∅ ns = None.
Proof. unfold file_at, node_at. by rewrite inode_at_empty. Qed.

Lemma node_at_empty ns : node_at ∅ ns = None.
Proof. unfold node_at. by rewrite inode_at_empty. Qed.

Lemma leaves_sub ch x n :
  files_are_leaves ch -> ch !! x = Some n -> files_are_leaves (Children n).
Proof.
  intros Hl Hx ns c Hc. destruct ns as [|y ns]; [done|]. apply (Hl (x :: y :: ns)).
  rewrite inode_at_cons by done. by rewrite Hx.
Qed.

Lemma leaf_children ch x n :
  files_are_leaves ch -> ch !! x = Some n -> Operations n <> DirNode -> Children n = ∅.
Proof. intros Hl Hx. by apply (Hl [x]). Qed.

(** ** The loops over the children of a directory *)

Lemma fold_children (g : string -> Inode -> option Inode) step (ch : gmap string Inode) x :
  (forall x c (acc : gmap string Inode * gset notifyEntry),
     (step x c acc).1 = match g x c with Some c' => <[x := c']> acc.1 | None => acc.1 end) ->
  (map_fold step (∅, ∅) ch).1 !! x = ch !! x ≫= g x.
Proof.
  intros Hstep. revert x.
  apply (map_fold_weak_ind (fun acc m => forall x, acc.1 !! x = m !! x ≫= g x)).
  - intros x. by rewrite !lookup_empty.
  - intros y c m acc Hy IH x. rewrite Hstep. destruct (decide (x = y)) as [->|Hx].
    + rewrite lookup_insert_eq. simpl. destruct (g y c); [by rewrite lookup_insert_eq|]. by rewrite IH, Hy.
    + rewrite (lookup_insert_ne m) by done. destruct (g y c); [by rewrite lookup_insert_ne|done].
Qed.

Definition removed_child (keys : gset string) (at_ x : string) (ch : Inode) : option Inode :=
  match Operations ch with
  | FileNode k _ _ => if decide (k ∈ keys) then None else Some ch
  | DirNode => Some (removeKeysFromDir keys (at_ +:+ "/" +:+ x) ch).1
  end.

Lemma removeKeysFromDir_attrs keys at_ dir : attrs (removeKeysFromDir keys at_ dir).1 = attrs dir.
Proof. by destruct dir. Qed.

Lemma removeKeysFromDir_lookup keys at_ dir x :
  Children (removeKeysFromDir keys at_ dir).1 !! x = Children dir !! x ≫= removed_child keys at_ x.
Proof.
  destruct dir as [o m i ch]. cbn [removeKeysFromDir Children fst].
  apply (fold_children (removed_child keys at_)). intros y c acc. unfold removed_child.
  destruct (Operations c); [done|]. by destruct (decide _).
Qed.

Definition pruned_child (at_ x : string) (ch : Inode) : option Inode :=
  match Operations ch with
  | FileNode _ _ _ => Some ch
  | DirNode =>
      let r := (pruneEmptyDirs (at_ +:+ "/" +:+ x) ch).1 in
      if decide (Children r = ∅) then None else Some r
  end.

Lemma pruneEmptyDirs_attrs at_ dir : attrs (pruneEmptyDirs at_ dir).1 = attrs dir.
Proof. by destruct dir. Qed.

Lemma pruneEmptyDirs_lookup at_ dir x :
  Children (pruneEmptyDirs at_ dir).1 !! x = Children dir !! x ≫= pruned_child at_ x.
Proof.
  destruct dir as [o m i ch]. cbn [pruneEmptyDirs Children fst].
  apply (fold_children (pruned_child at_)). intros y c acc. unfold pruned_child.
  destruct (Operations c); [|done]. by destruct (decide _).
Qed.

(** ** Removal *)

Lemma removeKeysFromDir_spec keys at_ dir ns :
  files_are_leaves (Children dir) ->
  node_at (Children (removeKeysFromDir keys at_ dir).1) ns =
    a ← node_at (Children dir) ns;
    match ops_key a.1.1 with Some k => if decide (k ∈ keys) then None else Some a | None => Some a end.
Proof.
  revert at_ dir. induction ns as [|x ns IH]; intros at_ dir Hl; [done|].
  destruct (decide (ns = [])) as [->|Hn].
  - unfold node_at. cbn [inode_at]. rewrite removeKeysFromDir_lookup.
    destruct (Children dir !! x) as [c|]; [|done]. simpl. unfold removed_child, attrs; simpl.
    destruct (Operations c) eqn:Ho; simpl; [|destruct (decide _); [done|by simpl; rewrite Ho]].
    pose proof (removeKeysFromDir_attrs keys (at_ +:+ "/" +:+ x) c) as Ha. unfold attrs in Ha. by rewrite Ha, Ho.
  - rewrite !node_at_cons, removeKeysFromDir_lookup by done.
    destruct (Children dir !! x) as [c|] eqn:Hx; simpl; [|by rewrite node_at_empty].
    unfold removed_child. destruct (Operations c) eqn:Ho; simpl.
    + apply IH. by apply (leaves_sub (Children dir) x c).
    + assert (Children c = ∅) as He by (apply (leaf_children (Children dir) x c Hl Hx); by rewrite Ho).
      destruct (decide _); simpl; by rewrite ?He, !node_at_empty.
Qed.

(** A directory pruned to nothing had no file below it; one that is not has one. *)
Lemma pruneEmptyDirs_empty at_ dir ns :
  Children (pruneEmptyDirs at_ dir).1 = ∅ -> file_at (Children dir) ns = None.
Proof.
  revert at_ ns. induction dir as [o m i ch IH] using Inode_tree_ind. intros at_ ns He. cbn [Children].
  assert (forall x, Children (pruneEmptyDirs at_ (MkInode o m i ch)).1 !! x = None) as Hx
    by (intros x; by rewrite He, lookup_empty).
  destruct ns as [|x ns]; [done|]. specialize (Hx x). rewrite pruneEmptyDirs_lookup in Hx. cbn [Children] in Hx.
  destruct (decide (ns = [])) as [->|Hn].
  - unfold file_at, node_at. cbn [inode_at]. destruct (ch !! x) as [c|]; [|done]. simpl in *.
    unfold pruned_child in Hx. by destruct (Operations c).
  - rewrite file_at_cons by done. destruct (ch !! x) as [c|] eqn:Hc; simpl in *; [|by rewrite file_at_empty].
    unfold pruned_child in Hx. destruct (Operations c); [|done].
    destruct (decide _) as [Hd|]; [|done]. by apply (IH x c Hc (at_ +:+ "/" +:+ x)).
Qed.

Lemma pruneEmptyDirs_nonempty at_ dir :
  Children (pruneEmptyDirs at_ dir).1 <> ∅ -> exists ns k, file_at (Children dir) ns = Some k.
Proof.
  revert at_. induction dir as [o m i ch IH] using Inode_tree_ind. intros at_ Hne.
  apply map_choose in Hne as (x & c' & Hx). rewrite pruneEmptyDirs_lookup in Hx. cbn [Children] in *.
  destruct (ch !! x) as [c|] eqn:Hc; [|done]. simpl in Hx. unfold pruned_child in Hx.
  destruct (Operations c) as [|k u s] eqn:Ho.
  - destruct (decide _) as [|Hd]; [done|]. destruct (IH x c Hc (at_ +:+ "/" +:+ x) Hd) as (ns & k & Hf).
    exists (x :: ns), k. destruct (decide (ns = [])) as [->|Hn]; [done|]. rewrite file_at_cons by done. by rewrite Hc.
  - exists [x], k. unfold file_at, node_at. cbn [inode_at]. rewrite Hc. simpl. by rewrite Ho.
Qed.

Lemma file_at_node ch ns a k : node_at ch ns = Some a -> ops_key a.1.1 = Some k -> file_at ch ns = Some k.
Proof. unfold file_at. by intros ->. Qed.

Lemma remains_some_file keys ch ns a :
  node_at ch ns = Some a -> remains keys ch ns a -> exists ns' k, file_at ch ns' = Some k /\ k ∉ keys.
Proof.
  unfold remains. intros Hn. destruct (ops_key a.1.1) as [k|] eqn:Hk.
  - exists ns, k. split; [by apply (file_at_node _ _ a)|done].
  - intros (ns' & k & Hf & Hni). by exists (ns ++ ns'), k.
Qed.

Lemma remains_cons keys ch x c ns a :
  ch !! x = Some c -> ns <> [] -> remains keys ch (x :: ns) a <-> remains keys (Children c) ns a.
Proof.
  intros Hx Hn. unfold remains. destruct (ops_key a.1.1); [done|]. cbn [app].
  assert (forall ns', file_at ch (x :: ns ++ ns') = file_at (Children c) (ns ++ ns')) as E.
  { intros ns'. rewrite file_at_cons by (by destruct ns). by rewrite Hx. }
  by setoid_rewrite E.
Qed.

Lemma pruneEmptyDirs_spec at_ dir :
  files_are_leaves (Children dir) -> hidden_from ∅ (Children dir) (Children (pruneEmptyDirs at_ dir).1).
Proof.
  intros Hl ns. revert at_ dir Hl. induction ns as [|x ns IH]; intros at_ dir Hl a; [by split; [|intros [? _]]|].
  destruct (decide (ns = [])) as [->|Hn].
  - unfold node_at. cbn [inode_at]. rewrite pruneEmptyDirs_lookup.
    destruct (Children dir !! x) as [c|] eqn:Hx; [|by split; [|intros [? _]]]. simpl. unfold pruned_child.
    destruct (Operations c) as [|k u s] eqn:Ho.
    + pose proof (pruneEmptyDirs_attrs (at_ +:+ "/" +:+ x) c) as Ha.
      assert (forall ns', file_at (Children dir) ([x] ++ ns') = file_at (Children c) ns') as E.
      { intros ns'. destruct (decide (ns' = [])) as [->|Hn'].
        - unfold file_at, node_at. cbn [app inode_at]. rewrite Hx. simpl. by rewrite Ho.
        - cbn [app]. rewrite file_at_cons by done. by rewrite Hx. }
      assert (attrs c = a -> remains ∅ (Children dir) [x] a <-> exists ns' k, file_at (Children c) ns' = Some k) as Hrem.
      { intros <-. unfold remains, attrs; simpl. rewrite Ho. simpl. setoid_rewrite E. set_solver. }
      destruct (decide _) as [Hd|Hd]; simpl.
      * split; [done|]. intros [[= Heq] Hr]. apply (Hrem Heq) in Hr as (ns' & k & Hf).
        by rewrite (pruneEmptyDirs_empty _ c ns' Hd) in Hf.
      * rewrite Ha. split; [|by intros [? _]]. intros [= Heq]. split; [by rewrite Heq|].
        by apply (Hrem Heq), (pruneEmptyDirs_nonempty (at_ +:+ "/" +:+ x)).
    + simpl. split; [|by intros [? _]]. intros [= <-]. split; [done|]. unfold remains, attrs; simpl. rewrite Ho. simpl. set_solver.
  - rewrite !node_at_cons, pruneEmptyDirs_lookup by done.
    destruct (Children dir !! x) as [c|] eqn:Hx; simpl; [|rewrite node_at_empty; by split; [|intros [? _]]].
    rewrite (remains_cons ∅ _ x c) by done.
    unfold pruned_child. destruct (Operations c) eqn:Ho; simpl.
    + destruct (decide _) as [Hd|Hd]; simpl; [|apply IH; by apply (leaves_sub (Children dir) x c)].
      rewrite node_at_empty. split; [done|]. intros [Hna Hr].
      destruct (remains_some_file _ _ _ _ Hna Hr) as (ns' & k & Hf & _).
      by rewrite (pruneEmptyDirs_empty _ c ns' Hd) in Hf.
    + assert (Children c = ∅) as -> by (apply (leaf_children (Children dir) x c Hl Hx); by rewrite Ho).
      rewrite node_at_empty. by split; [|intros [? _]].
Qed.

(** ** Files stay leaves *)

Lemma inode_at_app ch ns ns' :
  ns <> [] -> ns' <> [] -> inode_at ch (ns ++ ns') = n ← inode_at ch ns; inode_at (Children n) ns'.
Proof.
  intros Hn Hn'. revert ch. induction ns as [|x ns IH]; [done|]. intros ch. cbn [app].
  rewrite inode_at_cons by (by destruct ns). destruct (decide (ns = [])) as [->|Hns].
  - cbn [app inode_at]. destruct (ch !! x); [done|]. simpl. by rewrite inode_at_empty.
  - by rewrite IH, inode_at_cons.
Qed.

Lemma leaves_nodes ch :
  files_are_leaves ch <-> forall ns k x, file_at ch ns = Some k -> node_at ch (ns ++ [x]) = None.
Proof.
  split.
  - intros Hl ns k x. unfold file_at, node_at. destruct (inode_at ch ns) as [n|] eqn:Hn; [|done]. simpl.
    intros Hk. assert (ns <> []) by (by destruct ns). rewrite inode_at_app, Hn by done. simpl.
    rewrite (Hl ns n Hn), lookup_empty; [done|]. by destruct (Operations n).
  - intros Hl ns n Hn Ho. apply map_empty. intros x. assert (ns <> []) as Hns by (by destruct ns).
    destruct (Operations n) as [|k u s] eqn:Hop; [done|]. specialize (Hl ns k x).
    unfold file_at, node_at in Hl. rewrite inode_at_app, Hn in Hl by done. simpl in Hl. rewrite Hop in Hl.
    specialize (Hl eq_refl). by destruct (Children n !! x).
Qed.

Lemma removeKeysFromDir_leaves keys at_ dir :
  files_are_leaves (Children dir) -> files_are_leaves (Children (removeKeysFromDir keys at_ dir).1).
Proof.
  intros Hl. apply leaves_nodes. intros ns k x. unfold file_at. rewrite !removeKeysFromDir_spec by done.
  pose proof (proj1 (leaves_nodes _) Hl ns) as Hn. unfold file_at in Hn.
  destruct (node_at (Children dir) ns) as [a|]; [|done]. simpl in *.
  destruct (ops_key a.1.1) as [k'|] eqn:Hk; simpl; [|by rewrite Hk].
  intros _. by rewrite (Hn k' x eq_refl).
Qed.

Lemma removed_file_at keys at_ dir ns k :
  files_are_leaves (Children dir) ->
  file_at (Children (removeKeysFromDir keys at_ dir).1) ns = Some k <-> file_at (Children dir) ns = Some k /\ k ∉ keys.
Proof.
  intros Hl. unfold file_at. rewrite removeKeysFromDir_spec by done.
  destruct (node_at (Children dir) ns) as [a|]; simpl; [|naive_solver].
  destruct (ops_key a.1.1) as [k'|] eqn:Hk; simpl; [|naive_solver].
  destruct (decide (k' ∈ keys)); simpl; naive_solver.
Qed.

(** Removing and pruning one directory. *)
Lemma hide_dir keys at1 at2 dir :
  files_are_leaves (Children dir) ->
  hidden_from keys (Children dir) (Children (pruneEmptyDirs at2 (removeKeysFromDir keys at1 dir).1).1).
Proof.
  intros Hl ns a. rewrite (pruneEmptyDirs_spec at2 _ (removeKeysFromDir_leaves keys at1 dir Hl) ns a).
  rewrite removeKeysFromDir_spec by done. unfold remains.
  destruct (node_at (Children dir) ns) as [a'|]; simpl; [|by split; intros [? _]].
  destruct (ops_key a'.1.1) as [k|] eqn:Hk; simpl.
  - destruct (decide (k ∈ keys)); split; intros [[= <-] Hr]; rewrite ?Hk in *; split_and!; set_solver.
  - assert ((exists ns' k, file_at (Children (removeKeysFromDir keys at1 dir).1) (ns ++ ns') = Some k /\ k ∉ (∅ : gset string)) <->
            (exists ns' k, file_at (Children dir) (ns ++ ns') = Some k /\ k ∉ keys)) as E.
    { setoid_rewrite removed_file_at; [|done]. set_solver. }
    split; intros [[= <-] Hr]; rewrite Hk in *; (split; [done|]); tauto.
Qed.

(** ** The categories *)

Lemma over_categories_lookup (cats : list string) f st x :
  NoDup (path_Base <$> cats) ->
  (foldl (fun st catPath =>
           let name := path_Base catPath in
           match st.1 !! name with
           | None => st
           | Some child => let r := f catPath child in (<[name := r.1]> st.1, r.2 ∪ st.2)
           end) st cats : gmap string Inode * gset notifyEntry).1 !! x =
  match List.find (fun c => bool_decide (path_Base c = x)) cats with
  | Some c => (fun n => (f c n).1) <$> st.1 !! x
  | None => st.1 !! x
  end.
Proof.
  revert st. induction cats as [|c cats IH]; intros st Hnd; [done|]. rewrite fmap_cons in Hnd.
  apply NoDup_cons in Hnd as [Hc Hnd]. cbn [foldl List.find]. rewrite IH by done. cbv zeta.
  destruct (bool_decide (path_Base c = x)) eqn:Hx; [apply bool_decide_eq_true in Hx|apply bool_decide_eq_false in Hx].
  - subst x. assert (List.find (fun c0 => bool_decide (path_Base c0 = path_Base c)) cats = None) as ->.
    { destruct (List.find _ cats) as [c0|] eqn:Hf; [|done]. apply List.find_some in Hf as [Hin Hb].
      apply bool_decide_eq_true in Hb. destruct Hc. rewrite <- Hb. apply list_elem_of_fmap_2. by apply list_elem_of_In. }
    destruct (st.1 !! path_Base c) as [n|] eqn:Hn; simpl; [by rewrite lookup_insert_eq|done].
  - destruct (st.1 !! path_Base c) as [n|] eqn:Hn; [|done]. cbn [fst]. by rewrite lookup_insert_ne.
Qed.

(** The children of a category of the root. *)
Definition category (root : gmap string Inode) (cat : string) : gmap string Inode :=
  from_option Children ∅ (root !! path_Base cat).

(** Every mounted category shows what it showed, without the keys and without the
    directories this empties; the rest of the root is the same. *)
Record keys_hidden (cfg : Config) (keys : gset string) (old new : gmap string Inode) : Prop := {
  kh_below : forall cat, cat ∈ catPaths cfg -> hidden_from keys (category old cat) (category new cat);
  kh_root : forall x, attrs <$> new !! x = attrs <$> old !! x;
  kh_other : forall x, x ∉ path_Base <$> catPaths cfg -> new !! x = old !! x
}.

Lemma removeContentKeys_spec cfg keys root :
  (forall cat, cat ∈ catPaths cfg -> files_are_leaves (category root cat)) ->
  keys_hidden cfg keys root (removeContentKeys cfg keys root).1.
Proof.
  intros Hl. destruct (catPaths_ok cfg) as [Hnd _].
  assert (forall x, (removeContentKeys cfg keys root).1 !! x =
    match List.find (fun c => bool_decide (path_Base c = x)) (catPaths cfg) with
    | Some c => (fun n => (pruneEmptyDirs c (removeKeysFromDir keys c n).1).1) <$> root !! x
    | None => root !! x
    end) as Hx.
  { intros x. unfold removeContentKeys, over_categories. rewrite !over_categories_lookup by done.
    cbn [fst]. destruct (List.find _ _); [|done]. by destruct (root !! x). }
  split.
  - intros cat Hin. unfold category. rewrite Hx.
    destruct (List.find (fun c => bool_decide (path_Base c = path_Base cat)) (catPaths cfg)) as [c|] eqn:Hf.
    + apply List.find_some in Hf as [Hc Hb]. apply bool_decide_eq_true in Hb.
      specialize (Hl cat Hin). unfold category in Hl. destruct (root !! path_Base cat) as [n|]; simpl in *; [by apply hide_dir|].
      intros ns a. rewrite node_at_empty. by split; [|intros [? _]].
    + exfalso. eapply List.find_none in Hf; [|by apply list_elem_of_In]. simpl in Hf. by apply bool_decide_eq_false in Hf.
  - intros x. rewrite Hx. destruct (List.find _ _); [|done]. destruct (root !! x) as [n|]; [|done]. simpl.
    by rewrite pruneEmptyDirs_attrs, removeKeysFromDir_attrs.
  - intros x Hnin. rewrite Hx. destruct (List.find _ (catPaths cfg)) as [c|] eqn:Hf; [|done].
    apply List.find_some in Hf as [Hc Hb]. apply bool_decide_eq_true in Hb. destruct Hnin.
    rewrite <- Hb. apply list_elem_of_fmap_2. by apply list_elem_of_In.
Qed.

(** ** Collecting keys *)

Lemma collectFileKeys_children n k :
  k ∈ collectFileKeys n <-> exists x c, Children n !! x = Some c /\
    match Operations c with DirNode => k ∈ collectFileKeys c | FileNode fk _ _ => k = fk end.
Proof.
  destruct n as [o m i ch]. cbn [collectFileKeys Children].
  apply (map_fold_weak_ind (fun acc m => k ∈ acc <-> exists x c, m !! x = Some c /\
      match Operations c with DirNode => k ∈ collectFileKeys c | FileNode fk _ _ => k = fk end)).
  - split; [set_solver|]. intros (x & c & Hx & _). by rewrite lookup_empty in Hx.
  - intros x c mp acc Hx IHm.
    assert (k ∈ match Operations c with DirNode => collectFileKeys c ∪ acc | FileNode fk _ _ => {[fk]} ∪ acc end <->
      match Operations c with DirNode => k ∈ collectFileKeys c | FileNode fk _ _ => k = fk end \/ k ∈ acc) as ->
      by (destruct (Operations c); set_solver).
    rewrite IHm. split.
    + intros [H|(y & c' & Hy & H)]; [exists x, c; by rewrite lookup_insert_eq|].
      exists y, c'. rewrite lookup_insert_ne by congruence. done.
    + intros (y & c' & Hy & H). destruct (decide (y = x)) as [->|Hne].
      * rewrite lookup_insert_eq in Hy. injection Hy as <-. by left.
      * rewrite lookup_insert_ne in Hy by done. right. by exists y, c'.
Qed.

Lemma elem_of_collectFileKeys n k :
  files_are_leaves (Children n) ->
  k ∈ collectFileKeys n <-> exists ns, file_at (Children n) ns = Some k.
Proof.
  induction n as [o m i ch IH] using Inode_tree_ind. rewrite collectFileKeys_children. cbn [Children]. intros Hl. split.
  - intros (x & c & Hx & Hc). destruct (Operations c) as [|fk u s] eqn:Ho.
    + apply (IH x c Hx (leaves_sub ch x c Hl Hx)) in Hc as (ns & Hf). exists (x :: ns). destruct (decide (ns = [])) as [->|Hn]; [done|].
      rewrite file_at_cons by done. by rewrite Hx.
    + subst. exists [x]. unfold file_at, node_at. cbn [inode_at]. rewrite Hx. simpl. by rewrite Ho.
  - intros (ns & Hf). destruct ns as [|x ns]; [done|].
    destruct (decide (ns = [])) as [->|Hn].
    + unfold file_at, node_at in Hf. cbn [inode_at] in Hf. destruct (ch !! x) as [c|] eqn:Hx; [|done]. simpl in Hf.
      exists x, c. split; [done|]. destruct (Operations c); [done|]. by injection Hf as ->.
    + rewrite file_at_cons in Hf by done. destruct (ch !! x) as [c|] eqn:Hx; simpl in Hf; [|by rewrite file_at_empty in Hf].
      exists x, c. split; [done|]. destruct (Operations c) as [|fk u s] eqn:Ho; [apply (IH x c Hx (leaves_sub ch x c Hl Hx)); by exists ns|].
      rewrite (leaf_children ch x c Hl Hx), file_at_empty in Hf; [done|by rewrite Ho].
Qed.

(** ** Files of a synchronised mount are leaves *)

Lemma entry_at_below t p ns x e :
  entry_at t p ns = Some e -> EntryFile e <> None -> entry_at t p (ns ++ [x]) = None.
Proof.
  revert p. induction ns as [|y ns IH]; intros p He Hf; [done|]. cbn [app].
  rewrite entry_at_cons by (by destruct ns). destruct (decide (ns = [])) as [->|Hn].
  - cbn [entry_at] in He. destruct (find_entry y (ListDir t p)) as [e'|]; [|done]. simpl in *. injection He as ->.
    by destruct (EntryFile e).
  - rewrite entry_at_cons in He by done. destruct (find_entry y (ListDir t p)) as [e'|]; [|done]. simpl in *.
    destruct (EntryFile e'); [done|]. by apply IH.
Qed.

(** What the mount and the catalog both have is a file or a directory in both. *)
Definition kinds_agree (t : Tree) (p : string) (old : gmap string Inode) : Prop :=
  forall ns n e, inode_at old ns = Some n -> entry_at t p ns = Some e -> Operations n = DirNode <-> EntryFile e = None.

Lemma kinds_agree_childless t p old :
  files_are_leaves old -> kinds_agree t p old -> files_childless t p old.
Proof. intros Hl Hk ns n e Hn He Hf. apply (Hl ns n Hn). rewrite (Hk ns n e Hn He). done. Qed.

Lemma synced_leaves cfg t p old new :
  kinds_agree t p old -> synced cfg t p old new -> files_are_leaves new.
Proof.
  intros Hk Hs. apply leaves_nodes. intros ns k x Hf. unfold node_at.
  destruct (decide (ns = [])) as [->|Hn]; [done|].
  assert (exists e, entry_at t p ns = Some e /\ EntryFile e <> None) as (e & He & Hfe).
  { specialize (Hs ns Hn). unfold file_at, node_at in Hf. destruct (entry_at t p ns) as [e|] eqn:He; [|by rewrite Hs in Hf].
    destruct Hs as (c & Hc & Hnode). rewrite Hc in Hf. simpl in Hf. exists e. split; [done|]. intros Hfe.
    assert (Operations c = DirNode) as Ho; [|by rewrite Ho in Hf].
    destruct (inode_at old ns) as [n|] eqn:Hold; simpl in Hnode.
    - destruct Hnode as (-> & _). by apply (Hk ns n e).
    - destruct Hnode as (-> & _). unfold node_ops. by rewrite Hfe. }
  specialize (Hs (ns ++ [x])). rewrite (entry_at_below _ _ _ _ e) in Hs by done. rewrite Hs; [done|]. by destruct ns.
Qed.

Lemma category_leaves cfg t old new cat :
  kinds_agree t cat (category old cat) -> category_synced cfg t old new cat -> files_are_leaves (category new cat).
Proof.
  unfold category_synced, category. intros Hk Hs. destruct (old !! path_Base cat) as [n|]; simpl in Hk.
  - destruct Hs as (c & -> & _ & _ & _ & Hs). by apply (synced_leaves cfg t cat (Children n)).
  - destruct (decide _).
    + rewrite Hs. simpl. intros ns c Hc. by rewrite inode_at_empty in Hc.
    + destruct Hs as (c & -> & _ & _ & Hs). by apply (synced_leaves cfg t cat ∅).
Qed.

Lemma kinds_agree_empty t p : kinds_agree t p ∅.
Proof. intros ns n e Hn. by rewrite inode_at_empty in Hn. Qed.
