(* ===== verification/FuseOps.v ===== *)
(** * The operations of root and directory nodes

    The handlers of [RootNode] and [DirNode] in [internal/fusefs/fs.go].  All of
    them answer with an errno; only [Unlink] and [Rmdir] change anything, and
    only in a writable mount.  A directory is named by the path at which it is
    mounted.  The goroutine that sends the pending notifications only adds to the
    set of the kernel's notifications. *)
From Stdlib Require Import Ascii.
From S2P Require Import Prelude GoStrings Sql StateDB Regexp Classify Tree TreeProps TreeDB TreeView Catalog CatalogProps Torbox Config FuseTree FuseTreeProps FuseHide.
Open Scope Z_scope.

(** ** Errno values of Linux *)

Definition ENOENT : Z := 2.
Definition EIO : Z := 5.
Definition EACCES : Z := 13.
Definition ENOTDIR : Z := 20.
Definition EISDIR : Z := 21.
Definition EROFS : Z := 30.
Definition errNoAttr : Z := 61.

(** ** The state behind the handlers *)

Record Mount := MkMount {
  mt_root : gmap string Inode;
  mt_db : DB;
  mt_notified : gset notifyEntry
}.

Definition GetChild (dir : list string) (name : string) (m : Mount) : option Inode :=
  inode_at (mt_root m) (dir ++ [name]).

(** [RmChild(name)] on the directory at a path. *)
Fixpoint RmChild (dir : list string) (name : string) (ch : gmap string Inode) : gmap string Inode :=
  match dir with
  | [] => delete name ch
  | x :: dir' =>
      match ch !! x with
      | None => ch
      | Some (MkInode o mode ino sub) => <[x := MkInode o mode ino (RmChild dir' name sub)]> ch
      end
  end.

(** ** Attributes *)

Record Attr := MkAttr {
  at_Mode : Z; at_Size : Z; at_Uid : Z; at_Gid : Z; at_Nlink : Z; at_Blksize : Z; at_Blocks : Z
}.

Definition dir_Getattr (cfg : Config) : Attr := MkAttr dir_mode 0 (UID cfg) (GID cfg) 2 0 0.

Definition file_Getattr (cfg : Config) (size : Z) : Attr :=
  MkAttr file_mode size (UID cfg) (GID cfg) 1 4096 (uint64 (size + 511) / 512).

Record StatfsOut := MkStatfs {
  Bsize : Z; Blocks : Z; Bfree : Z; Bavail : Z; Files : Z; Ffree : Z; NameLen : Z
}.

Definition Statfs : StatfsOut := MkStatfs 4096 (Z.shiftl 1 20) 0 0 (Z.shiftl 1 16) 0 255.

(** The attribute is missing, and the list of attributes empty. *)
Definition Getxattr : Z * Z := (0, errNoAttr).
Definition Listxattr : Z * Z := (0, 0).

(** ** Refused operations *)

Definition Mkdir (name : string) : Z := EROFS.
Definition Rename (name newName : string) : Z := EROFS.
Definition Create (name : string) : Z := EROFS.
Definition Symlink (target name : string) : Z := EROFS.
Definition Link (name : string) : Z := EROFS.
Definition Setattr : Z := EROFS.

Section ops.
Context `{MI : MapIter} (env : SqlEnv) (cfg : Config).

(** ** Unlink *)

Definition Unlink (dir : list string) (name : string) (m : Mount) : Z * Mount :=
  if negb (Writable cfg) then (EROFS, m)
  else
    match GetChild dir name m with
    | None => (ENOENT, m)
    | Some child =>
        match Operations child with
        | DirNode => (EISDIR, m)
        | FileNode contentKey _ _ =>
            match HideFile env contentKey (mt_db m) with
            | (Err _, db) => (EIO, MkMount (mt_root m) db (mt_notified m))
            | (Ok _, db) =>
                let '(root, pending) := removeContentKeys cfg {[contentKey]} (mt_root m) in
                let '(kind, downloadID, _) := parseContentKey contentKey in
                let '(_, db') := IsDownloadFullyHidden env kind downloadID db in
                (0, MkMount root db' (pending ∪ mt_notified m))
            end
        end
    end.

(** ** Rmdir *)

(** The keys in the order [range contentKeys] visits them the [i]-th time. *)
Definition range_keys (i : nat) (contentKeys : gset string) : list string :=
  (map_range i (gset_to_gmap tt contentKeys)).*1.

(** A key that cannot be hidden is skipped. *)
Definition hide_keys (contentKeys : gset string) (db : DB) : DB :=
  foldl (fun db key => (HideFile env key db).2) db (range_keys 0 contentKeys).

(** One look per download; its result is only logged. *)
Definition check_download (st : gset string * DB) (key : string) : gset string * DB :=
  let '(downloadChecked, db) := st in
  let '(kind, downloadID, _) := parseContentKey key in
  let dlKey := kind +:+ ":" +:+ downloadID in
  if decide (dlKey ∈ downloadChecked) then st
  else ({[dlKey]} ∪ downloadChecked, (IsDownloadFullyHidden env kind downloadID db).2).

(** [None] is the panic of the type assertion on a node that is no [DirNode]. *)
Definition Rmdir (dir : list string) (name : string) (m : Mount) : option (Z * Mount) :=
  if negb (Writable cfg) then Some (EROFS, m)
  else
    match GetChild dir name m with
    | None => Some (ENOENT, m)
    | Some child =>
        match Operations child with
        | FileNode _ _ _ => None
        | DirNode =>
            let contentKeys := collectFileKeys child in
            if bool_decide (contentKeys = ∅) then
              Some (0, MkMount (RmChild dir name (mt_root m)) (mt_db m)
                               ({[(render dir, name)]} ∪ mt_notified m))
            else
              let db := hide_keys contentKeys (mt_db m) in
              let '(root, pending) := removeContentKeys cfg contentKeys (mt_root m) in
              let '(_, db') := foldl check_download (∅, db) (range_keys 1 contentKeys) in
              Some (0, MkMount root db' (pending ∪ mt_notified m))
        end
    end.

(** ** Lemmas on the database calls *)

Lemma HideFile_cases key db :
  let '(r, db') := HideFile env key db in
  match r with
  | Ok _ => dom (hidden_files (tables (conn db'))) = {[key]} ∪ dom (hidden_files (tables (conn db))) /\
            files (tables (conn db')) = files (tables (conn db)) /\
            inodes (tables (conn db')) = inodes (tables (conn db)) /\
            current_keys (tables (conn db')) = current_keys (tables (conn db))
  | Err _ => tables (conn db') = tables (conn db) /\ ~ no_faults env
  end.
Proof.
  unfold HideFile.
  destruct (send_cases env "hide file" [key] (insert_hidden key) db) as [(e & -> & [He|He])|([] & t & -> & Hs)].
  - split; [done|]. intros Hnf. by rewrite Hnf in He.
  - unfold insert_hidden in He. by destruct (hidden_files _ !! key).
  - unfold insert_hidden in Hs. destruct (hidden_files (tables (conn db)) !! key) eqn:Hk; simplify_eq/=.
    + split_and!; try done. assert (key ∈ dom (hidden_files (tables (conn db)))) by (apply elem_of_dom; eauto). set_solver.
    + split_and!; try done. by rewrite dom_insert_L.
Qed.

Lemma IsDownloadFullyHidden_frame kind id db :
  tables (conn (IsDownloadFullyHidden env kind id db).2) = tables (conn db).
Proof.
  unfold IsDownloadFullyHidden, bindM.
  destruct (send_cases env "count hidden for" [kind; id] (count_hidden_like (download_prefix kind id +:+ "%")) db)
    as [(e & -> & _)|(n & t & -> & Hs)]; [done|]. unfold count_hidden_like in Hs. simplify_eq/=.
  match goal with |- context [send env ?w ?a ?f ?d] =>
    destruct (send_cases env w a f d) as [(e & -> & _)|(n' & t & -> & Hs')] end; [done|].
  unfold count_files_of in Hs'. by simplify_eq/=.
Qed.

Lemma send_next {A} what args (f : Stmt Tables A) db : nextInode (send env what args f db).2 = nextInode db.
Proof. unfold send. by destruct (exec env f (conn db)) as [[a|e] c]. Qed.

Lemma IsDownloadFullyHidden_next kind id db : nextInode (IsDownloadFullyHidden env kind id db).2 = nextInode db.
Proof.
  unfold IsDownloadFullyHidden, bindM.
  match goal with |- context [send env ?w ?a ?f db] =>
    pose proof (send_next w a f db) as Hn; destruct (send env w a f db) as [[n|e] db1] end; [|done].
  match goal with |- context [send env ?w ?a ?f db1] =>
    pose proof (send_next w a f db1) as Hn'; destruct (send env w a f db1) as [[n'|e] db2] end; cbn [snd] in *; by rewrite <- Hn, <- Hn'.
Qed.

(** A file of a writable mount is unlinked when the database works. *)
Lemma Unlink_file dir name m k :
  no_faults env -> Writable cfg = true -> file_at (mt_root m) (dir ++ [name]) = Some k ->
  exists m', Unlink dir name m = (0, m') /\ mt_root m' = (removeContentKeys cfg {[k]} (mt_root m)).1 /\
    dom (hidden_files (tables (conn (mt_db m')))) = {[k]} ∪ dom (hidden_files (tables (conn (mt_db m)))) /\
    inodes (tables (conn (mt_db m'))) = inodes (tables (conn (mt_db m))) /\ nextInode (mt_db m') = nextInode (mt_db m).
Proof.
  intros Hnf Hw Hfile. unfold Unlink, GetChild. rewrite Hw. cbn [negb].
  unfold file_at, node_at in Hfile. destruct (inode_at (mt_root m) (dir ++ [name])) as [n|]; [|done]. simpl in Hfile.
  destruct (Operations n) as [|k' u sz]; [done|]. injection Hfile as ->.
  pose proof (HideFile_cases k (mt_db m)) as Hk. unfold HideFile in *.
  pose proof (send_next "hide file" [k] (insert_hidden k) (mt_db m)) as Hn.
  destruct (send env "hide file" [k] (insert_hidden k) (mt_db m)) as [[[]|e] db]; [|by destruct Hk].
  destruct (removeContentKeys cfg {[k]} (mt_root m)) as [root pending]. destruct (parseContentKey k) as [[kind id] fid].
  pose proof (IsDownloadFullyHidden_frame kind id db) as Hfr. pose proof (IsDownloadFullyHidden_next kind id db) as Hn'.
  destruct (IsDownloadFullyHidden env kind id db) as [r db']. destruct Hk as (Hd & _ & Hi & _). cbn [snd] in *.
  eexists. split; [done|]. cbn [mt_root mt_db]. rewrite Hfr. split_and!; [done|done|done|congruence].
Qed.

Lemma check_downloads_frame keys st :
  tables (conn (foldl check_download st keys).2) = tables (conn st.2).
Proof.
  revert st. induction keys as [|k keys IH]; intros [seen db]; [done|]. cbn [foldl]. rewrite IH. unfold check_download.
  destruct (parseContentKey k) as [[kind id] fid]. destruct (decide _); [done|]. apply IsDownloadFullyHidden_frame.
Qed.

Lemma elem_of_range_keys i contentKeys k : k ∈ range_keys i contentKeys <-> k ∈ contentKeys.
Proof.
  unfold range_keys. rewrite list_elem_of_fmap. split.
  - intros ([k' u] & -> & Hin). apply elem_of_map_range in Hin. apply lookup_gset_to_gmap_Some in Hin. tauto.
  - intros Hk. exists (k, tt). split; [done|]. apply elem_of_map_range. by apply lookup_gset_to_gmap_Some.
Qed.

(** Hiding keys one by one: nothing but hidden files of those keys is added. *)
Lemma hide_list_spec keys db :
  let db' := foldl (fun db key => (HideFile env key db).2) db keys in
  files (tables (conn db')) = files (tables (conn db)) /\
  dom (hidden_files (tables (conn db))) ⊆ dom (hidden_files (tables (conn db'))) ⊆
    list_to_set keys ∪ dom (hidden_files (tables (conn db))) /\
  (no_faults env -> list_to_set keys ⊆ dom (hidden_files (tables (conn db')))).
Proof.
  revert db. induction keys as [|k keys IH]; intros db; [simpl; split_and!; set_solver|]. cbn [foldl list_to_set foldr].
  pose proof (HideFile_cases k db) as Hk. destruct (HideFile env k db) as [[u|e] db1]; cbn [snd].
  - destruct Hk as (Hd & Hf & _). destruct (IH db1) as (H1 & [H2 H3] & H4). cbv zeta in *. rewrite Hd in *.
    split_and!; [congruence|set_solver|set_solver|]. intros Hnf. specialize (H4 Hnf). set_solver.
  - destruct Hk as [Ht Hnf]. destruct (IH db1) as (H1 & [H2 H3] & H4). cbv zeta in *. rewrite Ht in *.
    split_and!; [congruence|set_solver|set_solver|]. intros. done.
Qed.

(** ** Properties *)

(** A mount whose files have no children below its categories. *)
Definition mount_ok (root : gmap string Inode) : Prop :=
  forall cat, cat ∈ catPaths cfg -> files_are_leaves (category root cat).

(** [C11] Unlinking hides a file everywhere or changes nothing.  A successful [Unlink]
    (only in a writable mount) records exactly this content key as hidden and
    removes the file from every mounted category, with the directories this empties,
    and nothing else; every error (read-only mount, no such name, a directory, a
    database that fails) leaves the mount and the tables as they were. *)
Theorem Unlink_exact dir name m :
  mount_ok (mt_root m) ->
  let '(errno, m') := Unlink dir name m in
  if bool_decide (errno = 0) then
    Writable cfg = true /\ exists k, file_at (mt_root m) (dir ++ [name]) = Some k /\
    keys_hidden cfg {[k]} (mt_root m) (mt_root m') /\
    dom (hidden_files (tables (conn (mt_db m')))) = {[k]} ∪ dom (hidden_files (tables (conn (mt_db m)))) /\
    files (tables (conn (mt_db m'))) = files (tables (conn (mt_db m)))
  else
    mt_root m' = mt_root m /\ tables (conn (mt_db m')) = tables (conn (mt_db m)) /\
    errno = (if negb (Writable cfg) then EROFS
             else match GetChild dir name m with
                  | None => ENOENT
                  | Some n => if Operations n is DirNode then EISDIR else EIO
                  end) /\
    (errno = EIO -> ~ no_faults env).
Proof.
  intros Hok. unfold Unlink. destruct (Writable cfg); [|by simpl]. simpl negb. cbv iota.
  destruct (GetChild dir name m) as [n|] eqn:Hn; [|by simpl].
  destruct (Operations n) as [|k u sz] eqn:Ho; [by simpl|].
  pose proof (HideFile_cases k (mt_db m)) as Hk. destruct (HideFile env k (mt_db m)) as [[[]|e] db].
  - pose proof (removeContentKeys_spec cfg {[k]} (mt_root m) Hok) as Hrem.
    destruct (removeContentKeys cfg {[k]} (mt_root m)) as [root pending].
    destruct (parseContentKey k) as [[kind id] fid].
    pose proof (IsDownloadFullyHidden_frame kind id db) as Hfr.
    destruct (IsDownloadFullyHidden env kind id db) as [r db']. cbn [snd] in Hfr. rewrite bool_decide_true by done.
    cbn [mt_root mt_db]. rewrite Hfr. destruct Hk as (Hd & Hf & _). split; [done|]. exists k. split_and!; try done.
    unfold GetChild in Hn. unfold file_at, node_at. rewrite Hn. simpl. by rewrite Ho.
  - destruct Hk as [Ht Hnf]. rewrite bool_decide_false by done. cbn [mt_root mt_db]. by split_and!.
Qed.

(** [C12] Removing a directory hides every file below it.  In a writable mount, [Rmdir]
    of a directory succeeds; no file with a key that was below it is visible in any
    category afterwards, all other files are, and so are exactly the directories
    that still lead to a file; the keys are recorded as hidden unless the database
    fails.  A directory without files just goes.  Otherwise nothing changes. *)
Theorem Rmdir_exact dir name m n :
  mount_ok (mt_root m) -> GetChild dir name m = Some n -> Operations n = DirNode -> files_are_leaves (Children n) ->
  exists errno m', Rmdir dir name m = Some (errno, m') /\
  files (tables (conn (mt_db m'))) = files (tables (conn (mt_db m))) /\
  if Writable cfg then
    errno = 0 /\ exists keys, (forall k, k ∈ keys <-> exists ns, file_at (Children n) ns = Some k) /\
    dom (hidden_files (tables (conn (mt_db m')))) ⊆ keys ∪ dom (hidden_files (tables (conn (mt_db m)))) /\
    (no_faults env ->
      dom (hidden_files (tables (conn (mt_db m')))) = keys ∪ dom (hidden_files (tables (conn (mt_db m))))) /\
    (if bool_decide (keys = ∅) then mt_root m' = RmChild dir name (mt_root m)
     else keys_hidden cfg keys (mt_root m) (mt_root m'))
  else errno = EROFS /\ m' = m.
Proof.
  intros Hok Hn Ho Hl. unfold Rmdir. destruct (Writable cfg); [|by eexists _, _]. simpl negb. cbv iota.
  rewrite Hn, Ho. set (keys := collectFileKeys n).
  assert (forall k, k ∈ keys <-> exists ns, file_at (Children n) ns = Some k) as Hkeys
    by (intros k; by apply elem_of_collectFileKeys).
  case_bool_decide as He.
  - eexists _, _. split; [done|]. split; [done|]. split; [done|]. exists keys. cbn [mt_db mt_root].
    split_and!; [done|set_solver|intros _; set_solver|by rewrite bool_decide_true].
  - pose proof (removeContentKeys_spec cfg keys (mt_root m) Hok) as Hrem.
    destruct (removeContentKeys cfg keys (mt_root m)) as [root pending].
    pose proof (check_downloads_frame (range_keys 1 keys) (∅, hide_keys keys (mt_db m))) as Hfr.
    destruct (foldl check_download _ _) as [seen db']. cbn [snd] in Hfr.
    destruct (hide_list_spec (range_keys 0 keys) (mt_db m)) as (H1 & [H2 H3] & H4). fold (hide_keys keys (mt_db m)) in *.
    assert (list_to_set (range_keys 0 keys) = keys) as Hset.
    { apply set_eq. intros k. by rewrite elem_of_list_to_set, elem_of_range_keys. }
    rewrite Hset in *. eexists _, _. split; [done|]. cbn [mt_db mt_root]. rewrite Hfr. split; [done|]. split; [done|].
    exists keys. rewrite bool_decide_false by done. split_and!; [done|done| |done].
    intros Hnf. specialize (H4 Hnf). apply set_eq. intros k. set_solver.
Qed.

End ops.

(** ** A small mount *)

Module Demo.

Definition demo_tree : Tree := default ∅ (@BuildTree default_iter default_sort demo_downloads true).

Lemma tree_is_ok : tree_ok demo_tree.
Proof.
  destruct (@BuildTree_ok default_iter default_sort demo_downloads true) as (t & Ht & _ & Hok & _).
  unfold demo_tree. by rewrite Ht.
Qed.

Lemma unique : dirs_unique demo_tree.
Proof. apply (bool_decide_unpack _). vm_compute. exact I. Qed.

Definition store : DB := MkDB (MkConn (MkTables ∅ ∅ ∅ None) 0) 1.

Lemma store_ready : ready calm (Z.of_nat (library_visits demo_config demo_tree)) store.
Proof.
  assert (forall k (r : InodeRow), (∅ : gmap string InodeRow) !! k = Some r -> False) as He
    by (intros k r Hk; by rewrite lookup_empty in Hk).
  split; [by intros n|]. split; [|split; [lia|vm_compute; reflexivity]].
  split; [split|split; [|done]]; simpl; intros; exfalso; eauto.
Qed.

(** The film of the demo library, mounted. *)
Definition film_ops : Ops :=
  FileNode "torrent:1:1" "https://api.torbox.app/v1/api/torrents/requestdl?token=secret&torrent_id=1&file_id=1&redirect=true" 100.

Lemma film_entry :
  node_ops demo_config <$> entry_at demo_tree "/movies" ["The Matrix"; "film.mkv"] = Some film_ops.
Proof. vm_compute. reflexivity. Qed.

Lemma movies_listed : ListDir demo_tree "/movies" <> [].
Proof. vm_compute. discriminate. Qed.

Lemma base_movies : path_Base "/movies" = "movies".
Proof. vm_compute. reflexivity. Qed.

Lemma cover_absent : entry_at demo_tree "/movies" ["The Matrix"; "cover.jpg"] = None.
Proof. vm_compute. reflexivity. Qed.

Lemma dir_entry : node_ops demo_config <$> entry_at demo_tree "/movies" ["The Matrix"] = Some DirNode.
Proof. vm_compute. reflexivity. Qed.

End Demo.

Lemma SyncTree_exact_witness :
  exists m' db' notes, SyncTree calm demo_config Demo.demo_tree (∅, Demo.store) = Some (m', db', notes) /\
    (exists c, inode_at (category m' "/movies") ["The Matrix"; "film.mkv"] = Some c /\ Operations c = Demo.film_ops) /\
    inode_at (category m' "/movies") ["The Matrix"; "cover.jpg"] = None.
Proof.
  destruct (SyncTree_exact calm demo_config Demo.demo_tree (tree_ok_walkable _ Demo.tree_is_ok) Demo.unique ∅ Demo.store)
    as (m' & db' & notes & Hs & Hcat & _); [intros cat n _ Hn; by rewrite lookup_empty in Hn|apply Demo.store_ready|].
  exists m', db', notes. split; [exact Hs|].
  specialize (Hcat "/movies" ltac:(by left)). unfold category_synced in Hcat. rewrite lookup_empty in Hcat.
  destruct (decide _) as [Hd|_]; [by destruct (Demo.movies_listed Hd)|].
  destruct Hcat as (c & Hc & _ & _ & Hb). unfold category. rewrite Hc. simpl. split.
  - specialize (Hb ["The Matrix"; "film.mkv"] ltac:(done)).
    pose proof Demo.film_entry as Hop. destruct (entry_at Demo.demo_tree "/movies" ["The Matrix"; "film.mkv"]) as [e|]; [|done].
    injection Hop as Hop. destruct Hb as (n & Hn & Ho & _). exists n. split; [exact Hn|]. by rewrite Ho.
  - specialize (Hb ["The Matrix"; "cover.jpg"] ltac:(done)).
    by rewrite Demo.cover_absent in Hb.
Defined.

(** The mounted library: files are leaves, the film and its directory are there. *)
Lemma demo_mounted :
  exists m db, OnAdd calm demo_config Demo.demo_tree (∅, Demo.store) = Some (m, db) /\
    mount_ok demo_config m /\
    (exists d, inode_at m ["movies"; "The Matrix"] = Some d /\ Operations d = DirNode /\ files_are_leaves (Children d)) /\
    file_at m ["movies"; "The Matrix"; "film.mkv"] = Some "torrent:1:1".
Proof.
  destruct (OnAdd_exact calm demo_config Demo.demo_tree (tree_ok_walkable _ Demo.tree_is_ok) Demo.unique Demo.store Demo.store_ready)
    as (m & db & Hs & Hcat & _).
  exists m, db. split; [exact Hs|].
  assert (mount_ok demo_config m) as Hok.
  { intros cat Hin. apply (category_leaves demo_config Demo.demo_tree ∅); [|by apply Hcat].
    unfold category. rewrite lookup_empty. apply kinds_agree_empty. }
  split; [exact Hok|]. specialize (Hok "/movies" ltac:(by left)).
  specialize (Hcat "/movies" ltac:(by left)). unfold category_synced in Hcat. rewrite lookup_empty in Hcat.
  destruct (decide _) as [Hd|_]; [by destruct (Demo.movies_listed Hd)|].
  destruct Hcat as (mv & Hm & _ & _ & Hb). unfold category in Hok. rewrite Hm in Hok. rewrite Demo.base_movies in Hm.
  cbn [from_option] in Hok. split.
  - specialize (Hb ["The Matrix"] ltac:(discriminate)).
    pose proof Demo.dir_entry as Hop. destruct (entry_at Demo.demo_tree "/movies" ["The Matrix"]) as [e|]; [|discriminate Hop].
    injection Hop as Hop. destruct Hb as (d & Hd & Hdo & _). exists d.
    rewrite inode_at_cons, Hm by discriminate. split; [exact Hd|]. split; [by rewrite Hdo|].
    exact (leaves_sub (Children mv) "The Matrix" d Hok Hd).
  - specialize (Hb ["The Matrix"; "film.mkv"] ltac:(discriminate)).
    pose proof Demo.film_entry as Hop. destruct (entry_at Demo.demo_tree "/movies" ["The Matrix"; "film.mkv"]) as [e|]; [|discriminate Hop].
    injection Hop as Hop. destruct Hb as (n & Hn & Ho & _).
    rewrite file_at_cons, Hm by discriminate. unfold file_at, node_at. cbn [from_option]. rewrite Hn. simpl. by rewrite Ho, Hop.
Qed.

Lemma Unlink_exact_witness :
  exists m db m', OnAdd calm demo_config Demo.demo_tree (∅, Demo.store) = Some (m, db) /\
    Unlink calm demo_config ["movies"; "The Matrix"] "film.mkv" (MkMount m db ∅) = (0, m') /\
    file_at (category (mt_root m') "/movies") ["The Matrix"; "film.mkv"] = None.
Proof.
  destruct demo_mounted as (m & db & Hs & Hok & _ & Hfile).
  pose proof (Unlink_exact calm demo_config ["movies"; "The Matrix"] "film.mkv" (MkMount m db ∅) Hok) as Hu.
  destruct (Unlink calm demo_config ["movies"; "The Matrix"] "film.mkv" (MkMount m db ∅)) as [errno m'] eqn:HU.
  unfold GetChild in Hu. cbn [app mt_root mt_db] in Hu. pose proof Hfile as Hf0. unfold file_at, node_at in Hf0.
  destruct (inode_at m ["movies"; "The Matrix"; "film.mkv"]) as [n|] eqn:Hn; [|done]. simpl in Hf0.
  case_bool_decide as He.
  - destruct Hu as (_ & k & Hk & Hkh & _). rewrite Hfile in Hk. injection Hk as <-. subst errno.
    exists m, db, m'. split; [exact Hs|]. split; [exact HU|].
    destruct (file_at (category (mt_root m') "/movies") ["The Matrix"; "film.mkv"]) as [k|] eqn:Hk; [|done]. exfalso.
    unfold file_at in Hk. destruct (node_at (category (mt_root m') "/movies") ["The Matrix"; "film.mkv"]) as [a|] eqn:Ha; [|done].
    apply (kh_below _ _ _ _ Hkh "/movies") in Ha as [Ha Hr]; [|by left]. simpl in Hk. unfold remains in Hr. rewrite Hk in Hr.
    unfold category in Ha. rewrite Demo.base_movies in Ha. rewrite <- node_at_cons in Ha by done.
    unfold file_at in Hfile. rewrite Ha in Hfile. simpl in Hfile. rewrite Hk in Hfile. injection Hfile as ->.
    exact (Hr (proj2 (elem_of_singleton _ _) eq_refl)).
  - exfalso. destruct Hu as (_ & _ & Herr & Hio). change (Writable demo_config) with true in Herr. simpl in Herr.
    destruct (Operations n); [discriminate Hf0|]. apply Hio; [exact Herr|]. intros i. reflexivity.
Defined.

Lemma Rmdir_exact_witness :
  exists m db m', OnAdd calm demo_config Demo.demo_tree (∅, Demo.store) = Some (m, db) /\
    @Rmdir default_iter calm demo_config ["movies"] "The Matrix" (MkMount m db ∅) = Some (0, m') /\
    files (tables (conn (mt_db m'))) = files (tables (conn db)).
Proof.
  destruct demo_mounted as (m & db & Hs & Hok & (d & Hd & Ho & Hl) & _).
  destruct (@Rmdir_exact default_iter calm demo_config ["movies"] "The Matrix" (MkMount m db ∅) d Hok Hd Ho Hl)
    as (errno & m' & Hr & Hf & Hw).
  change (Writable demo_config) with true in Hw. destruct Hw as (-> & _).
  exists m, db, m'. split; [exact Hs|]. split; [exact Hr|exact Hf].
Defined.
