(* ===== verification/FuseShow.v ===== *)
(** * Which files a mount shows

    A key is shown when a file with it can be reached from the root through
    directories.  For each operation of [internal/fusefs/fs.go] that changes the
    inode tree, where the keys shown afterwards come from, whatever statements of
    the database fail; and that the walks of the catalog end on every tree that
    can be walked. *)
From Stdlib Require Import Ascii.
From S2P Require Import Prelude GoStrings Sql StateDB Regexp Classify Tree TreeProps TreeDB Torbox Config FuseTree FuseTreeProps FuseHide FuseOps.
Open Scope Z_scope.

Inductive shows : gmap string Inode -> string -> Prop :=
| shows_file ch x n k u s : ch !! x = Some n -> Operations n = FileNode k u s -> shows ch k
| shows_below ch x n k : ch !! x = Some n -> Operations n = DirNode -> shows (Children n) k -> shows ch k.

(** The keys a node adds to the directory it is in. *)
Definition node_shows (n : Inode) (k : string) : Prop :=
  match Operations n with FileNode fileKey _ _ => k = fileKey | DirNode => shows (Children n) k end.

Lemma shows_iff ch k : shows ch k <-> exists x n, ch !! x = Some n /\ node_shows n k.
Proof.
  unfold node_shows. split.
  - intros [ch' x n k' u s Hx Ho|ch' x n k' Hx Ho Hs]; exists x, n; by rewrite Ho.
  - intros (x & n & Hx & Hn). destruct (Operations n) as [|k' u s] eqn:Ho; [by eapply shows_below|].
    subst. by eapply shows_file.
Qed.

Lemma shows_empty k : ~ shows ∅ k.
Proof. intros (x & n & Hx & _)%shows_iff. by rewrite lookup_empty in Hx. Qed.

Lemma shows_insert x n ch k : shows (<[x := n]> ch) k -> shows ch k \/ node_shows n k.
Proof.
  rewrite !shows_iff. intros (y & c & [[-> ->]|[_ Hy]]%lookup_insert_Some & Hc); [by right|left; by exists y, c].
Qed.

Lemma shows_mono ch1 ch2 k :
  (forall x n, ch1 !! x = Some n -> exists n', ch2 !! x = Some n' /\ (node_shows n k -> node_shows n' k)) ->
  shows ch1 k -> shows ch2 k.
Proof.
  rewrite !shows_iff. intros Hm (x & n & Hx & Hn). destruct (Hm x n Hx) as (n' & Hx' & Hn'). exists x, n'. auto.
Qed.

(** A file seen at a path whose directories are directories is shown. *)
Lemma file_at_shows ch ns k :
  files_are_leaves ch -> file_at ch ns = Some k -> shows ch k.
Proof.
  revert ch. induction ns as [|x ns IH]; intros ch Hl Hf; [done|]. apply shows_iff.
  destruct (decide (ns = [])) as [->|Hn].
  - unfold file_at, node_at in Hf. cbn [inode_at] in Hf. destruct (ch !! x) as [n|] eqn:Hx; [|done].
    exists x, n. split; [done|]. unfold node_shows. simpl in Hf. destruct (Operations n); [done|]. by injection Hf.
  - rewrite file_at_cons in Hf by done. destruct (ch !! x) as [n|] eqn:Hx; cbn [from_option] in Hf; [|by rewrite file_at_empty in Hf].
    exists x, n. split; [done|]. unfold node_shows. destruct (Operations n) as [|k' u s] eqn:Ho.
    + apply IH; [by apply (leaves_sub ch x)|done].
    + rewrite (leaf_children ch x n Hl Hx), file_at_empty in Hf; [done|by rewrite Ho].
Qed.

(** The keys a directory shows are the ones [Rmdir] collects. *)
Lemma collectFileKeys_shows n k : k ∈ collectFileKeys n <-> shows (Children n) k.
Proof.
  induction n as [o m i ch IH] using Inode_tree_ind. rewrite collectFileKeys_children, shows_iff. cbn [Children].
  apply exist_proper. intros x. apply exist_proper. intros c. unfold node_shows.
  split; intros [Hx Hc]; (split; [done|]); destruct (Operations c); try done; by apply (IH x c Hx).
Qed.

(** ** Removal *)

Lemma removeKeysFromDir_shows keys at_ dir k :
  shows (Children (removeKeysFromDir keys at_ dir).1) k -> shows (Children dir) k /\ k ∉ keys.
Proof.
  revert at_. induction dir as [o m i ch IH] using Inode_tree_ind. intros at_. rewrite (shows_iff _ k).
  intros (x & n & Hx & Hn). rewrite removeKeysFromDir_lookup in Hx. cbn [Children] in *.
  destruct (ch !! x) as [c|] eqn:Hc; [|done]. simpl in Hx. unfold removed_child in Hx.
  destruct (Operations c) as [|k' u s] eqn:Ho.
  - injection Hx as <-. pose proof (removeKeysFromDir_attrs keys (at_ +:+ "/" +:+ x) c) as [= E _ _].
    unfold node_shows in Hn. rewrite E, Ho in Hn. destruct (IH x c Hc _ Hn) as [H1 H2]. split; [|done].
    by eapply shows_below.
  - destruct (decide _); [done|]. injection Hx as <-. unfold node_shows in Hn. rewrite Ho in Hn. subst.
    split; [by eapply shows_file|done].
Qed.

Lemma pruneEmptyDirs_shows at_ dir k :
  shows (Children (pruneEmptyDirs at_ dir).1) k -> shows (Children dir) k.
Proof.
  revert at_. induction dir as [o m i ch IH] using Inode_tree_ind. intros at_. rewrite (shows_iff _ k).
  intros (x & n & Hx & Hn). rewrite pruneEmptyDirs_lookup in Hx. cbn [Children] in *.
  destruct (ch !! x) as [c|] eqn:Hc; [|done]. simpl in Hx. unfold pruned_child in Hx.
  destruct (Operations c) as [|k' u s] eqn:Ho.
  - destruct (decide _); [done|]. injection Hx as <-.
    pose proof (pruneEmptyDirs_attrs (at_ +:+ "/" +:+ x) c) as [= E _ _]. unfold node_shows in Hn. rewrite E, Ho in Hn.
    eapply shows_below; [done..|]. by apply (IH x c Hc _ Hn).
  - injection Hx as <-. unfold node_shows in Hn. rewrite Ho in Hn. subst. by eapply shows_file.
Qed.

(** The root has only category directories. *)
Definition root_ok (cfg : Config) (root : gmap string Inode) : Prop :=
  map_Forall (fun x n => x ∈ path_Base <$> catPaths cfg /\ Operations n = DirNode) root.

Lemma find_category cfg x :
  x ∈ path_Base <$> catPaths cfg ->
  exists c, List.find (fun c => bool_decide (path_Base c = x)) (catPaths cfg) = Some c.
Proof.
  intros (c & -> & Hc)%list_elem_of_fmap. destruct (List.find _ _) as [c'|] eqn:Hf; [by exists c'|].
  eapply List.find_none in Hf; [|by apply list_elem_of_In]. simpl in Hf. by apply bool_decide_eq_false in Hf.
Qed.

Lemma removeContentKeys_shows cfg keys root k :
  root_ok cfg root ->
  root_ok cfg (removeContentKeys cfg keys root).1 /\
  (shows (removeContentKeys cfg keys root).1 k -> shows root k /\ k ∉ keys).
Proof.
  intros Hr. destruct (catPaths_ok cfg) as [Hnd _].
  assert (forall x n, (removeContentKeys cfg keys root).1 !! x = Some n ->
    x ∈ path_Base <$> catPaths cfg /\ exists c n0, root !! x = Some n0 /\ Operations n0 = DirNode /\
      n = (pruneEmptyDirs c (removeKeysFromDir keys c n0).1).1) as Hx.
  { intros x n. unfold removeContentKeys, over_categories. rewrite !over_categories_lookup by done. cbn [fst].
    destruct (root !! x) as [n0|] eqn:Hn0; [|by destruct (List.find _ _)]. destruct (Hr x n0 Hn0) as [Hin Ho].
    destruct (find_category cfg x Hin) as [c ->]. intros [= <-]. split; [done|]. by exists c, n0. }
  split.
  - intros x n Hn. destruct (Hx x n Hn) as (Hin & c & n0 & _ & Ho & ->). split; [done|].
    pose proof (pruneEmptyDirs_attrs c (removeKeysFromDir keys c n0).1) as [= -> _ _].
    by pose proof (removeKeysFromDir_attrs keys c n0) as [= -> _ _].
  - intros (x & n & Hn & Hs)%shows_iff. destruct (Hx x n Hn) as (_ & c & n0 & Hn0 & Ho & ->).
    pose proof (pruneEmptyDirs_attrs c (removeKeysFromDir keys c n0).1) as [= E1 _ _].
    pose proof (removeKeysFromDir_attrs keys c n0) as [= E2 _ _].
    unfold node_shows in Hs. rewrite E1, E2, Ho in Hs.
    apply pruneEmptyDirs_shows, removeKeysFromDir_shows in Hs as [Hs ?]. split; [|done]. by eapply shows_below.
Qed.

Lemma RmChild_shows dir name ch k : shows (RmChild dir name ch) k -> shows ch k.
Proof.
  revert ch. induction dir as [|x dir IH]; intros ch; cbn [RmChild].
  - apply shows_mono. intros y n [_ Hy]%lookup_delete_Some. by exists n.
  - destruct (ch !! x) as [[o m i sub]|] eqn:Hx; [|done]. apply shows_mono. intros y n Hy.
    apply lookup_insert_Some in Hy as [[-> <-]|[_ Hy]]; [|by exists n].
    exists (MkInode o m i sub). split; [done|]. unfold node_shows. cbn [Operations Children]. destruct o; auto.
Qed.

Lemma RmChild_root_ok cfg dir name root : root_ok cfg root -> root_ok cfg (RmChild dir name root).
Proof.
  intros Hr. destruct dir as [|x dir]; cbn [RmChild].
  - intros y n [_ Hy]%lookup_delete_Some. by apply Hr.
  - destruct (root !! x) as [[o m i sub]|] eqn:Hx; [|done]. intros y n Hy.
    apply lookup_insert_Some in Hy as [[-> <-]|[_ Hy]]; [|by apply Hr]. exact (Hr _ _ Hx).
Qed.

(** ** The walks of the catalog *)

(** Every step of a loop succeeds and keeps [P]. *)
Lemma foldM_keeps {A B} (P : B -> Prop) (f : B -> A -> option B) l b :
  P b -> (forall b x, x ∈ l -> P b -> exists b', f b x = Some b' /\ P b') ->
  exists b', foldM f b l = Some b' /\ P b'.
Proof.
  revert b. induction l as [|x l IH]; intros b Hb Hf; [by exists b|]. cbn [foldM].
  destruct (Hf b x) as (b1 & -> & Hb1); [by left|done|]. cbn [mbind option_bind].
  apply IH; [done|]. intros. apply Hf; [by right|done].
Qed.

Section walks.
Context (env : SqlEnv) (cfg : Config) (t : Tree).
Hypothesis Hwalk : walkable t.

(** The content keys of the files in the tree. *)
Definition tree_key (k : string) : Prop :=
  exists p e f, e ∈ dir_entries t p /\ EntryFile e = Some f /\ ContentKey f = k.

(** The tables keep their files, and [ch] shows nothing new but keys of the tree. *)
Definition from_tree (ch0 : gmap string Inode) (db0 : DB) (ch : gmap string Inode) (db : DB) : Prop :=
  same_files (tables (conn db0)) (tables (conn db)) /\ forall k, shows ch k -> shows ch0 k \/ tree_key k.

Lemma from_tree_refl ch db : from_tree ch db ch db.
Proof. split; [done|]. by left. Qed.

Lemma from_tree_add ch0 db0 ch db db' x n :
  from_tree ch0 db0 ch db -> same_files (tables (conn db)) (tables (conn db')) ->
  (forall k, node_shows n k -> tree_key k) -> from_tree ch0 db0 (AddChild x n ch) db'.
Proof.
  intros [Hs Hk] Hs' Hn. split; [by etrans|]. intros k. unfold AddChild.
  destruct (ch !! x); [apply Hk|]. intros [H|H]%shows_insert; [by apply Hk|right; by apply Hn].
Qed.

Lemma from_tree_same ch0 db0 ch db db' :
  from_tree ch0 db0 ch db -> same_files (tables (conn db)) (tables (conn db')) -> from_tree ch0 db0 ch db'.
Proof. intros [Hs Hk] Hs'. split; [by etrans|done]. Qed.

(** What [populateDir] with this fuel does below a path. *)
Definition fills (populate : string -> gmap string Inode * DB -> option (gmap string Inode * DB)) (p : string) : Prop :=
  forall db, exists m db', populate p (∅, db) = Some (m, db') /\
    same_files (tables (conn db)) (tables (conn db')) /\ forall k, shows m k -> tree_key k.

Lemma addSubDirNode_from populate name p ch0 db0 ch db :
  fills populate p -> from_tree ch0 db0 ch db ->
  exists ch' db', addSubDirNode env populate name p (ch, db) = Some (ch', db') /\ from_tree ch0 db0 ch' db'.
Proof.
  intros Hf Hft. unfold addSubDirNode. cbn [snd fst].
  pose proof (AssignInode_frame env ("dir:" +:+ p) p db) as Hfr.
  destruct (AssignInode env ("dir:" +:+ p) p db) as [[ino|e] db1]; cbn [snd] in Hfr.
  - destruct (Hf db1) as (m & db2 & -> & Hs & Hk). cbn [mbind option_bind fst snd]. eexists _, _. split; [done|].
    apply (from_tree_add _ _ _ db); [done|by etrans|]. intros k. unfold node_shows. cbn [Operations Children]. apply Hk.
  - eexists _, _. split; [done|]. by apply (from_tree_same _ _ _ db).
Qed.

Lemma addFileNode_from name p f path ch0 db0 ch db :
  MkDirEntry name (Some f) ∈ dir_entries t p -> from_tree ch0 db0 ch db ->
  from_tree ch0 db0 (addFileNode env cfg name path f (ch, db)).1 (addFileNode env cfg name path f (ch, db)).2.
Proof.
  intros He Hft. unfold addFileNode. cbn [snd fst].
  pose proof (AssignInode_frame env (ContentKey f) path db) as Hfr.
  destruct (AssignInode env (ContentKey f) path db) as [[ino|e] db1]; cbn [snd fst] in *.
  - apply (from_tree_add _ _ _ db); [done|done|]. intros k Hk. unfold node_shows in Hk. cbn in Hk. subst.
    by exists p, (MkDirEntry name (Some f)), f.
  - by apply (from_tree_same _ _ _ db).
Qed.

Lemma subdirs_shorter fuel p e :
  (max_key_length t < S fuel + String.length p)%nat -> clean_path p -> p <> "/" -> e ∈ dir_entries t p -> EntryFile e = None ->
  let q := p +:+ "/" +:+ Name e in
  (0 < fuel)%nat /\ (max_key_length t < fuel + String.length q)%nat /\ clean_path q /\ q <> "/".
Proof.
  intros Hf Hc Hp He Hfe. destruct (subdir_path t Hwalk p e Hc Hp He Hfe) as (Hq & Hq1 & Hlen). split_and!; try done; lia.
Qed.

Lemma entry_eta e f : EntryFile e = Some f -> e = MkDirEntry (Name e) (Some f).
Proof. destruct e; simpl; by intros ->. Qed.

Lemma populateDir_from fuel p :
  (0 < fuel)%nat -> (max_key_length t < fuel + String.length p)%nat -> clean_path p -> p <> "/" ->
  fills (populateDir env cfg fuel t) p.
Proof.
  revert p. induction fuel as [|fuel IH]; intros p Hf0 Hf Hc Hp db; [lia|]. cbn [populateDir].
  destruct (foldM_keeps (fun st : gmap string Inode * DB => from_tree ∅ db st.1 st.2)
    (populate_entry env cfg (populateDir env cfg fuel t) p) (ListDir t p) (∅, db)) as ([m db'] & -> & Hs & Hk).
  - apply from_tree_refl.
  - intros [ch db1] e He Hft. rewrite ListDir_clean in He by done. unfold populate_entry. destruct (EntryFile e) as [f|] eqn:Hfe.
    + eexists. split; [done|]. apply (addFileNode_from (Name e) p); [by rewrite <- (entry_eta e f)|done].
    + destruct (addSubDirNode_from (populateDir env cfg fuel t) (Name e) (p +:+ "/" +:+ Name e) ∅ db ch db1)
        as (ch' & db' & Hadd & Hft'); [|done|by exists (ch', db')].
      destruct (subdirs_shorter fuel p e) as (? & ? & ? & ?); try done. by apply IH.
  - exists m, db'. split; [done|]. split; [done|]. intros k [H|H]%Hk; [by apply shows_empty in H|done].
Qed.

(** A directory after a synchronisation shows what it did, or keys of the tree. *)
Definition resyncs (sync : string -> Inode -> DB -> option (Inode * DB * gset notifyEntry)) (p : string) : Prop :=
  forall n db, exists n' db' notes, sync p n db = Some (n', db', notes) /\ Operations n' = Operations n /\
    same_files (tables (conn db)) (tables (conn db')) /\ forall k, shows (Children n') k -> shows (Children n) k \/ tree_key k.

Lemma from_tree_resync ch0 db0 ch db db' x n n' :
  from_tree ch0 db0 ch db -> ch !! x = Some n -> same_files (tables (conn db)) (tables (conn db')) ->
  Operations n' = Operations n -> (forall k, shows (Children n') k -> shows (Children n) k \/ tree_key k) ->
  from_tree ch0 db0 (<[x := n']> ch) db'.
Proof.
  intros [Hs Hk] Hx Hs' Ho Hn. split; [by etrans|]. intros k [H|H]%shows_insert; [by apply Hk|].
  unfold node_shows in H. rewrite Ho in H. destruct (Operations n) as [|k' u s] eqn:Hop.
  - apply Hn in H as [H|H]; [|by right]. apply Hk. by eapply shows_below.
  - subst. apply Hk. by eapply shows_file.
Qed.

Lemma syncDir_from fuel p :
  (0 < fuel)%nat -> (max_key_length t < fuel + String.length p)%nat -> clean_path p -> p <> "/" ->
  resyncs (syncDir env cfg fuel t) p.
Proof.
  revert p. induction fuel as [|fuel IH]; intros p Hf0 Hf Hc Hp n db; [lia|]. cbn [syncDir].
  fold (still_listed t p (Children n)).
  destruct (foldM_keeps (fun st : gmap string Inode * DB * gset notifyEntry => from_tree (Children n) db st.1.1 st.1.2)
    (sync_entry env cfg (populateDir env cfg fuel t) (syncDir env cfg fuel t) p) (ListDir t p)
    (still_listed t p (Children n), db, set_map (pair p) (dom (Children n) ∖ entry_names (ListDir t p))))
    as ([[m db'] notes] & -> & Hs & Hk).
  - split; [done|]. intros k Hs. left. revert Hs. apply shows_mono. intros x c Hx. exists c. split; [|done].
    by apply map_lookup_filter_Some in Hx as [? _].
  - intros [[ch db1] nt] e He Hft. rewrite ListDir_clean in He by done. unfold sync_entry. cbn [fst snd] in Hft.
    destruct (ch !! Name e) as [c|] eqn:Hx; destruct (EntryFile e) as [f|] eqn:Hfe.
    + eexists. split; [done|]. done.
    + destruct (subdirs_shorter fuel p e) as (? & ? & ? & ?); try done.
      destruct (IH (p +:+ "/" +:+ Name e)) with (n := c) (db := db1) as (n' & db' & nt' & -> & Ho & Hs & Hk); try done.
      eexists. split; [done|]. cbn [fst snd]. by apply (from_tree_resync _ _ ch db1 db' (Name e) c n').
    + cbn [mbind option_bind]. eexists. split; [done|]. cbn [fst snd].
      apply (addFileNode_from (Name e) p); [by rewrite <- (entry_eta e f)|done].
    + destruct (subdirs_shorter fuel p e) as (? & ? & ? & ?); try done.
      destruct (addSubDirNode_from (populateDir env cfg fuel t) (Name e) (p +:+ "/" +:+ Name e) (Children n) db ch db1)
        as (ch' & db' & -> & Hft'); [by apply populateDir_from|done|]. by eexists.
  - by eexists _, db', notes.
Qed.

(** ** The whole mount *)

Lemma addCategoryDir_from cat ch0 db0 ch db :
  clean_path cat -> cat <> "/" -> from_tree ch0 db0 ch db ->
  exists ch' db', addCategoryDir env cfg (tree_fuel t) t (path_Base cat) cat (ch, db) = Some (ch', db') /\
    from_tree ch0 db0 ch' db' /\ (root_ok cfg ch -> path_Base cat ∈ path_Base <$> catPaths cfg -> root_ok cfg ch').
Proof.
  intros Hc Hp Hft. unfold addCategoryDir. case_bool_decide; [by eexists _, _|].
  destruct (addSubDirNode_from (populateDir env cfg (tree_fuel t) t) (path_Base cat) cat ch0 db0 ch db)
    as (ch' & db' & Hadd & Hft'); [apply populateDir_from; try done; unfold tree_fuel; lia|done|].
  exists ch', db'. split; [done|]. split; [done|]. intros Hr Hin. unfold addSubDirNode in Hadd.
  destruct (AssignInode _ _ _ _) as [[ino|e] db1]; [|by simplify_eq/=].
  destruct (populateDir _ _ _ _ _ _) as [[m db2]|]; [|done]. simplify_eq/=. unfold AddChild.
  destruct (ch !! path_Base cat); [done|]. by apply map_Forall_insert_2.
Qed.

(** The mount's invariant and where the keys of the root come from. *)
Definition root_from (ch0 : gmap string Inode) (db0 : DB) (ch : gmap string Inode) (db : DB) : Prop :=
  from_tree ch0 db0 ch db /\ (root_ok cfg ch0 -> root_ok cfg ch).

Lemma OnAdd_from m db :
  exists m' db', OnAdd env cfg t (m, db) = Some (m', db') /\ root_from m db m' db'.
Proof.
  destruct (foldM_keeps (fun st : gmap string Inode * DB => root_from m db st.1 st.2)
    (fun st p => addCategoryDir env cfg (tree_fuel t) t (path_Base p) p st) (catPaths cfg) (m, db))
    as ([m' db'] & Hs & Hr); [split; [apply from_tree_refl|done]| |by exists m', db'].
  intros [ch db1] cat Hin [Hft Hr]. destruct (proj2 (catPaths_ok cfg) cat Hin) as [Hc Hp].
  destruct (addCategoryDir_from cat m db ch db1 Hc Hp Hft) as (ch' & db' & -> & Hft' & Hr').
  exists (ch', db'). split; [done|]. split; [done|]. intros H0. apply Hr'; [by apply Hr|by apply list_elem_of_fmap_2].
Qed.

Lemma SyncTree_from m db :
  exists m' db' notes, SyncTree env cfg t (m, db) = Some (m', db', notes) /\ root_from m db m' db'.
Proof.
  destruct (foldM_keeps (fun st : gmap string Inode * DB * gset notifyEntry => root_from m db st.1.1 st.1.2)
    (sync_category env cfg t) (catPaths cfg) (m, db, ∅))
    as ([[m' db'] notes] & Hs & Hr); [split; [apply from_tree_refl|done]| |by exists m', db', notes].
  intros [[ch db1] nt] cat Hin [Hft Hr]. destruct (proj2 (catPaths_ok cfg) cat Hin) as [Hc Hp]. cbn [fst snd] in *.
  unfold sync_category. destruct (ch !! path_Base cat) as [c|] eqn:Hx.
  - destruct (syncDir_from (tree_fuel t) cat) with (n := c) (db := db1) as (n' & db' & nt' & -> & Ho & Hs & Hk);
      [unfold tree_fuel; lia|unfold tree_fuel; lia|done|done|].
    eexists. split; [done|]. split; [by apply (from_tree_resync _ _ ch db1 db' (path_Base cat) c n')|].
    intros H0. specialize (Hr H0). apply map_Forall_insert_2; [|done]. cbn [fst snd].
    split; [by apply list_elem_of_fmap_2|]. rewrite Ho. by apply (Hr _ _ Hx).
  - destruct (addCategoryDir_from cat m db ch db1 Hc Hp Hft) as (ch' & db' & -> & Hft' & Hr').
    eexists. split; [done|]. split; [done|]. intros H0. apply Hr'; [by apply Hr|by apply list_elem_of_fmap_2].
Qed.

End walks.

(** ** What a synchronisation leaves alone *)

(** What holds at the start and is kept by every step holds at the end. *)
Lemma foldM_inv {A B} (P : B -> Prop) (f : B -> A -> option B) l b b' :
  P b -> (forall b x b', P b -> f b x = Some b' -> P b') -> foldM f b l = Some b' -> P b'.
Proof.
  intros Hb Hf. revert b Hb. induction l as [|x l IH]; intros b Hb; cbn [foldM]; [by intros [= <-]|].
  destruct (f b x) as [b1|] eqn:Hx; [|done]. cbn [mbind option_bind]. apply IH. by apply (Hf b x).
Qed.

Section frames.
Context (env : SqlEnv) (cfg : Config) (t : Tree).

Definition keeps_files (db db' : DB) : Prop := same_files (tables (conn db)) (tables (conn db')).

#[local] Instance keeps_files_refl : Reflexive keeps_files.
Proof. intros db. unfold keeps_files. reflexivity. Qed.
#[local] Instance keeps_files_trans : Transitive keeps_files.
Proof. intros a b c. unfold keeps_files. apply same_files_trans. Qed.

Definition frames (populate : string -> gmap string Inode * DB -> option (gmap string Inode * DB)) : Prop :=
  forall p st st', populate p st = Some st' -> keeps_files st.2 st'.2.

Lemma addFileNode_frame name p f st : keeps_files st.2 (addFileNode env cfg name p f st).2.
Proof.
  unfold addFileNode. pose proof (AssignInode_frame env (ContentKey f) p st.2) as Hf.
  by destruct (AssignInode _ _ _ _) as [[i|e] db'].
Qed.

Lemma addSubDirNode_frame populate name p st st' :
  frames populate -> addSubDirNode env populate name p st = Some st' -> keeps_files st.2 st'.2.
Proof.
  intros Hp. unfold addSubDirNode. pose proof (AssignInode_frame env ("dir:" +:+ p) p st.2) as Hf.
  destruct (AssignInode _ _ _ _) as [[i|e] db']; cbn [snd] in Hf; [|by intros [= <-]].
  destruct (populate p (∅, db')) as [[m db2]|] eqn:Hs; [|done]. intros [= <-]. apply Hp in Hs.
  etrans; [exact Hf|exact Hs].
Qed.

Lemma populateDir_frame fuel : frames (populateDir env cfg fuel t).
Proof.
  induction fuel as [|fuel IH]; intros p st st'; [done|]. cbn [populateDir].
  apply (foldM_inv (fun s => keeps_files st.2 s.2)); [done|]. intros s e s' Hs. unfold populate_entry.
  destruct (EntryFile e) as [f|].
  - intros [= <-]. etrans; [exact Hs|apply addFileNode_frame].
  - intros Hadd%addSubDirNode_frame; [|done]. by etrans.
Qed.

Lemma syncDir_frame fuel p n db n' db' notes :
  syncDir env cfg fuel t p n db = Some (n', db', notes) -> keeps_files db db'.
Proof.
  revert p n db n' db' notes. induction fuel as [|fuel IH]; intros p n db n' db' notes; [done|]. cbn [syncDir].
  destruct (foldM _ _ _) as [[[m db1] nt]|] eqn:Hf; [|done]. intros [= _ <- _]. revert Hf.
  apply (foldM_inv (fun s : gmap string Inode * DB * gset notifyEntry => keeps_files db s.1.2)); [done|].
  intros [[m0 db0] nt0] e [[m2 db2] nt2] Hs. unfold sync_entry. cbn [fst snd] in *.
  destruct (m0 !! Name e) as [c|]; destruct (EntryFile e) as [f|].
  - by intros [= _ <- _].
  - destruct (syncDir _ _ _ _ _ _ _) as [[[n1 d1] t1]|] eqn:H1; [|done]. intros [= _ <- _]. apply IH in H1. by etrans.
  - cbn [mbind option_bind]. intros [= Ha _]. etrans; [exact Hs|].
    pose proof (addFileNode_frame (Name e) (p +:+ "/" +:+ Name e) f (m0, db0)) as Hfr. by rewrite Ha in Hfr.
  - destruct (addSubDirNode _ _ _ _ _) as [[m1 d1]|] eqn:H1; [|done]. intros [= _ <- _].
    apply addSubDirNode_frame in H1; [|apply populateDir_frame]. by etrans.
Qed.

Lemma SyncTree_frame m db m' db' notes :
  SyncTree env cfg t (m, db) = Some (m', db', notes) -> keeps_files db db'.
Proof.
  apply (foldM_inv (fun s : gmap string Inode * DB * gset notifyEntry => keeps_files db s.1.2)
    (sync_category env cfg t) (catPaths cfg) (m, db, ∅) (m', db', notes)); [done|].
  intros [[m0 db0] nt0] cat [[m2 db2] nt2] Hs. unfold sync_category. cbn [fst snd] in *.
  destruct (m0 !! path_Base cat) as [c|].
  - destruct (syncDir _ _ _ _ _ _ _) as [[[n1 d1] t1]|] eqn:H1; [|done]. intros [= _ <- _]. apply syncDir_frame in H1. by etrans.
  - unfold addCategoryDir. case_bool_decide; [by intros [= _ <- _]|].
    destruct (addSubDirNode _ _ _ _ _) as [[m1 d1]|] eqn:H1; [|done]. intros [= _ <- _].
    apply addSubDirNode_frame in H1; [|apply populateDir_frame]. by etrans.
Qed.

End frames.
