(* ===== verification/FuseCatalog.v ===== *)
(** * The trees a catalog hands to the mount

    Every tree a refresh or a start from the database produces can be walked and
    mounted, whatever is hidden; on a well-formed library each visible file is the
    entry at its own path, and nothing else is below the categories. *)
From Stdlib Require Import Ascii.
From S2P Require Import Prelude GoStrings Metrics Sql StateDB Regexp Classify Tree TreeProps TreeDB TreeView Catalog CatalogProps.
From S2P Require Import Torbox Config FuseTree FuseTreeProps FuseHide FuseOps FuseShow.
From stdpp Require Import pretty.
Open Scope Z_scope.

(** ** Trees that can be mounted *)

(** Walkable, and each directory below the root's children has its entry. *)
Record mountable (t : Tree) : Prop := {
  mb_walk : walkable t;
  mb_listed : forall q, q ∈ dom t -> q <> "/" -> path_Dir q <> "/" ->
                MkDirEntry (path_Base q) None ∈ dir_entries t (path_Dir q)
}.

Lemma tree_ok_mountable t : tree_ok t -> mountable t.
Proof. intros Hok. split; [by apply tree_ok_walkable|]. intros q Hq Hn _. by apply child_of. Qed.

(** What a tree shows once the hidden files are gone. *)
Record hides_to (t : Tree) (hidden : gset string) (t' : Tree) : Prop := {
  ht_mountable : mountable t';
  ht_files : forall p e, EntryFile e <> None ->
    e ∈ dir_entries t' p <-> e ∈ dir_entries t p /\ ~ hidden_entry hidden e;
  ht_sub : forall p, exists gone, dir_entries t p ≡ₚ dir_entries t' p ++ gone;
  ht_dom : forall p, p ∈ dom t' -> p ∈ dom t;
  ht_visible : forall p, p <> "/" -> p ∈ dom t' -> hidden <> ∅ -> visible_under t hidden p
}.

Lemma hides_to_none t : tree_ok t -> hides_to t ∅ t.
Proof.
  intros Hok. split; [by apply tree_ok_mountable| | |done|done].
  - intros p e He. unfold hidden_entry. destruct (EntryFile e); [set_solver|done].
  - intros p. exists []. by rewrite app_nil_r.
Qed.

Lemma settled_hides `{SliceSort} t hidden cur :
  tree_ok t -> (forall p, settled t hidden cur p) -> hides_to t hidden (sort_dirs cur).
Proof.
  intros Hok Hs.
  assert (forall p, p <> "/" -> p ∈ dom cur <-> visible_under t hidden p) as Hvis by (intros; by apply settled_visible).
  assert (forall p e, e ∈ dir_entries cur p -> p ∈ dom t) as Hdom.
  { intros p e He. apply (settled_elem _ _ _ _ _ (Hs p)) in He as [He _]. by apply kept_in_dom in He. }
  assert (forall p, p ∈ dom cur -> p ∈ dom t) as Hcur.
  { intros p Hp. apply (proj1 (Hs p)) in Hp. destruct (dir_entries cur p) as [|e l] eqn:Hd; [done|].
    apply (Hdom p e). rewrite Hd. by left. }
  split.
  - split; [split|].
    + intros p. rewrite dom_sort. intros Hp. by apply (tk_clean _ Hok), Hcur.
    + intros p x Hp. rewrite dir_entries_sort, (settled_elem _ _ _ _ _ (Hs p)), kept_subdir.
      intros [Hx [?|[_ Hv]]]; [done|]. destruct (subdir_child t Hok p x Hx Hp) as (Hq & Hq1 & Hd & Hb).
      exists (p +:+ "/" +:+ x). rewrite dom_sort. split; [by apply Hvis|done].
    + intros q. rewrite dom_sort, dir_entries_sort. intros Hq Hn Hd.
      apply (settled_elem _ _ _ _ _ (Hs (path_Dir q))). rewrite kept_subdir. split; [apply child_of; auto|].
      right. split; [done|]. cbn [Name]. rewrite child_path; [by apply Hvis|by apply (tk_clean _ Hok), Hcur|done|done].
  - intros p e He. rewrite dir_entries_sort, (settled_elem _ _ _ _ _ (Hs p)). unfold kept, stays.
    rewrite list_elem_of_filter. naive_solver.
  - intros p. destruct (Hs p) as (_ & P & HP & Hd & _).
    exists (filter (fun e => ~ P e) (kept t hidden p) ++ filter (fun e => ~ ~ hidden_entry hidden e) (dir_entries t p)).
    rewrite dir_entries_sort, Hd, app_assoc, filter_app_complement. unfold kept.
    by rewrite filter_app_complement.
  - intros p. rewrite dom_sort. apply Hcur.
  - intros p Hp. rewrite dom_sort. by rewrite Hvis.
Qed.

Lemma ApplyHides_to `{MapIter, SliceSort} t hidden t' :
  tree_ok t -> ApplyHides t hidden = Some t' -> hides_to t hidden t'.
Proof.
  intros Hok. destruct (decide (hidden = ∅)) as [->|Hh].
  - unfold ApplyHides. rewrite bool_decide_true by done. intros [= <-]. by apply hides_to_none.
  - destruct (ApplyHides_settled t hidden Hok Hh) as (cur & -> & Hs). intros [= <-]. by apply settled_hides.
Qed.

(** No key of the tree is hidden. *)
Lemma hides_to_key t hidden t' k : hides_to t hidden t' -> tree_key t' k -> k ∉ hidden.
Proof.
  intros Ht (p & e & f & He & Hf & <-). apply (ht_files _ _ _ Ht) in He as [_ Hh]; [|by rewrite Hf].
  unfold hidden_entry in Hh. by rewrite Hf in Hh.
Qed.

(** ** Names in a directory *)

Lemma submulti_NoDup {A B} (f : A -> B) (l l' gone : list A) :
  l ≡ₚ l' ++ gone -> NoDup (f <$> l) -> NoDup (f <$> l').
Proof. intros ->. rewrite fmap_app, NoDup_app. tauto. Qed.

(** A subdirectory's name is no other entry's. *)
Definition subdirs_apart (es : list DirEntry) : Prop :=
  forall e, e ∈ es -> EntryFile e = None -> length (filter (fun e' => Name e' = Name e) es) = 1%nat.

Lemma subdirs_apart_sub es es' gone : es ≡ₚ es' ++ gone -> subdirs_apart es -> subdirs_apart es'.
Proof.
  intros Hp Ha e He Hf. specialize (Ha e). rewrite Hp, filter_app, length_app in Ha.
  specialize (Ha ltac:(apply elem_of_app; by left) Hf).
  assert (e ∈ filter (fun e' => Name e' = Name e) es') as Hin by (by apply list_elem_of_filter).
  destruct (filter _ es'); [by apply not_elem_of_nil in Hin|]. simpl in *. lia.
Qed.

Lemma dirs_unique_apart t : (forall p, subdirs_apart (dir_entries t p)) -> dirs_unique t.
Proof.
  intros Ha p es Hp. apply Forall_forall. intros e He Hf. specialize (Ha p). unfold dir_entries in Ha.
  rewrite Hp in Ha. by apply Ha.
Qed.

(** Only subdirectories, each once. *)
Lemma only_subdirs_apart es : NoDup es -> (forall e, e ∈ es -> EntryFile e = None) -> subdirs_apart es.
Proof.
  intros Hnd Hs e He _. induction Hnd as [|e' es Hnin Hnd IH]; [by apply not_elem_of_nil in He|].
  assert (forall x y, x ∈ e' :: es -> y ∈ e' :: es -> Name x = Name y -> x = y) as Hinj.
  { intros [x fx] [y fy] Hx Hy Hn. specialize (Hs _ Hx) as H1. specialize (Hs _ Hy) as H2. simpl in *. by subst. }
  rewrite filter_cons. destruct (decide (Name e' = Name e)) as [Hn|Hn].
  - assert (e' = e) as -> by (apply Hinj; [by left|done|done]). simpl. f_equal.
    assert (filter (fun e' => Name e' = Name e) es = []) as ->; [|done]. apply filter_none. intros x Hx Hnx.
    apply Hnin. assert (x = e) as <-; [|done]. apply Hinj; [by right|by left|done].
  - apply elem_of_cons in He as [->|He]; [done|]. apply IH; [intros; apply Hs; by right|done].
Qed.

Lemma no_subdirs_apart es : (forall e, e ∈ es -> EntryFile e <> None) -> subdirs_apart es.
Proof. intros Hn e He Hf. by destruct (Hn e He). Qed.

(** ** Paths of entries *)

Section paths.
Context (t : Tree) (Ht : mountable t).

Lemma listed_prefix pre y rest :
  pre <> [] -> Forall elem_ok (pre ++ y :: rest) -> render (pre ++ y :: rest) ∈ dom t ->
  MkDirEntry y None ∈ dir_entries t (render pre).
Proof.
  intros Hpre. induction rest as [|z rest IH] using rev_ind; intros Hok Hd.
  - pose proof (mb_listed _ Ht _ Hd) as Hl. rewrite Base_render, Dir_render in Hl by done.
    apply Hl; intros He.
    + change "/"%string with (render []) in He. apply render_inj in He; [by destruct pre|done|constructor].
    + apply Forall_app in Hok as [Hok _]. change "/"%string with (render []) in He. by apply render_inj in He.
  - change (y :: rest ++ [z]) with ((y :: rest) ++ [z]) in *. rewrite app_assoc in *.
    pose proof (mb_listed _ Ht _ Hd) as Hl. rewrite Base_render, Dir_render in Hl by done.
    apply Forall_app in Hok as [Hok Hz]. apply IH; [done|]. eapply elem_of_dir_entries, Hl; intros He.
    + change "/"%string with (render []) in He. apply render_inj in He; [by destruct pre|by apply Forall_app|constructor].
    + change "/"%string with (render []) in He. apply render_inj in He; [by destruct pre|done|constructor].
Qed.

Lemma find_entry_only p e :
  clean_path p -> e ∈ dir_entries t p -> (forall e', e' ∈ dir_entries t p -> Name e' = Name e -> e' = e) ->
  find_entry (Name e) (ListDir t p) = Some e.
Proof.
  intros Hc He Ho. rewrite ListDir_clean by done. destruct (find_entry (Name e) (dir_entries t p)) as [e'|] eqn:Hf.
  - apply find_entry_Some in Hf as [? ?]. f_equal. auto.
  - exfalso. by apply (proj1 (find_entry_None _ _) Hf e).
Qed.

Lemma apart_only es e e' :
  subdirs_apart es -> e ∈ es -> EntryFile e = None -> e' ∈ es -> Name e' = Name e -> e' = e.
Proof.
  intros Ha He Hf He' Hn. specialize (Ha e He Hf).
  assert (e ∈ filter (fun e' => Name e' = Name e) es) as H1 by (by apply list_elem_of_filter).
  assert (e' ∈ filter (fun e' => Name e' = Name e) es) as H2 by (by apply list_elem_of_filter).
  destruct (filter _ es) as [|a [|b l]]; [done| |done].
  apply list_elem_of_singleton in H1, H2. congruence.
Qed.

(** An entry whose name is unique in its directory is found at its path. *)
Lemma entry_at_reach rest pre e :
  (forall p, subdirs_apart (dir_entries t p)) -> pre <> [] -> Forall elem_ok (pre ++ rest) ->
  e ∈ dir_entries t (render (pre ++ rest)) ->
  (forall e', e' ∈ dir_entries t (render (pre ++ rest)) -> Name e' = Name e -> e' = e) ->
  entry_at t (render pre) (rest ++ [Name e]) = Some e.
Proof.
  intros Ha. revert pre. induction rest as [|y rest IH]; intros pre Hpre Hok He Ho.
  - rewrite app_nil_r in *. cbn [app entry_at]. rewrite (find_entry_only (render pre) e); [done|by exists pre|done|done].
  - cbn [app]. rewrite entry_at_cons by (by destruct rest).
    assert (MkDirEntry y None ∈ dir_entries t (render pre)) as Hy.
    { apply (listed_prefix pre y rest); [done|done|]. by apply elem_of_dir_entries in He. }
    pose proof (Forall_app elem_ok pre (y :: rest)) as [Hsplit _]. destruct (Hsplit Hok) as [Hpre_ok _].
    pose proof (find_entry_only (render pre) (MkDirEntry y None)) as Hfind. cbn [Name] in Hfind. rewrite Hfind; [|by exists pre|done|].
    2: { intros e' He' Hn. by apply (apart_only (dir_entries t (render pre)) (MkDirEntry y None) e'). }
    cbn [mbind option_bind EntryFile]. rewrite render_snoc by done.
    replace (pre ++ y :: rest) with ((pre ++ [y]) ++ rest) in * by (by rewrite <- app_assoc).
    apply IH; [by destruct pre|done|done|done].
Qed.

(** An entry found at a path is in the directory the path leads to. *)
Lemma entry_at_elem ns pre e :
  pre <> [] -> Forall elem_ok pre -> entry_at t (render pre) ns = Some e ->
  exists ms, ns = ms ++ [Name e] /\ e ∈ dir_entries t (render (pre ++ ms)) /\ Forall elem_ok (pre ++ ms).
Proof.
  revert pre. induction ns as [|y ns IH]; intros pre Hpre Hok He; [done|].
  assert (clean_path (render pre)) as Hc by (by exists pre).
  destruct (decide (ns = [])) as [->|Hn].
  - cbn [entry_at] in He. destruct (find_entry y (ListDir t (render pre))) as [e'|] eqn:Hf; [|done].
    injection He as ->. apply find_entry_Some in Hf as [Hin <-]. exists []. rewrite app_nil_r.
    by rewrite ListDir_clean in Hin.
  - rewrite entry_at_cons in He by done. destruct (find_entry y (ListDir t (render pre))) as [d|] eqn:Hf; [|done].
    apply find_entry_Some in Hf as [Hin Hy]. simpl in He. destruct (EntryFile d) eqn:Hd; [done|].
    rewrite ListDir_clean in Hin by done. rewrite render_snoc in He by done.
    assert (Forall elem_ok (pre ++ [y])) as Hok'.
    { assert (MkDirEntry y None ∈ dir_entries t (render pre)) as Hin' by (destruct d; simpl in *; by subst).
      apply (wk_subdirs _ (mb_walk _ Ht)) in Hin' as (q & Hq & Hq1 & Hdir & Hbase).
      2: { intros Hr. change "/"%string with (render []) in Hr. by apply render_inj in Hr. }
      pose proof (wk_clean _ (mb_walk _ Ht) q Hq) as [->|(l & x & Hl & -> & Hd' & Hb)]%clean_path_cases; [done|].
      rewrite Hd' in Hdir. rewrite Hb in Hbase. subst x. apply Forall_app in Hl as [Hl Hx].
      apply render_inj in Hdir; [|done|done]. subst l. by apply Forall_app. }
    destruct (IH (pre ++ [y])) as (ms & -> & Hin2 & Hok2); [by destruct pre|done|done|].
    exists (y :: ms). by rewrite <- app_assoc in Hin2, Hok2.
Qed.

End paths.

(** Going up from a rendered path. *)
Lemma ancestor_render n p l :
  Forall elem_ok l -> ancestor n p (render l) -> exists k, p = render (take k l).
Proof.
  intros Hl. revert p. induction n as [|n IH]; intros p Ha.
  - exists (length l). by rewrite take_ge.
  - unfold ancestor in Ha. simpl in Ha. destruct (IH _ eq_refl) as [k Hk]. rewrite Hk in Ha. subst p.
    assert (Forall elem_ok (take k l)) as Htk by (by apply Forall_take).
    destruct (take k l) as [|x l0 _] eqn:Hx using rev_ind; [by exists O|].
    rewrite Dir_render by done. exists (length l0). f_equal.
    assert (l0 `prefix_of` l) as [l1 ->].
    { exists ([x] ++ drop k l). rewrite app_assoc, <- Hx. symmetry. apply take_drop. }
    by rewrite take_app_length.
Qed.

(** ** The places of a library *)

Definition is_series (f : File) : bool :=
  bool_decide (f_MediaType f = MediaSeries) || bool_decide (f_MediaType f = MediaAnime).

(** The elements of the directory of a titled file, and the path of the file. *)
Definition tf_elems (tf : string * File) : list string :=
  if is_series tf.2 then ["series"; tf.1; "Season " +:+ pretty (extractSeason (f_Name tf.2))]
  else ["movies"; tf.1].

Definition tf_path (tf : string * File) : list string := tf_elems tf ++ [tf_name tf].
Definition tf_all_path (tf : string * File) : list string := ["all"; tf.1; tf_name tf].

Lemma elem_ok_name (x : string) : bool_decide (elem_ok x) = true -> elem_ok x.
Proof. apply bool_decide_eq_true. Qed.

Lemma tf_elems_ok tf : elem_ok tf.1 -> Forall elem_ok (tf_elems tf).
Proof.
  intros Ht. unfold tf_elems. destruct (is_series tf.2); repeat apply Forall_cons_2; try apply Forall_nil_2;
    first [exact Ht|apply season_elem_ok|by apply elem_ok_name].
Qed.

Lemma file_dir_series title f :
  file_dir title f = if is_series f then path_Join ["/series"; title; "Season " +:+ pretty (extractSeason (f_Name f))]
                     else path_Join ["/movies"; title].
Proof.
  unfold file_dir, is_series. generalize (extractSeason (f_Name f)). intros z.
  destruct (decide (f_MediaType f = EmptyString)) as [->|He]; [done|]. rewrite (bool_decide_false _ He).
  destruct (decide (f_MediaType f = MediaAnime)) as [->|Ha]; [done|]. rewrite !(bool_decide_false _ Ha).
  by rewrite orb_false_r.
Qed.

Lemma tf_dir_elems tf : elem_ok tf.1 -> tf_dir tf = render (tf_elems tf).
Proof.
  intros Ht. rewrite <- (Clean_render _ (tf_elems_ok tf Ht)). unfold tf_dir, tf_elems.
  rewrite file_dir_series. by destruct (is_series tf.2).
Qed.

(** The directories files are placed in: three elements for a series, else two. *)
Definition place_shape (l : list string) : Prop :=
  match l with
  | [] => False
  | c :: _ => length l = if decide (c = "series") then 3%nat else 2%nat
  end.

Lemma shape_prefix l k : place_shape l -> place_shape (take k l) -> take k l = l.
Proof.
  intros Hl Hk. destruct l as [|c l]; [done|]. destruct k as [|k]; [done|]. cbn [take] in *.
  unfold place_shape in *. f_equal. apply take_ge. rewrite <- Hl in Hk. simpl in Hk. rewrite length_take in Hk. lia.
Qed.

Section library.
Context (ds : list Download) (allDir : bool) (Hlib : library_ok (titled_files ds)).

Lemma title_ok tf : tf ∈ titled_files ds -> elem_ok tf.1.
Proof. intros Hin. pose proof (lk_titles _ Hlib) as H. rewrite Forall_forall in H. by apply H. Qed.

Lemma name_ok tf : tf ∈ titled_files ds -> elem_ok (tf_name tf).
Proof. intros Hin. pose proof (lk_names _ Hlib) as H. rewrite Forall_forall in H. by apply H. Qed.

(** Each placement is a file at its path, or the same file under [/all]. *)
Lemma placement_cases p e :
  (p, e) ∈ placements ds allDir ->
  exists tf l, tf ∈ titled_files ds /\ e = file_entry tf.2 /\ p = render l /\ Forall elem_ok l /\ place_shape l /\
    (l = tf_elems tf \/ (allDir = true /\ l = ["all"; tf.1])).
Proof.
  rewrite library_placements by done. rewrite elem_of_app. intros [Hin|Hin].
  - apply list_elem_of_fmap in Hin as (tf & [= -> ->] & Hin). exists tf, (tf_elems tf).
    pose proof (title_ok tf Hin) as Ht. rewrite tf_dir_elems by done.
    split_and!; try done; [by apply tf_elems_ok| |by left]. unfold tf_elems. by destruct (is_series tf.2).
  - destruct allDir; [|by apply not_elem_of_nil in Hin].
    apply list_elem_of_fmap in Hin as (tf & [= -> ->] & Hin). exists tf, ["all"; tf.1].
    pose proof (title_ok tf Hin) as Ht. rewrite all_dir_render by done.
    split_and!; try done; [|by right]. repeat apply Forall_cons_2; [by apply elem_ok_name|done|apply Forall_nil_2].
Qed.

Lemma tf_placed tf : tf ∈ titled_files ds -> (render (tf_elems tf), file_entry tf.2) ∈ placements ds allDir.
Proof.
  intros Hin. rewrite library_placements by done. apply elem_of_app. left.
  rewrite <- tf_dir_elems by (by apply title_ok). by apply (list_elem_of_fmap_2 tf_place).
Qed.

(** In the directory of a file, names are unique. *)
Lemma name_in_dir tf e :
  tf ∈ titled_files ds -> (render (tf_elems tf), e) ∈ placements ds allDir -> Name e = tf_name tf ->
  e = file_entry tf.2.
Proof.
  intros Hin Hp Hn. apply placement_cases in Hp as (tf' & l & Hin' & -> & Heq & Hl & _ & Hcase).
  apply render_inj in Heq; [|by apply tf_elems_ok, title_ok|done]. subst l.
  destruct Hcase as [He|[_ He]]; [|unfold tf_elems in He; by destruct (is_series tf.2)].
  f_equal. assert (tf' = tf) as ->; [|done]. pose proof (lk_places _ Hlib) as Hnd.
  apply (NoDup_fmap_inj (fun tf => (tf_dir tf, tf_name tf)) (titled_files ds)); [done..|].
  rewrite !tf_dir_elems, He by (by apply title_ok). by f_equal.
Qed.

Context (t : Tree) (Hnav : navigable (apply_additions (placements ds allDir) ∅) t).
Context (Hfiles : forall p, files_in t p = entries_for p (placements ds allDir)).

Lemma dom_render p : p ∈ dom t -> exists l k, p = render (take k l) /\ Forall elem_ok l /\ place_shape l.
Proof.
  intros Hp. apply (nv_above _ _ Hnav) in Hp as (n & q & Hq & Ha).
  rewrite dom_placed in Hq. unfold vplaced in Hq. rewrite <- list_fmap_compose in Hq.
  apply list_elem_of_fmap in Hq as ([q' e] & -> & Hq). cbn in Ha.
  apply placement_cases in Hq as (tf & l & _ & _ & -> & Hl & Hsh & _).
  destruct (ancestor_render n p l Hl Ha) as [k ->]. by exists l, k.
Qed.

(** A directory has files or subdirectories, not both. *)
Lemma files_no_subdirs p e x :
  e ∈ files_in t p -> MkDirEntry x None ∈ subdirs_in t p -> False.
Proof.
  intros He Hx. apply (nv_subdirs _ _ Hnav) in Hx as (q & Hq & Hq1 & Hd & _).
  destruct (dom_render q Hq) as (l & k & -> & Hl & Hsh).
  assert (Forall elem_ok (take k l)) as Htk by (by apply Forall_take).
  destruct (take k l) as [|y l0 _] eqn:Hk using rev_ind; [done|].
  rewrite Dir_render in Hd by done. subst p. rewrite Hfiles in He. apply elem_of_entries_for in He.
  apply placement_cases in He as (tf & l' & _ & _ & Heq & Hl' & Hsh' & _).
  apply Forall_app in Htk as [Hl0 _]. apply render_inj in Heq; [|done|done]. subst l'.
  assert (l0 = take (length l0) l) as E.
  { assert (take (length l0) (take k l) = l0) as E by (rewrite Hk; apply take_app_length).
    rewrite take_take in E. assert (length l0 < length (take k l))%nat as Hlt by (rewrite Hk, length_app; simpl; lia).
    rewrite length_take in Hlt. by rewrite Nat.min_l in E by lia. }
  rewrite E in Hsh'. apply shape_prefix in Hsh'; [|done]. rewrite Hsh' in E.
  assert (length (take k l) = length l0 + 1)%nat as Hlen by (by rewrite Hk, length_app).
  rewrite length_take, E in Hlen. lia.
Qed.

Lemma library_apart p : subdirs_apart (dir_entries t p).
Proof.
  destruct (files_in t p) as [|e l] eqn:Hf.
  - apply only_subdirs_apart.
    + rewrite dir_entries_split, Hf, app_nil_r. apply Hnav.
    + intros e He. rewrite dir_entries_split, Hf, app_nil_r in He. by apply list_elem_of_filter in He as [? _].
  - apply no_subdirs_apart. intros e' He' Hn. apply (files_no_subdirs p e (Name e')).
    + rewrite Hf. by left.
    + apply list_elem_of_filter. by destruct e'; simpl in *; subst.
Qed.

(** ** The visible library *)

Context `{SS : SliceSort} (hidden : gset string) (t' : Tree) (Hto : hides_to (sort_dirs t) hidden t').

Lemma shown_apart p : subdirs_apart (dir_entries t' p).
Proof.
  destruct (ht_sub _ _ _ Hto p) as [gone Hg]. rewrite dir_entries_sort in Hg.
  apply (subdirs_apart_sub (dir_entries t p) _ gone); [done|apply library_apart].
Qed.

Lemma shown_unique : dirs_unique t'.
Proof. apply dirs_unique_apart, shown_apart. Qed.

(** The files of the shown tree. *)
Lemma shown_file p e :
  EntryFile e <> None -> e ∈ dir_entries t' p <-> (p, e) ∈ placements ds allDir /\ ~ hidden_entry hidden e.
Proof.
  intros He. rewrite (ht_files _ _ _ Hto p e He), dir_entries_sort, <- elem_of_entries_for, <- Hfiles.
  unfold files_in. rewrite list_elem_of_filter. unfold is_subdir. tauto.
Qed.

Definition visible (tf : string * File) : Prop := tf ∈ titled_files ds /\ tf_key tf ∉ hidden.

Lemma visible_not_hidden tf : tf_key tf ∉ hidden <-> ~ hidden_entry hidden (file_entry tf.2).
Proof. done. Qed.

(** Each visible file is the entry at its path; a hidden one has none. *)
Lemma visible_at tf cat rest :
  tf ∈ titled_files ds -> tf_elems tf = cat :: rest ->
  entry_at t' (render [cat]) (rest ++ [tf_name tf]) =
    if decide (tf_key tf ∈ hidden) then None else Some (file_entry tf.2).
Proof.
  intros Hin Hel. pose proof (tf_elems_ok tf (title_ok tf Hin)) as Hok. rewrite Hel in Hok.
  assert (forall e, e ∈ dir_entries t' (render (cat :: rest)) -> Name e = tf_name tf ->
            e = file_entry tf.2 /\ tf_key tf ∉ hidden) as Hat.
  { intros e He Hn. destruct (EntryFile e) as [f|] eqn:Hf.
    - apply shown_file in He as [He Hh]; [|by rewrite Hf]. rewrite <- Hel in He.
      apply (name_in_dir tf e) in He; [|done|done]. by subst e.
    - exfalso. destruct (ht_sub _ _ _ Hto (render (cat :: rest))) as [gone Hg]. rewrite dir_entries_sort in Hg.
      assert (e ∈ dir_entries t (render (cat :: rest))) as He' by (rewrite Hg; apply elem_of_app; by left).
      apply (files_no_subdirs (render (cat :: rest)) (file_entry tf.2) (Name e)).
      + rewrite Hfiles. apply elem_of_entries_for. rewrite <- Hel. by apply tf_placed.
      + apply list_elem_of_filter. by destruct e; simpl in *; subst. }
  destruct (decide (tf_key tf ∈ hidden)) as [Hh|Hh].
  - destruct (entry_at t' (render [cat]) (rest ++ [tf_name tf])) as [e|] eqn:He; [|done]. exfalso.
    apply (entry_at_elem t' (ht_mountable _ _ _ Hto)) in He as (ms & Hms & Hin2 & _); [|done|].
    2: { apply Forall_cons in Hok as [? _]. by constructor. }
    apply app_inj_tail in Hms as [<- Hn]. by destruct (Hat e Hin2 (eq_sym Hn)).
  - assert (file_entry tf.2 ∈ dir_entries t' (render ([cat] ++ rest))) as Hf.
    { apply shown_file; [done|]. split; [cbn [app]; rewrite <- Hel; by apply tf_placed|done]. }
    refine (entry_at_reach t' (ht_mountable _ _ _ Hto) rest [cat] (file_entry tf.2) shown_apart _ Hok Hf _); [done|].
    intros e' He' Hn. by apply Hat.
Qed.

(** Whatever the tree has below a category leads to a visible file. *)
Lemma entry_leads_to_file cat ns e :
  elem_ok cat -> entry_at t' (render [cat]) ns = Some e ->
  exists tf, visible tf /\ ((cat :: ns) `prefix_of` tf_path tf \/ (allDir = true /\ (cat :: ns) `prefix_of` tf_all_path tf)).
Proof.
  intros Hc He. apply (entry_at_elem t' (ht_mountable _ _ _ Hto)) in He as (ms & -> & Hin & Hok); [|done|by constructor].
  cbn [app] in Hin, Hok.
  assert (forall tf l, (l = tf_elems tf \/ (allDir = true /\ l = ["all"; tf.1])) ->
    forall k, l `prefix_of` k -> k = l ++ [tf_name tf] ->
      forall pre, pre `prefix_of` k -> pre `prefix_of` tf_path tf \/ (allDir = true /\ pre `prefix_of` tf_all_path tf)) as Hpath.
  { intros tf l [->|[Ha ->]] k _ -> pre Hp; [by left|by right]. }
  destruct (EntryFile e) as [f|] eqn:Hf.
  - apply shown_file in Hin as [Hin Hh]; [|by rewrite Hf].
    apply placement_cases in Hin as (tf & l & Htf & -> & Heq & Hl & _ & Hcase).
    apply render_inj in Heq; [|done|done]. subst l. exists tf. split; [by split|].
    apply (Hpath tf (cat :: ms) Hcase (cat :: ms ++ [tf_name tf])); [by exists [tf_name tf]|done|done].
  - assert (MkDirEntry (Name e) None ∈ dir_entries t' (render (cat :: ms))) as Hin' by (destruct e; simpl in *; by subst).
    apply (wk_subdirs _ (mb_walk _ (ht_mountable _ _ _ Hto))) in Hin' as (q & Hq & Hq1 & Hdir & Hbase).
    2: { intros Hr. change "/"%string with (render []) in Hr. by apply render_inj in Hr. }
    assert (exists n q0 e0, (q0, e0) ∈ placements ds allDir /\ ancestor n q q0 /\ ~ hidden_entry hidden e0)
      as (n & q0 & e0 & H0 & Ha & Hh).
    { destruct (decide (hidden = ∅)) as [->|Hne].
      - assert (q ∈ dom t) as Hqt by (apply (ht_dom _ _ _ Hto) in Hq; by rewrite dom_sort in Hq).
        apply (nv_above _ _ Hnav) in Hqt as (n & q0 & Hq0 & Ha). rewrite dom_placed in Hq0. unfold vplaced in Hq0.
        rewrite <- list_fmap_compose in Hq0. apply list_elem_of_fmap in Hq0 as ([q' e'] & -> & Hq0).
        exists n, q', e'. split_and!; [done|done|]. unfold hidden_entry. destruct (EntryFile e'); set_solver.
      - apply (ht_visible _ _ _ Hto q Hq1 Hq) in Hne as (n & q0 & e0 & He0 & Ha & Hf0 & Hh).
        exists n, q0, e0. split_and!; [|done|done]. rewrite dir_entries_sort in He0. rewrite <- elem_of_entries_for, <- Hfiles.
        by apply list_elem_of_filter. }
    apply placement_cases in H0 as (tf & l & Htf & -> & -> & Hl & _ & Hcase). exists tf. split; [by split|].
    destruct (ancestor_render n q l Hl Ha) as [k ->].
    pose proof (wk_clean _ (mb_walk _ (ht_mountable _ _ _ Hto)) _ Hq) as Hcl.
    assert (Forall elem_ok (take k l)) as Htk by (by apply Forall_take).
    destruct (take k l) as [|y l0 _] eqn:Hk using rev_ind; [done|].
    rewrite Dir_render in Hdir by done. rewrite Base_render in Hbase by done. subst y.
    apply Forall_app in Htk as [Hl0 _]. apply render_inj in Hdir; [|done|done]. subst l0.
    apply (Hpath tf l Hcase (l ++ [tf_name tf])); [by apply prefix_app_r|done|].
    change (cat :: ms ++ [Name e]) with ((cat :: ms) ++ [Name e]). rewrite <- Hk. apply prefix_app_r.
    exists (drop k l). symmetry. apply take_drop.
Qed.

End library.
