(* ===== verification/Window.v ===== *)
(** * internal/stream: inflight windows and file sessions (reader.go)

    The two objects the stream reader's goroutines share by pointer, with the code
    that works on one of them at a time: the access-pattern bookkeeping of
    [fileSession], and the buffer of an [inflightWindow] under its [readyCond]
    lock.  An [atomic.Int32] counter wraps at 32 bits. *)
From S2P Require Import Prelude Metrics Errors Cache.
From Stdlib Require Import Strings.Byte.
Open Scope Z_scope.
Open Scope go_scope.

(** ** Constants *)

Definition maxRetries : Z := 3.
Definition maxBackoff : Z := 30 * Second.
Definition readChunkSize : Z := 32 * 1024.
Definition smallReadThreshold : Z := 256 * 1024.
Definition sequentialReadWindow : Z := 4 * 1024 * 1024.
Definition sequentialReadsRequired : Z := 1.
Definition activeReadThreshold : Z := 4.
Definition recentReadTTL : Z := 5 * Second.
Definition budgetPriorityThreshold : Z := 16 * 1024.

(** ** Sessions *)

Record fileSession := MkSession {
  lastSeek : Z;
  lastReadOff : Z;
  sequentialReads : Z;
  randomReads : Z;
  recentReads : Z;
  lastReadTime : Z;
  lastKnownFileSize : Z
}.

Definition new_session : fileSession := MkSession 0 0 0 0 0 0 0.

Definition set_lastSeek (t : Z) (s : fileSession) : fileSession :=
  MkSession t (lastReadOff s) (sequentialReads s) (randomReads s) (recentReads s)
    (lastReadTime s) (lastKnownFileSize s).
Definition set_pattern (lro seq rnd : Z) (s : fileSession) : fileSession :=
  MkSession (lastSeek s) lro seq rnd (recentReads s) (lastReadTime s) (lastKnownFileSize s).

Definition updateAccessPattern (off size : Z) (s : fileSession) : fileSession :=
  let lastOff := lastReadOff s in
  let seq := sequentialReads s in
  let rnd := randomReads s in
  if lastOff =? 0 then
    set_pattern (off +w size) (if off =? 0 then wrap32 (seq + 1) else seq) rnd s
  else if (lastOff -w sequentialReadWindow <=? off) && (off <=? lastOff +w sequentialReadWindow) then
    set_pattern (off +w size) (wrap32 (seq + 1)) rnd s
  else set_pattern (off +w size) 0 (wrap32 (rnd + 1)) s.

Definition isSequential (s : fileSession) : bool := sequentialReadsRequired <=? sequentialReads s.

(** The three statements of [ReadAt] after [updateAccessPattern]. *)
Definition note_read (now fileSize : Z) (s : fileSession) : fileSession :=
  MkSession (lastSeek s) (lastReadOff s) (sequentialReads s) (randomReads s)
    (wrap32 (recentReads s + 1)) now
    (if lastKnownFileSize s <? fileSize then fileSize else lastKnownFileSize s).

Definition computeCachePriority (now : Z) (s : fileSession) : Z :=
  if isSequential s && (activeReadThreshold <=? recentReads s) then
    if since now (lastReadTime s) <? recentReadTTL then PriorityHigh else PriorityLow
  else PriorityLow.

Definition computeBudgetPriority (now : Z) (s : fileSession) (readSize : Z) : Z :=
  if computeCachePriority now s =? PriorityHigh then PriorityHigh
  else if budgetPriorityThreshold <? readSize then PriorityHigh
  else PriorityLow.

(** The test of [ReadAt] that sends a read past the window system. *)
Definition small_read_applies (s : fileSession) (size : Z) : bool :=
  (size <=? smallReadThreshold) && (0 <? randomReads s) && negb (isSequential s).

(** ** Windows *)

Record inflightKey := InflightKey { ik_fileKey : string; ik_start : Z }.

#[export] Instance inflightKey_eq_dec : EqDecision inflightKey.
Proof. solve_decision. Defined.

#[export] Instance inflightKey_countable : Countable inflightKey.
Proof.
  by refine (inj_countable' (fun k => (ik_fileKey k, ik_start k)) (fun p => InflightKey p.1 p.2) _);
    intros [].
Defined.

(** [win_cancelled] is the state of the context behind [cancelFunc]. *)
Record inflightWindow := MkWindow {
  win_key : inflightKey;
  win_buf : list byte;
  win_readyTo : Z;
  win_total : Z;
  win_err : option go_err;
  win_done : bool;
  win_cancelled : bool;
  win_waiters : Z;
  win_fileSize : Z
}.

Definition new_window (ik : inflightKey) (fileSize : Z) : inflightWindow :=
  MkWindow ik [] 0 0 None false false 0 fileSize.

Definition set_buf (b : list byte) (ready total : Z) (w : inflightWindow) : inflightWindow :=
  MkWindow (win_key w) b ready total (win_err w) (win_done w) (win_cancelled w) (win_waiters w)
    (win_fileSize w).
Definition set_err (e : go_err) (w : inflightWindow) : inflightWindow :=
  MkWindow (win_key w) (win_buf w) (win_readyTo w) (win_total w) (Some e) (win_done w)
    (win_cancelled w) (win_waiters w) (win_fileSize w).
Definition set_done (w : inflightWindow) : inflightWindow :=
  MkWindow (win_key w) (win_buf w) (win_readyTo w) (win_total w) (win_err w) true
    (win_cancelled w) (win_waiters w) (win_fileSize w).
Definition set_cancelled (w : inflightWindow) : inflightWindow :=
  MkWindow (win_key w) (win_buf w) (win_readyTo w) (win_total w) (win_err w) (win_done w)
    true (win_waiters w) (win_fileSize w).
Definition add_waiters (d : Z) (w : inflightWindow) : inflightWindow :=
  MkWindow (win_key w) (win_buf w) (win_readyTo w) (win_total w) (win_err w) (win_done w)
    (win_cancelled w) (wrap32 (win_waiters w + d)) (win_fileSize w).

(** The start of a retry: the partial data of the previous attempt is dropped. *)
Definition reset_window (w : inflightWindow) : inflightWindow := set_buf [] 0 0 w.

(** One chunk of [streamInto], [bufOff + totalRead] bytes after the window's start. *)
Definition append_chunk (bufOff totalRead : Z) (chunk : list byte) (w : inflightWindow)
  : inflightWindow :=
  let b := win_buf w ++ chunk in
  set_buf b ((bufOff +w totalRead) +w len64 chunk) (len64 b) w.

(** One round of the wait loop of [waitForBytes] and, when it ends, what follows it.
    [WBeyond]: the slice [buf[offInWin:offInWin+avail]] ends past [len(buf)]. *)
Inductive wait_outcome :=
| WBlock
| WErr (e : go_err)
| WData (bs : list byte)
| WBeyond (offInWin avail : Z).

Definition waitForBytes (ctx : option go_err) (w : inflightWindow) (off len : Z) : wait_outcome :=
  match ctx with
  | Some e => WErr e
  | None =>
      let offInWin := off -w ik_start (win_key w) in
      let needed := offInWin +w len in
      if (needed <=? win_readyTo w) || win_done w then
        match win_err w with
        | Some e => WErr (Wrapf "stream window fetch" e)
        | None =>
            let avail := win_readyTo w -w offInWin in
            if avail <=? 0 then
              WErr (Errorf ("stream window: no data available at offset " +:+ fmt_d off))
            else
              let avail := if len <? avail then len else avail in
              if offInWin +w avail <=? len64 (win_buf w) then
                WData (take (Z.to_nat avail) (drop (Z.to_nat offInWin) (win_buf w)))
              else WBeyond offInWin avail
        end
      else WBlock
  end.

(** Slicing past [len(buf)] reaches into the spare capacity of the array, whose content
    [spare] is arbitrary; past [cap(buf)] it panics, which stays [WBeyond]. *)
Definition slice_buf (spare : list byte) (w : inflightWindow) (out : wait_outcome) : wait_outcome :=
  match out with
  | WBeyond o n =>
      let bs := take (Z.to_nat n) (drop (Z.to_nat o) (win_buf w ++ spare)) in
      if len64 bs =? n then WData bs else out
  | _ => out
  end.

(** Backoff before attempt number [attempt] (from 1): [1 << (attempt-1)] seconds, capped. *)
Definition backoff (attempt : Z) : Z :=
  let b := Z.shiftl 1 (attempt - 1) * Second in
  if maxBackoff <? b then maxBackoff else b.

(** ** Lemmas *)

Lemma computeBudgetPriority_range now s n :
  computeBudgetPriority now s n = PriorityLow \/ computeBudgetPriority now s n = PriorityHigh.
Proof. unfold computeBudgetPriority. repeat case_match; auto. Qed.

Lemma set_done_key w : win_key (set_done w) = win_key w.
Proof. done. Qed.
