(* ===== verification/RangeStore.v ===== *)
(** * What the stream reader relies on from the range cache

    [RangeStore] is the interface between the stream reader and the cache: the
    methods of [*cache.RangeCache] it calls.  [RangeStoreLaws] is what its theorems use.
    A well-formed store stays so, never hits without a byte, and inserting never blocks;
    and, for the true contents [F] of the remote files, a store all of whose inserted
    blocks were slices of the files hands back slices of the files.  CacheStore.v proves
    that the range cache keeps the promise. *)
From S2P Require Import Prelude Cache.
From Stdlib Require Import Strings.Byte.
Open Scope Z_scope.

(** [rs_copyTo] returns the store, the destination buffer and [Some n] on a hit;
    [None] from [rs_put] is an insertion that does not terminate. *)
Class RangeStore (store : Type) := {
  rs_copyTo : string -> Z -> list byte -> Z -> store -> store * list byte * option Z;
  rs_cachedPrefixLen : string -> Z -> store -> option Z;
  rs_putWithPriority : string -> Z -> list byte -> Z -> Z -> store -> option store;
  rs_fileBlocks : string -> store -> list BlockInfo;
  rs_allFileKeys : store -> list string
}.

(** Sizes that keep every offset computation away from overflow. *)
Definition max_offset : Z := 2 ^ 62.

(** [rs_wf s]: the store is well formed.  [rs_good F s]: it is, and every block is a
    slice of its file in [F]. *)
Class RangeStoreLaws (store : Type) `{RangeStore store} := {
  rs_wf : store -> Prop;
  rs_good : (string -> Z -> byte) -> store -> Prop;
  rs_good_wf : forall F s, rs_good F s -> rs_wf s;
  rs_copyTo_wf : forall fk off dst now s s' dst' r,
    rs_wf s -> in_int64 off -> rs_copyTo fk off dst now s = (s', dst', r) ->
    rs_wf s' /\ length dst' = length dst /\ (forall n, r = Some n -> 0 < n <= len64 dst);
  rs_copyTo_good : forall F fk off dst now s s' dst' r,
    rs_good F s -> in_int64 off -> rs_copyTo fk off dst now s = (s', dst', r) ->
    rs_good F s' /\ (forall n, r = Some n -> slice_of F fk off (take (Z.to_nat n) dst'));
  rs_copyTo_bounds : forall fk off dst now s s' dst' n,
    rs_copyTo fk off dst now s = (s', dst', Some n) ->
    0 <= n <= len64 dst /\ length dst' = length dst;
  rs_put_wf : forall fk st data prio now s,
    rs_wf s -> 0 <= st -> st + len64 data <= max_offset ->
    exists s', rs_putWithPriority fk st data prio now s = Some s' /\ rs_wf s';
  rs_put_good : forall F fk st data prio now s s',
    rs_good F s -> 0 <= st -> st + len64 data <= max_offset -> slice_of F fk st data ->
    rs_putWithPriority fk st data prio now s = Some s' -> rs_good F s'
}.

(** ** Slices of a file *)

Lemma slice_of_nil F fk st : slice_of F fk st [].
Proof. by intros i x. Qed.

Lemma slice_of_app F fk st l1 l2 :
  slice_of F fk st (l1 ++ l2) <-> slice_of F fk st l1 /\ slice_of F fk (st + len64 l1) l2.
Proof.
  split.
  - intros Hs. split; intros i x Hi.
    + apply Hs. by apply lookup_app_l_Some.
    + specialize (Hs (length l1 + i)%nat x). rewrite lookup_app_r in Hs by lia.
      rewrite (Hs ltac:(by replace (length l1 + i - length l1)%nat with i by lia)).
      f_equal. unfold len64. lia.
  - intros [H1 H2] i x Hi. destruct (decide (i < length l1)%nat) as [Hlt|Hge].
    + apply H1. by rewrite lookup_app_l in Hi.
    + rewrite lookup_app_r in Hi by lia. rewrite (H2 _ _ Hi). f_equal. unfold len64. lia.
Qed.

Lemma slice_of_take F fk st n l : slice_of F fk st l -> slice_of F fk st (take n l).
Proof. intros Hs i x Hi. apply lookup_take_Some in Hi as [Hi _]. by apply Hs. Qed.

Lemma slice_of_drop F fk st n l :
  slice_of F fk st l -> slice_of F fk (st + Z.of_nat n) (drop n l).
Proof. intros Hs i x Hi. rewrite lookup_drop in Hi. rewrite (Hs _ _ Hi). f_equal. lia. Qed.

Lemma len64_app l1 l2 : len64 (l1 ++ l2) = len64 l1 + len64 l2.
Proof. unfold len64. rewrite length_app. lia. Qed.

Lemma len64_nonneg l : 0 <= len64 l.
Proof. unfold len64. lia. Qed.

Lemma len64_pos l : l <> [] -> 0 < len64 l.
Proof. destruct l; [done|]. unfold len64. simpl. lia. Qed.

Lemma len64_take n l : len64 (take (Z.to_nat n) l) = Z.min (Z.max 0 n) (len64 l).
Proof. unfold len64. rewrite length_take. lia. Qed.

Lemma len64_drop n l : len64 (drop (Z.to_nat n) l) = Z.max 0 (len64 l - Z.max 0 n).
Proof. unfold len64. rewrite length_drop. lia. Qed.
