(* ===== verification/CacheStore.v ===== *)
(** * The range cache keeps the stream reader's interface

    [RangeCache] with its methods is a [RangeStore], and, for a budget that is not
    negative and below [max_offset], it satisfies [RangeStoreLaws]: every call is one
    step of the cache, and the cache's invariants are kept by its steps. *)
From S2P Require Import Prelude Metrics Cache RangeStore.
From Stdlib Require Import Strings.Byte.
Open Scope Z_scope.

#[export] Instance cache_store `{MapIter} `{SliceSort} : RangeStore RangeCache := {|
  rs_copyTo := CopyTo;
  rs_cachedPrefixLen := CachedPrefixLen;
  rs_putWithPriority := PutWithPriority;
  rs_fileBlocks := FileBlocks;
  rs_allFileKeys := AllFileKeys
|}.

Record cache_ok (rc : RangeCache) : Prop := {
  ck_inv : cache_inv rc;
  ck_budget : 0 <= budget rc < max_offset
}.

Record cache_good (F : string -> Z -> byte) (rc : RangeCache) : Prop := {
  cg_ok : cache_ok rc;
  cg_coherent : coherent F rc
}.

Section laws.
Context `{MapIter} `{SliceSort}.

Lemma cache_step_ok P rc rc' : cache_ok rc -> cache_step P rc rc' -> cache_ok rc'.
Proof.
  intros [Hi Hb] Hst. destruct (cache_step_inv P rc rc' Hi ltac:(lia) Hst) as [Hi' Hb'].
  split; [done|lia].
Qed.

Lemma cache_step_good F rc rc' : cache_good F rc -> cache_step (slice_of F) rc rc' -> cache_good F rc'.
Proof.
  intros [Hok Hco] Hst. split; [by apply (cache_step_ok (slice_of F) rc)|]. destruct Hok as [Hi Hb].
  by apply (coherent_step F rc); [..|lia| |].
Qed.

Lemma cache_copyTo_ok fk off dst now rc rc' dst' r :
  cache_ok rc -> in_int64 off -> CopyTo fk off dst now rc = (rc', dst', r) ->
  cache_ok rc' /\ length dst' = length dst /\ (forall n, r = Some n -> 0 < n <= len64 dst).
Proof.
  intros Hok Ho Hc. split.
  { apply (cache_step_ok (fun _ _ _ => True) rc); [done|by eapply step_copy]. }
  destruct Hok as [[Hwf Hacc _] _]. apply CopyTo_spec in Hc as [_ Hr]; [|done..].
  destruct r as [n|]; [|by destruct Hr as (_ & -> & _)]. destruct Hr as (Hn & k & b & Hcp).
  pose proof (cp_n _ _ _ _ _ _ _ _ _ _ Hcp). pose proof (cp_in _ _ _ _ _ _ _ _ _ _ Hcp).
  split; [apply (cp_len _ _ _ _ _ _ _ _ _ _ Hcp)|]. intros m [= <-]. unfold len64. lia.
Qed.

Lemma cache_copyTo_good F fk off dst now rc rc' dst' r :
  cache_good F rc -> in_int64 off -> CopyTo fk off dst now rc = (rc', dst', r) ->
  cache_good F rc' /\ (forall n, r = Some n -> slice_of F fk off (take (Z.to_nat n) dst')).
Proof.
  intros Hg Ho Hc. split; [by eapply cache_step_good; [|eapply step_copy]|].
  destruct Hg as [[[Hwf Hacc _] _] Hco]. apply CopyTo_spec in Hc as [_ Hr]; [|done..].
  intros n ->. destruct Hr as (Hn & k & b & Hcp).
  pose proof (cp_n _ _ _ _ _ _ _ _ _ _ Hcp). pose proof (cp_in _ _ _ _ _ _ _ _ _ _ Hcp).
  rewrite (cp_bytes _ _ _ _ _ _ _ _ _ _ Hcp). apply slice_of_take.
  rewrite <- (cp_key _ _ _ _ _ _ _ _ _ _ Hcp).
  replace off with (start k + Z.of_nat (Z.to_nat (off - start k))) at 1 by lia.
  apply slice_of_drop, Hco, (cp_block _ _ _ _ _ _ _ _ _ _ Hcp).
Qed.

Lemma cache_copyTo_bounds fk off dst now rc rc' dst' n :
  CopyTo fk off dst now rc = (rc', dst', Some n) ->
  0 <= n <= len64 dst /\ length dst' = length dst.
Proof.
  unfold CopyTo, go_copy. case_bool_decide; [done|].
  destruct (List.find _ _) as [[i [k b]]|]; [|done]. intros [= <- <- <-]. unfold len64.
  rewrite length_app, length_take, !length_drop. lia.
Qed.

(** An insertion that returns is a step of the cache; nothing happens without data. *)
Lemma put_step (P : string -> Z -> list byte -> Prop) fk st data prio now rc rc' :
  cache_ok rc -> P fk st data -> 0 <= st -> st + len64 data <= max_offset ->
  PutWithPriority fk st data prio now rc = Some rc' -> rc' = rc \/ cache_step P rc rc'.
Proof.
  intros [Hi Hb] HP Hst Hmax. unfold PutWithPriority, max_offset in *.
  destruct (decide (data = [])) as [->|Hd]; [by intros [= <-]; left|]. intros Hp. right.
  by eapply step_put; [exact HP|lia..|exact Hp].
Qed.

Lemma cache_put_ok fk st data prio now rc :
  cache_ok rc -> 0 <= st -> st + len64 data <= max_offset ->
  exists rc', PutWithPriority fk st data prio now rc = Some rc' /\ cache_ok rc'.
Proof.
  intros Hok Hst Hmax.
  assert (exists rc', PutWithPriority fk st data prio now rc = Some rc') as [rc' Hp].
  { destruct Hok as [Hi Hb]. unfold PutWithPriority. unfold max_offset in *.
    destruct (decide (data = [])) as [->|Hd]; [by exists rc|]. pose proof (len64_nonneg data).
    destruct (putBlock_spec fk st data 0 prio now rc Hi) as (_ & rc' & Hp & _); [lia|done|lia..|].
    by exists rc'. }
  exists rc'. split; [done|].
  destruct (put_step (fun _ _ _ => True) fk st data prio now rc rc') as [->|Hs]; [done..|].
  by apply (cache_step_ok _ rc) in Hs.
Qed.

Lemma cache_put_good F fk st data prio now rc rc' :
  cache_good F rc -> 0 <= st -> st + len64 data <= max_offset -> slice_of F fk st data ->
  PutWithPriority fk st data prio now rc = Some rc' -> cache_good F rc'.
Proof.
  intros Hg Hst Hmax Hs Hp.
  destruct (put_step (slice_of F) fk st data prio now rc rc') as [->|Hstep]; [apply Hg|done..|].
  by apply (cache_step_good F rc).
Qed.

#[export] Instance cache_store_laws : RangeStoreLaws RangeCache := {|
  rs_wf := cache_ok;
  rs_good := cache_good;
  rs_good_wf := cg_ok;
  rs_copyTo_wf := cache_copyTo_ok;
  rs_copyTo_good := cache_copyTo_good;
  rs_copyTo_bounds := cache_copyTo_bounds;
  rs_put_wf := cache_put_ok;
  rs_put_good := cache_put_good
|}.

End laws.

Lemma NewRangeCache_good F b om :
  0 <= b < max_offset -> fresh_metrics om -> cache_good F (NewRangeCache b om).
Proof.
  intros Hb Hm. split; [split; [by apply NewRangeCache_inv; [lia|]|done]|].
  intros k bl Hf. apply bind_Some in Hf as (sh & Hsh & Hk).
  apply lookup_replicate in Hsh as [-> _]. by rewrite lookup_empty in Hk.
Qed.
