(* ===== verification/Stream.v ===== *)
(** * internal/stream: the stream reader's state and operations (reader.go)

    [StreamReader] is the state the goroutines share.  Go's pointers are explicit:
    [sr_inflight] maps a window key to the identity of a window object in
    [sr_windows], and [sr_sessions] a file key to a session object in
    [sr_sess_heap], so that a goroutine that kept a pointer to a window or session
    since removed from the map still works on that object.  [sr_fetchers] holds, for
    each window, where its [fetchWindow] goroutine is; [sr_reads] the running
    [ReadAt] calls.  The functions here are the code's methods; Goroutines.v
    interleaves them. *)
From S2P Require Import Prelude Metrics Errors Cache Semaphore Window RangeStore.
From Stdlib Require Import Strings.Byte.
Open Scope Z_scope.
Open Scope go_scope.

(** ** State *)

Record closedEntry := MkClosed { ce_fileKey : string; ce_fileSize : Z; ce_closedAt : Z }.

(** Where the goroutine of a window is: before [budget.acquire]; inside it; at the
    head of the retry loop; between [CachedPrefixLen] and [CopyTo]; waiting for
    [FetchRange(fetchStart, fetchEnd)]; reading the body of the response to that
    request, [totalRead] bytes of it read; sleeping before attempt [attempt]; finished with
    its delayed cleanup to run; gone. *)
Inductive fetch_pc :=
| FStart (bp : Z)
| FQueued (bp : Z)
| FAttempt (attempt bp cp : Z)
| FPrefix (attempt bp cp cachedLen : Z)
| FRequest (attempt bp cp cachedLen fetchStart fetchEnd : Z)
| FBody (attempt bp cp cachedLen fetchStart fetchEnd totalRead : Z)
| FBackoff (attempt bp cp : Z)
| FCleanup
| FEnd.

(** Where a [ReadAt] call is: at its loop, in [waitForBytes], in the request
    [FetchRange(off, end)] of [smallRead] and its body, returned. *)
Inductive read_pc :=
| RLoop
| RWait (wid : nat) (ws : Z) (sid : nat) (bp : Z)
| RSmall (off end_ : Z)
| RDone (e : option go_err).

#[export] Instance read_pc_eq_dec : EqDecision read_pc.
Proof. solve_decision. Defined.

(** [rd_data] are the bytes of [p] filled so far and [rd_rem] is the local [rem]. *)
Record reader := MkReader {
  rd_file : string;
  rd_off : Z;
  rd_len : Z;
  rd_fileSize : Z;
  rd_cur : Z;
  rd_data : list byte;
  rd_rem : list byte;
  rd_ctx : option go_err;
  rd_pc : read_pc
}.

Record StreamReader (store : Type) := MkSR {
  sr_cache : store;
  sr_windowSize : Z;
  sr_maxInflight : Z;
  sr_budget : sem;
  sr_metrics : option Metrics;
  sr_inflight : gmap inflightKey nat;
  sr_windows : gmap nat inflightWindow;
  sr_fetchers : gmap nat fetch_pc;
  sr_sessions : gmap string nat;
  sr_sess_heap : gmap nat fileSession;
  sr_readers : gmap string (gmap Z Z);
  sr_recentlyClosed : gmap string closedEntry;
  sr_reads : gmap nat reader;
  sr_next : nat
}.
Arguments MkSR {store}.
Arguments sr_cache {store}. Arguments sr_windowSize {store}. Arguments sr_maxInflight {store}.
Arguments sr_budget {store}. Arguments sr_metrics {store}. Arguments sr_inflight {store}.
Arguments sr_windows {store}. Arguments sr_fetchers {store}. Arguments sr_sessions {store}.
Arguments sr_sess_heap {store}. Arguments sr_readers {store}. Arguments sr_recentlyClosed {store}.
Arguments sr_reads {store}. Arguments sr_next {store}.

Section stream.
Context {store : Type} `{MI : MapIter} `{SS : SliceSort} `{RS : RangeStore store}.
Implicit Types (s : StreamReader store) (w : inflightWindow).

(** ** Field assignments *)

Definition set_cache (x : store) s : StreamReader store :=
  MkSR x (sr_windowSize s) (sr_maxInflight s) (sr_budget s) (sr_metrics s) (sr_inflight s) (sr_windows s) (sr_fetchers s) (sr_sessions s) (sr_sess_heap s) (sr_readers s) (sr_recentlyClosed s) (sr_reads s) (sr_next s).
Definition set_budget (x : sem) s : StreamReader store :=
  MkSR (sr_cache s) (sr_windowSize s) (sr_maxInflight s) x (sr_metrics s) (sr_inflight s) (sr_windows s) (sr_fetchers s) (sr_sessions s) (sr_sess_heap s) (sr_readers s) (sr_recentlyClosed s) (sr_reads s) (sr_next s).
Definition set_metrics (x : option Metrics) s : StreamReader store :=
  MkSR (sr_cache s) (sr_windowSize s) (sr_maxInflight s) (sr_budget s) x (sr_inflight s) (sr_windows s) (sr_fetchers s) (sr_sessions s) (sr_sess_heap s) (sr_readers s) (sr_recentlyClosed s) (sr_reads s) (sr_next s).
Definition set_inflight (x : gmap inflightKey nat) s : StreamReader store :=
  MkSR (sr_cache s) (sr_windowSize s) (sr_maxInflight s) (sr_budget s) (sr_metrics s) x (sr_windows s) (sr_fetchers s) (sr_sessions s) (sr_sess_heap s) (sr_readers s) (sr_recentlyClosed s) (sr_reads s) (sr_next s).
Definition set_windows (x : gmap nat inflightWindow) s : StreamReader store :=
  MkSR (sr_cache s) (sr_windowSize s) (sr_maxInflight s) (sr_budget s) (sr_metrics s) (sr_inflight s) x (sr_fetchers s) (sr_sessions s) (sr_sess_heap s) (sr_readers s) (sr_recentlyClosed s) (sr_reads s) (sr_next s).
Definition set_fetchers (x : gmap nat fetch_pc) s : StreamReader store :=
  MkSR (sr_cache s) (sr_windowSize s) (sr_maxInflight s) (sr_budget s) (sr_metrics s) (sr_inflight s) (sr_windows s) x (sr_sessions s) (sr_sess_heap s) (sr_readers s) (sr_recentlyClosed s) (sr_reads s) (sr_next s).
Definition set_sessions (x : gmap string nat) s : StreamReader store :=
  MkSR (sr_cache s) (sr_windowSize s) (sr_maxInflight s) (sr_budget s) (sr_metrics s) (sr_inflight s) (sr_windows s) (sr_fetchers s) x (sr_sess_heap s) (sr_readers s) (sr_recentlyClosed s) (sr_reads s) (sr_next s).
Definition set_sess_heap (x : gmap nat fileSession) s : StreamReader store :=
  MkSR (sr_cache s) (sr_windowSize s) (sr_maxInflight s) (sr_budget s) (sr_metrics s) (sr_inflight s) (sr_windows s) (sr_fetchers s) (sr_sessions s) x (sr_readers s) (sr_recentlyClosed s) (sr_reads s) (sr_next s).
Definition set_readers (x : gmap string (gmap Z Z)) s : StreamReader store :=
  MkSR (sr_cache s) (sr_windowSize s) (sr_maxInflight s) (sr_budget s) (sr_metrics s) (sr_inflight s) (sr_windows s) (sr_fetchers s) (sr_sessions s) (sr_sess_heap s) x (sr_recentlyClosed s) (sr_reads s) (sr_next s).
Definition set_recentlyClosed (x : gmap string closedEntry) s : StreamReader store :=
  MkSR (sr_cache s) (sr_windowSize s) (sr_maxInflight s) (sr_budget s) (sr_metrics s) (sr_inflight s) (sr_windows s) (sr_fetchers s) (sr_sessions s) (sr_sess_heap s) (sr_readers s) x (sr_reads s) (sr_next s).
Definition set_reads (x : gmap nat reader) s : StreamReader store :=
  MkSR (sr_cache s) (sr_windowSize s) (sr_maxInflight s) (sr_budget s) (sr_metrics s) (sr_inflight s) (sr_windows s) (sr_fetchers s) (sr_sessions s) (sr_sess_heap s) (sr_readers s) (sr_recentlyClosed s) x (sr_next s).
Definition set_next (x : nat) s : StreamReader store :=
  MkSR (sr_cache s) (sr_windowSize s) (sr_maxInflight s) (sr_budget s) (sr_metrics s) (sr_inflight s) (sr_windows s) (sr_fetchers s) (sr_sessions s) (sr_sess_heap s) (sr_readers s) (sr_recentlyClosed s) (sr_reads s) x.

Definition upd_window (wid : nat) (f : inflightWindow -> inflightWindow) s :=
  set_windows (alter f wid (sr_windows s)) s.
Definition upd_session (sid : nat) (f : fileSession -> fileSession) s :=
  set_sess_heap (alter f sid (sr_sess_heap s)) s.
Definition count (c : counter) (d : Z) s := set_metrics (add_opt c d (sr_metrics s)) s.
Definition set_pc (wid : nat) (pc : fetch_pc) s := set_fetchers (<[wid := pc]> (sr_fetchers s)) s.

Definition NewStreamReader (rc : store) (maxInflight maxGlobalWindows windowSize : Z)
    (om : option Metrics) : StreamReader store :=
  MkSR rc windowSize maxInflight (newBudgetSem maxGlobalWindows) om ∅ ∅ ∅ ∅ ∅ ∅ ∅ ∅ 0.

(** ** Lookups *)

(** Go's integer division truncates; a zero window size panics, a case the callers
    exclude by [0 < sr_windowSize]. *)
Definition windowStart (off : Z) s : Z := wrap64 (Z.quot off (sr_windowSize s) * sr_windowSize s).

(** [sr.inflight.Range]: the entries in the order this iteration visits them. *)
Definition inflight_range s : list (inflightKey * nat) := map_range 0 (sr_inflight s).

Definition window_done s (wid : nat) : bool := from_option win_done false (sr_windows s !! wid).

Definition getOrCreateSession (fk : string) s : StreamReader store * nat :=
  match sr_sessions s !! fk with
  | Some sid => (s, sid)
  | None =>
      let sid := sr_next s in
      (set_next (S sid) (set_sessions (<[fk := sid]> (sr_sessions s))
        (set_sess_heap (<[sid := new_session]> (sr_sess_heap s)) s)), sid)
  end.

Definition session s (sid : nat) : fileSession := default new_session (sr_sess_heap s !! sid).

Definition HasReaders (fk : string) s : bool :=
  match sr_readers s !! fk with
  | Some pos => negb (bool_decide (size pos = 0%nat))
  | None => false
  end.

(** ** Windows *)

(** The window found or created, and whether it was created. *)
Definition getOrCreateWindow (fk : string) (ws fileSize bp : Z) s
  : StreamReader store * nat * bool :=
  let ik := InflightKey fk ws in
  let create s :=
    let wid := sr_next s in
    (count CInflightWindows 1
      (set_pc wid (FStart bp)
        (set_inflight (<[ik := wid]> (sr_inflight s))
          (set_windows (<[wid := new_window ik fileSize]> (sr_windows s))
            (set_next (S wid) s)))), wid, true) in
  match sr_inflight s !! ik with
  | Some wid =>
      match sr_windows s !! wid with
      | Some w =>
          if win_done w && bool_decide (is_Some (win_err w)) then
            create (count CInflightWindows (-1) (set_inflight (delete ik (sr_inflight s)) s))
          else (s, wid, false)
      | None => (s, wid, false)
      end
  | None => create s
  end.

(** [cancelFunc()]: the context the window's goroutine runs under, in the body reads
    and in the budget semaphore. *)
Definition cancel_window (wid : nat) s :=
  set_budget (cancel wid (sr_budget s)) (upd_window wid set_cancelled s).

Definition distance (off : Z) (ik : inflightKey) : Z :=
  let d := off -w ik_start ik in if d <? 0 then wrap64 (- d) else d.

Definition maybeCancelOnSeek (fk : string) (off now : Z) s : StreamReader store :=
  let seekThreshold := wrap64 (sr_windowSize s * 4) in
  let near e := bool_decide (ik_fileKey e.1 = fk) && (distance off e.1 <=? seekThreshold) in
  if existsb near (inflight_range s) then s else
  let '(s1, sid) := getOrCreateSession fk s in
  let victim e := bool_decide (ik_fileKey e.1 = fk) && (seekThreshold <? distance off e.1) &&
    from_option (fun w => win_done w && (win_waiters w =? 0)) false (sr_windows s1 !! e.2) in
  let victims := List.filter victim (inflight_range s1) in
  let s2 := foldl (fun s e => cancel_window e.2 s) s1 victims in
  if bool_decide (victims = []) then s2
  else upd_session sid (set_lastSeek now) (count CCancelledStreamCount 1 s2).

(** The number of windows of the file whose download is still running. *)
Definition active_count (fk : string) s : nat :=
  length (List.filter (fun e => bool_decide (ik_fileKey e.1 = fk) && negb (window_done s e.2))
    (inflight_range s)).

Definition maybeReadAhead (fk : string) (endOff winStart fileSize : Z) (sid : nat) (bp now : Z) s
  : StreamReader store :=
  let nextStart := winStart +w sr_windowSize s in
  if fileSize <=? nextStart then s else
  if negb (isSequential (session s sid)) then s else
  if endOff <? winStart +w Z.quot (sr_windowSize s) 2 then s else
  if since now (lastSeek (session s sid)) <? 2 * Second then s else
  let '(c, _, hit) := rs_copyTo fk nextStart [x00] now (sr_cache s) in
  let s := set_cache c s in
  match hit with
  | Some _ => s
  | None =>
      match sr_inflight s !! InflightKey fk nextStart with
      | Some _ => s
      | None =>
          if sr_maxInflight s <=? Z.of_nat (active_count fk s) then s
          else (getOrCreateWindow fk nextStart fileSize bp s).1.1
      end
  end.

(** ** Closing a file *)

Definition maybeCleanupSession (fk : string) s : StreamReader store :=
  if existsb (fun e => bool_decide (ik_fileKey e.1 = fk)) (inflight_range s) then s
  else if HasReaders fk s then s
  else set_sessions (delete fk (sr_sessions s)) s.

(** [cleanupWindow] and [cleanupWindowOnError] after their delay. *)
Definition cleanupWindow (wid : nat) s : StreamReader store :=
  match sr_windows s !! wid with
  | None => s
  | Some w =>
      let s1 :=
        if bool_decide (sr_inflight s !! win_key w = Some wid) then
          count CInflightWindows (-1) (set_inflight (delete (win_key w) (sr_inflight s)) s)
        else s in
      maybeCleanupSession (ik_fileKey (win_key w)) s1
  end.

(** The visit of one entry by the [Range] of [CancelFile]. *)
Definition cancel_entry (fk : string) (acc : StreamReader store * Z * Z) (e : inflightKey * nat)
  : StreamReader store * Z * Z :=
  let '(s, fileSize, removed) := acc in
  if bool_decide (ik_fileKey e.1 = fk) then
    let s1 := upd_window e.2 set_done (cancel_window e.2 s) in
    let wfs := from_option win_fileSize 0 (sr_windows s !! e.2) in
    (set_inflight (delete e.1 (sr_inflight s1)) s1,
     (if fileSize <? wfs then wfs else fileSize), removed + 1)
  else acc.

Definition blocks_end (bs : list BlockInfo) (acc : Z) : Z :=
  foldl (fun fs b => if fs <? bi_End b then bi_End b else fs) acc bs.

Definition CancelFile (fk : string) (now : Z) s : StreamReader store :=
  let '(s1, fs0, removed) := foldl (cancel_entry fk) (s, 0, 0) (inflight_range s) in
  let s2 := if 0 <? removed then count CInflightWindows (- removed) s1 else s1 in
  let fs1 :=
    if fs0 =? 0 then
      match sr_sessions s2 !! fk with
      | Some sid => lastKnownFileSize (session s2 sid)
      | None => 0
      end
    else fs0 in
  let fs2 := if fs1 =? 0 then blocks_end (rs_fileBlocks fk (sr_cache s2)) 0 else fs1 in
  let s3 :=
    if 0 <? fs2 then
      set_recentlyClosed (<[fk := MkClosed fk fs2 now]> (sr_recentlyClosed s2)) s2
    else s2 in
  set_readers (delete fk (sr_readers s3)) (set_sessions (delete fk (sr_sessions s3)) s3).

(** ** Readers of open handles *)

Definition TrackReader (fk : string) (readerID off : Z) s : StreamReader store :=
  let pos := default ∅ (sr_readers s !! fk) in
  set_recentlyClosed (delete fk (sr_recentlyClosed s))
    (set_readers (<[fk := <[readerID := off]> pos]> (sr_readers s)) s).

Definition UntrackReader (fk : string) (readerID : Z) s : StreamReader store :=
  match sr_readers s !! fk with
  | None => s
  | Some pos =>
      let pos' := delete readerID pos in
      if bool_decide (size pos' = 0%nat) then set_readers (delete fk (sr_readers s)) s
      else set_readers (<[fk := pos']> (sr_readers s)) s
  end.

(** ** Recently closed files *)

Definition recentlyClosedTTL : Z := 3600 * Second.

Definition RecentlyClosedFiles s : list closedEntry := (map_range 0 (sr_recentlyClosed s)).*2.

(** [closedAt.Before(now - ttl)] *)
Definition expired (now : Z) (e : closedEntry) : bool :=
  ce_closedAt e <? now - recentlyClosedTTL.

Definition cleanupRecentlyClosed (now : Z) s : StreamReader store :=
  set_recentlyClosed
    (foldl (fun acc kv => if expired now kv.2 then delete kv.1 acc else acc)
       (sr_recentlyClosed s) (map_range 0 (sr_recentlyClosed s))) s.

(** ** Snapshots for the dashboard *)

Record InflightInfo := MkInflightInfo {
  ii_Start : Z; ii_ReadyTo : Z; ii_Done : bool; ii_Priority : Z
}.

Record FileSnapshot := MkSnapshot {
  fs_FileKey : string;
  fs_FileSize : Z;
  fs_CachedBlocks : list BlockInfo;
  fs_Inflight : list InflightInfo;
  fs_ReadOffsets : list Z;
  fs_Pattern : string;
  fs_Priority : Z
}.

Definition BudgetLimit s : Z := budgetLimit (sr_budget s).

Definition BudgetHolding s : Z :=
  Z.of_nat (length (List.filter (fun e => negb (window_done s e.2)) (inflight_range s))).

(** The windows of the file the snapshot shows: not those that are done with
    [readyTo <= ik.start]. *)
Definition shown_window (fk : string) s (e : inflightKey * nat) : option inflightWindow :=
  if bool_decide (ik_fileKey e.1 = fk) then
    w ← sr_windows s !! e.2;
    if win_done w && (win_readyTo w <=? ik_start e.1) then None else Some w
  else None.

Definition snapshotFile (fk : string) (now : Z) s : FileSnapshot :=
  let blocks := rs_fileBlocks fk (sr_cache s) in
  let osess := session s <$> sr_sessions s !! fk in
  let prio := from_option (computeCachePriority now) 0 osess in
  let shown := omap (shown_window fk s) (inflight_range s) in
  let infl := (fun w => MkInflightInfo (ik_start (win_key w)) (win_readyTo w) (win_done w) prio) <$> shown in
  let fs0 := foldl (fun fs w => if fs <? win_fileSize w then win_fileSize w else fs) 0 shown in
  let pattern :=
    match osess with
    | Some sess =>
        if isSequential sess then "sequential"%string
        else if 0 <? randomReads sess then "random"%string else EmptyString
    | None => "idle"%string
    end in
  let offs := match sr_readers s !! fk with Some pos => (map_range 1 pos).*2 | None => [] end in
  let fs1 :=
    match osess with
    | Some sess => if fs0 <? lastKnownFileSize sess then lastKnownFileSize sess else fs0
    | None => fs0
    end in
  let fs2 := if fs1 =? 0 then blocks_end blocks fs1 else fs1 in
  MkSnapshot fk fs2 blocks infl offs pattern prio.

(** The key set is a Go map: the snapshots come in the order it is ranged over. *)
Definition snapshot_keys s : gmap string unit :=
  let add_keys ks acc := foldl (fun acc fk => <[fk := tt]> acc) acc ks in
  add_keys (map_range 2 (sr_readers s)).*1
    (add_keys (rs_allFileKeys (sr_cache s))
      (add_keys (map_range 1 (sr_sessions s)).*1
        (add_keys (ik_fileKey ∘ fst <$> inflight_range s) ∅))).

Definition SnapshotFiles (now : Z) s : list FileSnapshot :=
  (fun fk => snapshotFile fk now s) <$> (map_range 3 (snapshot_keys s)).*1.
End stream.
