(* ===== verification/Goroutines.v ===== *)
(** * internal/stream: the goroutines of the stream reader (reader.go)

    [ReadAt] calls and [fetchWindow] goroutines run concurrently on the shared
    [StreamReader].  [step] is one scheduled action: a piece of one goroutine
    between two points where it can block (the budget semaphore, [waitForBytes],
    the CDN request, a body read, a sleep), or a call of one of the short methods.
    [CachedPrefixLen] and the [CopyTo] after it are two actions, since other
    goroutines may change the cache in between.  What the network delivers and what
    the clock shows are part of the action; a goroutine that reads a body keeps the
    range it asked for, which is what the body answers.  A reader may look at its window
    at any time: that Go only wakes it on a [Broadcast] is left out.  A step is [None]
    when the goroutine cannot take it: it is blocked, panics, or never returns from the
    cache. *)
From S2P Require Import Prelude Metrics Errors Cache Semaphore Window RangeStore Stream.
From Stdlib Require Import Strings.Byte.
Open Scope Z_scope.
Open Scope go_scope.

Section goroutines.
Context {store : Type} `{MI : MapIter} `{SS : SliceSort} `{RS : RangeStore store}.
Implicit Types (s : StreamReader store) (w : inflightWindow) (r : reader).

(** ** fetchWindow *)

Definition win_file w : string := ik_fileKey (win_key w).
Definition win_start w : Z := ik_start (win_key w).

Definition winEnd s w : Z :=
  let e := win_start w +w sr_windowSize s in
  if win_fileSize w <? e then win_fileSize w else e.

(** The deferred function: the budget slot is released and the window marked done. *)
Definition finish (wid : nat) s : StreamReader store :=
  upd_window wid set_done (set_budget (release wid (sr_budget s)) s).

(** [win.err = e; return] inside the retry loop. *)
Definition fetch_fail (wid : nat) (e : go_err) s : StreamReader store :=
  set_pc wid FEnd (finish wid (upd_window wid (set_err e) s)).

(** [continue] with a later attempt: the reset of the next iteration and its sleep. *)
Definition next_attempt (wid : nat) (attempt bp cp : Z) s : StreamReader store :=
  set_pc wid (FBackoff (attempt + 1) bp cp) (upd_window wid reset_window s).

(** The successful ends of [fetchWindow]: done, read-ahead, delayed cleanup, return. *)
Definition fetch_complete (wid : nat) w (sid : nat) (bp now : Z) s : StreamReader store :=
  let s1 := upd_window wid set_done s in
  let s2 := maybeReadAhead (win_file w) (win_start w +w sr_windowSize s1) (win_start w)
              (win_fileSize w) sid bp now s1 in
  finish wid (set_pc wid FCleanup s2).

(** Once the budget slot is held: the cache priority is fixed for the whole fetch. *)
Definition begin_fetch (wid : nat) w (bp now : Z) s : StreamReader store :=
  let '(s1, sid) := getOrCreateSession (win_file w) s in
  set_pc wid (FAttempt 0 bp (computeCachePriority now (session s1 sid))) s1.

(** After [budget.acquire] returned or went to sleep. *)
Definition after_acquire (wid : nat) w (bp now : Z) s : StreamReader store :=
  match threads (sr_budget s) !! wid with
  | None => set_pc wid FCleanup (upd_window wid (set_done ∘ set_err Canceled) s)
  | Some th =>
      if bool_decide (th_phase th = Holding) then begin_fetch wid w bp now s
      else set_pc wid (FQueued bp) s
  end.

Definition fetch_start (wid : nat) w (bp now : Z) s : StreamReader store :=
  after_acquire wid w bp now (set_budget (acquire_enter wid bp (sr_budget s)) s).

Definition fetch_resume (wid : nat) w (bp now : Z) s : StreamReader store :=
  after_acquire wid w bp now (set_budget (acquire_resume wid (sr_budget s)) s).

Definition fetch_attempt (wid : nat) w (attempt bp cp : Z) s : StreamReader store :=
  let cachedLen :=
    match rs_cachedPrefixLen (win_file w) (win_start w) (sr_cache s) with
    | Some cl => if 0 <? cl then cl else 0
    | None => 0
    end in
  set_pc wid (FPrefix attempt bp cp cachedLen) s.

Definition zeros (n : Z) : list byte := replicate (Z.to_nat n) x00.

(** The whole window is cached: copy it, store it again as one block, and finish. *)
Definition fetch_cached (wid : nat) w (bp cp windowLen now : Z) s : option (StreamReader store) :=
  if windowLen <? 0 then None else
  let '(c, b, hit) := rs_copyTo (win_file w) (win_start w) (zeros windowLen) now (sr_cache s) in
  let n := default 0 hit in
  let '(s1, sid) := getOrCreateSession (win_file w) (upd_window wid (set_buf b n n) (set_cache c s)) in
  c' ← rs_putWithPriority (win_file w) (win_start w) b cp now (sr_cache s1);
  Some (fetch_complete wid w sid bp now (set_cache c' s1)).

Definition fetch_prefix (wid : nat) w (attempt bp cp cachedLen now : Z) s
  : option (StreamReader store) :=
  let windowLen := winEnd s w -w win_start w in
  if windowLen <=? cachedLen then fetch_cached wid w bp cp windowLen now s
  else
    let request s0 := set_pc wid (FRequest attempt bp cp cachedLen (win_start w +w cachedLen)
                                   (winEnd s w -w 1)) s0 in
    if 0 <? cachedLen then
      let '(c, b, hit) := rs_copyTo (win_file w) (win_start w) (zeros cachedLen) now (sr_cache s) in
      let b' := take (Z.to_nat (default 0 hit)) b in
      Some (request (upd_window wid (set_buf b' (len64 b') (len64 b')) (set_cache c s)))
    else Some (request (upd_window wid (fun w => set_buf [] (win_readyTo w) (win_total w) w) s)).

(** The answer to [FetchRange(ctx, url, fetchStart, fetchEnd)]. *)
Definition fetch_response (wid : nat) (attempt bp cp cachedLen fetchStart fetchEnd : Z) (resp : result go_err unit) s
  : StreamReader store :=
  match resp with
  | Ok _ => set_pc wid (FBody attempt bp cp cachedLen fetchStart fetchEnd 0) s
  | Err e =>
      if isRetryable e && (attempt <? maxRetries) then next_attempt wid attempt bp cp s
      else fetch_fail wid e s
  end.

(** What [fetchWindow] does when [streamInto] returned [(fetched, success)]. *)
Definition after_stream (wid : nat) (attempt bp cp fetched : Z) (success : bool) (now : Z) s
  : option (StreamReader store) :=
  w ← sr_windows s !! wid;
  let empty := bool_decide (win_buf w = []) in
  c ← (if empty then Some (sr_cache s)
       else rs_putWithPriority (win_file w) (win_start w) (win_buf w) cp now (sr_cache s));
  let s1 := set_cache c s in
  if success && negb empty then
    let '(s2, sid) := getOrCreateSession (win_file w) s1 in
    Some (fetch_complete wid w sid bp now s2)
  else
    let lastErr :=
      if success then Errorf "no data received"
      else Errorf ("stream read failed after " +:+ fmt_d fetched +:+ " bytes") in
    if negb (isRetryable lastErr) || (maxRetries <=? attempt) then
      Some (fetch_fail wid lastErr s1)
    else Some (next_attempt wid attempt bp cp s1).

(** One [resp.Body.Read] of [streamInto], returning [(len chunk, rerr)]. *)
Definition fetch_body (wid : nat) (attempt bp cp cachedLen fetchStart fetchEnd totalRead : Z) (chunk : list byte)
    (rerr : option go_err) (now : Z) s : option (StreamReader store) :=
  let s1 := if bool_decide (chunk = []) then s
            else upd_window wid (append_chunk cachedLen totalRead chunk) s in
  let totalRead' := totalRead +w len64 chunk in
  match rerr with
  | Some e => after_stream wid attempt bp cp totalRead' (bool_decide (e = EOF)) now s1
  | None =>
      if from_option win_cancelled false (sr_windows s1 !! wid) then
        after_stream wid attempt bp cp totalRead' true now s1
      else Some (set_pc wid (FBody attempt bp cp cachedLen fetchStart fetchEnd totalRead') s1)
  end.

(** What the scheduler hands a fetch goroutine: nothing, a fired timer, the outcome
    of [FetchRange], or the outcome of a body read. *)
Inductive fetch_input :=
| INone
| ITimer
| IResponse (resp : result go_err unit)
| IBody (chunk : list byte) (rerr : option go_err).

Definition is_woken s (wid : nat) : bool :=
  bool_decide (th_phase <$> threads (sr_budget s) !! wid = Some Woken).

Definition fetch_step (wid : nat) (inp : fetch_input) (now : Z) s : option (StreamReader store) :=
  pc ← sr_fetchers s !! wid;
  w ← sr_windows s !! wid;
  match pc, inp with
  | FStart bp, INone => Some (fetch_start wid w bp now s)
  | FQueued bp, INone => if is_woken s wid then Some (fetch_resume wid w bp now s) else None
  | FAttempt a bp cp, INone => Some (fetch_attempt wid w a bp cp s)
  | FPrefix a bp cp cl, INone => fetch_prefix wid w a bp cp cl now s
  | FRequest a bp cp cl fs fe, IResponse resp => Some (fetch_response wid a bp cp cl fs fe resp s)
  | FBody a bp cp cl fs fe tr, IBody chunk rerr => fetch_body wid a bp cp cl fs fe tr chunk rerr now s
  | FBackoff a bp cp, ITimer => Some (set_pc wid (FAttempt a bp cp) s)
  | FBackoff a bp cp, INone => if win_cancelled w then Some (fetch_fail wid Canceled s) else None
  | FCleanup, ITimer => Some (set_pc wid FEnd (cleanupWindow wid s))
  | _, _ => None
  end.

(** ** ReadAt *)

Definition set_read (rid : nat) r s : StreamReader store := set_reads (<[rid := r]> (sr_reads s)) s.

Definition read_goto (pc : read_pc) r : reader :=
  MkReader (rd_file r) (rd_off r) (rd_len r) (rd_fileSize r) (rd_cur r) (rd_data r) (rd_rem r)
    (rd_ctx r) pc.
Definition read_ctx (e : go_err) r : reader :=
  MkReader (rd_file r) (rd_off r) (rd_len r) (rd_fileSize r) (rd_cur r) (rd_data r) (rd_rem r)
    (Some e) (rd_pc r).
Definition read_rem (rem : list byte) r : reader :=
  MkReader (rd_file r) (rd_off r) (rd_len r) (rd_fileSize r) (rd_cur r) (rd_data r) rem
    (rd_ctx r) (rd_pc r).
(** [totalN += n; curOff += n; rem = rem[n:]] *)
Definition read_advance (n : Z) (rem' : list byte) r : reader :=
  MkReader (rd_file r) (rd_off r) (rd_len r) (rd_fileSize r) (rd_cur r +w n)
    (rd_data r ++ take (Z.to_nat n) rem') (drop (Z.to_nat n) rem') (rd_ctx r) (rd_pc r).

(** The return after the loop. *)
Definition read_return r : reader :=
  read_goto (RDone (if rd_fileSize r <=? rd_cur r then Some EOF else None)) r.

(** After [readWindow] returned [(n, nil)] with [rem'] the buffer it filled. *)
Definition read_progress (n : Z) (rem' : list byte) r : reader :=
  if n =? 0 then read_return r else read_goto RLoop (read_advance n rem' r).

(** The end of the range [smallRead] requests. *)
Definition small_end r : Z :=
  let e := rd_off r +w rd_len r -w 1 in
  if rd_fileSize r <=? e then rd_fileSize r -w 1 else e.

Definition smallRead (rid : nat) r (now : Z) s : StreamReader store :=
  let '(c, p', hit) := rs_copyTo (rd_file r) (rd_off r) (rd_rem r) now (sr_cache s) in
  let s1 := set_cache c s in
  match hit with
  | Some n => set_read rid (read_goto (RDone None) (read_advance n p' r)) (count CCacheHitCount 1 s1)
  | None =>
      match sr_inflight s1 !! InflightKey (rd_file r) (windowStart (rd_off r) s1) with
      | Some _ => set_read rid (read_goto RLoop r) s1
      | None => set_read rid (read_goto (RSmall (rd_off r) (small_end r)) r) s1
      end
  end.

(** [ReadAt] up to its loop or the request of [smallRead]. *)
Definition read_begin (rid : nat) (fk : string) (off : Z) (p : list byte) (fileSize now : Z) s
  : StreamReader store :=
  let r := MkReader fk off (len64 p) fileSize off [] p None RLoop in
  if bool_decide (p = []) then set_read rid (read_goto (RDone None) r) s else
  let s1 := maybeCancelOnSeek fk off now (count CReadCount 1 s) in
  let '(s2, sid) := getOrCreateSession fk s1 in
  let s3 := upd_session sid (note_read now fileSize ∘ updateAccessPattern off (len64 p)) s2 in
  if small_read_applies (session s3 sid) (len64 p) then smallRead rid r now s3
  else set_read rid r s3.

(** [FetchRange] of [smallRead] failed, or its body was read with [io.ReadFull]. *)
Definition small_response (rid : nat) r (resp : result go_err (list byte * option go_err))
    (now : Z) s : option (StreamReader store) :=
  match resp with
  | Err _ => Some (set_read rid (read_goto RLoop r) s)
  | Ok (body, rerr) =>
      match rerr with
      | None | Some EOF | Some ErrUnexpectedEOF =>
          c ← (if bool_decide (body = []) then Some (sr_cache s)
               else rs_putWithPriority (rd_file r) (rd_off r) body PriorityLow now (sr_cache s));
          Some (set_read rid
                  (read_goto (RDone None) (read_advance (len64 body) (body ++ drop (length body) (rd_rem r)) r))
                  (set_cache c s))
      | Some _ => Some (set_read rid (read_goto RLoop r) s)
      end
  end.

(** One iteration of the loop, up to [waitForBytes] on a cache miss. *)
Definition read_loop (rid : nat) r0 (now : Z) s : StreamReader store :=
  if bool_decide (rd_rem r0 = []) then set_read rid (read_return r0) s else
  if rd_fileSize r0 <=? rd_cur r0 then set_read rid (read_goto (RDone (Some EOF)) r0) s else
  let maxRead := rd_fileSize r0 -w rd_cur r0 in
  let r := if maxRead <? len64 (rd_rem r0) then read_rem (take (Z.to_nat maxRead) (rd_rem r0)) r0
           else r0 in
  let ws := windowStart (rd_cur r) s in
  let '(s1, sid) := getOrCreateSession (rd_file r) s in
  let bp := computeBudgetPriority now (session s1 sid) (len64 (rd_rem r)) in
  let '(c, rem', hit) := rs_copyTo (rd_file r) (rd_cur r) (rd_rem r) now (sr_cache s1) in
  let s2 := set_cache c s1 in
  match hit with
  | Some n =>
      let s3 := maybeReadAhead (rd_file r) (rd_cur r +w n) ws (rd_fileSize r) sid bp now
                  (count CCacheHitCount 1 s2) in
      set_read rid (read_progress n rem' r) s3
  | None =>
      let '(s3, wid, created) := getOrCreateWindow (rd_file r) ws (rd_fileSize r) bp s2 in
      let s4 := count (if created then CStreamMissCount else CStreamJoinCount) 1 s3 in
      set_read rid (read_goto (RWait wid ws sid bp) r) (upd_window wid (add_waiters 1) s4)
  end.

(** A look at the window by a reader in [waitForBytes], and the end of [readWindow];
    [spare] is what lies behind the window's buffer. *)
Definition read_wake (rid : nat) r (wid : nat) (ws : Z) (sid : nat) (bp : Z) (spare : list byte) (now : Z) s
  : option (StreamReader store) :=
  w ← sr_windows s !! wid;
  match slice_buf spare w (waitForBytes (rd_ctx r) w (rd_cur r) (len64 (rd_rem r))) with
  | WBlock | WBeyond _ _ => None
  | WErr e => Some (set_read rid (read_goto (RDone (Some e)) r) (upd_window wid (add_waiters (-1)) s))
  | WData bs =>
      let s1 := maybeReadAhead (rd_file r) (rd_cur r +w len64 bs) ws (rd_fileSize r) sid bp now
                  (upd_window wid (add_waiters (-1)) s) in
      Some (set_read rid (read_progress (len64 bs) (bs ++ drop (length bs) (rd_rem r)) r) s1)
  end.

Definition read_step (rid : nat) (spare : list byte) (now : Z) s : option (StreamReader store) :=
  r ← sr_reads s !! rid;
  match rd_pc r with
  | RLoop => Some (read_loop rid r now s)
  | RWait wid ws sid bp => read_wake rid r wid ws sid bp spare now s
  | _ => None
  end.

(** ** Scheduled actions *)

Inductive event :=
| ERead (rid : nat) (fk : string) (off : Z) (p : list byte) (fileSize : Z)
| EReader (rid : nat)
| ESpare (rid : nat) (spare : list byte)
| ESmall (rid : nat) (resp : result go_err (list byte * option go_err))
| EReadCtx (rid : nat) (e : go_err)
| EFetch (wid : nat) (inp : fetch_input)
| ECancelFile (fk : string)
| ETrack (fk : string) (readerID off : Z)
| EUntrack (fk : string) (readerID : Z)
| EExpire.

Definition step (e : event) (now : Z) s : option (StreamReader store) :=
  match e with
  | ERead rid fk off p fileSize =>
      match sr_reads s !! rid with
      | Some _ => None
      | None => Some (read_begin rid fk off p fileSize now s)
      end
  | EReader rid => read_step rid [] now s
  | ESpare rid spare => read_step rid spare now s
  | ESmall rid resp =>
      r ← sr_reads s !! rid;
      match rd_pc r with RSmall _ _ => small_response rid r resp now s | _ => None end
  | EReadCtx rid e =>
      r ← sr_reads s !! rid; Some (set_read rid (read_ctx e r) s)
  | EFetch wid inp => fetch_step wid inp now s
  | ECancelFile fk => Some (CancelFile fk now s)
  | ETrack fk id off => Some (TrackReader fk id off s)
  | EUntrack fk id => Some (UntrackReader fk id s)
  | EExpire => Some (cleanupRecentlyClosed now s)
  end.

Fixpoint run (es : list (event * Z)) s : option (StreamReader store) :=
  match es with
  | [] => Some s
  | (e, now) :: es' => s' ← step e now s; run es' s'
  end.

End goroutines.
