(* ===== verification/StreamInv.v ===== *)
(** * internal/stream: structural invariants of the running stream reader

    What holds of [StreamReader] in every interleaving of its goroutines: the maps
    point to existing objects, a window is registered under its own key, the
    [InflightWindows] gauge is the size of the inflight map, and every fetch
    goroutine's position agrees with the budget semaphore.  [okd d x s s'] is the
    shape of all the preservation lemmas: the step from [s] to [s'] keeps [core],
    touches no goroutine's data but [x]'s, and moves the gauge's offset by [d]. *)
From S2P Require Import Prelude Metrics Errors Cache Semaphore Window RangeStore Stream Goroutines.
From Stdlib Require Import Strings.Byte.
Open Scope Z_scope.
Open Scope go_scope.

(** ** The semaphore's view of a goroutine *)

Inductive wkind := KNone | KQueued | KHolding.

Definition kind_of (oth : option thread) : wkind :=
  match oth with
  | None => KNone
  | Some th => match th_phase th with Holding => KHolding | _ => KQueued end
  end.

Definition pc_kind (pc : fetch_pc) : wkind :=
  match pc with
  | FStart _ | FCleanup | FEnd => KNone
  | FQueued _ => KQueued
  | _ => KHolding
  end.

Definition ended (pc : fetch_pc) : bool :=
  match pc with FCleanup | FEnd => true | _ => false end.

Lemma kind_wake oth : kind_of (wake <$> oth) = kind_of oth.
Proof. by destruct oth as [[[] []]|]. Qed.

Lemma acquire_enter_kind t p sm u : u <> t ->
  kind_of (threads (acquire_enter t p sm) !! u) = kind_of (threads sm !! u).
Proof.
  intros Hne. unfold acquire_enter, abandon. repeat case_match; simpl;
    by rewrite ?lookup_delete_ne, ?lookup_insert_ne.
Qed.

Lemma acquire_resume_kind t sm u : u <> t ->
  kind_of (threads (acquire_resume t sm) !! u) = kind_of (threads sm !! u).
Proof.
  intros Hne. unfold acquire_resume, abandon. repeat case_match; simpl;
    by rewrite ?lookup_delete_ne, ?lookup_insert_ne.
Qed.

Lemma release_kind t sm u : u <> t ->
  kind_of (threads (release t sm) !! u) = kind_of (threads sm !! u).
Proof.
  intros Hne. unfold release; simpl. case_match; simpl; [by rewrite lookup_delete_ne|].
  rewrite lookup_fmap, kind_wake, lookup_alter. case_decide as Hw.
  all: rewrite ?Hw, lookup_delete_ne by done; try done.
  by destruct (threads sm !! u) as [[[] []]|].
Qed.

Lemma release_gone t sm : sem_inv sm -> kind_of (threads sm !! t) = KHolding ->
  threads (release t sm) !! t = None.
Proof.
  intros Hi Hk. unfold release; simpl. destruct (waiters sm) as [|w q] eqn:Hq; simpl;
    [apply lookup_delete_eq|].
  rewrite lookup_fmap, lookup_alter. case_decide as Hw; [|by rewrite lookup_delete_eq].
  by rewrite <- Hw, lookup_delete_eq.
Qed.

Lemma kind_holding sm t : kind_of (threads sm !! t) = KHolding ->
  exists th, threads sm !! t = Some th /\ th_phase th = Holding.
Proof. destruct (threads sm !! t) as [[[] r]|]; try done. by eexists. Qed.

Section inv.
Context {store : Type} `{MI : MapIter} `{SS : SliceSort} `{RS : RangeStore store}.
Implicit Types (s : StreamReader store) (w : inflightWindow) (r : reader).

(** ** The invariant *)

Record core s : Prop := {
  c_inflight : forall ik wid, sr_inflight s !! ik = Some wid ->
    exists w, sr_windows s !! wid = Some w /\ win_key w = ik;
  c_fetch : forall wid, is_Some (sr_windows s !! wid) <-> is_Some (sr_fetchers s !! wid);
  c_fresh_w : forall wid, is_Some (sr_windows s !! wid) -> (wid < sr_next s)%nat;
  c_fresh_s : forall sid, is_Some (sr_sess_heap s !! sid) -> (sid < sr_next s)%nat;
  c_sess : forall fk sid, sr_sessions s !! fk = Some sid -> is_Some (sr_sess_heap s !! sid);
  c_win : forall wid w, sr_windows s !! wid = Some w ->
    0 <= win_start w < win_fileSize w /\ win_fileSize w <= max_offset;
  c_ws : 0 < sr_windowSize s <= 2 ^ 60;
  c_sem : sem_inv (sr_budget s);
  c_threads : forall wid, is_Some (threads (sr_budget s) !! wid) -> is_Some (sr_windows s !! wid)
}.

(** The [InflightWindows] gauge is [k] above the number of registered windows. *)
Definition gauge (k : Z) s : Prop :=
  forall mt, sr_metrics s = Some mt ->
    InflightWindows mt = wrap64 (Z.of_nat (size (sr_inflight s)) + k).

Record evolves (x : option nat) s s' : Prop := {
  e_next : (sr_next s <= sr_next s')%nat;
  e_ws : sr_windowSize s' = sr_windowSize s;
  e_limit : limit (sr_budget s') = limit (sr_budget s);
  e_win : forall wid w, sr_windows s !! wid = Some w ->
    exists w', sr_windows s' !! wid = Some w' /\ win_key w' = win_key w /\
      win_fileSize w' = win_fileSize w /\ (win_done w = true -> win_done w' = true) /\
      (Some wid <> x -> win_buf w' = win_buf w /\ win_readyTo w' = win_readyTo w /\
         win_total w' = win_total w);
  e_pc : forall wid pc, Some wid <> x -> sr_fetchers s !! wid = Some pc ->
    sr_fetchers s' !! wid = Some pc;
  e_kind : forall wid, Some wid <> x ->
    kind_of (threads (sr_budget s') !! wid) = kind_of (threads (sr_budget s) !! wid);
  e_new : forall wid w', Some wid <> x -> sr_windows s !! wid = None ->
    sr_windows s' !! wid = Some w' ->
    win_buf w' = [] /\ win_readyTo w' = 0 /\ win_total w' = 0 /\
    exists bp, sr_fetchers s' !! wid = Some (FStart bp)
}.

Definition okd (d : Z) (x : option nat) s s' : Prop :=
  core s -> core s' /\ evolves x s s' /\ sr_reads s' = sr_reads s /\
    forall k, gauge k s -> gauge (k + d) s'.

Notation ok := (okd 0).

Lemma evolves_refl x s : evolves x s s.
Proof. split; try done. - intros wid w Hw. exists w. by split_and!. - intros; congruence. Qed.

Lemma evolves_trans x s1 s2 s3 : evolves x s1 s2 -> evolves x s2 s3 -> evolves x s1 s3.
Proof.
  intros E1 E2. split.
  - pose proof (e_next _ _ _ E1). pose proof (e_next _ _ _ E2). lia.
  - by rewrite (e_ws _ _ _ E2), (e_ws _ _ _ E1).
  - by rewrite (e_limit _ _ _ E2), (e_limit _ _ _ E1).
  - intros wid w Hw. destruct (e_win _ _ _ E1 wid w Hw) as (w1 & Hw1 & Hk1 & Hf1 & Hd1 & Hb1).
    destruct (e_win _ _ _ E2 wid w1 Hw1) as (w2 & Hw2 & Hk2 & Hf2 & Hd2 & Hb2).
    exists w2. split_and!; [done|congruence|congruence|auto|].
    intros Hx. destruct (Hb1 Hx) as (? & ? & ?), (Hb2 Hx) as (? & ? & ?). split_and!; congruence.
  - intros wid pc Hx Hpc. by apply (e_pc _ _ _ E2), (e_pc _ _ _ E1).
  - intros wid Hx. by rewrite (e_kind _ _ _ E2), (e_kind _ _ _ E1).
  - intros wid w3 Hx Hn Hw3. destruct (sr_windows s2 !! wid) as [w2|] eqn:Hw2.
    + destruct (e_new _ _ _ E1 wid w2 Hx Hn Hw2) as (? & ? & ? & bp & Hbp).
      destruct (e_win _ _ _ E2 wid w2 Hw2) as (w3' & Hw3' & _ & _ & _ & Hb).
      simplify_eq. destruct (Hb Hx) as (? & ? & ?). split_and!; [congruence..|].
      exists bp. by apply (e_pc _ _ _ E2).
    + by apply (e_new _ _ _ E2).
Qed.

Lemma okd_trans d1 d2 x s1 s2 s3 : okd d1 x s1 s2 -> okd d2 x s2 s3 -> okd (d1 + d2) x s1 s3.
Proof.
  intros H1 H2 Hc. destruct (H1 Hc) as (Hc2 & He & Hr & Hg).
  destruct (H2 Hc2) as (Hc3 & He' & Hr' & Hg'). split_and!.
  - done.
  - by eapply evolves_trans.
  - congruence.
  - intros k Hk. replace (k + (d1 + d2)) with (k + d1 + d2) by lia. auto.
Qed.

Lemma ok_trans x s1 s2 s3 : ok x s1 s2 -> ok x s2 s3 -> ok x s1 s3.
Proof. intros H1 H2. apply (okd_trans 0 0 x _ _ _ H1 H2). Qed.

Lemma ok_refl x s : ok x s s.
Proof.
  intros Hc. split_and!; [done|apply evolves_refl|done|].
  intros k. by replace (k + 0) with k by lia.
Qed.

Lemma evolves_weaken x s s' : evolves None s s' -> evolves x s s'.
Proof.
  intros E. split; try apply E.
  - intros wid w Hw. destruct (e_win _ _ _ E wid w Hw) as (w' & ? & ? & ? & ? & Hb).
    exists w'. split_and!; try done. intros _. by apply Hb.
  - intros wid pc _. by apply (e_pc _ _ _ E).
  - intros wid _. by apply (e_kind _ _ _ E).
  - intros wid w' _. by apply (e_new _ _ _ E).
Qed.

Lemma okd_weaken d x s s' : okd d None s s' -> okd d x s s'.
Proof. intros Hok Hc. destruct (Hok Hc) as (? & ? & ? & ?). split_and!; auto using evolves_weaken. Qed.

(** ** The primitive state changes *)

(** Steps that leave the windows, their goroutines and the semaphore alone. *)
Record light s s' : Prop := {
  l_windows : sr_windows s' = sr_windows s;
  l_fetchers : sr_fetchers s' = sr_fetchers s;
  l_budget : sr_budget s' = sr_budget s;
  l_ws : sr_windowSize s' = sr_windowSize s;
  l_next : (sr_next s <= sr_next s')%nat;
  l_reads : sr_reads s' = sr_reads s;
  l_inflight : sr_inflight s' = sr_inflight s;
  l_gauge : InflightWindows <$> sr_metrics s' = InflightWindows <$> sr_metrics s;
  l_fresh_s : (forall sid, is_Some (sr_sess_heap s !! sid) -> (sid < sr_next s)%nat) ->
    forall sid, is_Some (sr_sess_heap s' !! sid) -> (sid < sr_next s')%nat;
  l_sess : (forall fk sid, sr_sessions s !! fk = Some sid -> is_Some (sr_sess_heap s !! sid)) ->
    forall fk sid, sr_sessions s' !! fk = Some sid -> is_Some (sr_sess_heap s' !! sid)
}.

Lemma light_ok x s s' : light s s' -> ok x s s'.
Proof.
  intros [Hw Hf Hb Hz Hn Hr Hi Hg Hfs Hs] Hc. split_and!.
  - destruct Hc. split; rewrite ?Hw, ?Hf, ?Hb, ?Hz, ?Hi; auto.
    + intros wid Hwid. specialize (c_fresh_w0 wid Hwid). lia.
    + by apply Hs.
  - split; rewrite ?Hw, ?Hf, ?Hb; auto.
    + intros wid w Hwid. exists w. by split_and!.
    + intros wid w' _ Hnone Hsome. congruence.
  - done.
  - intros k Hk mt Hmt. rewrite Hi. replace (k + 0) with k by lia.
    rewrite Hmt in Hg. simpl in Hg. destruct (sr_metrics s) as [mt0|] eqn:Hm; [|done].
    injection Hg as ->. by apply Hk.
Qed.

Ltac light := apply light_ok; split; simpl; try done; auto.

Lemma set_cache_ok x c s : ok x s (set_cache c s).
Proof. light. Qed.

Lemma count_ok x c d s : c <> CInflightWindows -> ok x s (count c d s).
Proof.
  intros Hne. light. destruct (sr_metrics s) as [mt|]; [|done]. simpl. f_equal.
  pose proof (load_add c CInflightWindows d mt) as Hl. rewrite decide_False in Hl by done. done.
Qed.

Lemma set_readers_ok x v s : ok x s (set_readers v s).
Proof. light. Qed.

Lemma set_recentlyClosed_ok x v s : ok x s (set_recentlyClosed v s).
Proof. light. Qed.

Lemma delete_session_ok x fk s : ok x s (set_sessions (delete fk (sr_sessions s)) s).
Proof. light. intros Hs fk' sid [_ Hl]%lookup_delete_Some. eauto. Qed.

Lemma upd_session_ok x sid f s : ok x s (upd_session sid f s).
Proof.
  assert (forall sid', is_Some (alter f sid (sr_sess_heap s) !! sid') <-> is_Some (sr_sess_heap s !! sid'))
    as Halter by (intros sid'; apply lookup_alter_is_Some).
  light.
  - intros Hf sid'. rewrite Halter. apply Hf.
  - intros Hs fk sid' Hl. rewrite Halter. by eapply Hs.
Qed.

Lemma getOrCreateSession_ok x fk s : ok x s (getOrCreateSession fk s).1.
Proof.
  unfold getOrCreateSession. destruct (sr_sessions s !! fk) eqn:Hs; [apply ok_refl|].
  light.
  - intros Hf sid [->|[_ Hsid]]%lookup_insert_is_Some; [lia|]. specialize (Hf _ Hsid). lia.
  - intros Hs' fk' sid. rewrite lookup_insert_Some, lookup_insert_is_Some.
    intros [[_ ->]|[_ Hl]]; [by left|]. destruct (decide (sr_next s = sid)); [by left|right; eauto].
Qed.

(** A window update keeps the identity of the window and never clears [done]. *)
Definition win_mono (f : inflightWindow -> inflightWindow) : Prop :=
  forall w, win_key (f w) = win_key w /\ win_fileSize (f w) = win_fileSize w /\
    (win_done w = true -> win_done (f w) = true).

Definition win_keeps (f : inflightWindow -> inflightWindow) : Prop :=
  forall w, win_buf (f w) = win_buf w /\ win_readyTo (f w) = win_readyTo w /\ win_total (f w) = win_total w.

Lemma upd_window_ok x wid f s :
  win_mono f -> win_keeps f \/ x = Some wid -> ok x s (upd_window wid f s).
Proof.
  intros Hm Hk Hc. unfold upd_window.
  assert (forall u, is_Some (alter f wid (sr_windows s) !! u) <-> is_Some (sr_windows s !! u))
    as Halter by (intros u; apply lookup_alter_is_Some).
  assert (forall u w', alter f wid (sr_windows s) !! u = Some w' ->
            exists w, sr_windows s !! u = Some w /\ win_key w' = win_key w /\ win_fileSize w' = win_fileSize w)
    as Hinv.
  { intros u w' Hl. apply lookup_alter_Some in Hl as [(<- & w & Hw & ->)|[_ Hw]].
    - exists w. by destruct (Hm w) as (? & ? & ?).
    - by exists w'. }
  split_and!.
  - destruct Hc. split; simpl; try done.
    + intros ik u Hl. destruct (c_inflight0 ik u Hl) as (w & Hw & <-).
      rewrite lookup_alter. case_decide as He; [subst; rewrite Hw; simpl|by exists w].
      exists (f w). by destruct (Hm w).
    + intros u. rewrite Halter. apply c_fetch0.
    + intros u. rewrite Halter. apply c_fresh_w0.
    + intros u w' Hl. destruct (Hinv u w' Hl) as (w & Hw & Hkey & Hfs).
      unfold win_start. rewrite Hkey, Hfs. by apply (c_win0 u).
    + intros u. rewrite Halter. apply c_threads0.
  - split; simpl; try done.
    + intros u w Hw. rewrite lookup_alter. case_decide as He; [subst u; rewrite Hw; simpl|].
      * exists (f w). destruct (Hm w) as (? & ? & ?). split_and!; [done..|].
        destruct Hk as [Hk| ->]; [|done]. intros _. apply Hk.
      * exists w. by split_and!.
    + intros u w' _ Hn Hl. destruct (Hinv u w' Hl) as (w & Hw & _). congruence.
  - done.
  - intros k Hg. replace (k + 0) with k by lia. apply Hg.
Qed.

Lemma set_pc_ok wid pc s : is_Some (sr_windows s !! wid) -> ok (Some wid) s (set_pc wid pc s).
Proof.
  intros Hs Hc. split_and!.
  - destruct Hc. split; simpl; try done. intros u. rewrite lookup_insert_is_Some.
    split; [intros Hu; destruct (decide (wid = u)); [by left|right; split; [done|by apply c_fetch0]]|].
    intros [<-|[_ Hu]]; [done|by apply c_fetch0].
  - split; simpl; try done.
    + intros u w Hw. exists w. by split_and!.
    + intros u pc' Hne Hpc. by rewrite lookup_insert_ne by congruence.
    + intros; congruence.
  - done.
  - intros k Hg. replace (k + 0) with k by lia. apply Hg.
Qed.

(** The semaphore actions of one goroutine leave the standing of the others. *)
Lemma set_budget_ok wid sm s :
  is_Some (sr_windows s !! wid) -> sem_inv sm -> limit sm = limit (sr_budget s) ->
  (forall u, u <> wid -> kind_of (threads sm !! u) = kind_of (threads (sr_budget s) !! u)) ->
  ok (Some wid) s (set_budget sm s).
Proof.
  intros Hs Hi Hl Hk Hc. split_and!.
  - destruct Hc. split; simpl; try done. intros u Hu. destruct (decide (u = wid)) as [->|Hne]; [done|].
    apply c_threads0. specialize (Hk u Hne). destruct (threads (sr_budget s) !! u); [done|].
    destruct (threads sm !! u) as [[[] ?]|]; simpl in Hk; by try destruct Hu.
  - split; simpl; try done.
    + intros u w Hw. exists w. by split_and!.
    + intros u Hne. apply Hk. congruence.
    + intros; congruence.
  - done.
  - intros k Hg. replace (k + 0) with k by lia. apply Hg.
Qed.

Lemma cancel_window_ok x wid s : ok x s (cancel_window wid s).
Proof.
  unfold cancel_window. eapply ok_trans; [apply (upd_window_ok x wid set_cancelled); [by intros w|left; by intros w]|].
  change (sr_budget s) with (sr_budget (upd_window wid set_cancelled s)).
  generalize (upd_window wid set_cancelled s). clear s. intros s Hc. split_and!.
  - destruct Hc. split; simpl; try done. by apply cancel_spec.
  - split; simpl; try done; [|intros; congruence]. intros u w Hw. exists w. by split_and!.
  - done.
  - intros k Hg. replace (k + 0) with k by lia. apply Hg.
Qed.

Lemma delete_inflight_ok x ik s :
  is_Some (sr_inflight s !! ik) ->
  okd 1 x s (set_inflight (delete ik (sr_inflight s)) s).
Proof.
  intros Hs Hc. split_and!.
  - destruct Hc. split; simpl; try done. intros ik' wid [_ Hl]%lookup_delete_Some. eauto.
  - split; simpl; try done; [|intros; congruence]. intros u w Hw. exists w. by split_and!.
  - done.
  - intros k Hg mt Hmt. simpl. rewrite (Hg mt Hmt). f_equal.
    destruct Hs as [v Hv]. rewrite map_size_delete, Hv.
    pose proof (map_size_ne_0_lookup_2 (sr_inflight s) ik ltac:(by eexists)). lia.
Qed.

Lemma count_inflight_ok x d s : okd d x s (count CInflightWindows d s).
Proof.
  intros Hc. split_and!.
  - destruct Hc. by split.
  - split; simpl; try done; [|intros; congruence]. intros u w Hw. exists w. by split_and!.
  - done.
  - intros k Hg mt Hmt. simpl in *. destruct (sr_metrics s) as [m0|] eqn:Hm0; simplify_eq/=.
    specialize (Hg m0 Hm0). unfold add64. rewrite Hg, wrap64_add_l. f_equal. lia.
Qed.

(** ** The methods *)

(** Registering a fresh window and launching its goroutine. *)
Definition create_window (ik : inflightKey) (fileSize bp : Z) s : StreamReader store :=
  count CInflightWindows 1
    (set_pc (sr_next s) (FStart bp)
      (set_inflight (<[ik := sr_next s]> (sr_inflight s))
        (set_windows (<[sr_next s := new_window ik fileSize]> (sr_windows s))
          (set_next (S (sr_next s)) s)))).

Lemma fresh_window s : core s ->
  sr_windows s !! sr_next s = None /\ sr_fetchers s !! sr_next s = None /\
  threads (sr_budget s) !! sr_next s = None.
Proof.
  intros Hc. assert (sr_windows s !! sr_next s = None) as Hw.
  { apply eq_None_not_Some. intros Hs%(c_fresh_w _ Hc). lia. }
  split_and!; [done|..]; apply eq_None_not_Some; intros Hs.
  - apply (c_fetch _ Hc) in Hs. rewrite Hw in Hs. by destruct Hs.
  - apply (c_threads _ Hc) in Hs. rewrite Hw in Hs. by destruct Hs.
Qed.

Lemma create_window_ok x ik fileSize bp s :
  sr_inflight s !! ik = None -> 0 <= ik_start ik < fileSize -> fileSize <= max_offset ->
  ok x s (create_window ik fileSize bp s).
Proof.
  intros Hik Hst Hfs. unfold create_window. eapply (okd_trans (-1) 1); [|apply count_inflight_ok].
  intros Hc. destruct (fresh_window s Hc) as (Hw & Hf & Ht). split_and!.
  - destruct Hc. split; simpl; try done.
    + intros ik' wid [[<- <-]|[Hne Hl]]%lookup_insert_Some.
      * eexists. by rewrite lookup_insert_eq.
      * destruct (c_inflight0 _ _ Hl) as (w & Hw' & Hk). exists w.
        rewrite lookup_insert_ne by congruence. done.
    + intros u. rewrite !lookup_insert_is_Some. rewrite c_fetch0. done.
    + intros u [<-|[_ Hu]]%lookup_insert_is_Some; [lia|]. specialize (c_fresh_w0 _ Hu). lia.
    + intros sid Hsid. specialize (c_fresh_s0 _ Hsid). lia.
    + intros u w [[_ <-]|[_ Hl]]%lookup_insert_Some; [done|by eapply c_win0].
    + intros u Hu%c_threads0. rewrite lookup_insert_is_Some. destruct (decide (sr_next s = u)); auto.
  - split; simpl; try done; [lia|..].
    + intros u w Hu. exists w. rewrite lookup_insert_ne by congruence. by split_and!.
    + intros u pc _ Hpc. by rewrite lookup_insert_ne by congruence.
    + intros u w' _ Hn [[<- <-]|[_ Hl]]%lookup_insert_Some; [|congruence].
      rewrite lookup_insert_eq. split_and!; [done..|]. by eexists.
  - done.
  - intros k Hg mt Hmt. simpl in *. rewrite (Hg mt Hmt), map_size_insert_None by done. f_equal. lia.
Qed.

(** [getOrCreateWindow] joins a registered window that is still useful, or registers
    a new one, after removing a window whose download failed. *)
Lemma getOrCreateWindow_spec x fk ws fileSize bp s :
  core s -> 0 <= ws < fileSize -> fileSize <= max_offset ->
  let '(s', wid, created) := getOrCreateWindow fk ws fileSize bp s in
  ok x s s' /\ sr_cache s' = sr_cache s /\ sr_sess_heap s' = sr_sess_heap s /\
  sr_sessions s' = sr_sessions s /\
  sr_inflight s' !! InflightKey fk ws = Some wid /\
  exists w, sr_windows s' !! wid = Some w /\ win_key w = InflightKey fk ws /\
    (win_done w = true -> win_err w = None) /\
    if created then w = new_window (InflightKey fk ws) fileSize /\ sr_windows s !! wid = None
    else s' = s.
Proof.
  intros Hc Hst Hfs. unfold getOrCreateWindow.
  assert (forall s0 s1, ok x s0 s1 -> core s1 -> sr_inflight s1 !! InflightKey fk ws = None ->
    let s' := create_window (InflightKey fk ws) fileSize bp s1 in
    ok x s0 s' /\ sr_inflight s' !! InflightKey fk ws = Some (sr_next s1) /\
    sr_windows s' !! sr_next s1 = Some (new_window (InflightKey fk ws) fileSize)) as Hcreate.
  { intros s0 s1 Hok Hc1 Hn. split_and!; simpl; [|apply lookup_insert_eq..].
    eapply ok_trans; [exact Hok|]. by apply create_window_ok. }
  destruct (sr_inflight s !! InflightKey fk ws) as [wid|] eqn:Hik.
  - destruct (c_inflight _ Hc _ _ Hik) as (w & Hw & Hkey). rewrite Hw.
    destruct (win_done w && _) eqn:Hdone.
    + set (s1 := count CInflightWindows (-1) (set_inflight (delete (InflightKey fk ws) (sr_inflight s)) s)).
      assert (ok x s s1) as Hok1.
      { apply (okd_trans 1 (-1) x _ (set_inflight (delete (InflightKey fk ws) (sr_inflight s)) s));
          [by apply delete_inflight_ok; eexists|apply count_inflight_ok]. }
      pose proof (proj1 (Hok1 Hc)) as Hc1.
      destruct (Hcreate s s1 Hok1 Hc1 (lookup_delete_eq _ _)) as (Hok & Hi' & Hw').
      destruct (fresh_window _ Hc1) as (Hn & _).
      split_and!; [exact Hok|done..|]. eexists. by split_and!.
    + split_and!; [apply ok_refl|done..|]. exists w. split_and!; [done..| |done].
      intros Hd. rewrite Hd in Hdone. apply bool_decide_eq_false in Hdone.
      by apply eq_None_not_Some.
  - destruct (Hcreate s s (ok_refl x s) Hc Hik) as (Hok & Hi' & Hw').
    destruct (fresh_window _ Hc) as (Hn & _).
    split_and!; [exact Hok|done..|]. eexists. by split_and!.
Qed.

Lemma maybeReadAhead_ok x fk endOff ws fileSize sid bp now s :
  0 <= ws <= max_offset -> fileSize <= max_offset ->
  ok x s (maybeReadAhead fk endOff ws fileSize sid bp now s).
Proof.
  intros Hws Hfs Hc. pose proof (c_ws _ Hc) as Hz. revert Hc. unfold maybeReadAhead.
  set (next := ws +w sr_windowSize s).
  assert (next = ws + sr_windowSize s) as Hnext
    by (unfold next, add64; apply wrap64_id; unfold in_int64, max_offset in *; lia).
  clearbody next. destruct (Z.leb_spec fileSize next); [apply ok_refl|].
  repeat (case_match; [apply ok_refl|]).
  destruct (rs_copyTo fk next [x00] now (sr_cache s)) as [[c b] hit].
  eapply ok_trans; [apply (set_cache_ok x c)|]. set (s1 := set_cache c s).
  repeat (case_match; [apply ok_refl|]). intros Hc.
  pose proof (getOrCreateWindow_spec x fk next fileSize bp s1 Hc ltac:(lia) Hfs) as Hspec.
  destruct (getOrCreateWindow fk next fileSize bp s1) as [[s' wid] created]. by apply Hspec.
Qed.

Lemma foldl_ok {A} x (f : StreamReader store -> A -> StreamReader store) l s :
  (forall s a, ok x s (f s a)) -> ok x s (foldl f s l).
Proof.
  intros Hf. revert s. induction l as [|a l IH]; intros s; simpl; [apply ok_refl|].
  eapply ok_trans; [apply Hf|apply IH].
Qed.

Lemma maybeCancelOnSeek_ok x fk off now s : ok x s (maybeCancelOnSeek fk off now s).
Proof.
  unfold maybeCancelOnSeek. case_match; [apply ok_refl|].
  pose proof (getOrCreateSession_ok x fk s) as Hs.
  destruct (getOrCreateSession fk s) as [s1 sid]. simpl in Hs.
  eapply ok_trans; [exact Hs|]. eapply ok_trans;
    [apply (foldl_ok x (fun s (e : inflightKey * nat) => cancel_window e.2 s)); intros; apply cancel_window_ok|].
  case_bool_decide; [apply ok_refl|].
  eapply ok_trans; [|apply upd_session_ok]. by apply count_ok.
Qed.

Lemma maybeCleanupSession_ok x fk s : ok x s (maybeCleanupSession fk s).
Proof. unfold maybeCleanupSession. repeat case_match; auto using ok_refl, delete_session_ok. Qed.

Lemma cleanupWindow_ok x wid s : ok x s (cleanupWindow wid s).
Proof.
  unfold cleanupWindow. destruct (sr_windows s !! wid) as [w|]; [|apply ok_refl].
  eapply ok_trans; [|apply maybeCleanupSession_ok]. case_bool_decide as Hb; [|apply ok_refl].
  eapply (okd_trans 1 (-1)); [apply delete_inflight_ok; by eexists|apply count_inflight_ok].
Qed.

Lemma set_done_mono : win_mono set_done.
Proof. by intros w. Qed.

Lemma set_done_keeps : win_keeps set_done.
Proof. by intros w. Qed.

Lemma cancel_entry_ok x fk s fs rm e :
  is_Some (sr_inflight s !! e.1) ->
  let '(s', _, rm') := cancel_entry fk (s, fs, rm) e in
  okd (rm' - rm) x s s' /\ (forall ik, ik <> e.1 -> sr_inflight s' !! ik = sr_inflight s !! ik).
Proof.
  intros Hs. unfold cancel_entry. case_bool_decide.
  - split.
    + replace (rm + 1 - rm) with 1 by lia.
      eapply (okd_trans 0 1); [|by apply delete_inflight_ok].
      eapply ok_trans; [apply cancel_window_ok|].
      apply upd_window_ok; [apply set_done_mono|left; apply set_done_keeps].
    + intros ik Hne. simpl. by rewrite lookup_delete_ne.
  - replace (rm - rm) with 0 by lia. split; [apply ok_refl|done].
Qed.

Lemma cancel_fold_ok x fk l s fs rm :
  NoDup l.*1 -> (forall e, e ∈ l -> is_Some (sr_inflight s !! e.1)) ->
  let '(s', _, rm') := foldl (cancel_entry fk) (s, fs, rm) l in okd (rm' - rm) x s s'.
Proof.
  revert s fs rm. induction l as [|e l IH]; intros s fs rm Hnd Hin.
  - simpl. replace (rm - rm) with 0 by lia. apply ok_refl.
  - rewrite fmap_cons in Hnd. apply NoDup_cons in Hnd as [Hn Hnd].
    pose proof (cancel_entry_ok x fk s fs rm e (Hin e ltac:(left))) as He.
    cbn [foldl]. destruct (cancel_entry fk (s, fs, rm) e) as [[s1 fs1] rm1]. destruct He as [Hok Hother].
    specialize (IH s1 fs1 rm1 Hnd).
    assert (forall e', e' ∈ l -> is_Some (sr_inflight s1 !! e'.1)) as Hin'.
    { intros e' He'. rewrite Hother; [apply Hin; by right|]. intros Heq. apply Hn. rewrite <- Heq.
      apply list_elem_of_fmap. by exists e'. }
    specialize (IH Hin'). destruct (foldl (cancel_entry fk) (s1, fs1, rm1) l) as [[s2 fs2] rm2].
    replace (rm2 - rm) with (rm1 - rm + (rm2 - rm1)) by lia. by eapply okd_trans.
Qed.

Lemma cancel_fold_removed fk l s fs rm :
  rm <= (foldl (cancel_entry fk) (s, fs, rm) l).2.
Proof.
  revert s fs rm. induction l as [|e l IH]; intros s fs rm; [simpl; lia|]. cbn [foldl].
  unfold cancel_entry at 2. case_bool_decide; [|apply IH].
  etrans; [|apply IH]. lia.
Qed.

Lemma inflight_range_lookup s ik wid :
  (ik, wid) ∈ inflight_range s <-> sr_inflight s !! ik = Some wid.
Proof. apply elem_of_map_range. Qed.

Lemma CancelFile_ok x fk now s : ok x s (CancelFile fk now s).
Proof.
  unfold CancelFile.
  pose proof (cancel_fold_ok x fk (inflight_range s) s 0 0 (NoDup_map_range 0 (sr_inflight s))) as Hok.
  assert (forall e, e ∈ inflight_range s -> is_Some (sr_inflight s !! e.1)) as Hin.
  { intros [ik wid] He. apply inflight_range_lookup in He. by eexists. }
  specialize (Hok Hin). pose proof (cancel_fold_removed fk (inflight_range s) s 0 0) as Hrm.
  destruct (foldl (cancel_entry fk) (s, 0, 0) (inflight_range s)) as [[s1 fs0] rm]. simpl in Hrm.
  assert (ok x s (if 0 <? rm then count CInflightWindows (- rm) s1 else s1)) as Hok2.
  { destruct (Z.ltb_spec 0 rm).
    - replace 0 with (rm - 0 + - rm) by lia. eapply okd_trans; [exact Hok|apply count_inflight_ok].
    - by replace 0 with (rm - 0) by lia. }
  revert Hok2. generalize (if 0 <? rm then count CInflightWindows (- rm) s1 else s1). clear Hok.
  intros s2 Hok2. eapply ok_trans; [exact Hok2|].
  match goal with |- context [if ?c then _ else _] => generalize c end. intros c.
  eapply ok_trans; [|eapply ok_trans; [apply delete_session_ok|apply set_readers_ok]].
  case_match; auto using ok_refl, set_recentlyClosed_ok.
Qed.

Lemma TrackReader_ok x fk id off s : ok x s (TrackReader fk id off s).
Proof. eapply ok_trans; [apply set_readers_ok|apply set_recentlyClosed_ok]. Qed.

Lemma UntrackReader_ok x fk id s : ok x s (UntrackReader fk id s).
Proof. unfold UntrackReader. repeat case_match; auto using ok_refl, set_readers_ok. Qed.

(** ** The actions of a fetch goroutine *)

(** The goroutine of [wid] is where the semaphore and the window say it is. *)
Definition goro_ok s (wid : nat) (pc : fetch_pc) : Prop :=
  kind_of (threads (sr_budget s) !! wid) = pc_kind pc /\
  (ended pc = true -> exists w, sr_windows s !! wid = Some w /\ win_done w = true).

Definition at_pc s (wid : nat) : Prop :=
  exists pc, sr_fetchers s !! wid = Some pc /\ goro_ok s wid pc.

(** An action of [wid]'s goroutine that ends at a position it is entitled to. *)
Definition fetch_ok (wid : nat) s s' : Prop := ok (Some wid) s s' /\ (core s -> at_pc s' wid).

Lemma set_pc_fetch_ok wid pc s0 s :
  ok (Some wid) s0 s -> is_Some (sr_windows s !! wid) ->
  kind_of (threads (sr_budget s) !! wid) = pc_kind pc ->
  (ended pc = true -> exists w, sr_windows s !! wid = Some w /\ win_done w = true) ->
  fetch_ok wid s0 (set_pc wid pc s).
Proof.
  intros Hok Hw Hk Hd. split; [eapply ok_trans; [exact Hok|by apply set_pc_ok]|].
  intros _. exists pc. split; [apply lookup_insert_eq|done].
Qed.

Lemma window_evolves d x s s' wid : okd d x s s' -> core s -> is_Some (sr_windows s !! wid) ->
  is_Some (sr_windows s' !! wid).
Proof.
  intros Hok Hc [w Hw]. destruct (Hok Hc) as (_ & He & _).
  destruct (e_win _ _ _ He wid w Hw) as (w' & Hw' & _). by eexists.
Qed.

Lemma kind_evolves d s s' wid : okd d None s s' -> core s ->
  kind_of (threads (sr_budget s') !! wid) = kind_of (threads (sr_budget s) !! wid).
Proof. intros Hok Hc. destruct (Hok Hc) as (_ & He & _). by apply (e_kind _ _ _ He). Qed.

Lemma upd_window_some wid f s : is_Some (sr_windows (upd_window wid f s) !! wid) <-> is_Some (sr_windows s !! wid).
Proof. apply lookup_alter_is_Some. Qed.

Lemma finish_spec wid s :
  core s -> is_Some (sr_windows s !! wid) -> kind_of (threads (sr_budget s) !! wid) = KHolding ->
  ok (Some wid) s (finish wid s) /\ threads (sr_budget (finish wid s)) !! wid = None /\
  exists w, sr_windows (finish wid s) !! wid = Some w /\ win_done w = true.
Proof.
  intros Hc Hw Hk. pose proof (c_sem _ Hc) as Hi. destruct (kind_holding _ _ Hk) as (th & Hth & Hp).
  pose proof (step_release wid th _ Hth Hp) as Hst.
  destruct (sem_step_simulated _ _ _ Hi Hst) as [Hi' Ha].
  split_and!.
  - unfold finish. eapply ok_trans; [|apply upd_window_ok; [apply set_done_mono|left; apply set_done_keeps]].
    apply set_budget_ok; [done|done| |intros; by apply release_kind].
    unfold release; simpl. by case_match.
  - simpl. by apply release_gone.
  - destruct Hw as [w Hw]. exists (set_done w). unfold finish; simpl. by rewrite lookup_alter_eq, Hw.
Qed.

Lemma fetch_fail_ok wid e s :
  core s -> is_Some (sr_windows s !! wid) -> kind_of (threads (sr_budget s) !! wid) = KHolding ->
  fetch_ok wid s (fetch_fail wid e s).
Proof.
  intros Hc Hw Hk. unfold fetch_fail.
  assert (ok (Some wid) s (upd_window wid (set_err e) s)) as Hok
    by (apply upd_window_ok; [by intros w|by right]).
  destruct (finish_spec wid (upd_window wid (set_err e) s)) as (Hok' & Hn & Hd);
    [apply (Hok Hc)|by rewrite upd_window_some|done|].
  apply set_pc_fetch_ok.
  - eapply ok_trans; [exact Hok|exact Hok'].
  - destruct Hd as (w & Hd & _). by eexists.
  - by rewrite Hn.
  - done.
Qed.

Lemma next_attempt_ok wid a bp cp s :
  is_Some (sr_windows s !! wid) -> kind_of (threads (sr_budget s) !! wid) = KHolding ->
  fetch_ok wid s (next_attempt wid a bp cp s).
Proof.
  intros Hw Hk. apply set_pc_fetch_ok.
  - apply upd_window_ok; [by intros w|by right].
  - by rewrite upd_window_some.
  - done.
  - done.
Qed.

Lemma set_done_ok x wid s : ok x s (upd_window wid set_done s).
Proof. apply upd_window_ok; [apply set_done_mono|left; apply set_done_keeps]. Qed.

Lemma fetch_complete_ok wid w sid bp now s :
  core s -> sr_windows s !! wid = Some w -> kind_of (threads (sr_budget s) !! wid) = KHolding ->
  fetch_ok wid s (fetch_complete wid w sid bp now s).
Proof.
  intros Hc Hw Hk. destruct (c_win _ Hc _ _ Hw) as [Hst Hfs]. unfold fetch_complete.
  set (s1 := upd_window wid set_done s).
  set (s2 := maybeReadAhead _ _ _ _ _ _ _ s1).
  assert (ok None s s2) as Hok2.
  { eapply ok_trans; [apply (set_done_ok None wid)|]. apply maybeReadAhead_ok; [|done]. lia. }
  assert (core s2) as Hc2 by apply (Hok2 Hc).
  assert (is_Some (sr_windows s2 !! wid)) as Hw2 by (eapply window_evolves; [exact Hok2|done|by eexists]).
  assert (ok (Some wid) s2 (set_pc wid FCleanup s2)) as Hok3 by by apply set_pc_ok.
  destruct (finish_spec wid (set_pc wid FCleanup s2)) as (Hok4 & Hn & Hd).
  - apply (Hok3 Hc2).
  - done.
  - simpl. by rewrite (kind_evolves _ _ _ wid Hok2 Hc).
  - split; [eapply ok_trans; [by apply okd_weaken, Hok2|eapply ok_trans; [exact Hok3|exact Hok4]]|].
    intros _. exists FCleanup. split; [simpl; apply lookup_insert_eq|]. split; [by rewrite Hn|done].
Qed.

Lemma getOrCreateSession_same fk s s' sid :
  getOrCreateSession fk s = (s', sid) ->
  sr_cache s' = sr_cache s /\ sr_windows s' = sr_windows s /\ sr_fetchers s' = sr_fetchers s /\
  sr_budget s' = sr_budget s /\ sr_windowSize s' = sr_windowSize s /\ sr_inflight s' = sr_inflight s /\
  sr_reads s' = sr_reads s /\ sr_sessions s' !! fk = Some sid.
Proof.
  unfold getOrCreateSession. destruct (sr_sessions s !! fk) as [sid0|] eqn:Hs; intros [= <- <-];
    split_and!; try done. apply lookup_insert_eq.
Qed.

Lemma after_acquire_ok wid w bp now s :
  core s -> sr_windows s !! wid = Some w -> fetch_ok wid s (after_acquire wid w bp now s).
Proof.
  intros Hc Hw. unfold after_acquire.
  destruct (threads (sr_budget s) !! wid) as [th|] eqn:Hth.
  - case_bool_decide as Hp.
    + unfold begin_fetch. pose proof (getOrCreateSession_ok (Some wid) (win_file w) s) as Hok.
      destruct (getOrCreateSession (win_file w) s) as [s1 sid] eqn:Hs. simpl in Hok.
      apply getOrCreateSession_same in Hs as (_ & Hw1 & _ & Hb1 & _).
      apply set_pc_fetch_ok; [done|rewrite Hw1; by eexists| |done].
      rewrite Hb1, Hth. simpl. by rewrite Hp.
    + apply set_pc_fetch_ok; [apply ok_refl|by eexists| |done].
      rewrite Hth. simpl. by destruct (th_phase th).
  - apply set_pc_fetch_ok.
    + apply upd_window_ok; [by intros w'|by right].
    + rewrite upd_window_some. by eexists.
    + simpl. by rewrite Hth.
    + intros _. simpl. exists (set_done (set_err Canceled w)). by rewrite lookup_alter_eq, Hw.
Qed.

Lemma fetch_ok_trans wid s s1 s2 : ok (Some wid) s s1 -> fetch_ok wid s1 s2 -> fetch_ok wid s s2.
Proof.
  intros H1 [H2 H2']. split; [by eapply ok_trans|]. intros Hc. apply H2', (H1 Hc).
Qed.

Lemma fetch_start_ok wid w bp now s :
  core s -> sr_windows s !! wid = Some w -> threads (sr_budget s) !! wid = None ->
  fetch_ok wid s (fetch_start wid w bp now s).
Proof.
  intros Hc Hw Hn. pose proof (acquire_enter_spec wid bp _ (c_sem _ Hc) Hn) as [Hi' _].
  assert (ok (Some wid) s (set_budget (acquire_enter wid bp (sr_budget s)) s)) as Hok.
  { apply set_budget_ok; [by eexists|done| |intros; by apply acquire_enter_kind].
    unfold acquire_enter, abandon. by repeat case_match. }
  eapply fetch_ok_trans; [exact Hok|]. apply after_acquire_ok; [apply (Hok Hc)|done].
Qed.

Lemma fetch_resume_ok wid w bp now s :
  core s -> sr_windows s !! wid = Some w -> is_woken s wid = true ->
  fetch_ok wid s (fetch_resume wid w bp now s).
Proof.
  intros Hc Hw Hwk. apply bool_decide_eq_true in Hwk.
  apply fmap_Some in Hwk as (th & Hth & Hp).
  pose proof (acquire_resume_spec wid th _ (c_sem _ Hc) Hth (eq_sym Hp)) as [Hi' _].
  assert (ok (Some wid) s (set_budget (acquire_resume wid (sr_budget s)) s)) as Hok.
  { apply set_budget_ok; [by eexists|done| |intros; by apply acquire_resume_kind].
    unfold acquire_resume, abandon. by repeat case_match. }
  eapply fetch_ok_trans; [exact Hok|]. apply after_acquire_ok; [apply (Hok Hc)|done].
Qed.

Lemma fetch_cached_ok wid w bp cp len now s s' :
  core s -> sr_windows s !! wid = Some w -> kind_of (threads (sr_budget s) !! wid) = KHolding ->
  fetch_cached wid w bp cp len now s = Some s' -> fetch_ok wid s s'.
Proof.
  intros Hc Hw Hk. unfold fetch_cached. case_match; [done|].
  destruct (rs_copyTo _ _ _ now (sr_cache s)) as [[c b] hit].
  set (s0 := upd_window wid _ (set_cache c s)).
  assert (ok (Some wid) s s0) as Hok0.
  { eapply ok_trans; [apply (set_cache_ok _ c)|]. apply upd_window_ok; [by intros w'|by right]. }
  pose proof (getOrCreateSession_ok (Some wid) (win_file w) s0) as Hok1.
  destruct (getOrCreateSession (win_file w) s0) as [s1 sid] eqn:Hs1. simpl in Hok1.
  apply getOrCreateSession_same in Hs1 as (_ & Hw1 & _ & Hb1 & _).
  intros (c' & _ & [= <-])%bind_Some.
  set (b0 := set_buf b (default 0 hit) (default 0 hit)) in *.
  assert (ok (Some wid) s (set_cache c' s1)) as Hok.
  { eapply ok_trans; [exact Hok0|]. eapply ok_trans; [exact Hok1|]. apply set_cache_ok. }
  eapply fetch_ok_trans; [exact Hok|].
  assert (fetch_complete wid w sid bp now (set_cache c' s1) =
          fetch_complete wid (b0 w) sid bp now (set_cache c' s1)) as -> by done.
  apply fetch_complete_ok; [apply (Hok Hc)| |by rewrite <- Hk; simpl; rewrite Hb1].
  simpl. rewrite Hw1. simpl. by rewrite lookup_alter_eq, Hw.
Qed.

Lemma fetch_prefix_ok wid w a bp cp cl now s s' :
  core s -> sr_windows s !! wid = Some w -> kind_of (threads (sr_budget s) !! wid) = KHolding ->
  fetch_prefix wid w a bp cp cl now s = Some s' -> fetch_ok wid s s'.
Proof.
  intros Hc Hw Hk. unfold fetch_prefix. case_match; [by apply fetch_cached_ok|]. case_match.
  - destruct (rs_copyTo _ _ _ now (sr_cache s)) as [[c b] hit]. intros [= <-].
    apply set_pc_fetch_ok; [|by apply upd_window_some; eexists|done|done].
    eapply ok_trans; [apply (set_cache_ok _ c)|]. apply upd_window_ok; [by intros w'|by right].
  - intros [= <-]. apply set_pc_fetch_ok; [|by apply upd_window_some; eexists|done|done].
    apply upd_window_ok; [by intros w'|by right].
Qed.

Lemma fetch_response_ok wid a bp cp cl fs fe resp s :
  core s -> is_Some (sr_windows s !! wid) -> kind_of (threads (sr_budget s) !! wid) = KHolding ->
  fetch_ok wid s (fetch_response wid a bp cp cl fs fe resp s).
Proof.
  intros Hc Hw Hk. unfold fetch_response. destruct resp as [[]|e].
  - by apply set_pc_fetch_ok; [apply ok_refl|..].
  - case_match; [by apply next_attempt_ok|by apply fetch_fail_ok].
Qed.

Lemma after_stream_ok wid a bp cp fetched success now s s' :
  core s -> is_Some (sr_windows s !! wid) -> kind_of (threads (sr_budget s) !! wid) = KHolding ->
  after_stream wid a bp cp fetched success now s = Some s' -> fetch_ok wid s s'.
Proof.
  intros Hc Hsome Hk. unfold after_stream. intros (w & Hw & (c & _ & Hs')%bind_Some)%bind_Some.
  pose proof (set_cache_ok (Some wid) c s) as Hok. revert Hs'. case_match.
  - pose proof (getOrCreateSession_ok (Some wid) (win_file w) (set_cache c s)) as Hok1.
    destruct (getOrCreateSession (win_file w) (set_cache c s)) as [s2 sid] eqn:Hs2. simpl in Hok1.
    apply getOrCreateSession_same in Hs2 as (_ & Hw2 & _ & Hb2 & _). intros [= <-].
    pose proof (ok_trans _ _ _ _ Hok Hok1) as Hok2.
    eapply fetch_ok_trans; [exact Hok2|].
    apply fetch_complete_ok; [apply (Hok2 Hc)|by rewrite Hw2|by rewrite Hb2].
  - case_match; intros [= <-]; (eapply fetch_ok_trans; [exact Hok|]).
    + apply fetch_fail_ok; [apply (Hok Hc)|done..].
    + by apply next_attempt_ok.
Qed.

Lemma fetch_body_ok wid a bp cp cl fs fe tr chunk rerr now s s' :
  core s -> is_Some (sr_windows s !! wid) -> kind_of (threads (sr_budget s) !! wid) = KHolding ->
  fetch_body wid a bp cp cl fs fe tr chunk rerr now s = Some s' -> fetch_ok wid s s'.
Proof.
  intros Hc Hw Hk. unfold fetch_body.
  set (s1 := if bool_decide (chunk = []) then s else upd_window wid (append_chunk cl tr chunk) s).
  assert (ok (Some wid) s s1) as Hok.
  { unfold s1. case_match; [apply ok_refl|]. apply upd_window_ok; [by intros w'|by right]. }
  assert (is_Some (sr_windows s1 !! wid)) as Hw1
    by (unfold s1; case_match; [done|by apply upd_window_some]).
  assert (kind_of (threads (sr_budget s1) !! wid) = KHolding) as Hk1 by (unfold s1; by case_match).
  pose proof (proj1 (Hok Hc)) as Hc1. clearbody s1. intros Hs'. eapply fetch_ok_trans; [exact Hok|].
  destruct rerr as [e|]; [by eapply after_stream_ok|]. revert Hs'. case_match; [by apply after_stream_ok|].
  intros [= <-]. by apply set_pc_fetch_ok; [apply ok_refl|..].
Qed.

Lemma fetch_step_ok wid inp now s s' :
  core s -> at_pc s wid -> fetch_step wid inp now s = Some s' -> fetch_ok wid s s'.
Proof.
  intros Hc (pc0 & Hpc0 & Hk & Hd). unfold fetch_step.
  intros (pc & Hpc & (w & Hw & Hs')%bind_Some)%bind_Some.
  rewrite Hpc0 in Hpc. injection Hpc as <-.
  assert (is_Some (sr_windows s !! wid)) as Hsome by by eexists.
  destruct pc0, inp; simpl in Hk; try done.
  - injection Hs' as <-. apply fetch_start_ok; [done..|].
    by destruct (threads (sr_budget s) !! wid) as [[[] ?]|].
  - destruct (is_woken s wid) eqn:Hwk; [|done]. injection Hs' as <-. by apply fetch_resume_ok.
  - injection Hs' as <-. by apply set_pc_fetch_ok; [apply ok_refl|..].
  - by eapply fetch_prefix_ok.
  - injection Hs' as <-. by apply fetch_response_ok.
  - by eapply fetch_body_ok.
  - destruct (win_cancelled w); [|done]. injection Hs' as <-. by apply fetch_fail_ok.
  - injection Hs' as <-. by apply set_pc_fetch_ok; [apply ok_refl|..].
  - injection Hs' as <-. apply set_pc_fetch_ok.
    + apply cleanupWindow_ok.
    + by eapply window_evolves; [apply (cleanupWindow_ok None)|..].
    + rewrite (kind_evolves 0 s _ wid (cleanupWindow_ok None wid s) Hc). done.
    + intros _. destruct (cleanupWindow_ok None wid s Hc) as (_ & He & _).
      destruct (Hd eq_refl) as (w0 & Hw0 & Hd0).
      destruct (e_win _ _ _ He wid w0 Hw0) as (w' & Hw' & _ & _ & Hm & _). eauto.
Qed.

(** ** The invariant of every reachable state *)

Definition reader_ok s r : Prop :=
  0 <= rd_cur r /\ rd_cur r + len64 (rd_rem r) <= max_offset /\ rd_fileSize r <= max_offset /\
  match rd_pc r with
  | RWait wid ws _ _ =>
      0 <= ws <= rd_cur r /\
      exists w, sr_windows s !! wid = Some w /\ win_key w = InflightKey (rd_file r) ws
  | RSmall off _ => rd_cur r = rd_off r /\ off = rd_off r
  | _ => True
  end.

Context (L : Z).

Record inv s : Prop := {
  i_core : core s;
  i_limit : limit (sr_budget s) = L;
  i_gauge : gauge 0 s;
  i_goro : forall wid pc, sr_fetchers s !! wid = Some pc -> goro_ok s wid pc;
  i_reads : forall rid r, sr_reads s !! rid = Some r -> reader_ok s r
}.

(** What the model assumes of its environment: offsets and sizes of reads are far
    from overflow, and a body read returns no more bytes than it was asked for. *)
Definition env_ok (e : event) s : Prop :=
  match e with
  | ERead _ _ off p fileSize => 0 <= off /\ off + len64 p <= max_offset /\ fileSize <= max_offset
  | ESmall rid (Ok (body, _)) =>
      forall r, sr_reads s !! rid = Some r -> len64 body <= len64 (rd_rem r)
  | EFetch _ (IBody chunk _) => len64 chunk <= readChunkSize
  | _ => True
  end.

Lemma reader_ok_evolves x s s' r : evolves x s s' -> reader_ok s r -> reader_ok s' r.
Proof.
  intros He (H1 & H2 & H3 & H4). split_and!; [done..|]. destruct (rd_pc r); try done.
  destruct H4 as (? & w & Hw & Hk). split; [done|].
  destruct (e_win _ _ _ He _ _ Hw) as (w' & Hw' & Hk' & _). exists w'. split; [done|congruence].
Qed.

Lemma goro_evolves x s s' wid pc :
  core s -> evolves x s s' -> Some wid <> x ->
  (forall pc0, sr_fetchers s !! wid = Some pc0 -> goro_ok s wid pc0) -> core s' ->
  sr_fetchers s' !! wid = Some pc -> goro_ok s' wid pc.
Proof.
  intros Hc He Hx Hold Hc' Hpc. destruct (sr_fetchers s !! wid) as [pc0|] eqn:Hpc0.
  - pose proof (e_pc _ _ _ He wid pc0 Hx Hpc0). simplify_eq.
    destruct (Hold pc eq_refl) as [Hk Hd]. split; [by rewrite (e_kind _ _ _ He wid Hx)|].
    intros Hend. destruct (Hd Hend) as (w & Hw & Hdone).
    destruct (e_win _ _ _ He wid w Hw) as (w' & Hw' & _ & _ & Hm & _). eauto.
  - assert (sr_windows s !! wid = None) as Hn.
    { apply eq_None_not_Some. intros Hs%(c_fetch _ Hc). rewrite Hpc0 in Hs. by destruct Hs. }
    destruct (proj2 (c_fetch _ Hc' wid)) as [w' Hw']; [by eexists|].
    destruct (e_new _ _ _ He wid w' Hx Hn Hw') as (_ & _ & _ & bp & Hbp). simplify_eq.
    split; [|done]. rewrite (e_kind _ _ _ He wid Hx). simpl.
    destruct (threads (sr_budget s) !! wid) eqn:Ht; [|done].
    destruct (c_threads _ Hc wid) as [? ?]; [by eexists|congruence].
Qed.

(** Steps that are nobody's fetch action. *)
Lemma inv_ok s s' : inv s -> ok None s s' -> inv s'.
Proof.
  intros [Hc Hl Hg Hgo Hr] Hok. destruct (Hok Hc) as (Hc' & He & Hrd & Hga). split.
  - done.
  - by rewrite (e_limit _ _ _ He).
  - replace 0 with (0 + 0) by done. by apply Hga.
  - intros wid pc Hpc. apply (goro_evolves None s s' wid pc); try done. intros; by apply Hgo.
  - intros rid r Hlk. rewrite Hrd in Hlk. eapply reader_ok_evolves; [exact He|by eapply Hr].
Qed.

Lemma inv_fetch wid s s' : inv s -> fetch_ok wid s s' -> inv s'.
Proof.
  intros [Hc Hl Hg Hgo Hr] [Hok Hat]. destruct (Hok Hc) as (Hc' & He & Hrd & Hga). split.
  - done.
  - by rewrite (e_limit _ _ _ He).
  - replace 0 with (0 + 0) by done. by apply Hga.
  - intros u pc Hpc. destruct (decide (u = wid)) as [->|Hne].
    + destruct (Hat Hc) as (pc' & Hpc' & Hgok). by simplify_eq.
    + eapply (goro_evolves (Some wid) s); try done; [congruence|]. intros; by apply Hgo.
  - intros rid r Hlk. rewrite Hrd in Hlk. eapply reader_ok_evolves; [exact He|by eapply Hr].
Qed.

Lemma inv_set_read rid r s : inv s -> reader_ok s r -> inv (set_read rid r s).
Proof.
  intros [Hc Hlim Hg Hgo Hr] Hok. split.
  - destruct Hc. by split.
  - done.
  - done.
  - done.
  - intros rid' r'. simpl. intros [[<- <-]|[_ Hl]]%lookup_insert_Some; [done|by eapply Hr].
Qed.

Lemma windowStart_spec off s :
  core s -> 0 <= off <= max_offset -> 0 <= windowStart off s <= off.
Proof.
  intros Hc Ho. pose proof (c_ws _ Hc). unfold windowStart.
  rewrite Z.quot_div_nonneg by lia.
  pose proof (Z.mul_div_le off (sr_windowSize s) ltac:(lia)).
  pose proof (Z.div_pos off (sr_windowSize s) ltac:(lia) ltac:(lia)).
  rewrite wrap64_id; unfold in_int64, max_offset in *; nia.
Qed.

Lemma read_advance_ok s n rem' r :
  0 <= rd_cur r -> rd_cur r + len64 (rd_rem r) <= max_offset -> rd_fileSize r <= max_offset ->
  0 <= n <= len64 (rd_rem r) -> length rem' = length (rd_rem r) ->
  reader_ok s (read_goto RLoop (read_advance n rem' r)) /\
  rd_cur r +w n = rd_cur r + n /\ len64 (drop (Z.to_nat n) rem') = len64 (rd_rem r) - n.
Proof.
  intros Hc Hm Hf Hn Hl. assert (rd_cur r +w n = rd_cur r + n) as Hw
    by (unfold add64; apply wrap64_id; unfold in_int64, max_offset in *; lia).
  assert (len64 (drop (Z.to_nat n) rem') = len64 (rd_rem r) - n) as Hd
    by (unfold len64 in *; rewrite length_drop; lia).
  split_and!; try done. unfold reader_ok; simpl. rewrite Hw, Hd. split_and!; try done; lia.
Qed.

Lemma reader_ok_goto s r e : reader_ok s r -> reader_ok s (read_goto (RDone e) r).
Proof. by intros (? & ? & ? & _). Qed.

Lemma reader_ok_loop s r : reader_ok s r -> reader_ok s (read_goto RLoop r).
Proof. by intros (? & ? & ? & _). Qed.

Lemma read_progress_ok s n rem' r :
  0 <= rd_cur r -> rd_cur r + len64 (rd_rem r) <= max_offset -> rd_fileSize r <= max_offset ->
  0 <= n <= len64 (rd_rem r) -> length rem' = length (rd_rem r) -> reader_ok s (read_progress n rem' r).
Proof.
  intros. unfold read_progress, read_return. case_match; [done|]. by apply read_advance_ok.
Qed.

Context {RL : RangeStoreLaws store}.

Lemma smallRead_inv rid r now s :
  inv s -> reader_ok s r -> rd_cur r = rd_off r -> inv (smallRead rid r now s).
Proof.
  intros Hi Hr Hcur. unfold smallRead.
  destruct (rs_copyTo _ _ _ now (sr_cache s)) as [[c p'] hit] eqn:Hcopy.
  assert (inv (set_cache c s)) as Hi1 by (eapply inv_ok; [exact Hi|apply set_cache_ok]).
  destruct Hr as (H1 & H2 & H3 & H4). destruct hit as [n|].
  - apply rs_copyTo_bounds in Hcopy as [Hn Hl].
    destruct (read_advance_ok (count CCacheHitCount 1 (set_cache c s)) n p' r) as (Hok & _); [done..|].
    apply inv_set_read; [eapply inv_ok; [exact Hi1|by apply count_ok]|done].
  - destruct (sr_inflight (set_cache c s) !! _); apply inv_set_read; done.
Qed.

Lemma read_begin_inv rid fk off p fileSize now s :
  inv s -> 0 <= off -> off + len64 p <= max_offset -> fileSize <= max_offset ->
  inv (read_begin rid fk off p fileSize now s).
Proof.
  intros Hi Ho Hm Hf. unfold read_begin. case_bool_decide as Hp.
  - by apply inv_set_read.
  - set (s1 := maybeCancelOnSeek fk off now (count CReadCount 1 s)).
    assert (inv s1) as Hi1.
    { eapply inv_ok; [|apply maybeCancelOnSeek_ok]. eapply inv_ok; [exact Hi|by apply count_ok]. }
    pose proof (getOrCreateSession_ok None fk s1) as Hok.
    destruct (getOrCreateSession fk s1) as [s2 sid]. simpl in Hok.
    set (s3 := upd_session sid _ s2).
    assert (inv s3) as Hi3.
    { eapply inv_ok; [|apply upd_session_ok]. by eapply inv_ok. }
    case_match; [by apply smallRead_inv|by apply inv_set_read].
Qed.

Lemma small_response_inv rid r resp now s s' :
  inv s -> reader_ok s r -> (exists off end_, rd_pc r = RSmall off end_) ->
  (forall body rerr, resp = Ok (body, rerr) -> len64 body <= len64 (rd_rem r)) ->
  small_response rid r resp now s = Some s' -> inv s'.
Proof.
  intros Hi Hr Hpc Hlen. unfold small_response.
  assert (forall s', Some (set_read rid (read_goto RLoop r) s) = Some s' -> inv s') as Hloop.
  { intros s0 [= <-]. apply inv_set_read; [done|by apply reader_ok_loop]. }
  destruct resp as [[body rerr]|e]; [|apply Hloop].
  specialize (Hlen body rerr eq_refl).
  assert (forall c, inv (set_read rid (read_goto (RDone None) (read_advance (len64 body)
            (body ++ drop (length body) (rd_rem r)) r)) (set_cache c s))) as Hdone.
  { intros c. apply inv_set_read; [eapply inv_ok; [exact Hi|apply set_cache_ok]|].
    destruct Hr as (H1 & H2 & H3 & _). pose proof (len64_nonneg body).
    destruct (read_advance_ok (set_cache c s) (len64 body) (body ++ drop (length body) (rd_rem r)) r)
      as (Hok & _); [done..| |by apply (reader_ok_goto _ _ None) in Hok].
    unfold len64 in *. rewrite length_app, length_drop. lia. }
  destruct rerr as [[]|]; try apply Hloop; intros (c & _ & [= <-])%bind_Some; apply Hdone.
Qed.

Lemma read_loop_inv rid r0 now s :
  inv s -> reader_ok s r0 -> rd_pc r0 = RLoop -> inv (read_loop rid r0 now s).
Proof.
  intros Hi Hr0 Hpc. unfold read_loop.
  destruct (bool_decide (rd_rem r0 = [])); [apply inv_set_read; [done|by apply reader_ok_goto]|].
  destruct (Z.leb_spec (rd_fileSize r0) (rd_cur r0)); [apply inv_set_read; [done|by apply reader_ok_goto]|].
  set (r := if _ <? _ then _ else r0).
  assert (reader_ok s r /\ rd_pc r = RLoop /\ rd_file r = rd_file r0 /\ rd_cur r = rd_cur r0 /\
          rd_fileSize r = rd_fileSize r0) as (Hr & Hpcr & Hfile & Hcur & Hsize).
  { unfold r. case_match; [|done]. split_and!; try done. destruct Hr0 as (H1 & H2 & H3 & _).
    unfold reader_ok; simpl. rewrite Hpc. split_and!; try done.
    pose proof (len64_take (rd_fileSize r0 -w rd_cur r0) (rd_rem r0)).
    pose proof (len64_nonneg (rd_rem r0)). lia. }
  clearbody r. destruct Hr as (H1 & H2 & H3 & _).
  pose proof (windowStart_spec (rd_cur r) s (i_core _ Hi) ltac:(lia)) as Hws.
  set (ws := windowStart (rd_cur r) s) in *. clearbody ws.
  pose proof (getOrCreateSession_ok None (rd_file r) s) as Hok.
  destruct (getOrCreateSession (rd_file r) s) as [s1 sid]. simpl in Hok.
  assert (inv s1) as Hi1 by by eapply inv_ok.
  destruct (rs_copyTo _ _ _ now (sr_cache s1)) as [[c rem'] hit] eqn:Hcopy.
  assert (inv (set_cache c s1)) as Hi2 by (eapply inv_ok; [exact Hi1|apply set_cache_ok]).
  set (s2 := set_cache c s1) in *. clearbody s2. destruct hit as [n|].
  - apply rs_copyTo_bounds in Hcopy as [Hn Hl]. apply inv_set_read; [|by apply read_progress_ok].
    eapply inv_ok; [|apply maybeReadAhead_ok; lia]. eapply inv_ok; [exact Hi2|by apply count_ok].
  - set (bp := computeBudgetPriority _ _ _).
    pose proof (getOrCreateWindow_spec None (rd_file r) ws (rd_fileSize r) bp s2 (i_core _ Hi2)
                  ltac:(lia) ltac:(lia)) as Hspec.
    destruct (getOrCreateWindow (rd_file r) ws (rd_fileSize r) bp s2) as [[s3 wid] created].
    destruct Hspec as (Hok3 & _ & _ & _ & _ & w & Hw & Hkey & _).
    assert (inv s3) as Hi3 by by eapply inv_ok.
    set (s4 := count _ 1 s3).
    assert (ok None s3 s4) as Hok4 by (apply count_ok; by destruct created).
    assert (ok None s4 (upd_window wid (add_waiters 1) s4)) as Hok5
      by (apply upd_window_ok; [by intros w0|left; by intros w0]).
    apply inv_set_read; [by eapply inv_ok; [eapply inv_ok; [exact Hi3|exact Hok4]|exact Hok5]|].
    unfold reader_ok; simpl. split_and!; [lia..|].
    exists (add_waiters 1 w). split; [by rewrite lookup_alter_eq, Hw|done].
Qed.

(** The data handed to a reader is never longer than what it asked for. *)
Lemma waitForBytes_len ctx w off len bs :
  0 <= len -> waitForBytes ctx w off len = WData bs -> len64 bs <= len.
Proof.
  intros Hlen. unfold waitForBytes. destruct ctx; [done|]. case_match; [|done].
  destruct (win_err w); [done|]. repeat case_match; try done; intros [= <-]; rewrite len64_take; lia.
Qed.

Lemma slice_buf_len spare ctx w off len bs :
  0 <= len -> slice_buf spare w (waitForBytes ctx w off len) = WData bs -> len64 bs <= len.
Proof.
  intros Hlen. destruct (waitForBytes ctx w off len) as [| |bs0|o n] eqn:Hw; simpl; try done.
  - intros [= ->]. by apply waitForBytes_len in Hw.
  - destruct (Z.eqb_spec (len64 (take (Z.to_nat n) (drop (Z.to_nat o) (win_buf w ++ spare)))) n) as [Hn|]; [|done].
    intros [= <-]. rewrite Hn. revert Hw. unfold waitForBytes. destruct ctx; [done|]. case_match; [|done].
    destruct (win_err w); [done|]. case_match; [done|]. destruct (Z.ltb_spec len (win_readyTo w -w (off -w ik_start (win_key w))));
      case_match; try done; intros [= <- <-]; lia.
Qed.

Lemma read_wake_inv rid r wid ws sid bp spare now s s' :
  inv s -> reader_ok s r -> rd_pc r = RWait wid ws sid bp ->
  read_wake rid r wid ws sid bp spare now s = Some s' -> inv s'.
Proof.
  intros Hi Hr Hpc. unfold read_wake. intros (w & Hw & Hs')%bind_Some.
  assert (inv (upd_window wid (add_waiters (-1)) s)) as Hi1.
  { eapply inv_ok; [exact Hi|]. apply upd_window_ok; [by intros w0|left; by intros w0]. }
  destruct (slice_buf _ _ _) eqn:Hwait; try done; injection Hs' as <-.
  - apply inv_set_read; [done|]. eapply reader_ok_goto, reader_ok_evolves; [|exact Hr].
    apply (upd_window_ok None wid (add_waiters (-1)) s); [by intros w0|left; by intros w0|apply Hi].
  - destruct Hr as (H1 & H2 & H3 & H4). rewrite Hpc in H4. destruct H4 as [Hws _].
    apply slice_buf_len in Hwait; [|apply len64_nonneg]. pose proof (len64_nonneg bs).
    pose proof (len64_nonneg (rd_rem r)).
    apply inv_set_read.
    + eapply inv_ok; [exact Hi1|]. apply maybeReadAhead_ok; lia.
    + apply read_progress_ok; [done..|lia|]. unfold len64 in *. rewrite length_app, length_drop. lia.
Qed.

Lemma read_step_inv rid spare now s s' : inv s -> read_step rid spare now s = Some s' -> inv s'.
Proof.
  intros Hi. unfold read_step. intros (r & Hr & Hs')%bind_Some. pose proof (i_reads _ Hi _ _ Hr) as Hrok.
  destruct (rd_pc r) eqn:Hpc; try done.
  - injection Hs' as <-. by apply read_loop_inv.
  - by eapply read_wake_inv.
Qed.

Lemma step_inv e now s s' : inv s -> env_ok e s -> step e now s = Some s' -> inv s'.
Proof.
  intros Hi Henv. destruct e as [rid fk off p fileSize|rid|rid spare|rid resp|rid e|wid inp|fk|fk id off|fk id|]; simpl.
  - case_match; [done|]. intros [= <-]. destruct Henv as (? & ? & ?). by apply read_begin_inv.
  - by apply read_step_inv.
  - by apply read_step_inv.
  - intros (r & Hr & Hs')%bind_Some. destruct (rd_pc r) eqn:Hpc; try done.
    eapply small_response_inv; [done|by eapply i_reads|by eauto| |exact Hs'].
    intros body rerr ->. by apply Henv.
  - intros (r & Hr & [= <-])%bind_Some. apply inv_set_read; [done|].
    exact (i_reads _ Hi _ _ Hr).
  - intros Hs'. eapply inv_fetch; [exact Hi|]. eapply fetch_step_ok; [apply Hi| |exact Hs'].
    unfold fetch_step in Hs'. apply bind_Some in Hs' as (pc & Hpc & _).
    exists pc. split; [done|by apply (i_goro _ Hi)].
  - intros [= <-]. eapply inv_ok; [exact Hi|apply CancelFile_ok].
  - intros [= <-]. eapply inv_ok; [exact Hi|apply TrackReader_ok].
  - intros [= <-]. eapply inv_ok; [exact Hi|apply UntrackReader_ok].
  - intros [= <-]. eapply inv_ok; [exact Hi|apply set_recentlyClosed_ok].
Qed.

(** ** Reachable states *)

(** One step of some goroutine, at some time, in an environment that [P] describes. *)
Definition next (P : event -> Z -> StreamReader store -> Prop) s s' : Prop :=
  exists e now, env_ok e s /\ P e now s /\ step e now s = Some s'.

Definition any_event (e : event) (now : Z) s : Prop := True.

(** Started by [NewStreamReader] with some cache and settings, and [L] global windows. *)
Record started s : Prop := {
  st_new : exists rc mi ws om, s = NewStreamReader rc mi L ws om;
  st_ws : 0 < sr_windowSize s <= 2 ^ 60;
  st_gauge : forall mt, sr_metrics s = Some mt -> InflightWindows mt = 0
}.

Definition reachable (P : event -> Z -> StreamReader store -> Prop) s : Prop :=
  exists s0, started s0 /\ rtc (next P) s0 s.

Lemma started_inv s : started s -> inv s.
Proof.
  intros [(rc & mi & ws & om & ->) Hws Hg]. split.
  - split; simpl; try done; try by intros; rewrite lookup_empty in *; simplify_eq.
    + intros wid. by rewrite !lookup_empty.
    + apply newBudgetSem_inv.
    + by intros wid [? ?].
  - done.
  - intros mt Hmt. rewrite (Hg mt Hmt). done.
  - done.
  - done.
Qed.

Lemma reachable_inv P s : reachable P s -> inv s.
Proof.
  intros (s0 & Hs0 & Hr). apply started_inv in Hs0. revert Hs0.
  induction Hr as [|s s1 s2 (e & now & He & _ & Hst) _ IH]; [done|].
  intros Hi. apply IH. by eapply step_inv.
Qed.

End inv.
