(* ===== verification/StreamSize.v ===== *)
(** * internal/stream: lengths in the running stream reader

    What holds of the lengths of buffers in every interleaving, whatever the network
    delivers and whatever the cache holds: the buffer of a window ends below
    [max_offset], the cache stays well formed, and what a reader got and what is left
    add up to what was asked for, or to the end of the file.  The environment only
    keeps a response body below [max_offset] bytes ([body_bounded]). *)
From S2P Require Import Prelude Metrics Errors Cache Semaphore Window RangeStore Stream Goroutines StreamInv.
From Stdlib Require Import Strings.Byte.
Open Scope Z_scope.
Open Scope go_scope.

Section size.
Context {store : Type} `{MI : MapIter} `{SS : SliceSort} `{RS : RangeStore store} {RL : RangeStoreLaws store}.
Context (L : Z).
Implicit Types (s : StreamReader store) (w : inflightWindow) (r : reader).

Notation ok := (okd 0).
Notation inv := (StreamInv.inv L).
Notation started := (StreamInv.started L).

(** ** The invariant *)

Definition win_fits w : Prop := win_start w + len64 (win_buf w) <= max_offset.

Record reader_sizes r : Prop := {
  rz_cur : rd_cur r = rd_off r + len64 (rd_data r);
  rz_fill : match rd_pc r with
    | RDone _ => True
    | _ => len64 (rd_data r) + len64 (rd_rem r) <= rd_len r /\
           (len64 (rd_data r) + len64 (rd_rem r) = rd_len r \/
            rd_cur r + len64 (rd_rem r) = rd_fileSize r) /\
           (rd_data r = [] \/ rd_cur r <= rd_fileSize r)
    end;
  rz_wait : match rd_pc r with
    | RWait _ _ _ _ => 0 < len64 (rd_rem r) <= rd_fileSize r - rd_cur r
    | RSmall _ _ => rd_data r = []
    | _ => True
    end
}.

Record size_inv s : Prop := {
  z_cache : rs_wf (sr_cache s);
  z_win : forall wid w, sr_windows s !! wid = Some w -> win_fits w;
  z_reads : forall rid r, sr_reads s !! rid = Some r -> reader_sizes r
}.

(** A body the network sends is not longer than memory can be. *)
Definition body_bounded (e : event) s : Prop :=
  match e with
  | EFetch wid (IBody chunk _) =>
      forall w a bp cp cl fs fe tr, sr_windows s !! wid = Some w ->
        sr_fetchers s !! wid = Some (FBody a bp cp cl fs fe tr) ->
        win_start w + len64 (win_buf w) + len64 chunk <= max_offset
  | _ => True
  end.

Definition any_body (e : event) (now : Z) s : Prop := body_bounded e s.

(** ** Frame *)

Lemma size_ok s s' : inv s -> ok None s s' -> rs_wf (sr_cache s') -> size_inv s -> size_inv s'.
Proof.
  intros Hi Hok Hc [_ Hw Hr]. destruct (Hok (i_core _ _ Hi)) as (Hc' & He & Hreads & _). split; [done|..|by rewrite Hreads].
  intros wid w' Hw'. unfold win_fits. destruct (sr_windows s !! wid) as [w|] eqn:Hold.
  - destruct (e_win _ _ _ He wid w Hold) as (w1 & Hw1 & Hk & _ & _ & Hb). simplify_eq.
    destruct (Hb ltac:(done)) as (-> & _). unfold win_start. rewrite Hk. by apply (Hw wid).
  - destruct (e_new _ _ _ He wid w' ltac:(done) Hold Hw') as (-> & _).
    destruct (c_win _ Hc' _ _ Hw'). unfold len64; simpl. lia.
Qed.

(** [wid]'s own window after a step of its goroutine. *)
Definition fits_at (wid : nat) s : Prop := forall w, sr_windows s !! wid = Some w -> win_fits w.

Lemma size_fetch wid s s' :
  inv s -> fetch_ok wid s s' -> rs_wf (sr_cache s') -> fits_at wid s' -> size_inv s -> size_inv s'.
Proof.
  intros Hi [Hok _] Hc Hf [_ Hw Hr]. destruct (Hok (i_core _ _ Hi)) as (Hc' & He & Hreads & _).
  split; [done|..|by rewrite Hreads].
  intros u w' Hw'. destruct (decide (u = wid)) as [->|Hne]; [by apply Hf|]. unfold win_fits.
  assert (Some u <> Some wid) as Hx by congruence. destruct (sr_windows s !! u) as [w|] eqn:Hold.
  - destruct (e_win _ _ _ He u w Hold) as (w1 & Hw1 & Hk & _ & _ & Hb). simplify_eq.
    destruct (Hb Hx) as (-> & _). unfold win_start. rewrite Hk. by apply (Hw u).
  - destruct (e_new _ _ _ He u w' Hx Hold Hw') as (-> & _).
    destruct (c_win _ Hc' _ _ Hw'). unfold len64; simpl. lia.
Qed.

Lemma fits_upd wid f s :
  (forall w, sr_windows s !! wid = Some w -> win_fits w -> win_fits (f w)) -> fits_at wid s -> fits_at wid (upd_window wid f s).
Proof.
  intros Hf Ha w'. simpl. rewrite lookup_alter_eq. intros (w & Hw & ->)%fmap_Some. by apply Hf, Ha.
Qed.

Lemma fits_set wid f s :
  (forall w, sr_windows s !! wid = Some w -> win_fits (f w)) -> fits_at wid (upd_window wid f s).
Proof. intros Hf w'. simpl. rewrite lookup_alter_eq. intros (w & Hw & ->)%fmap_Some. by apply Hf. Qed.

Lemma fits_same wid s s' : sr_windows s' = sr_windows s -> fits_at wid s -> fits_at wid s'.
Proof. unfold fits_at. by intros ->. Qed.

(** After steps that leave the buffers alone. *)
Lemma fits_ok wid s s' : core s -> is_Some (sr_windows s !! wid) -> ok None s s' -> fits_at wid s -> fits_at wid s'.
Proof.
  intros Hc [w Hw] Hok Ha w' Hw'. destruct (Hok Hc) as (_ & He & _).
  destruct (e_win _ _ _ He wid w Hw) as (w1 & Hw1 & Hk & _ & _ & Hb). simplify_eq.
  unfold win_fits. destruct (Hb ltac:(done)) as (-> & _). unfold win_start. rewrite Hk. by apply Ha.
Qed.

Lemma size_set_read rid r s : size_inv s -> reader_sizes r -> size_inv (set_read rid r s).
Proof.
  intros [Hg Hw Hr] Hrd. split; [done|done|].
  intros rid' r'. simpl. intros [[<- <-]|[_ Hl]]%lookup_insert_Some; [done|by eapply Hr].
Qed.

(** ** The cache stays well formed *)

Lemma copyTo_cache_wf fk off dst now (c : store) :
  rs_wf c -> in_int64 off -> rs_wf (rs_copyTo fk off dst now c).1.1.
Proof.
  intros Hg Ho. destruct (rs_copyTo fk off dst now c) as [[c' dst'] r] eqn:Hc.
  by apply (rs_copyTo_wf fk off dst now c c' dst' r).
Qed.

Lemma getOrCreateWindow_cache fk ws fileSize bp s :
  sr_cache (getOrCreateWindow fk ws fileSize bp s).1.1 = sr_cache s.
Proof. unfold getOrCreateWindow. by repeat case_match. Qed.

(** Reading ahead changes the cache by one look at most. *)
Lemma maybeReadAhead_cache (P : store -> Prop) fk endOff ws fileSize sid bp now s :
  (forall off c, in_int64 off -> P c -> P (rs_copyTo fk off [x00] now c).1.1) ->
  P (sr_cache s) -> P (sr_cache (maybeReadAhead fk endOff ws fileSize sid bp now s)).
Proof.
  intros HP Hg. unfold maybeReadAhead. repeat (case_match; [done|]).
  pose proof (HP (ws +w sr_windowSize s) (sr_cache s) (wrap64_range _) Hg) as Hg'.
  destruct (rs_copyTo _ _ _ now (sr_cache s)) as [[c b] hit]. simpl in Hg'.
  repeat (case_match; [done|]). by rewrite getOrCreateWindow_cache.
Qed.

Lemma maybeReadAhead_wf fk endOff ws fileSize sid bp now s :
  rs_wf (sr_cache s) -> rs_wf (sr_cache (maybeReadAhead fk endOff ws fileSize sid bp now s)).
Proof. apply maybeReadAhead_cache. intros. by apply copyTo_cache_wf. Qed.

Lemma cancel_fold_cache (l : list (inflightKey * nat)) s :
  sr_cache (foldl (fun s e => cancel_window e.2 s) s l) = sr_cache s.
Proof. revert s. induction l as [|e l IH]; intros s; [done|]. simpl. by rewrite IH. Qed.

Lemma maybeCancelOnSeek_cache fk off now s : sr_cache (maybeCancelOnSeek fk off now s) = sr_cache s.
Proof.
  unfold maybeCancelOnSeek. case_match; [done|].
  destruct (getOrCreateSession fk s) as [s1 sid] eqn:Hs.
  apply getOrCreateSession_same in Hs as (Hc & _).
  case_bool_decide; simpl; by rewrite cancel_fold_cache.
Qed.

Lemma cancel_entries_cache fk l s fs rm :
  sr_cache (foldl (cancel_entry fk) (s, fs, rm) l).1.1 = sr_cache s.
Proof.
  revert s fs rm. induction l as [|e l IH]; intros s fs rm; [done|]. cbn [foldl].
  unfold cancel_entry at 2. case_match; by rewrite IH.
Qed.

Lemma CancelFile_cache fk now s : sr_cache (CancelFile fk now s) = sr_cache s.
Proof.
  unfold CancelFile. pose proof (cancel_entries_cache fk (inflight_range s) s 0 0) as Hc.
  destruct (foldl _ _ _) as [[s1 fs0] rm]. simpl in *. by repeat case_match.
Qed.

Lemma cleanupWindow_cache wid s : sr_cache (cleanupWindow wid s) = sr_cache s.
Proof. unfold cleanupWindow, maybeCleanupSession. by repeat case_match. Qed.

Lemma UntrackReader_cache fk id s : sr_cache (UntrackReader fk id s) = sr_cache s.
Proof. unfold UntrackReader. by repeat case_match. Qed.

(** ** The actions of a fetch goroutine *)

(** The end of a window: inside the file, past its start, and without wrap-around. *)
Lemma winEnd_spec s w wid :
  core s -> sr_windows s !! wid = Some w ->
  win_start w < winEnd s w <= win_fileSize w /\ winEnd s w <= win_start w + sr_windowSize s /\
  winEnd s w -w win_start w = winEnd s w - win_start w.
Proof.
  intros Hc Hw. destruct (c_win _ Hc _ _ Hw) as [Hst Hfs]. pose proof (c_ws _ Hc).
  assert (win_start w +w sr_windowSize s = win_start w + sr_windowSize s) as Hadd
    by (unfold add64; apply wrap64_id; unfold in_int64, max_offset in *; lia).
  assert (win_start w < winEnd s w <= win_fileSize w /\ winEnd s w <= win_start w + sr_windowSize s) as [? ?]
    by (unfold winEnd; rewrite Hadd; destruct (Z.ltb_spec (win_fileSize w) (win_start w + sr_windowSize s)); lia).
  split_and!; try lia. unfold sub64. apply wrap64_id. unfold in_int64, max_offset in *. lia.
Qed.

Lemma zeros_len n : 0 <= n -> len64 (zeros n) = n.
Proof. intros. unfold len64, zeros. rewrite length_replicate. lia. Qed.

(** A copy into a fresh buffer keeps its length. *)
Lemma copy_zeros_len fk off n now (c c' : store) b hit :
  rs_wf c -> in_int64 off -> 0 <= n -> rs_copyTo fk off (zeros n) now c = (c', b, hit) ->
  rs_wf c' /\ len64 b = n.
Proof.
  intros Hg Ho Hn Hc. destruct (rs_copyTo_wf _ _ _ _ _ _ _ _ Hg Ho Hc) as (Hg' & Hl & _). split; [done|].
  unfold len64. rewrite Hl. change (len64 (zeros n) = n). by apply zeros_len.
Qed.

Definition sized (wid : nat) s' : Prop := rs_wf (sr_cache s') /\ fits_at wid s'.

Lemma fetch_fail_sized wid e s : sized wid s -> sized wid (fetch_fail wid e s).
Proof. intros [Hg Hf]. split; [done|]. by apply fits_upd, (fits_same _ (upd_window wid (set_err e) s)), fits_upd. Qed.

Lemma next_attempt_sized wid a bp cp s : core s -> rs_wf (sr_cache s) -> sized wid (next_attempt wid a bp cp s).
Proof.
  intros Hc Hg. split; [done|]. apply (fits_set wid reset_window). intros w Hw. destruct (c_win _ Hc _ _ Hw).
  unfold win_fits, win_start in *; simpl. unfold len64; simpl. lia.
Qed.

Lemma fetch_complete_sized wid w sid bp now s :
  core s -> sr_windows s !! wid = Some w -> sized wid s -> forall w0, win_key w0 = win_key w -> win_fileSize w0 = win_fileSize w ->
  sized wid (fetch_complete wid w0 sid bp now s).
Proof.
  intros Hc Hw [Hg Hf] w0 Hk Hz. unfold fetch_complete. set (s1 := upd_window wid set_done s).
  assert (core s1) as Hc1 by apply (set_done_ok None wid s Hc).
  destruct (c_win _ Hc _ _ Hw) as [Hst Hfs].
  set (s2 := maybeReadAhead (win_file w0) _ _ _ _ _ _ s1).
  assert (fits_at wid s2) as Hf2.
  { apply (fits_ok wid s1); [done|by apply upd_window_some; eexists| |by apply fits_upd].
    apply maybeReadAhead_ok; unfold win_start, win_file in *; rewrite ?Hk, ?Hz; lia. }
  split; [by apply maybeReadAhead_wf|]. apply fits_upd; [done|]. by apply (fits_same wid s2).
Qed.

Lemma after_acquire_sized wid w bp now s : sized wid s -> sized wid (after_acquire wid w bp now s).
Proof.
  intros [Hg Hf]. unfold after_acquire. destruct (threads (sr_budget s) !! wid) as [th|].
  - case_bool_decide; [|done]. unfold begin_fetch. destruct (getOrCreateSession (win_file w) s) as [s1 sid] eqn:Hs.
    apply getOrCreateSession_same in Hs as (Hc1 & Hw1 & _). split; [by simpl; rewrite Hc1|]. by apply (fits_same wid s).
  - split; [done|]. by apply (fits_upd wid (set_done ∘ set_err Canceled)).
Qed.

Lemma fetch_cached_sized wid w bp cp n now s s' :
  core s -> rs_wf (sr_cache s) -> sr_windows s !! wid = Some w -> n = winEnd s w - win_start w ->
  fetch_cached wid w bp cp n now s = Some s' -> sized wid s'.
Proof.
  intros Hc Hg Hw Hn. destruct (winEnd_spec s w wid Hc Hw) as (Hend & _ & _).
  destruct (c_win _ Hc _ _ Hw) as [Hst Hfs]. unfold fetch_cached. case_match; [done|].
  destruct (rs_copyTo _ _ _ now (sr_cache s)) as [[c b] hit] eqn:Hcopy.
  assert (in_int64 (win_start w)) as Hin by (unfold in_int64, max_offset in *; lia).
  destruct (copy_zeros_len _ _ n _ _ _ _ _ Hg Hin ltac:(lia) Hcopy) as [Hg' Hlen].
  set (s0 := upd_window wid _ (set_cache c s)).
  assert (core s0) as Hc0.
  { apply (ok_trans (Some wid) s (set_cache c s) s0); [apply set_cache_ok|apply upd_window_ok|done];
      [by intros w0|by right]. }
  pose proof (getOrCreateSession_ok None (win_file w) s0 Hc0) as [Hc1 _].
  destruct (getOrCreateSession (win_file w) s0) as [s1 sid] eqn:Hs1. simpl in Hc1.
  apply getOrCreateSession_same in Hs1 as (Hcache & Hw1 & _).
  intros (c2 & Hput & [= <-])%bind_Some.
  destruct (rs_put_wf (win_file w) (win_start w) b cp now (sr_cache s1)) as (c3 & Hput' & Hg3);
    [by rewrite Hcache|lia|lia|]. rewrite Hput in Hput'. injection Hput' as ->.
  set (w1 := set_buf b (default 0 hit) (default 0 hit) w).
  assert (sr_windows (set_cache c3 s1) !! wid = Some w1) as Hw2
    by (simpl; rewrite Hw1; simpl; by rewrite lookup_alter_eq, Hw).
  eapply (fetch_complete_sized wid w1); try done; [by apply (set_cache_ok None)|].
  split; [done|]. intros w' Hw'. simplify_eq. unfold win_fits, w1, win_start in *; simpl. lia.
Qed.

Lemma fetch_prefix_sized wid w a bp cp cl now s s' :
  core s -> rs_wf (sr_cache s) -> sr_windows s !! wid = Some w ->
  fetch_prefix wid w a bp cp cl now s = Some s' -> sized wid s'.
Proof.
  intros Hc Hg Hw. destruct (winEnd_spec s w wid Hc Hw) as (Hend & Hwin & Hsub).
  destruct (c_win _ Hc _ _ Hw) as [Hst Hfs]. unfold fetch_prefix. rewrite Hsub.
  destruct (Z.leb_spec (winEnd s w - win_start w) cl) as [Hle|Hgt]; [by apply fetch_cached_sized|].
  destruct (Z.ltb_spec 0 cl) as [Hpos|Hz].
  - destruct (rs_copyTo _ _ _ now (sr_cache s)) as [[c b] hit] eqn:Hcopy.
    assert (in_int64 (win_start w)) as Hin by (unfold in_int64, max_offset in *; lia).
    destruct (copy_zeros_len _ _ cl _ _ _ _ _ Hg Hin ltac:(lia) Hcopy) as [Hg' Hlen].
    intros [= <-]. split; [done|]. apply (fits_set wid (set_buf _ _ _) (set_cache c s)). intros w' Hw'. simpl in Hw'. simplify_eq.
    unfold win_fits, win_start in *; simpl. pose proof (len64_take (default 0 hit) b). pose proof (len64_nonneg b). lia.
  - intros [= <-]. split; [done|]. apply (fits_set wid (fun w => set_buf [] _ _ w) s). intros w' Hw'. simplify_eq.
    unfold win_fits, win_start in *; simpl. unfold len64; simpl. lia.
Qed.

Lemma after_stream_sized wid a bp cp n success now s s' :
  core s -> sized wid s -> after_stream wid a bp cp n success now s = Some s' -> sized wid s'.
Proof.
  intros Hc [Hg Hf]. unfold after_stream. intros (w & Hw & (c & Hput & Hs')%bind_Some)%bind_Some.
  destruct (c_win _ Hc _ _ Hw) as [Hst Hfs].
  assert (rs_wf c) as Hg1.
  { revert Hput. case_bool_decide; [by intros [= <-]|]. intros Hput.
    destruct (rs_put_wf (win_file w) (win_start w) (win_buf w) cp now (sr_cache s))
      as (c' & Hput' & Hg'); [done|lia|by apply Hf|]. congruence. }
  assert (core (set_cache c s)) as Hc1 by by apply (set_cache_ok None).
  revert Hs'. destruct (success && negb (bool_decide (win_buf w = []))).
  - destruct (getOrCreateSession (win_file w) (set_cache c s)) as [s2 sid] eqn:Hs2.
    pose proof (getOrCreateSession_ok None (win_file w) (set_cache c s) Hc1) as [Hc2 _].
    rewrite Hs2 in Hc2. simpl in Hc2.
    apply getOrCreateSession_same in Hs2 as (Hcache & Hw2 & _). intros [= <-].
    eapply (fetch_complete_sized wid w); try done; [by rewrite Hw2|].
    split; [by rewrite Hcache|]. by apply (fits_same wid s).
  - destruct (negb _ || _); intros [= <-]; [by apply fetch_fail_sized|by apply next_attempt_sized].
Qed.

Lemma fetch_body_sized wid a bp cp cl fs fe tr chunk rerr now s s' :
  core s -> sized wid s ->
  (forall w, sr_windows s !! wid = Some w -> win_start w + len64 (win_buf w) + len64 chunk <= max_offset) ->
  fetch_body wid a bp cp cl fs fe tr chunk rerr now s = Some s' -> sized wid s'.
Proof.
  intros Hc [Hg Hf] Hb. unfold fetch_body.
  set (s1 := if bool_decide (chunk = []) then s else upd_window wid (append_chunk cl tr chunk) s).
  assert (core s1 /\ sized wid s1) as [Hc1 Hz1].
  { unfold s1. case_bool_decide; [done|]. split; [by apply (upd_window_ok (Some wid)); [intros w0|right|]|].
    split; [done|]. apply fits_set. intros w Hw. specialize (Hb w Hw).
    unfold win_fits, append_chunk, win_start in *; simpl. rewrite len64_app. lia. }
  clearbody s1. destruct rerr as [e|]; [by apply after_stream_sized|]. case_match; [by apply after_stream_sized|].
  by intros [= <-].
Qed.

Lemma fetch_step_sized wid inp now s s' :
  inv s -> size_inv s -> body_bounded (EFetch wid inp) s -> fetch_step wid inp now s = Some s' -> sized wid s'.
Proof.
  intros Hi Hz Hb. unfold fetch_step.
  intros (pc & Hpc & (w & Hw & Hs')%bind_Some)%bind_Some.
  pose proof (i_core _ _ Hi) as Hc. assert (sized wid s) as Hs by (split; [apply Hz|]; intros w' Hw'; by apply (z_win _ Hz wid)).
  destruct pc, inp; try done.
  - injection Hs' as <-. by apply after_acquire_sized.
  - destruct (is_woken s wid); [|done]. injection Hs' as <-. by apply after_acquire_sized.
  - by injection Hs' as <-.
  - by eapply fetch_prefix_sized; [|apply Hs|..].
  - injection Hs' as <-. unfold fetch_response. destruct resp as [[]|e]; [done|].
    case_match; [apply next_attempt_sized; [done|apply Hs]|by apply fetch_fail_sized].
  - eapply fetch_body_sized; [done|done| |done]. intros w' Hw'. by eapply Hb.
  - destruct (win_cancelled w); [|done]. injection Hs' as <-. by apply fetch_fail_sized.
  - by injection Hs' as <-.
  - injection Hs' as <-. split; [simpl; rewrite cleanupWindow_cache; apply Hs|].
    apply (fits_same wid (cleanupWindow wid s)); [done|].
    apply (fits_ok wid s); [done|by eexists|apply cleanupWindow_ok|apply Hs].
Qed.

(** ** The actions of a reader *)

Lemma reader_sizes_done r e : reader_sizes r -> reader_sizes (read_goto (RDone e) r).
Proof. intros [H1 _ _]. by split. Qed.

Lemma reader_sizes_loop r : reader_sizes r -> (forall e, rd_pc r <> RDone e) -> reader_sizes (read_goto RLoop r).
Proof. intros [H1 H2 _] Hne. split; try done. simpl. destruct (rd_pc r); try done. by destruct (Hne e). Qed.

(** [n] bytes are taken over by the reader. *)
Lemma read_advance_sizes s n rem' r :
  reader_ok s r -> rd_cur r = rd_off r + len64 (rd_data r) ->
  0 <= n <= len64 (rd_rem r) -> length rem' = length (rd_rem r) ->
  let r' := read_advance n rem' r in
  rd_cur r' = rd_off r + len64 (rd_data r') /\ len64 (rd_data r') = len64 (rd_data r) + n /\
  len64 (rd_rem r') = len64 (rd_rem r) - n /\ rd_cur r' = rd_cur r + n.
Proof.
  intros (H1 & H2 & H3 & _) Hc Hn Hl.
  destruct (read_advance_ok s n rem' r H1 H2 H3 Hn Hl) as (_ & Hcur & Hrem). simpl.
  assert (len64 (take (Z.to_nat n) rem') = n) as Ht by (unfold len64 in *; rewrite length_take; lia).
  rewrite len64_app, Ht, Hcur. split_and!; lia.
Qed.

Lemma read_progress_sizes s n rem' r :
  reader_ok s r -> reader_sizes r -> (forall e, rd_pc r <> RDone e) ->
  0 < n <= len64 (rd_rem r) -> n <= rd_fileSize r - rd_cur r -> length rem' = length (rd_rem r) ->
  reader_sizes (read_progress n rem' r).
Proof.
  intros Hok [H2 H3 H4] Hpc Hn Hfs Hl.
  destruct (read_advance_sizes s n rem' r Hok H2 ltac:(lia) Hl) as (A2 & A3 & A4 & A5).
  unfold read_progress. destruct (Z.eqb_spec n 0); [lia|]. split; simpl in *; try done.
  rewrite A3, A4, A5. split_and!.
  - destruct (rd_pc r); try lia. by destruct (Hpc e).
  - destruct (rd_pc r); try lia. by destruct (Hpc e).
  - right. lia.
Qed.

(** Data out of [waitForBytes] is never empty. *)
Lemma slice_buf_pos spare ctx w off len bs :
  0 < len -> slice_buf spare w (waitForBytes ctx w off len) = WData bs ->
  off + len <= max_offset -> 0 <= win_start w <= off -> 0 < len64 bs <= len.
Proof.
  intros Hlen Hs Hmax Hst. pose proof (slice_buf_len spare ctx w off len bs ltac:(lia) Hs) as Hle. split; [|done].
  revert Hs. unfold waitForBytes. fold (win_start w).
  assert (off -w win_start w = off - win_start w) as ->
    by (unfold sub64; apply wrap64_id; unfold in_int64, max_offset in *; lia).
  destruct ctx; [done|]. case_match; [|done]. destruct (win_err w); [done|].
  set (avail := win_readyTo w -w (off - win_start w)). destruct (Z.leb_spec avail 0); [done|].
  set (n := if len <? avail then len else avail).
  assert (0 < n <= len) as Hn by (unfold n; destruct (Z.ltb_spec len avail); lia). clearbody n.
  assert (off - win_start w +w n = off - win_start w + n) as ->
    by (unfold add64; apply wrap64_id; unfold in_int64, max_offset in *; lia).
  destruct (Z.leb_spec (off - win_start w + n) (len64 (win_buf w))); cbn [slice_buf].
  - intros [= <-]. rewrite len64_take, len64_drop. lia.
  - destruct (Z.eqb_spec (len64 (take (Z.to_nat n) (drop (Z.to_nat (off - win_start w)) (win_buf w ++ spare)))) n) as [He|]; [|done].
    intros [= <-]. rewrite He. lia.
Qed.

Lemma smallRead_size rid r now s :
  inv s -> size_inv s -> reader_ok s r -> reader_sizes r -> rd_cur r = rd_off r ->
  rd_pc r = RLoop -> rd_data r = [] -> size_inv (smallRead rid r now s).
Proof.
  intros Hi Hd Hok Hr Hcur Hpc Hempty. unfold smallRead.
  assert (in_int64 (rd_off r)) as Hin.
  { destruct Hok as (? & ? & _). pose proof (len64_nonneg (rd_rem r)).
    unfold in_int64, max_offset in *. lia. }
  destruct (rs_copyTo _ _ _ now (sr_cache s)) as [[c p'] hit] eqn:Hcopy.
  destruct (rs_copyTo_wf _ _ _ _ _ _ _ _ (z_cache _ Hd) Hin Hcopy) as (Hg & Hl & Hn).
  assert (size_inv (set_cache c s)) as Hd1 by (eapply size_ok; [exact Hi|apply set_cache_ok|done..]).
  destruct Hr as [H2 H3 H4]. destruct hit as [n|].
  - specialize (Hn n eq_refl). destruct (read_advance_sizes s n p' r Hok H2 ltac:(lia) Hl) as (A2 & _).
    apply size_set_read; [|by split]. destruct Hd1 as [? Hw ?]. split; [done|exact Hw|done].
  - destruct (sr_inflight _ !! _); (apply size_set_read; [done|]); split; try done; simpl; by rewrite Hpc in H3.
Qed.

(** The state in which [ReadAt] looks at its access pattern. *)
Lemma read_begin_size rid fk off p fileSize now s :
  inv s -> size_inv s -> 0 <= off -> off + len64 p <= max_offset -> fileSize <= max_offset ->
  size_inv (read_begin rid fk off p fileSize now s).
Proof.
  intros Hi Hd Ho Hm Hf. unfold read_begin.
  set (r := MkReader fk off (len64 p) fileSize off [] p None RLoop).
  assert (reader_sizes r) as Hr.
  { split; simpl; [unfold len64; simpl; lia| |done].
    change (len64 []) with 0. split_and!; [lia|left; lia|by left]. }
  case_bool_decide as Hp; [apply size_set_read; [done|by apply reader_sizes_done]|].
  set (s0 := count CReadCount 1 s).
  assert (ok None s s0) as Hok0 by by apply count_ok.
  assert (inv s0) as Hi0 by by eapply inv_ok.
  pose proof (maybeCancelOnSeek_ok None fk off now s0) as Hok1.
  pose proof (maybeCancelOnSeek_cache fk off now s0) as Hc1.
  set (s1 := maybeCancelOnSeek fk off now s0) in *.
  assert (inv s1) as Hi1 by by eapply inv_ok.
  assert (size_inv s1) as Hd1.
  { eapply size_ok; [exact Hi0|exact Hok1|rewrite Hc1; apply Hd|]. eapply size_ok; [exact Hi|exact Hok0|apply Hd|done]. }
  pose proof (getOrCreateSession_ok None fk s1) as Hok2.
  destruct (getOrCreateSession fk s1) as [s2 sid] eqn:Hs2. simpl in Hok2.
  apply getOrCreateSession_same in Hs2 as (Hc2 & _). set (s3 := upd_session sid _ s2).
  assert (inv s2) as Hi2 by by eapply inv_ok.
  assert (ok None s2 s3) as Hok3 by apply upd_session_ok.
  assert (inv s3) as Hi3 by by eapply inv_ok.
  assert (size_inv s3) as Hd3.
  { eapply size_ok; [exact Hi2|exact Hok3|change (rs_wf (sr_cache s2)); rewrite Hc2; apply Hd1|].
    eapply size_ok; [exact Hi1|exact Hok2|rewrite Hc2; apply Hd1|done]. }
  clearbody s3. case_match; [|by apply size_set_read].
  apply smallRead_size; try done.
Qed.

Lemma small_response_size rid r resp now s s' :
  inv s -> size_inv s -> reader_ok s r -> reader_sizes r -> (exists off end_, rd_pc r = RSmall off end_) ->
  (forall body rerr, resp = Ok (body, rerr) -> len64 body <= len64 (rd_rem r)) ->
  small_response rid r resp now s = Some s' -> size_inv s'.
Proof.
  intros Hi Hd Hok Hr (off & end_ & Hpc) Hbody. unfold small_response.
  assert (forall s', Some (set_read rid (read_goto RLoop r) s) = Some s' -> size_inv s') as Hloop.
  { intros s0 [= <-]. apply size_set_read; [done|]. apply reader_sizes_loop; [done|by rewrite Hpc]. }
  destruct resp as [[body rerr]|e]; [|apply Hloop]. specialize (Hbody body rerr eq_refl) as Hlen.
  pose proof Hok as (H1 & H2 & H3 & Hcur). rewrite Hpc in Hcur. pose proof (len64_nonneg body).
  assert (length (body ++ drop (length body) (rd_rem r)) = length (rd_rem r)) as Hl
    by (unfold len64 in *; rewrite length_app, length_drop; lia).
  destruct Hr as [R2 R3 R4].
  destruct (read_advance_sizes s (len64 body) (body ++ drop (length body) (rd_rem r)) r Hok R2
    ltac:(lia) Hl) as (A2 & _).
  assert (forall c, rs_wf c -> size_inv (set_read rid (read_goto (RDone None) (read_advance (len64 body)
            (body ++ drop (length body) (rd_rem r)) r)) (set_cache c s))) as Hdone.
  { intros c Hg. apply size_set_read; [|by split].
    eapply size_ok; [exact Hi|apply set_cache_ok|done..]. }
  assert (forall c, (if bool_decide (body = []) then Some (sr_cache s)
     else rs_putWithPriority (rd_file r) (rd_off r) body PriorityLow now (sr_cache s)) = Some c -> rs_wf c)
    as Hput.
  { intros c. case_bool_decide; [intros [= <-]; apply Hd|]. intros Hp.
    destruct (rs_put_wf (rd_file r) (rd_off r) body PriorityLow now (sr_cache s)) as (c' & Hp' & Hg);
      [apply Hd|lia|lia|congruence]. }
  destruct rerr as [[]|]; try apply Hloop; intros (c & Hc%Hput & [= <-])%bind_Some; by apply Hdone.
Qed.

(** The rest of the buffer, cut to the end of the file. *)
Lemma clamped_sizes s r0 :
  reader_ok s r0 -> reader_sizes r0 -> rd_pc r0 = RLoop -> rd_rem r0 <> [] -> rd_cur r0 < rd_fileSize r0 ->
  let r := if rd_fileSize r0 -w rd_cur r0 <? len64 (rd_rem r0)
           then read_rem (take (Z.to_nat (rd_fileSize r0 -w rd_cur r0)) (rd_rem r0)) r0 else r0 in
  reader_ok s r /\ reader_sizes r /\ rd_pc r = RLoop /\ 0 < len64 (rd_rem r) <= rd_fileSize r - rd_cur r /\
  rd_file r = rd_file r0 /\ rd_off r = rd_off r0 /\ rd_data r = rd_data r0 /\ rd_cur r = rd_cur r0 /\
  rd_fileSize r = rd_fileSize r0.
Proof.
  intros (B1 & B2 & B3 & _) Hr0 Hpc Hne Hlt r. apply len64_pos in Hne.
  unfold r. assert (rd_fileSize r0 -w rd_cur r0 = rd_fileSize r0 - rd_cur r0) as ->
    by (unfold sub64; apply wrap64_id; unfold in_int64, max_offset in *; lia).
  destruct (Z.ltb_spec (rd_fileSize r0 - rd_cur r0) (len64 (rd_rem r0))) as [Hcl|Hcl].
  - pose proof (len64_take (rd_fileSize r0 - rd_cur r0) (rd_rem r0)) as Ht.
    destruct Hr0 as [H2 H3 H4]. rewrite Hpc in H3. split_and!; try done; try (simpl; lia).
    + unfold reader_ok; simpl. rewrite Hpc. split_and!; [lia..|done].
    + split; simpl; rewrite ?Hpc; try done. split_and!; [lia|right; lia|right; lia].
  - split_and!; try done; try lia. unfold reader_ok. by rewrite Hpc.
Qed.

Lemma read_loop_size rid r0 now s :
  inv s -> size_inv s -> reader_ok s r0 -> reader_sizes r0 -> rd_pc r0 = RLoop ->
  size_inv (read_loop rid r0 now s).
Proof.
  intros Hi Hd Hok0 Hr0 Hpc. unfold read_loop.
  destruct (decide (rd_rem r0 = [])) as [Hempty|Hne].
  { rewrite bool_decide_true by done. apply size_set_read; [done|by apply reader_sizes_done]. }
  rewrite bool_decide_false by done.
  destruct (Z.leb_spec (rd_fileSize r0) (rd_cur r0)) as [|Hlt]; [apply size_set_read; [done|by apply reader_sizes_done]|].
  set (r := if _ <? _ then _ else r0).
  destruct (clamped_sizes s r0 Hok0 Hr0 Hpc Hne Hlt) as (Hok & Hr & Hpcr & Hrem & _). fold r in Hok, Hr, Hpcr, Hrem.
  clearbody r. pose proof Hok as (B1 & B2 & B3 & _).
  pose proof (windowStart_spec (rd_cur r) s (i_core _ _ Hi) ltac:(lia)) as Hws.
  set (ws := windowStart (rd_cur r) s) in *. clearbody ws.
  pose proof (getOrCreateSession_ok None (rd_file r) s) as Hok1.
  destruct (getOrCreateSession (rd_file r) s) as [s1 sid] eqn:Hs1. simpl in Hok1.
  assert (inv s1) as Hi1 by by eapply inv_ok.
  apply getOrCreateSession_same in Hs1 as (Hc1 & _).
  assert (size_inv s1) as Hd1 by (eapply size_ok; [exact Hi|exact Hok1|rewrite Hc1; apply Hd|done]).
  assert (in_int64 (rd_cur r)) as Hin by (unfold in_int64, max_offset in *; lia).
  destruct (rs_copyTo _ _ _ now (sr_cache s1)) as [[c rem'] hit] eqn:Hcopy.
  destruct (rs_copyTo_wf _ _ _ _ _ _ _ _ (z_cache _ Hd1) Hin Hcopy) as (Hg & Hl & Hn).
  assert (inv (set_cache c s1)) as Hi2 by (eapply inv_ok; [exact Hi1|apply set_cache_ok]).
  assert (size_inv (set_cache c s1)) as Hd2 by (eapply size_ok; [exact Hi1|apply set_cache_ok|done..]).
  set (s2 := set_cache c s1) in *. destruct hit as [n|].
  - specialize (Hn n eq_refl). apply size_set_read.
    + assert (ok None s2 (count CCacheHitCount 1 s2)) as Hok3 by by apply count_ok.
      eapply size_ok; [by eapply inv_ok|apply maybeReadAhead_ok; lia|apply maybeReadAhead_wf, Hd2|].
      eapply size_ok; [exact Hi2|exact Hok3|apply Hd2|done].
    + eapply (read_progress_sizes s); try done; [|lia]. intros e. by rewrite Hpcr.
  - clearbody s2. set (bp := computeBudgetPriority _ _ _).
    pose proof (getOrCreateWindow_spec None (rd_file r) ws (rd_fileSize r) bp s2 (i_core _ _ Hi2)
                  ltac:(lia) ltac:(lia)) as Hspec.
    destruct (getOrCreateWindow (rd_file r) ws (rd_fileSize r) bp s2) as [[s3 wid] created].
    destruct Hspec as (Hok3 & Hc3 & _).
    assert (inv s3) as Hi3 by by eapply inv_ok.
    assert (size_inv s3) as Hd3 by (eapply size_ok; [exact Hi2|exact Hok3|rewrite Hc3; apply Hd2|done]).
    set (s4 := count _ 1 s3).
    assert (ok None s3 s4) as Hok4 by (apply count_ok; by destruct created).
    assert (ok None s4 (upd_window wid (add_waiters 1) s4)) as Hok5
      by (apply upd_window_ok; [by intros w0|left; by intros w0]).
    apply size_set_read.
    + eapply size_ok; [by eapply inv_ok|exact Hok5|apply Hd3|].
      eapply size_ok; [exact Hi3|exact Hok4|apply Hd3|done].
    + destruct Hr as [H2 H3 H4]. rewrite Hpcr in H3. by split.
Qed.

(** The window a reader waits on is of its file and starts at or before its offset. *)
Lemma reader_window s r wid ws sid bp w :
  reader_ok s r -> rd_pc r = RWait wid ws sid bp -> sr_windows s !! wid = Some w ->
  win_file w = rd_file r /\ win_start w = ws /\ 0 <= ws <= rd_cur r.
Proof.
  intros (_ & _ & _ & H4) Hpc Hw. rewrite Hpc in H4. destruct H4 as (Hws & w' & Hw' & Hk).
  simplify_eq. unfold win_file, win_start. rewrite Hk. simpl. split_and!; [done..|lia|lia].
Qed.

(** What a look at the window hands over has bytes, and fits. *)
Lemma wake_data_len s r wid ws sid bp w spare bs :
  reader_ok s r -> reader_sizes r -> rd_pc r = RWait wid ws sid bp -> sr_windows s !! wid = Some w ->
  slice_buf spare w (waitForBytes (rd_ctx r) w (rd_cur r) (len64 (rd_rem r))) = WData bs ->
  0 < len64 bs <= len64 (rd_rem r) /\ len64 (rd_rem r) <= rd_fileSize r - rd_cur r.
Proof.
  intros Hok Hr Hpc Hw Hs. destruct (reader_window _ _ _ _ _ _ _ Hok Hpc Hw) as (_ & Hstart & Hws).
  pose proof Hok as (H1 & H2 & H3 & _). pose proof (rz_wait _ Hr) as Hwait. rewrite Hpc in Hwait.
  split; [|lia]. eapply slice_buf_pos; [|exact Hs|lia|lia]. lia.
Qed.

Lemma read_wake_size rid r wid ws sid bp spare now s s' :
  inv s -> size_inv s -> reader_ok s r -> reader_sizes r -> rd_pc r = RWait wid ws sid bp ->
  read_wake rid r wid ws sid bp spare now s = Some s' -> size_inv s'.
Proof.
  intros Hi Hd Hok Hr Hpc. unfold read_wake. intros (w & Hw & Hs')%bind_Some.
  destruct (reader_window _ _ _ _ _ _ _ Hok Hpc Hw) as (Hfile & Hstart & Hws).
  pose proof Hok as (H1 & H2 & H3 & _).
  assert (ok None s (upd_window wid (add_waiters (-1)) s)) as Hok1
    by (apply upd_window_ok; [by intros w0|left; by intros w0]).
  assert (size_inv (upd_window wid (add_waiters (-1)) s)) as Hd1
    by (eapply size_ok; [exact Hi|exact Hok1|apply Hd|done]).
  destruct (slice_buf _ _ _) eqn:Hwb; try done; injection Hs' as <-.
  - apply size_set_read; [done|by apply reader_sizes_done].
  - destruct (wake_data_len _ _ _ _ _ _ _ _ _ Hok Hr Hpc Hw Hwb) as [Hn Hrem]. apply size_set_read.
    + eapply size_ok; [by eapply inv_ok|apply maybeReadAhead_ok; lia|apply maybeReadAhead_wf, Hd1|done].
    + eapply (read_progress_sizes s); try done; [by rewrite Hpc|lia|].
      unfold len64 in *. rewrite length_app, length_drop. lia.
Qed.

Lemma read_step_size rid spare now s s' :
  inv s -> size_inv s -> read_step rid spare now s = Some s' -> size_inv s'.
Proof.
  intros Hi Hd. unfold read_step. intros (r & Hr & Hs')%bind_Some. pose proof (i_reads _ _ Hi _ _ Hr) as Hrok.
  pose proof (z_reads _ Hd _ _ Hr) as Hrd. destruct (rd_pc r) eqn:Hpc; try done.
  - injection Hs' as <-. by apply read_loop_size.
  - by eapply read_wake_size.
Qed.

Lemma step_size e now s s' :
  inv s -> size_inv s -> env_ok e s -> body_bounded e s -> step e now s = Some s' -> size_inv s'.
Proof.
  intros Hi Hd Henv Hh.
  destruct e as [rid fk off p fileSize|rid|rid spare|rid resp|rid e|wid inp|fk|fk id off|fk id|]; cbn [step].
  - case_match; [done|]. intros [= <-]. destruct Henv as (? & ? & ?). by apply read_begin_size.
  - by apply read_step_size.
  - by apply read_step_size.
  - intros (r & Hr & Hs')%bind_Some. destruct (rd_pc r) eqn:Hpc; try done.
    eapply small_response_size; [done|done|by eapply i_reads|by eapply z_reads|by eauto| |exact Hs'].
    intros body rerr ->. by apply Henv.
  - intros (r & Hr & [= <-])%bind_Some. apply size_set_read; [done|].
    destruct (z_reads _ Hd _ _ Hr). by split.
  - intros Hs'. destruct (fetch_step_sized _ _ _ _ _ Hi Hd Hh Hs') as [Hg Hset].
    eapply size_fetch; [done| |done..]. eapply fetch_step_ok; [apply Hi| |exact Hs'].
    unfold fetch_step in Hs'. apply bind_Some in Hs' as (pc & Hpc & _).
    exists pc. split; [done|by apply (i_goro _ _ Hi)].
  - intros [= <-]. eapply size_ok; [exact Hi|apply CancelFile_ok|rewrite CancelFile_cache; apply Hd|done].
  - intros [= <-]. eapply size_ok; [exact Hi|apply TrackReader_ok|apply Hd|done].
  - intros [= <-]. eapply size_ok; [exact Hi|apply UntrackReader_ok|rewrite UntrackReader_cache; apply Hd|done].
  - intros [= <-]. eapply size_ok; [exact Hi|apply set_recentlyClosed_ok|apply Hd|done].
Qed.

Lemma rtc_size s s' : inv s -> size_inv s -> rtc (next any_body) s s' -> inv s' /\ size_inv s'.
Proof.
  intros Hi Hd Hr. revert Hi Hd. induction Hr as [|s s1 s2 (e & now & He & Hh & Hst) _ IH]; [done|].
  intros Hi Hd. apply IH; [by eapply step_inv|by eapply step_size].
Qed.

Lemma started_size s : started s -> rs_wf (sr_cache s) -> size_inv s.
Proof.
  intros [(rc & mi & ws & om & ->) _ _] Hg. by split.
Qed.

Lemma size_reachable s0 s :
  started s0 -> rs_wf (sr_cache s0) -> rtc (next any_body) s0 s -> inv s /\ size_inv s.
Proof. intros Hs Hg. apply rtc_size; [by apply started_inv|by apply started_size]. Qed.

End size.
