(* ===== verification/StreamData.v ===== *)
(** * internal/stream: what readers get is what the files contain

    The data invariant of the running stream reader, relative to the true contents
    [F] of the remote files: when the network answers each range request with bytes of
    that range, every cached block, every window buffer and every byte handed to a
    reader is the file's.  The one place where the code does not establish this by
    itself is the prefix a window takes over from the cache ([prefix_filled]);
    StreamRun.v shows a run in which it fails. *)
From S2P Require Import Prelude Metrics Errors Cache Semaphore Window RangeStore Stream Goroutines StreamInv StreamSize.
From Stdlib Require Import Strings.Byte.
Open Scope Z_scope.
Open Scope go_scope.

Section data.
Context {store : Type} `{MI : MapIter} `{SS : SliceSort} `{RS : RangeStore store} {RL : RangeStoreLaws store}.
Context (F : string -> Z -> byte) (L : Z).
Implicit Types (s : StreamReader store) (w : inflightWindow) (r : reader).

Notation ok := (okd 0).
Notation inv := (StreamInv.inv L).
Notation started := (StreamInv.started L).


(** ** The invariant *)

Record win_data w : Prop := {
  wd_slice : slice_of F (win_file w) (win_start w) (win_buf w);
  wd_ready : win_readyTo w = len64 (win_buf w);
  wd_total : win_total w = len64 (win_buf w)
}.

(** What the position of the goroutine says about the buffer. *)
Definition buf_ok s (pc : fetch_pc) w : Prop :=
  match pc with
  | FStart _ | FQueued _ | FAttempt _ _ _ | FBackoff _ _ _ => win_buf w = []
  | FPrefix _ _ _ cl => win_buf w = [] /\ 0 <= cl
  | FRequest _ _ _ cl fetchStart fetchEnd =>
      len64 (win_buf w) = cl /\ fetchStart = win_start w + cl /\
      fetchStart <= fetchEnd < win_fileSize w /\ fetchEnd < win_start w + sr_windowSize s
  | FBody _ _ _ cl fetchStart fetchEnd tr =>
      0 <= cl /\ 0 <= tr /\ len64 (win_buf w) = cl + tr /\ fetchStart = win_start w + cl /\
      fetchEnd < win_fileSize w
  | FCleanup | FEnd => True
  end.

(** The bytes a reader got are the file's. *)
Definition reader_data r : Prop := slice_of F (rd_file r) (rd_off r) (rd_data r).

Record data_inv s : Prop := {
  d_cache : rs_good F (sr_cache s);
  d_win : forall wid w pc, sr_windows s !! wid = Some w -> sr_fetchers s !! wid = Some pc ->
    win_data w /\ buf_ok s pc w;
  d_reads : forall rid r, sr_reads s !! rid = Some r -> reader_data r
}.

(** ** The environment *)

(** The bytes taken over from the cache: [CopyTo] fills the whole prefix that
    [CachedPrefixLen] announced. *)
Definition prefix_filled (wid : nat) (now : Z) s : Prop :=
  forall w a bp cp cl, sr_windows s !! wid = Some w -> sr_fetchers s !! wid = Some (FPrefix a bp cp cl) ->
    0 < cl ->
    let n := Z.min cl (winEnd s w - win_start w) in
    (rs_copyTo (win_file w) (win_start w) (zeros n) now (sr_cache s)).2 = Some n.

(** A piece of the response to a request for the bytes [fetchStart] to [fetchEnd] of a
    file, after [tr] bytes of it: it continues the range.  Only a request from the start
    may be answered with the whole file, as [FetchRange] accepts it. *)
Definition answers (file : string) (fetchStart fetchEnd tr : Z) (chunk : list byte) : Prop :=
  slice_of F file (fetchStart + tr) chunk /\
  fetchStart + tr + len64 chunk <= (if fetchStart =? 0 then max_offset else fetchEnd + 1).

(** The network answers each request with bytes of the range that was asked for. *)
Definition network_honest (e : event) s : Prop :=
  match e with
  | EFetch wid (IBody chunk _) =>
      forall w a bp cp cl fetchStart fetchEnd tr, sr_windows s !! wid = Some w ->
        sr_fetchers s !! wid = Some (FBody a bp cp cl fetchStart fetchEnd tr) ->
        answers (win_file w) fetchStart fetchEnd tr chunk
  | ESmall rid (Ok (body, _)) =>
      forall r off end_, sr_reads s !! rid = Some r -> rd_pc r = RSmall off end_ ->
        answers (rd_file r) off end_ 0 body
  | _ => True
  end.

Definition honest (e : event) (now : Z) s : Prop :=
  network_honest e s /\
  match e with EFetch wid INone => prefix_filled wid now s | _ => True end.

(** ** Frame *)

Lemma win_data_ext w w' :
  win_key w' = win_key w -> win_buf w' = win_buf w -> win_readyTo w' = win_readyTo w ->
  win_total w' = win_total w -> win_data w -> win_data w'.
Proof.
  intros Hk Hb Hr Ht [H1 H2 H3].
  split; unfold win_file, win_start in *; by rewrite ?Hk, ?Hb, ?Hr, ?Ht.
Qed.

Lemma buf_ok_ext s s' pc w w' :
  sr_windowSize s' = sr_windowSize s -> win_key w' = win_key w -> win_buf w' = win_buf w ->
  win_fileSize w' = win_fileSize w -> buf_ok s pc w -> buf_ok s' pc w'.
Proof. intros Hs Hk Hb Hf. unfold buf_ok, win_start. by rewrite Hs, Hk, Hb, Hf. Qed.

Lemma win_data_empty w : win_buf w = [] -> win_readyTo w = 0 -> win_total w = 0 -> win_data w.
Proof. intros Hb Hr Ht. split; rewrite Hb; [apply slice_of_nil|done|done]. Qed.

(** The data of the windows no action touched. *)
Lemma data_evolves x s s' :
  inv s -> core s' -> evolves x s s' -> data_inv s ->
  forall wid w' pc, Some wid <> x -> sr_windows s' !! wid = Some w' ->
    sr_fetchers s' !! wid = Some pc -> win_data w' /\ buf_ok s' pc w'.
Proof.
  intros Hi Hc' He Hd wid w' pc Hx Hw' Hpc. destruct (sr_windows s !! wid) as [w|] eqn:Hw.
  - destruct (proj1 (c_fetch _ (i_core _ _ Hi) wid)) as [pc0 Hpc0]; [by eexists|].
    pose proof (e_pc _ _ _ He wid pc0 Hx Hpc0). simplify_eq.
    destruct (e_win _ _ _ He wid w Hw) as (w1 & Hw1 & Hk & Hf & _ & Hb). simplify_eq.
    destruct (Hb Hx) as (Hb1 & Hb2 & Hb3). destruct (d_win _ Hd _ _ _ Hw Hpc0) as [Hwd Hbo].
    split; [by eapply win_data_ext|]. by eapply buf_ok_ext; [apply (e_ws _ _ _ He)|..].
  - destruct (e_new _ _ _ He wid w' Hx Hw Hw') as (Hb & Hr & Ht & bp & Hbp). simplify_eq.
    split; [|done]. by apply win_data_empty.
Qed.

Lemma data_ok s s' :
  inv s -> ok None s s' -> rs_good F (sr_cache s') -> data_inv s -> data_inv s'.
Proof.
  intros Hi Hok Hg Hd. destruct (Hok (i_core _ _ Hi)) as (Hc' & He & Hr & _). split; [done|..].
  - intros wid w pc Hw Hpc. by eapply data_evolves.
  - rewrite Hr. apply Hd.
Qed.

(** Where the action of [wid]'s goroutine leaves its own window. *)
Definition settled (wid : nat) s : Prop :=
  exists w pc, sr_windows s !! wid = Some w /\ sr_fetchers s !! wid = Some pc /\
    win_data w /\ buf_ok s pc w.

Lemma data_fetch wid s s' :
  inv s -> fetch_ok wid s s' -> rs_good F (sr_cache s') -> settled wid s' -> data_inv s -> data_inv s'.
Proof.
  intros Hi [Hok _] Hg (w1 & pc1 & Hw1 & Hpc1 & Hwd1 & Hbo1) Hd.
  destruct (Hok (i_core _ _ Hi)) as (Hc' & He & Hr & _). split; [done|..].
  - intros u w pc Hw Hpc. destruct (decide (u = wid)) as [->|Hne]; [by simplify_eq|].
    eapply data_evolves; try done. congruence.
  - rewrite Hr. apply Hd.
Qed.

Lemma data_set_read rid r s : data_inv s -> reader_data r -> data_inv (set_read rid r s).
Proof.
  intros [Hg Hw Hr] Hrd. split; [done|done|].
  intros rid' r'. simpl. intros [[<- <-]|[_ Hl]]%lookup_insert_Some; [done|by eapply Hr].
Qed.

(** ** The cache stays good *)

Lemma copyTo_cache_good fk off dst now (c : store) :
  rs_good F c -> in_int64 off -> rs_good F (rs_copyTo fk off dst now c).1.1.
Proof.
  intros Hg Ho. destruct (rs_copyTo fk off dst now c) as [[c' dst'] r] eqn:Hc.
  by apply (rs_copyTo_good F fk off dst now c c' dst' r).
Qed.

Lemma maybeReadAhead_good fk endOff ws fileSize sid bp now s :
  rs_good F (sr_cache s) -> rs_good F (sr_cache (maybeReadAhead fk endOff ws fileSize sid bp now s)).
Proof. apply maybeReadAhead_cache. intros. by apply copyTo_cache_good. Qed.

(** ** The actions of a fetch goroutine *)

(** [wid]'s window in [s'] holds what [w] holds. *)
Definition holds_data (wid : nat) w s' : Prop :=
  exists w', sr_windows s' !! wid = Some w' /\ win_key w' = win_key w /\
    win_fileSize w' = win_fileSize w /\ win_buf w' = win_buf w /\
    win_readyTo w' = win_readyTo w /\ win_total w' = win_total w.

Lemma holds_refl wid w s : sr_windows s !! wid = Some w -> holds_data wid w s.
Proof. intros Hw. by exists w. Qed.

Lemma holds_upd wid w f s :
  holds_data wid w s -> win_mono f -> win_keeps f -> holds_data wid w (upd_window wid f s).
Proof.
  intros (w' & Hw' & ? & ? & ? & ? & ?) Hm Hk. exists (f w').
  destruct (Hm w') as (? & ? & _), (Hk w') as (? & ? & ?). simpl. rewrite lookup_alter_eq, Hw'.
  split_and!; try congruence. done.
Qed.

Lemma holds_ok wid w s s' : core s -> ok None s s' -> holds_data wid w s -> holds_data wid w s'.
Proof.
  intros Hc Hok (w1 & Hw1 & ? & ? & ? & ? & ?). destruct (Hok Hc) as (_ & He & _).
  destruct (e_win _ _ _ He wid w1 Hw1) as (w' & Hw' & ? & ? & _ & Hb).
  destruct (Hb ltac:(done)) as (? & ? & ?). exists w'. split_and!; congruence.
Qed.

Lemma settled_of_holds wid w s pc :
  holds_data wid w s -> sr_fetchers s !! wid = Some pc -> win_data w ->
  (forall w', win_key w' = win_key w -> win_fileSize w' = win_fileSize w -> win_buf w' = win_buf w ->
     buf_ok s pc w') -> settled wid s.
Proof.
  intros (w' & Hw' & Hk & Hf & Hb & Hr & Ht) Hpc Hd Hbo. exists w', pc. split_and!; try done.
  - by eapply win_data_ext.
  - by apply Hbo.
Qed.

Lemma finish_holds wid w s : holds_data wid w s -> holds_data wid w (finish wid s).
Proof.
  intros Hh. unfold finish. apply holds_upd; [exact Hh|apply set_done_mono|apply set_done_keeps].
Qed.

Lemma fetch_fail_settled wid w e s :
  holds_data wid w s -> win_data w -> settled wid (fetch_fail wid e s).
Proof.
  intros Hh Hd. eapply (settled_of_holds wid w _ FEnd); [|apply lookup_insert_eq|done|done].
  apply (finish_holds wid w). apply holds_upd; [done|by intros w0|by intros w0].
Qed.

Lemma next_attempt_settled wid w a bp cp s :
  sr_windows s !! wid = Some w -> settled wid (next_attempt wid a bp cp s).
Proof.
  intros Hw. exists (reset_window w), (FBackoff (a + 1) bp cp). simpl.
  rewrite lookup_alter_eq, Hw, lookup_insert_eq. by split_and!.
Qed.

Lemma fetch_complete_settled wid w w0 sid bp now s :
  core s -> sr_windows s !! wid = Some w0 -> win_file w = win_file w0 -> win_start w = win_start w0 ->
  win_fileSize w = win_fileSize w0 -> win_data w0 -> settled wid (fetch_complete wid w sid bp now s).
Proof.
  intros Hc Hw Hfile Hstart Hsize Hd. unfold fetch_complete.
  eapply (settled_of_holds wid w0 _ FCleanup); [|simpl; apply lookup_insert_eq|done|done].
  apply finish_holds.
  assert (holds_data wid w0 (upd_window wid set_done s)) as Hh1
    by (apply holds_upd; [by apply holds_refl|apply set_done_mono|apply set_done_keeps]).
  assert (core (upd_window wid set_done s)) as Hc1 by apply (set_done_ok None wid s Hc).
  destruct (c_win _ Hc _ _ Hw) as [Hst Hfs].
  eapply (holds_ok wid w0 _ _ Hc1) in Hh1; [|apply maybeReadAhead_ok]; [exact Hh1|lia..].
Qed.

Lemma fetch_complete_good wid w sid bp now s :
  rs_good F (sr_cache s) -> rs_good F (sr_cache (fetch_complete wid w sid bp now s)).
Proof. intros Hg. unfold fetch_complete. simpl. by apply maybeReadAhead_good. Qed.

Definition fetched wid s' : Prop := rs_good F (sr_cache s') /\ settled wid s'.

Lemma after_acquire_data wid w bp now s :
  rs_good F (sr_cache s) -> sr_windows s !! wid = Some w -> win_data w -> win_buf w = [] ->
  fetched wid (after_acquire wid w bp now s).
Proof.
  intros Hg Hw Hd Hb. unfold after_acquire. destruct (threads (sr_budget s) !! wid) as [th|].
  - case_bool_decide.
    + unfold begin_fetch. destruct (getOrCreateSession (win_file w) s) as [s1 sid] eqn:Hs.
      apply getOrCreateSession_same in Hs as (Hc1 & Hw1 & _). split; [by simpl; rewrite Hc1|].
      eapply (settled_of_holds wid w); [apply holds_refl; simpl; by rewrite Hw1|apply lookup_insert_eq|done|].
      intros w' _ _ Hb'. simpl. congruence.
    + split; [done|]. eapply (settled_of_holds wid w); [by apply holds_refl|apply lookup_insert_eq|done|].
      intros w' _ _ Hb'. simpl. congruence.
  - split; [done|].
    eapply (settled_of_holds wid w); [|apply lookup_insert_eq|done|done].
    apply (holds_upd wid w); [by apply holds_refl|by intros w0|by intros w0].
Qed.

(** A copy out of the cache that fills its destination is a slice of the file. *)
Lemma copy_filled fk off n now (c c' : store) b hit :
  rs_good F c -> in_int64 off -> 0 < n -> rs_copyTo fk off (zeros n) now c = (c', b, hit) ->
  hit = Some n -> rs_good F c' /\ len64 b = n /\ slice_of F fk off b.
Proof.
  intros Hg Ho Hn Hc Hhit. destruct (copy_zeros_len _ _ n _ _ _ _ _ (rs_good_wf F _ Hg) Ho ltac:(lia) Hc) as [_ Hlen].
  destruct (rs_copyTo_good F _ _ _ _ _ _ _ _ Hg Ho Hc) as (Hg' & Hs). split_and!; [done..|].
  specialize (Hs n Hhit). rewrite take_ge in Hs; [done|]. unfold len64 in Hlen. lia.
Qed.

Lemma set_buf_settled wid w b pc s :
  sr_windows s !! wid = Some w -> slice_of F (win_file w) (win_start w) b -> buf_ok s pc (set_buf b (len64 b) (len64 b) w) ->
  settled wid (set_pc wid pc (upd_window wid (set_buf b (len64 b) (len64 b)) s)).
Proof.
  intros Hw Hs Hb. exists (set_buf b (len64 b) (len64 b) w), pc. simpl.
  rewrite lookup_alter_eq, Hw, lookup_insert_eq. by split_and!.
Qed.

Lemma fetch_cached_data wid w bp cp n now s s' :
  core s -> rs_good F (sr_cache s) -> sr_windows s !! wid = Some w ->
  n = winEnd s w - win_start w ->
  (rs_copyTo (win_file w) (win_start w) (zeros n) now (sr_cache s)).2 = Some n ->
  fetch_cached wid w bp cp n now s = Some s' -> fetched wid s'.
Proof.
  intros Hc Hg Hw Hn Hfill. destruct (winEnd_spec s w wid Hc Hw) as (Hend & _ & _).
  destruct (c_win _ Hc _ _ Hw) as [Hst Hfs]. unfold fetch_cached. case_match; [done|].
  destruct (rs_copyTo _ _ _ now (sr_cache s)) as [[c b] hit] eqn:Hcopy. simpl in Hfill.
  assert (in_int64 (win_start w)) as Hin by (unfold in_int64, max_offset in *; lia).
  assert (0 < n) as Hpos by lia.
  destruct (copy_filled _ _ n now _ _ _ _ Hg Hin Hpos Hcopy Hfill) as (Hg' & Hlen & Hs).
  subst hit. simpl.
  set (s0 := upd_window wid _ (set_cache c s)).
  assert (core s0) as Hc0.
  { apply (ok_trans (Some wid) s (set_cache c s) s0); [apply set_cache_ok|apply upd_window_ok|done];
      [by intros w0|by right]. }
  pose proof (getOrCreateSession_ok None (win_file w) s0 Hc0) as [Hc1 _].
  destruct (getOrCreateSession (win_file w) s0) as [s1 sid] eqn:Hs1. simpl in Hc1.
  apply getOrCreateSession_same in Hs1 as (Hcache & Hw1 & _).
  intros (c3 & Hput & [= <-])%bind_Some.
  assert (rs_good F c3) as Hg3 by (apply (rs_put_good F) in Hput; [done|by rewrite Hcache|lia|lia|done]).
  split; [by apply fetch_complete_good|].
  assert (sr_windows (set_cache c3 s1) !! wid = Some (set_buf b n n w)) as Hw2
    by (simpl; rewrite Hw1; simpl; by rewrite lookup_alter_eq, Hw).
  eapply (fetch_complete_settled wid w (set_buf b n n w)); try done. by apply (set_cache_ok None).
Qed.

Lemma fetch_prefix_data wid w a bp cp cl now s s' :
  core s -> rs_good F (sr_cache s) -> sr_windows s !! wid = Some w ->
  sr_fetchers s !! wid = Some (FPrefix a bp cp cl) -> win_data w -> win_buf w = [] -> 0 <= cl ->
  prefix_filled wid now s -> fetch_prefix wid w a bp cp cl now s = Some s' -> fetched wid s'.
Proof.
  intros Hc Hg Hw Hpc Hd Hb Hcl Hfill. destruct (winEnd_spec s w wid Hc Hw) as (Hend & Hwin & Hsub).
  destruct (c_win _ Hc _ _ Hw) as [Hst Hfs]. pose proof (c_ws _ Hc).
  specialize (Hfill w a bp cp cl Hw Hpc). unfold fetch_prefix. rewrite Hsub.
  destruct (Z.leb_spec (winEnd s w - win_start w) cl) as [Hle|Hgt].
  - rewrite Z.min_r in Hfill by lia. apply fetch_cached_data; auto; [].
    apply Hfill. lia.
  - rewrite Z.min_l in Hfill by lia.
    assert (win_start w +w cl = win_start w + cl /\ winEnd s w -w 1 = winEnd s w - 1) as [-> ->]
      by (unfold add64, sub64; rewrite !wrap64_id; unfold in_int64, max_offset in *; lia).
    destruct (Z.ltb_spec 0 cl) as [Hpos|Hz].
    + specialize (Hfill Hpos).
      destruct (rs_copyTo _ _ _ now (sr_cache s)) as [[c b] hit] eqn:Hcopy.
      cbv zeta in Hfill. rewrite Hcopy in Hfill. simpl in Hfill.
      assert (in_int64 (win_start w)) as Hin by (unfold in_int64, max_offset in *; lia).
      destruct (copy_filled _ _ cl now _ _ _ _ Hg Hin Hpos Hcopy Hfill) as (Hg' & Hlen & Hs).
      subst hit. simpl. intros [= <-].
      rewrite take_ge by (unfold len64 in *; lia). split; [done|].
      apply (set_buf_settled wid w); [done|done|]. simpl. unfold win_start in *; simpl. lia.
    + intros [= <-]. split; [done|]. destruct Hd as [_ Hr Ht].
      exists (set_buf [] (win_readyTo w) (win_total w) w), (FRequest a bp cp cl (win_start w + cl) (winEnd s w - 1)).
      simpl. rewrite lookup_alter_eq, Hw, lookup_insert_eq. rewrite Hb in Hr, Ht. split_and!; try done.
      all: unfold win_start in *; simpl; unfold len64; simpl; lia.
Qed.

Lemma after_stream_data wid w a bp cp fetched_n success now s s' :
  core s -> rs_good F (sr_cache s) -> sr_windows s !! wid = Some w -> win_data w -> win_fits w ->
  after_stream wid a bp cp fetched_n success now s = Some s' -> fetched wid s'.
Proof.
  intros Hc Hg Hw Hd Hfit. destruct (c_win _ Hc _ _ Hw) as [Hst Hfs]. unfold after_stream. rewrite Hw. simpl.
  intros (c & Hput & Hs')%bind_Some.
  assert (rs_good F c) as Hg1.
  { revert Hput. case_bool_decide; [by intros [= <-]|]. intros Hput.
    apply (rs_put_good F) in Hput; [done|done|lia|done|apply Hd]. }
  assert (core (set_cache c s)) as Hc1 by by apply (set_cache_ok None).
  revert Hs'. destruct (success && negb (bool_decide (win_buf w = []))).
  - destruct (getOrCreateSession (win_file w) (set_cache c s)) as [s2 sid] eqn:Hs2.
    pose proof (getOrCreateSession_ok None (win_file w) (set_cache c s) Hc1) as [Hc2 _].
    rewrite Hs2 in Hc2. simpl in Hc2.
    apply getOrCreateSession_same in Hs2 as (Hcache & Hw2 & _). intros [= <-].
    split; [apply fetch_complete_good; by rewrite Hcache|].
    eapply (fetch_complete_settled wid w w); try done. by rewrite Hw2.
  - destruct (negb _ || _); intros [= <-]; split; try done.
    + eapply fetch_fail_settled; [by apply holds_refl|done].
    + by eapply next_attempt_settled.
Qed.

Lemma append_chunk_data w cl fs fe tr chunk :
  win_data w -> 0 <= cl -> 0 <= tr -> 0 <= win_start w -> len64 (win_buf w) = cl + tr -> fs = win_start w + cl ->
  fe < max_offset -> answers (win_file w) fs fe tr chunk ->
  win_data (append_chunk cl tr chunk w) /\ win_fits (append_chunk cl tr chunk w) /\
  tr +w len64 chunk = tr + len64 chunk /\
  len64 (win_buf (append_chunk cl tr chunk w)) = cl + (tr + len64 chunk).
Proof.
  intros [Hs Hr Ht] Hcl Htr Hst Hlen -> Hfe [Hchunk Hend]. pose proof (len64_nonneg chunk).
  assert (win_start w + cl + tr + len64 chunk <= max_offset) as Hmax by (destruct (_ =? 0); lia).
  assert (len64 (win_buf w ++ chunk) = cl + (tr + len64 chunk)) as Hl by (rewrite len64_app; lia).
  assert (cl +w tr = cl + tr) as Hadd
    by (unfold add64; apply wrap64_id; unfold in_int64, max_offset in *; lia).
  split_and!.
  - unfold append_chunk. rewrite Hadd. split; simpl; unfold win_file, win_start in *; simpl; try done.
    + apply slice_of_app. split; [done|]. rewrite Hlen. by rewrite Z.add_assoc.
    + unfold add64. rewrite wrap64_id by (unfold in_int64, max_offset in *; lia). lia.
  - unfold win_fits, append_chunk, win_start in *; simpl. lia.
  - unfold add64. apply wrap64_id. unfold in_int64, max_offset in *; lia.
  - exact Hl.
Qed.

(** An honest body is bounded. *)
Lemma honest_bounded e s : inv s -> data_inv s -> network_honest e s -> body_bounded e s.
Proof.
  intros Hi Hd. destruct e as [| | | | |wid [| | |chunk rerr]| | | |]; try done. simpl.
  intros Hh w a bp cp cl fs fe tr Hw Hpc. destruct (d_win _ Hd _ _ _ Hw Hpc) as [_ (Hcl & Htr & Hlen & Hfs & Hfe)].
  destruct (c_win _ (i_core _ _ Hi) _ _ Hw) as [Hst Hsz].
  destruct (Hh _ _ _ _ _ _ _ _ Hw Hpc) as [_ Hend]. destruct (fs =? 0); lia.
Qed.

Lemma fetch_body_data wid w a bp cp cl fs fe tr chunk rerr now s s' :
  core s -> rs_good F (sr_cache s) -> sr_windows s !! wid = Some w -> win_data w -> win_fits w ->
  buf_ok s (FBody a bp cp cl fs fe tr) w -> answers (win_file w) fs fe tr chunk ->
  fetch_body wid a bp cp cl fs fe tr chunk rerr now s = Some s' -> fetched wid s'.
Proof.
  intros Hc Hg Hw Hd Hfit (Hcl & Htr & Hlen & Hfs & Hfe) Hh. destruct (c_win _ Hc _ _ Hw) as [Hst Hsz].
  destruct (append_chunk_data w cl fs fe tr chunk Hd Hcl Htr ltac:(lia) Hlen Hfs ltac:(lia) Hh)
    as (Hd' & Hfit' & Htr' & Hlen').
  unfold fetch_body. rewrite Htr'.
  set (s1 := if bool_decide (chunk = []) then s else upd_window wid (append_chunk cl tr chunk) s).
  assert (core s1 /\ sr_cache s1 = sr_cache s /\ exists w1, sr_windows s1 !! wid = Some w1 /\
    win_data w1 /\ win_fits w1 /\ len64 (win_buf w1) = cl + (tr + len64 chunk) /\
    win_start w1 = win_start w /\ win_fileSize w1 = win_fileSize w) as (Hc1 & Hcache & w1 & Hw1 & Hd1 & Hf1 & Hl1 & Hs1 & Hz1).
  { unfold s1. case_bool_decide as Hempty.
    - split_and!; [done..|]. exists w. split_and!; [done..| |done|done]. subst chunk. unfold len64 in *; simpl in *. lia.
    - split_and!; [by apply (upd_window_ok (Some wid)); [intros w0|right|]|done|].
      exists (append_chunk cl tr chunk w). simpl. by rewrite lookup_alter_eq, Hw. }
  rewrite <- Hcache in Hg. clearbody s1. pose proof (len64_nonneg chunk).
  destruct rerr as [e|]; [by eapply after_stream_data|]. rewrite Hw1. simpl.
  case_match; [by eapply after_stream_data|]. intros [= <-]. split; [done|].
  eapply (settled_of_holds wid w1); [by apply holds_refl|apply lookup_insert_eq|done|].
  intros w' Hk' Hz' Hb'. simpl. rewrite Hb', Hz', Hz1. split_and!; try lia.
  rewrite Hfs, <- Hs1. unfold win_start. by rewrite Hk'.
Qed.

Lemma fetch_step_data wid inp now s s' :
  inv s -> size_inv s -> data_inv s -> honest (EFetch wid inp) now s -> fetch_step wid inp now s = Some s' ->
  fetched wid s'.
Proof.
  intros Hi Hz Hdata Hh. unfold fetch_step.
  intros (pc & Hpc & (w & Hw & Hs')%bind_Some)%bind_Some.
  pose proof (i_core _ _ Hi) as Hc. destruct (d_win _ Hdata _ _ _ Hw Hpc) as [Hd Hb].
  pose proof (d_cache _ Hdata) as Hg. destruct (c_win _ Hc _ _ Hw) as [Hst Hfs].
  assert (forall pc' s0, sr_windows s0 = sr_windows s -> sr_cache s0 = sr_cache s ->
    (forall w', win_key w' = win_key w -> win_fileSize w' = win_fileSize w -> win_buf w' = win_buf w ->
       buf_ok (set_pc wid pc' s0) pc' w') -> fetched wid (set_pc wid pc' s0)) as Hmove.
  { intros pc' s0 Hw0 Hc0 Hbo. split; [by simpl; rewrite Hc0|].
    eapply (settled_of_holds wid w); [apply holds_refl; simpl; by rewrite Hw0|apply lookup_insert_eq|done..]. }
  destruct pc, inp; try done; simpl in Hb.
  - injection Hs' as <-. by apply after_acquire_data.
  - destruct (is_woken s wid); [|done]. injection Hs' as <-. by apply after_acquire_data.
  - injection Hs' as <-. apply Hmove; [done..|]. intros w' _ _ Hb'. simpl. split; [congruence|].
    repeat case_match; try lia.
  - destruct Hb as [Hb Hcl]. eapply fetch_prefix_data; try done. apply Hh.
  - injection Hs' as <-. unfold fetch_response. destruct resp as [[]|e].
    + apply Hmove; [done..|]. intros w' Hk' Hz' Hb'. simpl. unfold win_start in *. rewrite Hb', Hz', Hk'.
      pose proof (len64_nonneg (win_buf w)). lia.
    + case_match; (split; [done|]).
      * by eapply next_attempt_settled.
      * eapply fetch_fail_settled; [by apply holds_refl|done].
  - eapply fetch_body_data; try done; [by eapply z_win|]. by eapply (proj1 Hh).
  - destruct (win_cancelled w); [|done]. injection Hs' as <-. split; [done|].
    eapply fetch_fail_settled; [by apply holds_refl|done].
  - injection Hs' as <-. apply Hmove; [done..|]. intros w' _ _ Hb'. simpl. congruence.
  - injection Hs' as <-. split; [simpl; by rewrite cleanupWindow_cache|].
    eapply (settled_of_holds wid w); [|apply lookup_insert_eq|done|done].
    change (holds_data wid w (cleanupWindow wid s)).
    eapply (holds_ok wid w s); [done|apply cleanupWindow_ok|by apply holds_refl].
Qed.

(** ** The actions of a reader *)

(** Bytes of the file at the current offset are taken over by the reader. *)
Lemma read_advance_data s n rem' r :
  reader_ok s r -> reader_data r -> rd_cur r = rd_off r + len64 (rd_data r) ->
  slice_of F (rd_file r) (rd_cur r) (take (Z.to_nat n) rem') -> reader_data (read_advance n rem' r).
Proof. intros _ Hs Hc Hs'. apply slice_of_app. split; [done|]. simpl. by rewrite <- Hc. Qed.

Lemma read_progress_data s n rem' r :
  reader_ok s r -> reader_data r -> rd_cur r = rd_off r + len64 (rd_data r) ->
  slice_of F (rd_file r) (rd_cur r) (take (Z.to_nat n) rem') -> reader_data (read_progress n rem' r).
Proof.
  intros Hok Hs Hc Hs'. unfold read_progress. case_match; [done|]. by apply (read_advance_data s).
Qed.

Lemma waitForBytes_data ctx w off len spare bs :
  win_data w -> win_fits w -> 0 <= win_start w <= off -> 0 < len -> off + len <= max_offset ->
  slice_buf spare w (waitForBytes ctx w off len) = WData bs -> slice_of F (win_file w) off bs.
Proof.
  intros [Hs Hr Ht] Hfit Hst Hlen Hmax. unfold waitForBytes. fold (win_start w).
  assert (off -w win_start w = off - win_start w) as ->
    by (unfold sub64; apply wrap64_id; unfold in_int64, max_offset in *; lia).
  destruct ctx; [done|]. case_match; [|done]. destruct (win_err w); [done|].
  set (avail := win_readyTo w -w (off - win_start w)). destruct (Z.leb_spec avail 0); [done|].
  set (n := if len <? avail then len else avail).
  assert (0 < n <= len /\ n <= avail) as [Ha1 Ha2] by (unfold n; destruct (Z.ltb_spec len avail); lia).
  clearbody n.
  assert (off - win_start w +w n = off - win_start w + n) as ->
    by (unfold add64; apply wrap64_id; unfold in_int64, max_offset in *; lia).
  destruct (Z.leb_spec (off - win_start w + n) (len64 (win_buf w))) as [Hle|Hgt].
  - intros [= <-]. apply slice_of_take.
    replace off with (win_start w + Z.of_nat (Z.to_nat (off - win_start w))) at 1 by lia.
    by apply slice_of_drop.
  - exfalso. unfold avail in Ha2. rewrite Hr in Ha2. pose proof (len64_nonneg (win_buf w)).
    unfold win_fits, max_offset in *. unfold sub64 in Ha2. rewrite wrap64_id in Ha2 by (unfold in_int64; lia). lia.
Qed.

Lemma smallRead_data rid r now s :
  inv s -> size_inv s -> data_inv s -> reader_ok s r -> reader_data r -> reader_sizes r -> rd_cur r = rd_off r ->
  data_inv (smallRead rid r now s).
Proof.
  intros Hi Hz Hd Hok Hr [Hz1 _ _] Hcur. unfold smallRead.
  assert (in_int64 (rd_off r)) as Hin.
  { destruct Hok as (? & ? & _). pose proof (len64_nonneg (rd_rem r)).
    unfold in_int64, max_offset in *. lia. }
  destruct (rs_copyTo _ _ _ now (sr_cache s)) as [[c p'] hit] eqn:Hcopy.
  destruct (rs_copyTo_good F _ _ _ _ _ _ _ _ (d_cache _ Hd) Hin Hcopy) as (Hg & Hs).
  assert (data_inv (set_cache c s)) as Hd1 by (eapply data_ok; [exact Hi|apply set_cache_ok|done..]).
  destruct hit as [n|].
  - apply data_set_read; [|].
    + destruct Hd1 as [? Hw ?]. split; [done|exact Hw|done].
    + apply (read_advance_data s); try done. rewrite Hcur. by apply Hs.
  - destruct (sr_inflight _ !! _); by apply data_set_read.
Qed.

Lemma read_begin_data rid fk off p fileSize now s :
  inv s -> size_inv s -> data_inv s -> 0 <= off -> off + len64 p <= max_offset -> fileSize <= max_offset ->
  data_inv (read_begin rid fk off p fileSize now s).
Proof.
  intros Hi Hz Hd Ho Hm Hf. unfold read_begin.
  set (r := MkReader fk off (len64 p) fileSize off [] p None RLoop).
  assert (reader_data r) as Hr by apply slice_of_nil.
  assert (reader_sizes r) as Hrz.
  { split; simpl; [unfold len64; simpl; lia| |done].
    change (len64 []) with 0. split_and!; [lia|left; lia|by left]. }
  case_bool_decide as Hp; [by apply data_set_read|].
  set (s0 := count CReadCount 1 s).
  assert (ok None s s0) as Hok0 by by apply count_ok.
  assert (inv s0) as Hi0 by by eapply inv_ok.
  pose proof (maybeCancelOnSeek_ok None fk off now s0) as Hok1.
  pose proof (maybeCancelOnSeek_cache fk off now s0) as Hc1.
  set (s1 := maybeCancelOnSeek fk off now s0) in *.
  assert (inv s1) as Hi1 by by eapply inv_ok.
  pose proof (getOrCreateSession_ok None fk s1) as Hok2.
  destruct (getOrCreateSession fk s1) as [s2 sid] eqn:Hs2. simpl in Hok2.
  apply getOrCreateSession_same in Hs2 as (Hc2 & _).
  assert (inv s2) as Hi2 by by eapply inv_ok.
  set (s3 := upd_session sid _ s2).
  assert (ok None s2 s3) as Hok3 by apply upd_session_ok.
  assert (inv s3) as Hi3 by by eapply inv_ok.
  assert (sr_cache s3 = sr_cache s) as Hc3 by (change (sr_cache s2 = sr_cache s); by rewrite Hc2, Hc1).
  assert (size_inv s3 /\ data_inv s3) as [Hz3 Hd3].
  { assert (ok None s s3) as Hok by (eapply ok_trans; [exact Hok0|]; eapply ok_trans; [exact Hok1|]; by eapply ok_trans).
    split; [eapply size_ok; [exact Hi|exact Hok|rewrite Hc3; apply Hz|done]|].
    eapply data_ok; [exact Hi|exact Hok|rewrite Hc3; apply Hd|done]. }
  clearbody s3. case_match; [|by apply data_set_read].
  apply smallRead_data; try done.
Qed.

Lemma small_response_data rid r resp now s s' :
  inv s -> data_inv s -> reader_ok s r -> reader_data r -> reader_sizes r -> (exists off end_, rd_pc r = RSmall off end_) ->
  (forall body rerr, resp = Ok (body, rerr) ->
     len64 body <= len64 (rd_rem r) /\ slice_of F (rd_file r) (rd_off r) body) ->
  small_response rid r resp now s = Some s' -> data_inv s'.
Proof.
  intros Hi Hd Hok Hr Hrz (off & end_ & Hpc) Hbody. unfold small_response.
  assert (forall s', Some (set_read rid (read_goto RLoop r) s) = Some s' -> data_inv s') as Hloop
    by (intros s0 [= <-]; by apply data_set_read).
  destruct resp as [[body rerr]|e]; [|apply Hloop].
  destruct (Hbody body rerr eq_refl) as [Hlen Hs].
  pose proof Hok as (H1 & H2 & H3 & Hcur). rewrite Hpc in Hcur. destruct Hcur as [Hcur _]. pose proof (len64_nonneg body).
  assert (take (Z.to_nat (len64 body)) (body ++ drop (length body) (rd_rem r)) = body) as Htake.
  { unfold len64. rewrite Nat2Z.id, take_app_length. done. }
  assert (forall c, rs_good F c -> data_inv (set_read rid (read_goto (RDone None) (read_advance (len64 body)
            (body ++ drop (length body) (rd_rem r)) r)) (set_cache c s))) as Hdone.
  { intros c Hg. apply data_set_read.
    - eapply data_ok; [exact Hi|apply set_cache_ok|done..].
    - apply (read_advance_data s); [done..|apply Hrz|]. by rewrite Htake, Hcur. }
  assert (forall c, (if bool_decide (body = []) then Some (sr_cache s)
     else rs_putWithPriority (rd_file r) (rd_off r) body PriorityLow now (sr_cache s)) = Some c -> rs_good F c)
    as Hput.
  { intros c. case_bool_decide; [intros [= <-]; apply Hd|].
    apply rs_put_good; [apply Hd|lia|lia|done]. }
  destruct rerr as [[]|]; try apply Hloop; intros (c & Hc%Hput & [= <-])%bind_Some; by apply Hdone.
Qed.

Lemma read_loop_data rid r0 now s :
  inv s -> size_inv s -> data_inv s -> reader_ok s r0 -> reader_data r0 -> reader_sizes r0 -> rd_pc r0 = RLoop ->
  data_inv (read_loop rid r0 now s).
Proof.
  intros Hi Hz Hd Hok0 Hr0 Hrz0 Hpc. unfold read_loop.
  destruct (decide (rd_rem r0 = [])) as [Hempty|Hne].
  { rewrite bool_decide_true by done. by apply data_set_read. }
  rewrite bool_decide_false by done.
  destruct (Z.leb_spec (rd_fileSize r0) (rd_cur r0)) as [|Hlt]; [by apply data_set_read|].
  set (r := if _ <? _ then _ else r0).
  destruct (clamped_sizes s r0 Hok0 Hrz0 Hpc Hne Hlt) as (Hok & Hrz & Hpcr & Hrem & Hfile & Hoff & Hdata & _).
  fold r in Hok, Hrz, Hpcr, Hrem, Hfile, Hoff, Hdata.
  assert (reader_data r) as Hr by (unfold reader_data; by rewrite Hfile, Hoff, Hdata).
  clearbody r. pose proof Hok as (B1 & B2 & B3 & _).
  pose proof (windowStart_spec (rd_cur r) s (i_core _ _ Hi) ltac:(lia)) as Hws.
  set (ws := windowStart (rd_cur r) s) in *. clearbody ws.
  pose proof (getOrCreateSession_ok None (rd_file r) s) as Hok1.
  destruct (getOrCreateSession (rd_file r) s) as [s1 sid] eqn:Hs1. simpl in Hok1.
  assert (inv s1) as Hi1 by by eapply inv_ok.
  apply getOrCreateSession_same in Hs1 as (Hc1 & _).
  assert (data_inv s1) as Hd1 by (eapply data_ok; [exact Hi|exact Hok1|rewrite Hc1; apply Hd|done]).
  assert (in_int64 (rd_cur r)) as Hin by (unfold in_int64, max_offset in *; lia).
  destruct (rs_copyTo _ _ _ now (sr_cache s1)) as [[c rem'] hit] eqn:Hcopy.
  destruct (rs_copyTo_good F _ _ _ _ _ _ _ _ (d_cache _ Hd1) Hin Hcopy) as (Hg & Hs).
  assert (inv (set_cache c s1)) as Hi2 by (eapply inv_ok; [exact Hi1|apply set_cache_ok]).
  assert (data_inv (set_cache c s1)) as Hd2 by (eapply data_ok; [exact Hi1|apply set_cache_ok|done..]).
  set (s2 := set_cache c s1) in *. destruct hit as [n|].
  - apply data_set_read.
    + assert (ok None s2 (count CCacheHitCount 1 s2)) as Hok3 by by apply count_ok.
      eapply data_ok; [by eapply inv_ok|apply maybeReadAhead_ok; lia|apply maybeReadAhead_good, Hd2|].
      eapply data_ok; [exact Hi2|exact Hok3|apply Hd2|done].
    + apply (read_progress_data s); [done..|apply Hrz|by apply Hs].
  - clearbody s2. set (bp := computeBudgetPriority _ _ _).
    pose proof (getOrCreateWindow_spec None (rd_file r) ws (rd_fileSize r) bp s2 (i_core _ _ Hi2)
                  ltac:(lia) ltac:(lia)) as Hspec.
    destruct (getOrCreateWindow (rd_file r) ws (rd_fileSize r) bp s2) as [[s3 wid] created].
    destruct Hspec as (Hok3 & Hc3 & _).
    assert (inv s3) as Hi3 by by eapply inv_ok.
    assert (data_inv s3) as Hd3 by (eapply data_ok; [exact Hi2|exact Hok3|rewrite Hc3; apply Hd2|done]).
    set (s4 := count _ 1 s3).
    assert (ok None s3 s4) as Hok4 by (apply count_ok; by destruct created).
    assert (ok None s4 (upd_window wid (add_waiters 1) s4)) as Hok5
      by (apply upd_window_ok; [by intros w0|left; by intros w0]).
    apply data_set_read; [|done].
    eapply data_ok; [by eapply inv_ok|exact Hok5|apply Hd3|].
    eapply data_ok; [exact Hi3|exact Hok4|apply Hd3|done].
Qed.

Lemma read_wake_data rid r wid ws sid bp spare now s s' :
  inv s -> size_inv s -> data_inv s -> reader_ok s r -> reader_data r -> reader_sizes r -> rd_pc r = RWait wid ws sid bp ->
  read_wake rid r wid ws sid bp spare now s = Some s' -> data_inv s'.
Proof.
  intros Hi Hz Hd Hok Hr Hrz Hpc. unfold read_wake. intros (w & Hw & Hs')%bind_Some.
  destruct (reader_window _ _ _ _ _ _ _ Hok Hpc Hw) as (Hfile & Hstart & Hws).
  pose proof Hok as (H1 & H2 & H3 & _). pose proof (rz_wait _ Hrz) as Hwait. rewrite Hpc in Hwait.
  destruct (proj1 (c_fetch _ (i_core _ _ Hi) wid)) as [pc Hpcw]; [by eexists|].
  destruct (d_win _ Hd _ _ _ Hw Hpcw) as [Hwd _].
  assert (ok None s (upd_window wid (add_waiters (-1)) s)) as Hok1
    by (apply upd_window_ok; [by intros w0|left; by intros w0]).
  assert (data_inv (upd_window wid (add_waiters (-1)) s)) as Hd1
    by (eapply data_ok; [exact Hi|exact Hok1|apply Hd|done]).
  destruct (slice_buf _ _ _) eqn:Hwb; try done; injection Hs' as <-; [by apply data_set_read|].
  apply waitForBytes_data in Hwb; [|done|by apply (z_win _ Hz wid)|lia..]. apply data_set_read.
  - eapply data_ok; [by eapply inv_ok|apply maybeReadAhead_ok; lia|apply maybeReadAhead_good, Hd1|done].
  - apply (read_progress_data s); [done..|apply Hrz|].
    unfold len64. rewrite Nat2Z.id, take_app_length. by rewrite <- Hfile.
Qed.

Lemma read_step_data rid spare now s s' :
  inv s -> size_inv s -> data_inv s -> read_step rid spare now s = Some s' -> data_inv s'.
Proof.
  intros Hi Hz Hd. unfold read_step. intros (r & Hr & Hs')%bind_Some. pose proof (i_reads _ _ Hi _ _ Hr) as Hrok.
  pose proof (d_reads _ Hd _ _ Hr) as Hrd. pose proof (z_reads _ Hz _ _ Hr) as Hrz. destruct (rd_pc r) eqn:Hpc; try done.
  - injection Hs' as <-. by apply read_loop_data.
  - by eapply read_wake_data.
Qed.

Lemma step_data e now s s' :
  inv s -> size_inv s -> data_inv s -> env_ok e s -> honest e now s -> step e now s = Some s' -> data_inv s'.
Proof.
  intros Hi Hz Hd Henv Hh.
  destruct e as [rid fk off p fileSize|rid|rid spare|rid resp|rid e|wid inp|fk|fk id off|fk id|]; cbn [step].
  - case_match; [done|]. intros [= <-]. destruct Henv as (? & ? & ?). by apply read_begin_data.
  - by apply read_step_data.
  - by apply read_step_data.
  - intros (r & Hr & Hs')%bind_Some. destruct (rd_pc r) as [| |off end_|] eqn:Hpc; try done.
    pose proof (i_reads _ _ Hi _ _ Hr) as (_ & _ & _ & Hoff). rewrite Hpc in Hoff. destruct Hoff as [_ Hoff].
    eapply small_response_data; [done|done|by eapply i_reads|by eapply d_reads|by eapply z_reads|by eauto| |exact Hs'].
    intros body rerr ->. split; [by apply Henv|]. destruct (proj1 Hh r off end_ Hr Hpc) as [Hs _].
    by rewrite Z.add_0_r, Hoff in Hs.
  - intros (r & Hr & [= <-])%bind_Some. apply data_set_read; [done|]. by apply (d_reads _ Hd rid r).
  - intros Hs'. destruct (fetch_step_data _ _ _ _ _ Hi Hz Hd Hh Hs') as [Hg Hset].
    eapply data_fetch; [done| |done..]. eapply fetch_step_ok; [apply Hi| |exact Hs'].
    unfold fetch_step in Hs'. apply bind_Some in Hs' as (pc & Hpc & _).
    exists pc. split; [done|by apply (i_goro _ _ Hi)].
  - intros [= <-]. eapply data_ok; [exact Hi|apply CancelFile_ok|rewrite CancelFile_cache; apply Hd|done].
  - intros [= <-]. eapply data_ok; [exact Hi|apply TrackReader_ok|apply Hd|done].
  - intros [= <-]. eapply data_ok; [exact Hi|apply UntrackReader_ok|rewrite UntrackReader_cache; apply Hd|done].
  - intros [= <-]. eapply data_ok; [exact Hi|apply set_recentlyClosed_ok|apply Hd|done].
Qed.

Lemma rtc_data s s' :
  inv s -> size_inv s -> data_inv s -> rtc (next honest) s s' -> inv s' /\ size_inv s' /\ data_inv s'.
Proof.
  intros Hi Hz Hd Hr. revert Hi Hz Hd. induction Hr as [|s s1 s2 (e & now & He & Hh & Hst) _ IH]; [done|].
  intros Hi Hz Hd. apply IH; [by eapply step_inv| |by eapply step_data].
  eapply step_size; [exact Hi|done|done|apply honest_bounded; [done..|apply Hh]|exact Hst].
Qed.

Lemma started_data s : started s -> rs_good F (sr_cache s) -> data_inv s.
Proof. intros [(rc & mi & ws & om & ->) _ _] Hg. by split. Qed.

End data.
