(* ===== verification/StreamProps.v ===== *)
(** * internal/stream: the properties of the running stream reader

    For every interleaving of [ReadAt] calls, fetch goroutines, closes and cleanups:
    readers get the bytes of their file and no short reads, the budget bounds the
    running downloads, the gauge counts the registered windows, and a waiting reader
    always has a download that can move. *)
From S2P Require Import Prelude Metrics Errors Cache Semaphore Window RangeStore Stream Goroutines StreamInv StreamSize StreamData.
From Stdlib Require Import Strings.Byte.
Open Scope Z_scope.
Open Scope go_scope.

Section props.
Context {store : Type} `{MI : MapIter} `{SS : SliceSort} `{RS : RangeStore store} {RL : RangeStoreLaws store}.
Context (F : string -> Z -> byte) (L : Z).
Implicit Types (s : StreamReader store) (w : inflightWindow) (r : reader).

(** ** Lemmas *)

Lemma rtc_inv (P : event -> Z -> StreamReader store -> Prop) s0 s :
  started L s0 -> rtc (next P) s0 s -> inv L s.
Proof. intros Hs Hr. apply (reachable_inv L P). by exists s0. Qed.

Lemma honest_inv s0 s :
  started L s0 -> rs_good F (sr_cache s0) -> rtc (next (honest F)) s0 s ->
  inv L s /\ size_inv s /\ data_inv F s.
Proof.
  intros Hs Hg Hr. apply (rtc_data F L s0 s); [by apply started_inv| |by eapply started_data|done].
  apply (started_size L); [done|by eapply rs_good_wf].
Qed.

(** The goroutines that hold a budget slot. *)
Definition running (pc : fetch_pc) : bool :=
  match pc_kind pc with KHolding => true | _ => false end.

Definition running_fetches s : gset nat :=
  dom (filter (fun kv : nat * fetch_pc => running kv.2 = true) (sr_fetchers s)).

Lemma elem_of_running s wid :
  wid ∈ running_fetches s <-> exists pc, sr_fetchers s !! wid = Some pc /\ running pc = true.
Proof.
  unfold running_fetches. rewrite elem_of_dom. unfold is_Some.
  setoid_rewrite map_lookup_filter_Some. done.
Qed.

Lemma running_owns s wid : inv L s -> wid ∈ running_fetches s -> wid ∈ owners (sr_budget s).
Proof.
  intros Hi (pc & Hpc & Hr)%elem_of_running. destruct (i_goro _ _ Hi _ _ Hpc) as [Hk _].
  unfold running in Hr. destruct (pc_kind pc); try done.
  destruct (kind_holding _ _ Hk) as (th & Hth & Hp). unfold owners. rewrite elem_of_owned.
  exists th. split; [done|]. unfold owns. by rewrite Hp.
Qed.

(** A download that can move: the scheduler and the network can hand its goroutine
    an input on which it takes a step. *)
Definition can_move s (wid : nat) : Prop :=
  exists inp, forall now, is_Some (fetch_step wid inp now s).

Lemma put_some {B} fk st data prio now (c : store) (f : store -> option B) :
  rs_wf c -> 0 <= st -> st + len64 data <= max_offset ->
  (forall c', is_Some (f c')) -> is_Some (rs_putWithPriority fk st data prio now c ≫= f).
Proof.
  intros Hg Hst Hm Hf. destruct (rs_put_wf fk st data prio now c Hg Hst Hm) as (c' & -> & _). simpl. apply Hf.
Qed.

Lemma fetch_cached_some s wid w a bp cp cl now :
  inv L s -> size_inv s -> sr_windows s !! wid = Some w ->
  is_Some (fetch_prefix wid w a bp cp cl now s).
Proof.
  intros Hi Hd Hw. pose proof (i_core _ _ Hi) as Hc.
  destruct (winEnd_spec s w wid Hc Hw) as (Hend & _ & Hsub).
  destruct (c_win _ Hc _ _ Hw) as [Hst Hfs]. unfold fetch_prefix. rewrite Hsub.
  destruct (_ <=? cl).
  - unfold fetch_cached. destruct (Z.ltb_spec (winEnd s w - win_start w) 0); [lia|].
    set (n := winEnd s w - win_start w).
    assert (in_int64 (win_start w)) as Hin by (unfold in_int64, max_offset in *; lia).
    destruct (rs_copyTo _ _ _ now (sr_cache s)) as [[c b] hit] eqn:Hcopy.
    destruct (copy_zeros_len _ _ n _ _ _ _ _ (z_cache _ Hd) Hin ltac:(unfold n; lia) Hcopy) as [Hg Hlen].
    destruct (getOrCreateSession _ _) as [s1 sid] eqn:Hs1.
    apply getOrCreateSession_same in Hs1 as (Hcache & _).
    apply put_some; [by rewrite Hcache|lia|unfold n in *; lia|]. intros c'. by eexists.
  - destruct (0 <? cl); [|by eexists].
    destruct (rs_copyTo _ _ _ now (sr_cache s)) as [[c b] hit]. by eexists.
Qed.

Lemma after_stream_some s wid w a bp cp n success now :
  inv L s -> size_inv s -> sr_windows s !! wid = Some w ->
  is_Some (after_stream wid a bp cp n success now s).
Proof.
  intros Hi Hd Hw. destruct (c_win _ (i_core _ _ Hi) _ _ Hw) as [Hst Hfs].
  unfold after_stream. rewrite Hw. simpl. set (k := fun c : store => _).
  assert (forall c, is_Some (k c)) as Hk.
  { intros c. unfold k. destruct (success && negb _).
    - destruct (getOrCreateSession _ _). by eexists.
    - destruct (negb _ || _); by eexists. }
  case_bool_decide; [apply Hk|]. apply put_some; [apply Hd|lia|by apply (z_win _ Hd wid)|done].
Qed.

(** Only a goroutine asleep in the semaphore, or one that ended, cannot move. *)
Lemma can_move_spec s wid pc :
  inv L s -> size_inv s -> sr_fetchers s !! wid = Some pc -> pc <> FEnd ->
  (forall bp, pc = FQueued bp -> is_woken s wid = true) -> can_move s wid.
Proof.
  intros Hi Hd Hpc Hend Hq. unfold can_move, fetch_step.
  destruct (proj2 (c_fetch _ (i_core _ _ Hi) wid)) as [w Hw]; [by eexists|].
  rewrite Hpc, Hw. simpl. destruct pc; try done.
  - exists INone. by eexists.
  - exists INone. rewrite (Hq bp eq_refl). by eexists.
  - exists INone. by eexists.
  - exists INone. intros now. by apply fetch_cached_some.
  - exists (IResponse (Ok tt)). by eexists.
  - exists (IBody [] (Some EOF)). intros now. by eapply after_stream_some.
  - exists ITimer. by eexists.
  - exists ITimer. by eexists.
Qed.

(** While somebody is queued, some goroutine that owns a slot can move. *)
Lemma queued_can_move s wid bp :
  inv L s -> size_inv s -> 0 < L -> sr_fetchers s !! wid = Some (FQueued bp) ->
  exists wid', can_move s wid'.
Proof.
  intros Hi Hd HL Hpc. destruct (decide (is_woken s wid = true)) as [Hwk|Hwk].
  { exists wid. eapply can_move_spec; [done..|]. by intros. }
  destruct (i_goro _ _ Hi _ _ Hpc) as [Hk _]. pose proof (c_sem _ (i_core _ _ Hi)) as Hsem.
  destruct (threads (sr_budget s) !! wid) as [[ph rd]|] eqn:Hth; [|done].
  destruct ph; simpl in Hk; try done.
  2:{ destruct Hwk. unfold is_woken. rewrite Hth. done. }
  destruct rd.
  { by destruct (inv_granted _ Hsem _ _ Hth eq_refl). }
  assert (wid ∈ w_id <$> waiters (sr_budget s)) as Hq by (apply (inv_queued _ Hsem); eauto).
  assert (waiters (sr_budget s) <> []) as Hne by (intros He; rewrite He in Hq; by apply not_elem_of_nil in Hq).
  pose proof (inv_full _ Hsem Hne) as Hfull. rewrite (i_limit _ _ Hi) in Hfull.
  rewrite (inv_held _ Hsem) in Hfull.
  assert (size (owners (sr_budget s)) <> 0%nat) as Hsz by lia.
  destruct (set_choose_L (owners (sr_budget s))) as [u Hu]; [by intros He; rewrite He, size_empty in Hsz|].
  unfold owners in Hu. apply elem_of_owned in Hu as (thu & Hthu & How).
  destruct (c_threads _ (i_core _ _ Hi) u) as [wu Hwu]; [by eexists|].
  destruct (proj1 (c_fetch _ (i_core _ _ Hi) u)) as [pcu Hpcu]; [by eexists|].
  destruct (i_goro _ _ Hi _ _ Hpcu) as [Hku _]. rewrite Hthu in Hku.
  exists u. eapply can_move_spec; [done..| |].
  - intros ->. unfold kind_of in Hku. simpl in Hku. by destruct (th_phase thu).
  - intros bp' ->. unfold is_woken. rewrite Hthu. simpl.
    destruct thu as [[] rdu]; simpl in *; try done. unfold owns in How; simpl in How. subst rdu.
    by destruct (inv_granted _ Hsem _ _ Hthu eq_refl).
Qed.

(** The loop only returns at its head, with the buffer full or at the end of the file. *)
Lemma read_loop_returns rid r r' now s e :
  rs_wf (sr_cache s) -> in_int64 (rd_cur r) ->
  sr_reads (read_loop rid r now s) !! rid = Some r' -> rd_pc r' = RDone e ->
  rd_data r' = rd_data r /\
  ((rd_rem r = [] /\ rd_cur r < rd_fileSize r /\ e = None) \/ (rd_fileSize r <= rd_cur r /\ e = Some EOF)).
Proof.
  intros Hg Hin. unfold read_loop. case_bool_decide as Hempty.
  { simpl. rewrite lookup_insert_eq. intros [= <-] [= <-]. split; [done|].
    destruct (Z.leb_spec (rd_fileSize r) (rd_cur r)); [by right|by left]. }
  destruct (Z.leb_spec (rd_fileSize r) (rd_cur r)) as [Hle|Hlt].
  { simpl. rewrite lookup_insert_eq. intros [= <-] [= <-]. auto. }
  set (r1 := if _ <? _ then _ else r). assert (rd_cur r1 = rd_cur r) as Hcur by (unfold r1; by case_match).
  clearbody r1. destruct (getOrCreateSession (rd_file r1) s) as [s1 sid] eqn:Hs1.
  apply getOrCreateSession_same in Hs1 as (Hc1 & _). rewrite <- Hc1 in Hg.
  destruct (rs_copyTo _ _ _ now (sr_cache s1)) as [[c rem'] hit] eqn:Hcopy. destruct hit as [n|].
  - apply rs_copyTo_wf in Hcopy as (_ & _ & Hn); [|done|by rewrite Hcur]. specialize (Hn n eq_refl).
    simpl. rewrite lookup_insert_eq. intros [= <-]. unfold read_progress.
    destruct (Z.eqb_spec n 0); [lia|done].
  - destruct (getOrCreateWindow _ _ _ _ _) as [[s3 wid] created].
    simpl. rewrite lookup_insert_eq. by intros [= <-].
Qed.

(** A reader stopped by its window got an error of [waitForBytes]. *)
Lemma slice_buf_err spare w out e : slice_buf spare w out = WErr e -> out = WErr e.
Proof. destruct out; simpl; try done. by case_match. Qed.

(** Out of [waitForBytes] a call only returns with an error. *)
Lemma read_wake_returns rid r r' wid ws sid bp spare now s s' e :
  inv L s -> reader_ok s r -> reader_sizes r -> rd_pc r = RWait wid ws sid bp ->
  read_wake rid r wid ws sid bp spare now s = Some s' -> sr_reads s' !! rid = Some r' -> rd_pc r' = RDone e ->
  exists w e', e = Some e' /\
    waitForBytes (rd_ctx r) w (rd_cur r) (len64 (rd_rem r)) = WErr e'.
Proof.
  intros Hi Hok Hr Hpc. unfold read_wake. intros (w & Hw & Hs')%bind_Some.
  destruct (reader_window _ _ _ _ _ _ _ Hok Hpc Hw) as (Hfile & Hstart & Hws).
  pose proof Hok as (H1 & H2 & H3 & _). pose proof (rz_wait _ Hr) as Hwait. rewrite Hpc in Hwait.
  destruct (slice_buf _ _ _) eqn:Hwb; try done; injection Hs' as <-;
    simpl; rewrite lookup_insert_eq; intros [= <-].
  - intros [= <-]. exists w, e0. split; [done|]. by eapply slice_buf_err.
  - apply slice_buf_pos in Hwb; [|lia..]. unfold read_progress.
    destruct (Z.eqb_spec (len64 bs) 0); [lia|done].
Qed.

Lemma waitForBytes_err w off len e : waitForBytes None w off len = WErr e -> e <> EOF.
Proof. unfold waitForBytes. repeat case_match; try done; by intros [= <-]. Qed.

(** ** Properties *)

(** [C1] Whatever reads, downloads, seeks, retries, evictions and closes interleave, as
    long as the network answers each range request with bytes of the range that was
    requested ([network_honest]) and no window takes over a cached prefix that [CopyTo]
    does not fill ([prefix_filled]), every byte handed to a reader is the byte of its
    file at that offset; every window buffer and every cached block is a slice of its
    file too. *)
Theorem stream_serves_file_bytes s0 s :
  started L s0 -> rs_good F (sr_cache s0) -> rtc (next (honest F)) s0 s ->
  (forall rid r, sr_reads s !! rid = Some r -> slice_of F (rd_file r) (rd_off r) (rd_data r)) /\
  (forall wid w, sr_windows s !! wid = Some w ->
     slice_of F (win_file w) (win_start w) (win_buf w) /\ win_readyTo w = len64 (win_buf w)) /\
  rs_good F (sr_cache s).
Proof.
  intros Hs Hg Hr. destruct (honest_inv _ _ Hs Hg Hr) as (Hi & _ & Hd). split_and!.
  - intros rid r Hrd. apply (d_reads _ _ Hd _ _ Hrd).
  - intros wid w Hw. destruct (proj1 (c_fetch _ (i_core _ _ Hi) wid)) as [pc Hpc]; [by eexists|].
    destruct (d_win _ _ Hd _ _ _ Hw Hpc) as [[] _]. done.
  - apply Hd.
Qed.

(** [C4] The loop of [ReadAt] gives no short reads, whatever the network delivers and
    whatever the cache holds: when it returns without an error the whole buffer was
    filled, and when it returns [io.EOF] exactly the bytes up to the end of the file
    were.  This holds of every run from a fresh stream reader over a well-formed cache in
    which reads stay below [max_offset] and no body makes a window longer than that
    ([env_ok], [any_body]), for a call whose context was not cancelled (which may return
    the error of its context).  The bytes may be wrong: that they are the file's is
    [stream_serves_file_bytes].  The other way out of [ReadAt], [smallRead], may return
    less. *)
Theorem ReadAt_fills s0 s s' rid r r' spare now e :
  started L s0 -> rs_wf (sr_cache s0) -> rtc (next any_body) s0 s ->
  sr_reads s !! rid = Some r -> rd_ctx r = None ->
  read_step rid spare now s = Some s' -> sr_reads s' !! rid = Some r' -> rd_pc r' = RDone e ->
  match e with
  | None => len64 (rd_data r') = rd_len r
  | Some EOF => len64 (rd_data r') = Z.min (rd_len r) (Z.max 0 (rd_fileSize r - rd_off r))
  | Some _ => True
  end.
Proof.
  intros Hs Hg Hr Hrd Hctx Hst Hrd' Hpc'. destruct (size_reachable L _ _ Hs Hg Hr) as [Hi Hz].
  pose proof (i_reads _ _ Hi _ _ Hrd) as Hok. pose proof (z_reads _ Hz _ _ Hrd) as Hdata.
  pose proof Hdata as [Hcur Hfill Hwait]. pose proof Hok as (H1 & H2 & H3 & _).
  pose proof (len64_nonneg (rd_data r)). pose proof (len64_nonneg (rd_rem r)).
  unfold read_step in Hst. rewrite Hrd in Hst. simpl in Hst. destruct (rd_pc r) eqn:Hpc; try done.
  - injection Hst as <-.
    assert (in_int64 (rd_cur r)) as Hin by (unfold in_int64, max_offset in *; lia).
    destruct (read_loop_returns _ _ _ _ _ _ (z_cache _ Hz) Hin Hrd' Hpc')
      as [-> [(Hempty & Hlt & ->)|(Hle & ->)]].
    + assert (len64 (rd_rem r) = 0) by (by rewrite Hempty). lia.
    + destruct Hfill as (? & ? & [Hn|?]); [|lia].
      assert (len64 (rd_data r) = 0) by (by rewrite Hn). lia.
  - destruct (read_wake_returns _ _ _ _ _ _ _ _ _ _ _ _ Hi Hok Hdata Hpc Hst Hrd' Hpc') as (w & e' & -> & Hw).
    rewrite Hctx in Hw. apply waitForBytes_err in Hw. by destruct e'.
Qed.

(** [C26] At most [L] (maxGlobalWindows) downloads run at any time: the goroutines past
    [budget.acquire] and before their deferred release are owners of slots of the
    semaphore.  A goroutine that has ended holds no slot and has marked its window
    done, whichever way it ended. *)
Theorem stream_budget_bound P s :
  reachable L P s ->
  Z.of_nat (size (running_fetches s)) <= Z.max 0 L /\
  forall wid pc, sr_fetchers s !! wid = Some pc -> ended pc = true ->
    threads (sr_budget s) !! wid = None /\
    exists w, sr_windows s !! wid = Some w /\ win_done w = true.
Proof.
  intros Hr. pose proof (reachable_inv L P s Hr) as Hi. split.
  - pose proof (c_sem _ (i_core _ _ Hi)) as Hsem. pose proof (inv_limit _ Hsem) as Hl.
    rewrite (i_limit _ _ Hi), (inv_held _ Hsem) in Hl. etrans; [|exact Hl]. apply inj_le.
    apply subseteq_size. intros wid Hw. by apply running_owns.
  - intros wid pc Hpc He. destruct (i_goro _ _ Hi _ _ Hpc) as [Hk Hd]. split; [|by apply Hd].
    destruct (threads (sr_budget s) !! wid) as [[[] rd]|], pc; done.
Qed.

(** The [InflightWindows] gauge is the number of registered windows, and every
    registration leads to a window object of that file and offset with a goroutine. *)
Theorem stream_gauge_exact P s :
  reachable L P s ->
  (forall mt, sr_metrics s = Some mt -> InflightWindows mt = wrap64 (Z.of_nat (size (sr_inflight s)))) /\
  (forall ik wid, sr_inflight s !! ik = Some wid ->
     (exists w, sr_windows s !! wid = Some w /\ win_key w = ik) /\ is_Some (sr_fetchers s !! wid)).
Proof.
  intros Hr. pose proof (reachable_inv L P s Hr) as Hi. split.
  - intros mt Hmt. rewrite (i_gauge _ _ Hi mt Hmt). f_equal. lia.
  - intros ik wid Hik. destruct (c_inflight _ (i_core _ _ Hi) _ _ Hik) as (w & Hw & Hk).
    split; [by exists w|]. apply (c_fetch _ (i_core _ _ Hi)). by eexists.
Qed.

(** [C5] No deadlock in the budget, whatever the network delivers and whatever the cache
    holds: in every run from a fresh stream reader over a well-formed cache that allows
    at least one global window (reads and bodies bounded as in [ReadAt_fills]), while a
    reader waits for bytes of a window whose download is not done, some fetch goroutine
    can take a step, given a response, a chunk or a timer where it waits for one.  The
    semaphore never holds all of them asleep. *)
Theorem stream_progress s0 s rid r wid ws sid bp w :
  started L s0 -> rs_wf (sr_cache s0) -> rtc (next any_body) s0 s -> 0 < L ->
  sr_reads s !! rid = Some r -> rd_pc r = RWait wid ws sid bp ->
  sr_windows s !! wid = Some w -> win_done w = false ->
  exists wid', can_move s wid'.
Proof.
  intros Hs Hg Hr HL Hrd Hpc Hw Hdone. destruct (size_reachable L _ _ Hs Hg Hr) as [Hi Hd].
  destruct (proj1 (c_fetch _ (i_core _ _ Hi) wid)) as [pc Hpcw]; [by eexists|].
  destruct (i_goro _ _ Hi _ _ Hpcw) as [_ Hend].
  assert ((exists bp', pc = FQueued bp') \/ forall bp', pc <> FQueued bp') as [[bp' ->]|Hnq]
    by (destruct pc; eauto).
  - by eapply queued_can_move.
  - exists wid. eapply can_move_spec; [done..| |].
    + intros ->. destruct (Hend eq_refl) as (w' & Hw' & Hd'). congruence.
    + intros bp' Hq. by destruct (Hnq bp').
Qed.

End props.
