(* ===== verification/StreamRun.v ===== *)
(** * internal/stream: concrete runs

    Schedules of the stream reader over the real range cache, checked by
    computation: they witness that the properties of StreamProps.v apply, and one
    of them shows what happens when a window takes over a cached prefix that
    [CopyTo] does not fill. *)
From S2P Require Import Prelude Metrics Errors Cache Semaphore Window RangeStore CacheStore Stream Goroutines.
From S2P Require Import StreamInv StreamSize StreamData StreamProps.
From Stdlib Require Import Strings.Byte.
Open Scope Z_scope.
Open Scope go_scope.

(** ** Checking a schedule *)

Section checker.
Context {store : Type} `{MI : MapIter} `{SS : SliceSort} `{RS : RangeStore store}.
Context (F : string -> Z -> byte).
Implicit Types (s : StreamReader store) (w : inflightWindow) (r : reader).

Fixpoint slice_ofb (fk : string) (st : Z) (data : list byte) : bool :=
  match data with
  | [] => true
  | x :: data' => Byte.eqb x (F fk st) && slice_ofb fk (st + 1) data'
  end.

Definition check_answer (file : string) (fetchStart fetchEnd tr : Z) (chunk : list byte) : bool :=
  slice_ofb file (fetchStart + tr) chunk &&
  (fetchStart + tr + len64 chunk <=? (if fetchStart =? 0 then max_offset else fetchEnd + 1)).

Definition check_network (e : event) s : bool :=
  match e with
  | ERead _ _ off p fileSize =>
      (0 <=? off) && (off + len64 p <=? max_offset) && (fileSize <=? max_offset)
  | ESmall rid (Ok (body, _)) =>
      match sr_reads s !! rid with
      | Some r =>
          (len64 body <=? len64 (rd_rem r)) &&
          match rd_pc r with RSmall off end_ => check_answer (rd_file r) off end_ 0 body | _ => true end
      | None => true
      end
  | EFetch wid (IBody chunk _) =>
      (len64 chunk <=? readChunkSize) &&
      match sr_windows s !! wid, sr_fetchers s !! wid with
      | Some w, Some (FBody _ _ _ _ fs fe tr) =>
          check_answer (win_file w) fs fe tr chunk &&
          (win_start w + len64 (win_buf w) + len64 chunk <=? max_offset)
      | _, _ => true
      end
  | _ => true
  end.

Definition check_prefix (e : event) (now : Z) s : bool :=
  match e with
  | EFetch wid INone =>
      match sr_windows s !! wid, sr_fetchers s !! wid with
      | Some w, Some (FPrefix _ _ _ cl) =>
          let n := Z.min cl (winEnd s w - win_start w) in
          (cl <=? 0) ||
          bool_decide ((rs_copyTo (win_file w) (win_start w) (zeros n) now (sr_cache s)).2 = Some n)
      | _, _ => true
      end
  | _ => true
  end.

Fixpoint run_checked (prefix : bool) (es : list (event * Z)) s : option (StreamReader store) :=
  match es with
  | [] => Some s
  | (e, now) :: es' =>
      if check_network e s && (negb prefix || check_prefix e now s) then
        s' ← step e now s; run_checked prefix es' s'
      else None
  end.

Lemma slice_ofb_sound fk st data : slice_ofb fk st data = true -> slice_of F fk st data.
Proof.
  revert st. induction data as [|x data IH]; intros st; [intros _; apply slice_of_nil|].
  simpl. intros [Hx%byte_dec_bl Hd]%andb_true_iff. intros [|i] y Hy; simplify_eq/=.
  - f_equal. lia.
  - rewrite (IH _ Hd i y Hy). f_equal. lia.
Qed.

Lemma check_answer_sound fk fs fe tr chunk :
  check_answer fk fs fe tr chunk = true -> answers F fk fs fe tr chunk.
Proof. unfold check_answer. by intros [Hs%slice_ofb_sound Hb%Z.leb_le]%andb_true_iff. Qed.

Lemma check_network_sound e s :
  check_network e s = true -> env_ok e s /\ network_honest F e s /\ body_bounded e s.
Proof.
  destruct e as [rid fk off p fileSize|rid|rid spare|rid resp|rid e|wid inp|fk|fk id off|fk id|]; simpl; try done.
  - rewrite !andb_true_iff, !Z.leb_le. tauto.
  - destruct resp as [[body rerr]|]; [|done]. destruct (sr_reads s !! rid) as [r|]; [|done].
    rewrite andb_true_iff, Z.leb_le. intros [Hl Ha]. split_and!; [by intros r' [= <-]| |done].
    intros r' off end_ [= <-] Hpc. rewrite Hpc in Ha. by apply check_answer_sound.
  - destruct inp as [| | |chunk rerr]; try done. rewrite andb_true_iff, Z.leb_le. intros [Hl Hc].
    split; [done|]. split; intros w a bp cp cl fs fe tr Hw Hpc; rewrite Hw, Hpc in Hc;
      apply andb_true_iff in Hc as [Ha%check_answer_sound Hb%Z.leb_le]; done.
Qed.

Lemma check_prefix_sound e now s :
  check_prefix e now s = true ->
  match e with EFetch wid INone => prefix_filled wid now s | _ => True end.
Proof.
  destruct e; try done. destruct inp; try done. simpl. intros Hc w a bp cp cl Hw Hpc Hpos.
  rewrite Hw, Hpc in Hc. apply orb_true_iff in Hc as [?%Z.leb_le|Hc%bool_decide_eq_true]; [lia|done].
Qed.

Lemma run_checked_honest es s s' :
  run_checked true es s = Some s' -> rtc (next (honest F)) s s'.
Proof.
  revert s. induction es as [|[e now] es IH]; intros s; simpl; [intros [= ->]; constructor|].
  destruct (check_network e s) eqn:Hn; [|done]. destruct (check_prefix e now s) eqn:Hp; [|done].
  simpl. intros (s1 & Hst & Hr)%bind_Some. eapply rtc_l; [|by apply IH].
  apply check_network_sound in Hn as (He & Hh & _). apply check_prefix_sound in Hp. by exists e, now.
Qed.

Lemma run_checked_next es s s' :
  run_checked false es s = Some s' -> rtc (next (fun e _ s => network_honest F e s /\ body_bounded e s)) s s'.
Proof.
  revert s. induction es as [|[e now] es IH]; intros s; simpl; [intros [= ->]; constructor|].
  destruct (check_network e s) eqn:Hn; [|done].
  simpl. intros (s1 & Hst & Hr)%bind_Some. eapply rtc_l; [|by apply IH].
  apply check_network_sound in Hn as (He & Hh & Hb). by exists e, now.
Qed.

Lemma run_checked_network es s s' :
  run_checked false es s = Some s' -> rtc (next (fun e _ s => network_honest F e s)) s s'.
Proof.
  intros Hr%run_checked_next. eapply rtc_subrel; [|exact Hr].
  intros s1 s2 (e & now & He & [Hh _] & Hst). by exists e, now.
Qed.

Lemma run_checked_any es s s' : run_checked false es s = Some s' -> rtc (next any_body) s s'.
Proof.
  intros Hr%run_checked_next. eapply rtc_subrel; [|exact Hr].
  intros s1 s2 (e & now & He & [_ Hb] & Hst). by exists e, now.
Qed.

End checker.

(** ** A small world: eight-byte windows over files whose bytes count up *)

#[local] Existing Instance default_iter.
#[local] Existing Instance default_sort.

Definition demo_bytes (fk : string) (z : Z) : byte :=
  default x00 (Byte.of_N (Z.to_N (z mod 256))).
Definition bytes (fk : string) (a n : Z) : list byte :=
  (fun i => demo_bytes fk (a + Z.of_nat i)) <$> seq 0 (Z.to_nat n).

Definition demo_start : StreamReader RangeCache :=
  NewStreamReader (NewRangeCache 1000 (Some New)) 2 1 8 (Some New).

Definition at_time (es : list event) : list (event * Z) := (fun e => (e, 10 ^ 18)) <$> es.

(** A read of ten bytes over two windows, up to the wait for the first. *)
Definition sched_wait : list (event * Z) :=
  at_time [ERead 100 "f" 0 (bytes "g" 7 10) 20; EReader 100].

(** The first window is downloaded and the reader moves on to the second; its
    download queues behind the first one's slot and is then run. *)
Definition sched_done : list (event * Z) :=
  sched_wait ++ at_time
    [EFetch 1 INone; EFetch 1 INone; EFetch 1 INone; EFetch 1 (IResponse (Ok tt));
     EFetch 1 (IBody (bytes "f" 0 5) None); EFetch 1 (IBody (bytes "f" 5 3) (Some EOF));
     EReader 100; EReader 100;
     EFetch 2 INone; EFetch 2 INone; EFetch 2 INone; EFetch 2 (IResponse (Ok tt));
     EFetch 2 (IBody (bytes "f" 8 8) (Some EOF)); EReader 100].

Definition demo_wait : StreamReader RangeCache :=
  default demo_start (run_checked demo_bytes true sched_wait demo_start).
Definition demo_done : StreamReader RangeCache :=
  default demo_start (run_checked demo_bytes true sched_done demo_start).

Lemma demo_started : started 1 demo_start.
Proof.
  split.
  - by exists (NewRangeCache 1000 (Some New)), 2, 8, (Some New).
  - simpl. lia.
  - by intros mt [= <-].
Qed.

Lemma demo_good : rs_good demo_bytes (sr_cache demo_start).
Proof. apply NewRangeCache_good; [unfold max_offset; lia|by intros mt [= <-]]. Qed.

Lemma demo_wait_run : rtc (next (honest demo_bytes)) demo_start demo_wait.
Proof. apply (run_checked_honest demo_bytes sched_wait). vm_compute. reflexivity. Qed.

Lemma demo_wf : rs_wf (sr_cache demo_start).
Proof. apply (rs_good_wf demo_bytes), demo_good. Qed.

Lemma demo_done_run : rtc (next (honest demo_bytes)) demo_start demo_done.
Proof. apply (run_checked_honest demo_bytes sched_done). vm_compute. reflexivity. Qed.

(** A close interrupts the download of the window at 8 after five bytes, which stay
    cached.  After the file is reopened, a read far away makes the pattern random, and a
    small read of four bytes at 6 caches a block across the window's start.  The next
    download of the window finds five cached bytes at 8, but [CopyTo] meets the small
    block first and copies two of them; the response, which starts at 13, is appended
    right behind.  The last read then asks for bytes 11 and 12. *)
Definition sched_hole_read : list (event * Z) :=
  at_time
    [ERead 1 "h" 8 (bytes "h" 0 2) 10000000; EReader 1;
     EFetch 1 INone; EFetch 1 INone; EFetch 1 INone; EFetch 1 (IResponse (Ok tt));
     EFetch 1 (IBody (bytes "h" 8 5) None); ECancelFile "h"; EFetch 1 (IBody [] None); EFetch 1 ITimer;
     ERead 2 "h" 9000000 (bytes "h" 0 4) 10000000;
     ERead 3 "h" 6 (bytes "h" 0 4) 10000000; ESmall 3 (Ok (bytes "h" 6 4, None));
     ERead 4 "h" 14 (bytes "h" 0 2) 10000000; EReader 4;
     EFetch 4 INone; EFetch 4 INone; EFetch 4 INone; EFetch 4 (IResponse (Ok tt));
     EFetch 4 (IBody (bytes "h" 13 3) (Some EOF));
     ERead 5 "h" 11 (bytes "h" 0 2) 10000000; EReader 5].
Definition sched_hole : list (event * Z) := sched_hole_read ++ at_time [EReader 5].

Definition demo_hole_read : StreamReader RangeCache :=
  default demo_start (run_checked demo_bytes false sched_hole_read demo_start).
Definition demo_hole : StreamReader RangeCache :=
  default demo_start (run_checked demo_bytes false sched_hole demo_start).

(** ** Witnesses *)

(** The read of [sched_done] as it stands, and as its last step leaves it. *)
Definition demo_reader : reader :=
  MkReader "f" 0 10 20 10 (bytes "f" 0 10) [] None RLoop.

Lemma stream_serves_file_bytes_witness :
  sr_reads demo_done !! 100%nat = Some demo_reader /\
  slice_of demo_bytes "f" 0 (bytes "f" 0 10).
Proof.
  split; [vm_compute; reflexivity|].
  destruct (stream_serves_file_bytes demo_bytes 1 demo_start demo_done demo_started demo_good demo_done_run)
    as [Hr _].
  apply (Hr 100%nat demo_reader). vm_compute. reflexivity.
Defined.

Lemma demo_wait_any : rtc (next any_body) demo_start demo_wait.
Proof. apply (run_checked_any demo_bytes sched_wait). vm_compute. reflexivity. Qed.

Lemma demo_hole_any : rtc (next any_body) demo_start demo_hole_read.
Proof. apply (run_checked_any demo_bytes sched_hole_read). vm_compute. reflexivity. Qed.

(** The last read of [sched_hole] before it returns: its bytes are wrong, but it got
    as many as it asked for. *)
Definition hole_reader : reader := MkReader "h" 11 2 10000000 13 (bytes "h" 14 2) [] None RLoop.

Lemma ReadAt_fills_witness :
  read_step 5 [] (10 ^ 18) demo_hole_read = Some demo_hole /\
  rd_pc <$> sr_reads demo_hole !! 5%nat = Some (RDone None) /\ len64 (rd_data hole_reader) = 2.
Proof.
  split; [vm_compute; reflexivity|]. split; [vm_compute; reflexivity|].
  apply (ReadAt_fills 1 demo_start demo_hole_read demo_hole 5%nat hole_reader
           (read_goto (RDone None) hole_reader) [] (10 ^ 18) None demo_started demo_wf demo_hole_any);
    vm_compute; reflexivity.
Defined.

Lemma demo_done_reachable : reachable 1 any_event demo_done.
Proof.
  exists demo_start. split; [apply demo_started|].
  eapply rtc_subrel; [|apply demo_done_run]. intros s s' (e & now & He & _ & Hst). by exists e, now.
Qed.

Lemma stream_budget_bound_witness :
  Z.of_nat (size (running_fetches demo_done)) <= 1 /\
  threads (sr_budget demo_done) !! 1%nat = None.
Proof.
  destruct (stream_budget_bound 1 any_event demo_done demo_done_reachable) as [Hb He].
  split; [exact Hb|]. destruct (He 1%nat FCleanup) as [Hn _]; [vm_compute; reflexivity|reflexivity|exact Hn].
Defined.

Lemma stream_gauge_exact_witness :
  InflightWindows <$> sr_metrics demo_done = Some 3 /\
  exists w, sr_windows demo_done !! 2%nat = Some w /\ win_key w = InflightKey "f" 8.
Proof.
  split; [vm_compute; reflexivity|].
  destruct (stream_gauge_exact 1 any_event demo_done demo_done_reachable) as [_ Hk].
  apply (Hk (InflightKey "f" 8) 2%nat). vm_compute. reflexivity.
Defined.

Lemma stream_progress_witness : exists wid, can_move demo_wait wid.
Proof.
  eapply (stream_progress 1 demo_start demo_wait 100%nat _ 1%nat 0 0%nat 0
            (add_waiters 1 (new_window (InflightKey "f" 0) 20)) demo_started demo_wf demo_wait_any);
    [lia|vm_compute; reflexivity|reflexivity|vm_compute; reflexivity|reflexivity].
Defined.

(** ** A cached prefix that is not filled *)

(** [C36] A window may corrupt a file.  With a network that only ever delivers the right
    bytes, a reachable state has a completed read of bytes 11 and 12 that holds other
    bytes: a small read left a cached block across the start of a window, and the next
    download of that window trusted [CachedPrefixLen] although [CopyTo], which may take
    any block covering the offset, copied fewer bytes. *)
Theorem prefix_hole_corrupts :
  exists s r, started 1 demo_start /\ rs_good demo_bytes (sr_cache demo_start) /\
    rtc (next (fun e _ s => network_honest demo_bytes e s)) demo_start s /\
    sr_reads s !! 5%nat = Some r /\ rd_pc r = RDone None /\ rd_data r <> [] /\
    ~ slice_of demo_bytes (rd_file r) (rd_off r) (rd_data r).
Proof.
  exists demo_hole, (MkReader "h" 11 2 10000000 13 (bytes "h" 14 2) [] None (RDone None)).
  split; [apply demo_started|]. split; [apply demo_good|].
  split; [apply (run_checked_network demo_bytes sched_hole); vm_compute; reflexivity|].
  split; [vm_compute; reflexivity|]. split; [done|]. split; [done|].
  intros Hs. specialize (Hs 0%nat x0e ltac:(vm_compute; reflexivity)). vm_compute in Hs. discriminate.
Qed.

(** The hypothesis of the integrity theorem holds whenever the cache has no other
    block over the window's start: if the block that [CachedPrefixLen] measured (or a
    longer one put at its key since) is the only one that covers the offset, [CopyTo]
    fills the prefix, so only blocks that straddle a window boundary, replaced or evicted
    blocks can break it. *)
Theorem prefix_filled_when_unique (MI : MapIter) F fk st n now rc b :
  cache_good F rc -> in_int64 st -> 0 < n -> find_block rc (CacheKey fk st) = Some b -> n <= blk_size b ->
  (forall k b', find_block rc k = Some b' -> fileKey k = fk -> start k <= st < start k + blk_size b' ->
     k = CacheKey fk st) ->
  (@CopyTo MI fk st (zeros n) now rc).2 = Some n.
Proof.
  intros [[[Hwf Hacc Hu] Hb] Hco] Hst Hn Hf Hle Huniq.
  assert (len64 (zeros n) = n) as Hz by (apply zeros_len; lia).
  destruct (CopyTo fk st (zeros n) now rc) as [[rc' dst'] hit] eqn:Hc.
  apply CopyTo_spec in Hc as [_ Hr]; [|done..]. destruct hit as [m|].
  - destruct Hr as (Hm & k & b' & Hcp). pose proof (cp_block _ _ _ _ _ _ _ _ _ _ Hcp) as Hblk.
    rewrite (Huniq k b' Hblk (cp_key _ _ _ _ _ _ _ _ _ _ Hcp) (cp_in _ _ _ _ _ _ _ _ _ _ Hcp)) in Hcp.
    pose proof (cp_block _ _ _ _ _ _ _ _ _ _ Hcp). simplify_eq.
    pose proof (cp_n _ _ _ _ _ _ _ _ _ _ Hcp) as Hmn. simpl in *. f_equal. unfold len64 in *. lia.
  - destruct Hr as (_ & _ & [Hz0|Hnone]); [rewrite Hz0 in Hz; unfold len64 in Hz; simpl in Hz; lia|].
    destruct (Hnone _ _ Hf eq_refl). simpl. lia.
Qed.

Definition one_block : RangeCache :=
  default (NewRangeCache 100 None) (PutWithPriority "f" 8 (bytes "f" 8 5) PriorityHigh 1 (NewRangeCache 100 None)).

Lemma one_block_good : cache_good demo_bytes one_block.
Proof.
  apply (cache_put_good demo_bytes "f" 8 (bytes "f" 8 5) PriorityHigh 1 (NewRangeCache 100 None)).
  - by apply NewRangeCache_good; [unfold max_offset; lia|].
  - lia.
  - unfold max_offset. vm_compute. discriminate.
  - apply slice_ofb_sound. vm_compute. reflexivity.
  - vm_compute. reflexivity.
Qed.

Lemma one_block_unique k b : find_block one_block k = Some b -> k = CacheKey "f" 8.
Proof.
  intros Hf. destruct one_block_good as [[[Hwf _ _] _] _].
  assert ((shard_no k, (k, b)) ∈ range_shards 0 0 (shards one_block)) as Hin
    by (apply elem_of_range_find; [done|by split]).
  assert (range_shards 0 0 (shards one_block) =
    [(17%nat, (CacheKey "f" 8, new_block 8 (bytes "f" 8 5) 0 PriorityHigh 1))]) as Hl
    by (vm_compute; reflexivity).
  rewrite Hl in Hin. apply list_elem_of_singleton in Hin. congruence.
Qed.

Lemma prefix_filled_when_unique_witness :
  (CopyTo "f" 8 (zeros 5) 2 one_block).2 = Some 5.
Proof.
  eapply (prefix_filled_when_unique default_iter demo_bytes "f" 8 5 2 one_block
            (new_block 8 (bytes "f" 8 5) 0 PriorityHigh 1) one_block_good);
    [vm_compute; intuition discriminate|lia|vm_compute; reflexivity|vm_compute; discriminate|].
  intros k b' Hf _ _. by eapply one_block_unique.
Defined.
