(* ===== verification/StreamOps.v ===== *)
(** * internal/stream: what the methods of the stream reader do

    Closing a file, seeking, reading ahead and classifying the access pattern, each
    as a statement about one call. *)
From S2P Require Import Prelude Metrics Errors Cache Semaphore Window RangeStore CacheStore Stream Goroutines.
From S2P Require Import StreamInv StreamData StreamProps StreamRun.
From Stdlib Require Import Strings.Byte.
Open Scope Z_scope.
Open Scope go_scope.

Section ops.
Context {store : Type} `{MI : MapIter} `{SS : SliceSort} `{RS : RangeStore store} {RL : RangeStoreLaws store}.
Implicit Types (s : StreamReader store) (w : inflightWindow).

(** ** Closing a file *)

Definition cancelled_done w : inflightWindow := set_done (set_cancelled w).

(** The [Range] of [CancelFile] over a list of entries. *)
Lemma cancel_fold_spec fk l s fs rm :
  NoDup l.*1 -> (forall ik wid, (ik, wid) ∈ l -> sr_inflight s !! ik = Some wid) ->
  let s' := (foldl (cancel_entry fk) (s, fs, rm) l).1.1 in
  (forall ik, sr_inflight s' !! ik =
     if decide (ik_fileKey ik = fk /\ ik ∈ l.*1) then None else sr_inflight s !! ik) /\
  (forall wid, sr_windows s' !! wid =
     if decide (Exists (fun e => ik_fileKey e.1 = fk /\ e.2 = wid) l)
     then (fun w => cancelled_done w) <$> sr_windows s !! wid else sr_windows s !! wid) /\
  sr_sessions s' = sr_sessions s /\ sr_readers s' = sr_readers s /\
  sr_recentlyClosed s' = sr_recentlyClosed s /\ sr_sess_heap s' = sr_sess_heap s.
Proof.
  revert s fs rm. induction l as [|[ik0 wid0] l IH]; intros s fs rm Hnd Hin.
  - split_and!; try done.
    intros ik. rewrite decide_False; [done|]. by intros [_ ?%not_elem_of_nil].
  - rewrite fmap_cons in Hnd. apply NoDup_cons in Hnd as [Hn Hnd]. cbn [foldl].
    destruct (cancel_entry fk (s, fs, rm) (ik0, wid0)) as [[s1 fs1] rm1] eqn:He.
    unfold cancel_entry in He. cbn [fst snd] in He. case_bool_decide as Hfk.
    + injection He as <- <- <-.
      set (s1 := set_inflight _ _). set (fs1 := if fs <? _ then _ else fs).
      assert (forall ik wid, (ik, wid) ∈ l -> sr_inflight s1 !! ik = Some wid) as Hin1.
      { intros ik wid He. simpl. rewrite lookup_delete_ne; [apply Hin; by right|].
        intros ->. apply Hn. apply list_elem_of_fmap. by exists (ik, wid). }
      destruct (IH s1 fs1 (rm + 1) Hnd Hin1)
        as (H1 & H2 & H3 & H4 & H5 & H6). split_and!; try done.
      * intros ik. rewrite H1. simpl. destruct (decide (ik0 = ik)) as [->|Hne].
        -- rewrite lookup_delete_eq. repeat case_decide; try done; exfalso; set_solver.
        -- rewrite lookup_delete_ne by done. apply decide_ext. cbn. rewrite elem_of_cons. naive_solver.
      * intros wid. rewrite H2. simpl. rewrite !lookup_alter.
        destruct (decide (wid0 = wid)) as [->|Hne].
        -- rewrite (decide_True (P := Exists _ (_ :: l))) by (by left).
           rewrite !(decide_True (P := wid = wid)) by done.
           case_decide; destruct (sr_windows s !! wid); done.
        -- apply decide_ext. rewrite Exists_cons. naive_solver.
    + injection He as <- <- <-.
      assert (forall ik wid, (ik, wid) ∈ l -> sr_inflight s !! ik = Some wid) as Hin1
        by (intros; apply Hin; by right).
      destruct (IH s fs rm Hnd Hin1) as (H1 & H2 & H3 & H4 & H5 & H6). split_and!; try done.
      * intros ik. rewrite H1. apply decide_ext. cbn. rewrite elem_of_cons. naive_solver.
      * intros wid. rewrite H2. apply decide_ext. rewrite Exists_cons. naive_solver.
Qed.

(** [C27] Closing a file: afterwards no window is registered for it, every window that
    was is cancelled and marked done with its waiters released, its session and its
    open-handle positions are gone, and nothing of any other file has changed. *)
Theorem CancelFile_exact L P s fk now :
  reachable L P s ->
  let s' := CancelFile fk now s in
  (forall ik, sr_inflight s' !! ik = if decide (ik_fileKey ik = fk) then None else sr_inflight s !! ik) /\
  (forall wid w, sr_windows s !! wid = Some w ->
     sr_windows s' !! wid =
       Some (if decide (sr_inflight s !! win_key w = Some wid /\ win_file w = fk)
             then cancelled_done w else w)) /\
  sr_sessions s' = delete fk (sr_sessions s) /\ sr_readers s' = delete fk (sr_readers s) /\
  (forall fk', fk' <> fk -> sr_recentlyClosed s' !! fk' = sr_recentlyClosed s !! fk').
Proof.
  intros Hr. pose proof (reachable_inv L P s Hr) as Hi.
  assert (forall ik wid, (ik, wid) ∈ inflight_range s -> sr_inflight s !! ik = Some wid) as Hin
    by (intros ik wid; apply inflight_range_lookup).
  pose proof (cancel_fold_spec fk (inflight_range s) s 0 0 (NoDup_map_range 0 (sr_inflight s)) Hin)
    as (H1 & H2 & H3 & H4 & H5 & H6).
  unfold CancelFile. destruct (foldl _ _ _) as [[s1 fs0] rm]. simpl in *.
  set (s2 := if 0 <? rm then count CInflightWindows (- rm) s1 else s1).
  assert (sr_inflight s2 = sr_inflight s1 /\ sr_windows s2 = sr_windows s1 /\ sr_sessions s2 = sr_sessions s1 /\
    sr_readers s2 = sr_readers s1 /\ sr_recentlyClosed s2 = sr_recentlyClosed s1)
    as (I1 & I2 & I3 & I4 & I5) by (unfold s2; by case_match).
  clearbody s2. match goal with |- context [if ?c then set_recentlyClosed _ _ else _] => set (cond := c) end.
  clearbody cond.
  split_and!.
  - intros ik. replace (sr_inflight _) with (sr_inflight s2) by (by destruct cond).
    rewrite I1, H1. destruct (decide (ik_fileKey ik = fk)) as [Hfk|Hfk].
    + case_decide as Hd; [done|]. destruct (sr_inflight s !! ik) as [wid|] eqn:Hl; [|done].
      destruct Hd. split; [done|]. apply list_elem_of_fmap. exists (ik, wid). split; [done|].
      by apply inflight_range_lookup.
    + by rewrite decide_False by naive_solver.
  - intros wid w Hw. replace (sr_windows _) with (sr_windows s2) by (by destruct cond).
    rewrite I2, H2, Hw. simpl.
    assert (Exists (fun e => ik_fileKey e.1 = fk /\ e.2 = wid) (inflight_range s) <->
            sr_inflight s !! win_key w = Some wid /\ win_file w = fk) as Hiff.
    { rewrite Exists_exists. split.
      - intros ([ik u] & He & Hfk & Hu). simpl in *. subst u. apply inflight_range_lookup in He.
        destruct (c_inflight _ (i_core _ _ Hi) _ _ He) as (w' & Hw' & Hk). simplify_eq.
        unfold win_file. done.
      - intros [Hl Hfk]. exists (win_key w, wid). split; [by apply inflight_range_lookup|done]. }
    destruct (decide (sr_inflight s !! win_key w = Some wid /\ win_file w = fk)) as [Hd|Hd].
    + by rewrite decide_True by (by apply Hiff).
    + by rewrite decide_False by (by rewrite Hiff).
  - replace (sr_sessions _) with (sr_sessions s2) by (by destruct cond). by rewrite I3, H3.
  - replace (sr_readers _) with (sr_readers s2) by (by destruct cond). by rewrite I4, H4.
  - intros fk' Hne. destruct cond; simpl; rewrite ?lookup_insert_ne by done; by rewrite I5, H5.
Qed.

(** ** Read-ahead *)

Lemma getOrCreateWindow_absent fk ws fileSize bp s :
  sr_inflight s !! InflightKey fk ws = None ->
  getOrCreateWindow fk ws fileSize bp s = (create_window (InflightKey fk ws) fileSize bp s, sr_next s, true).
Proof. intros Hn. unfold getOrCreateWindow. by rewrite Hn. Qed.

(** Read-ahead is bounded and only serves playback: a call either registers
    nothing, or registers exactly one window, the next one of the file, and then the
    access pattern was sequential, the read had passed the middle of its window, the
    next window starts inside the file and was neither cached nor registered, and the
    file had fewer than [maxInflight] running downloads; nothing else is registered or
    removed. *)
Theorem maybeReadAhead_bounded fk endOff winStart fileSize sid bp now s :
  let nextStart := winStart +w sr_windowSize s in
  let s' := maybeReadAhead fk endOff winStart fileSize sid bp now s in
  (sr_inflight s' = sr_inflight s /\ sr_windows s' = sr_windows s) \/
  (sr_inflight s' = <[InflightKey fk nextStart := sr_next s]> (sr_inflight s) /\
   sr_windows s' = <[sr_next s := new_window (InflightKey fk nextStart) fileSize]> (sr_windows s) /\
   isSequential (session s sid) = true /\ nextStart < fileSize /\
   winStart +w Z.quot (sr_windowSize s) 2 <= endOff /\
   2 * Second <= since now (lastSeek (session s sid)) /\
   (rs_copyTo fk nextStart [x00] now (sr_cache s)).2 = None /\
   sr_inflight s !! InflightKey fk nextStart = None /\
   Z.of_nat (active_count fk s) < sr_maxInflight s).
Proof.
  cbv zeta. unfold maybeReadAhead. set (nextStart := winStart +w sr_windowSize s).
  destruct (Z.leb_spec fileSize nextStart); [by left|].
  destruct (isSequential (session s sid)) eqn:Hseq; [simpl|by left].
  destruct (Z.ltb_spec endOff (winStart +w Z.quot (sr_windowSize s) 2)); [by left|].
  destruct (Z.ltb_spec (since now (lastSeek (session s sid))) (2 * Second)); [by left|].
  destruct (rs_copyTo fk nextStart [x00] now (sr_cache s)) as [[c b] hit].
  destruct hit as [n|]; [by left|].
  change (sr_inflight (set_cache c s)) with (sr_inflight s).
  destruct (sr_inflight s !! InflightKey fk nextStart) eqn:Hn; [by left|].
  change (active_count fk (set_cache c s)) with (active_count fk s).
  change (sr_maxInflight (set_cache c s)) with (sr_maxInflight s).
  destruct (Z.leb_spec (sr_maxInflight s) (Z.of_nat (active_count fk s))); [by left|].
  rewrite getOrCreateWindow_absent by done. right. by split_and!.
Qed.

(** ** Seeking *)

Lemma cancel_windows_lookup (l : list (inflightKey * nat)) s wid :
  (forall e, e ∈ l -> e.2 <> wid) ->
  sr_windows (foldl (fun s e => cancel_window e.2 s) s l) !! wid = sr_windows s !! wid.
Proof.
  revert s. induction l as [|e l IH]; intros s Hl; [done|]. simpl.
  rewrite IH by (intros; apply Hl; by right). simpl. apply lookup_alter_ne, Hl. left.
Qed.

Lemma cancel_windows_inflight (l : list (inflightKey * nat)) s :
  sr_inflight (foldl (fun s e => cancel_window e.2 s) s l) = sr_inflight s.
Proof. revert s. induction l as [|e l IH]; intros s; [done|]. simpl. by rewrite IH. Qed.

(** [C28] Seeking is harmless to downloads and readers: [maybeCancelOnSeek] leaves
    untouched every window that is still downloading, every window a reader waits on,
    every window of another file and every window within four window sizes of the new
    offset; it registers and removes nothing. *)
Theorem maybeCancelOnSeek_harmless L P s fk off now wid w :
  reachable L P s -> sr_windows s !! wid = Some w ->
  win_done w = false \/ win_waiters w <> 0 \/ win_file w <> fk \/
    distance off (win_key w) <= wrap64 (sr_windowSize s * 4) ->
  sr_windows (maybeCancelOnSeek fk off now s) !! wid = Some w /\
  sr_inflight (maybeCancelOnSeek fk off now s) = sr_inflight s.
Proof.
  intros Hr Hw Hsafe. pose proof (reachable_inv L P s Hr) as Hi. unfold maybeCancelOnSeek.
  case_match; [done|]. destruct (getOrCreateSession fk s) as [s1 sid] eqn:Hs1.
  apply getOrCreateSession_same in Hs1 as (_ & Hw1 & _ & _ & _ & Hi1 & _).
  set (victims := List.filter _ (inflight_range s1)).
  set (s2 := foldl _ s1 victims).
  assert (sr_windows s2 !! wid = Some w /\ sr_inflight s2 = sr_inflight s) as [H2 H3].
  { unfold s2. rewrite cancel_windows_inflight, Hi1. split; [|done].
    rewrite cancel_windows_lookup; [by rewrite Hw1|]. intros [ik u] He Hu. simpl in Hu. subst u.
    apply list_elem_of_In, filter_In in He as [He Hv]. apply list_elem_of_In in He. simpl in Hv.
    rewrite Hw1, Hw in Hv. simpl in Hv. unfold inflight_range in He. rewrite Hi1 in He.
    apply elem_of_map_range in He. destruct (c_inflight _ (i_core _ _ Hi) _ _ He) as (w' & Hw' & Hk).
    simplify_eq. rewrite !andb_true_iff, bool_decide_eq_true, Z.ltb_lt, Z.eqb_eq in Hv.
    unfold win_file in Hsafe. destruct Hv as [[? ?] [? ?]].
    destruct Hsafe as [?|[?|[?|?]]]; [congruence|done|done|lia]. }
  by case_bool_decide.
Qed.

(** ** Access patterns *)

Definition read_sizes (sizes : list Z) (p : Z * fileSession) : Z * fileSession :=
  foldl (fun p n => (p.1 + n, updateAccessPattern p.1 n p.2)) p sizes.

Lemma wrap32_id z : - 2 ^ 31 <= z < 2 ^ 31 -> wrap32 z = z.
Proof. unfold wrap32. intros. rewrite Z.mod_small; lia. Qed.

Lemma sequential_step off n sess :
  0 < n -> 0 <= off -> off + n <= max_offset -> lastReadOff sess = off ->
  0 <= sequentialReads sess < 2 ^ 31 - 1 ->
  let sess' := updateAccessPattern off n sess in
  lastReadOff sess' = off + n /\ sequentialReads sess' = sequentialReads sess + 1 /\
  randomReads sess' = randomReads sess.
Proof.
  intros Hn Ho Hm Hl Hs. unfold updateAccessPattern. rewrite Hl.
  assert (off +w n = off + n) as -> by (unfold add64; apply wrap64_id; unfold in_int64, max_offset in *; lia).
  assert (off -w sequentialReadWindow = off - sequentialReadWindow) as ->
    by (unfold sub64; apply wrap64_id; unfold in_int64, max_offset, sequentialReadWindow in *; lia).
  assert (off +w sequentialReadWindow = off + sequentialReadWindow) as ->
    by (unfold add64; apply wrap64_id; unfold in_int64, max_offset, sequentialReadWindow in *; lia).
  destruct (Z.eqb_spec off 0); simpl.
  - rewrite wrap32_id by lia. done.
  - destruct (Z.leb_spec (off - sequentialReadWindow) off), (Z.leb_spec off (off + sequentialReadWindow));
      unfold sequentialReadWindow in *; try lia. simpl. rewrite wrap32_id by lia. done.
Qed.

(** Playback is recognised and scans are told apart.  A file read in adjacent
    chunks from its start stays sequential, so it always goes through the windows and
    never through [smallRead]; a jump of more than 4 MiB from the last offset makes the
    pattern random, so that the next read of at most 256 KiB goes to [smallRead]. *)
Theorem access_pattern_classified :
  (forall sizes sess' off',
     Forall (fun n => 0 < n) sizes -> sizes <> [] -> foldr Z.add 0 sizes <= max_offset ->
     Z.of_nat (length sizes) < 2 ^ 31 ->
     read_sizes sizes (0, new_session) = (off', sess') ->
     isSequential sess' = true /\ randomReads sess' = 0 /\ forall n, small_read_applies sess' n = false) /\
  (forall sess off n,
     in_int64 off -> 2 ^ 22 <= Z.abs (lastReadOff sess) <= max_offset -> 0 <= randomReads sess < 2 ^ 31 - 1 ->
     sequentialReadWindow < Z.abs (off - lastReadOff sess) -> n <= smallReadThreshold ->
     small_read_applies (updateAccessPattern off n sess) n = true).
Proof.
  split.
  - intros sizes sess' off' Hpos Hne Hsum Hlen Hrun.
    assert (forall sizes k off sess, Forall (fun n => 0 < n) sizes -> 0 <= off ->
      off + foldr Z.add 0 sizes <= max_offset -> lastReadOff sess = off ->
      0 <= sequentialReads sess -> sequentialReads sess = k ->
      k + Z.of_nat (length sizes) < 2 ^ 31 -> randomReads sess = 0 ->
      sequentialReads (read_sizes sizes (off, sess)).2 = k + Z.of_nat (length sizes) /\
      randomReads (read_sizes sizes (off, sess)).2 = 0) as Hgen.
    { clear. induction sizes as [|n sizes IH]; intros k off sess Hp Ho Hs Hl Hk0 Hk Hn Hr; [simpl; lia|].
      apply Forall_cons in Hp as [Hn0 Hp]. simpl in Hs, Hn.
      assert (0 <= foldr Z.add 0 sizes) as Hrest by (clear -Hp; induction Hp; simpl; lia).
      destruct (sequential_step off n sess) as (H1 & H2 & H3); [lia..|].
      destruct (IH (k + 1) (off + n) (updateAccessPattern off n sess)) as [H4 H5]; try lia; [done|].
      change (read_sizes (n :: sizes) (off, sess))
        with (read_sizes sizes (off + n, updateAccessPattern off n sess)).
      rewrite H4, H5. simpl length. lia. }
    destruct (Hgen sizes 0 0 new_session) as [Hs Hr]; try done; try lia.
    rewrite Hrun in Hs, Hr. simpl in Hs, Hr.
    assert (isSequential sess' = true) as Hseq.
    { unfold isSequential, sequentialReadsRequired. apply Z.leb_le. rewrite Hs.
      destruct sizes; [done|]. simpl length. lia. }
    split_and!; [done|done|]. intros n. unfold small_read_applies. rewrite Hseq. apply andb_false_r.
  - intros sess off n Hoff Hlast Hrnd Hfar Hn. unfold updateAccessPattern.
    assert (lastReadOff sess -w sequentialReadWindow = lastReadOff sess - sequentialReadWindow) as ->
      by (unfold sub64; apply wrap64_id; unfold in_int64, max_offset, sequentialReadWindow in *; lia).
    assert (lastReadOff sess +w sequentialReadWindow = lastReadOff sess + sequentialReadWindow) as ->
      by (unfold add64; apply wrap64_id; unfold in_int64, max_offset, sequentialReadWindow in *; lia).
    destruct (Z.eqb_spec (lastReadOff sess) 0); [lia|].
    destruct (Z.leb_spec (lastReadOff sess - sequentialReadWindow) off),
      (Z.leb_spec off (lastReadOff sess + sequentialReadWindow)); try lia; simpl;
      unfold small_read_applies; simpl; rewrite wrap32_id by lia;
      (destruct (Z.leb_spec n smallReadThreshold); [|lia]);
      (destruct (Z.ltb_spec 0 (randomReads sess + 1)); [|lia]); done.
Qed.

End ops.

(** ** Witnesses *)

#[local] Existing Instance default_iter.
#[local] Existing Instance default_sort.

Lemma CancelFile_exact_witness :
  sr_inflight demo_done !! InflightKey "f" 8 = Some 2%nat /\
  sr_inflight (CancelFile "f" 0 demo_done) !! InflightKey "f" 8 = None.
Proof.
  split; [vm_compute; reflexivity|].
  destruct (CancelFile_exact 1 any_event demo_done "f" 0 demo_done_reachable) as [Hi _].
  rewrite Hi. reflexivity.
Defined.

(** The read-ahead window of [demo_done] is still downloading when a read far away comes. *)
Lemma maybeCancelOnSeek_harmless_witness :
  sr_windows (maybeCancelOnSeek "f" 1000 0 demo_done) !! 3%nat =
    Some (new_window (InflightKey "f" 16) 20).
Proof.
  apply (maybeCancelOnSeek_harmless 1 any_event demo_done "f" 1000 0 3 _ demo_done_reachable);
    [vm_compute; reflexivity|by left].
Defined.

Lemma access_pattern_classified_witness :
  small_read_applies (updateAccessPattern 10000000 4096 (MkSession 0 5000000 7 0 0 0 0)) 4096 = true.
Proof.
  apply (proj2 access_pattern_classified); unfold in_int64, max_offset, sequentialReadWindow, smallReadThreshold;
    simpl; lia.
Defined.

(** The dashboard's view of [demo_done]: the window at 8 is registered, done and holds
    its eight bytes, but [snapshotFile] compares the bytes ready in the window with the
    window's offset in the file and leaves it out. *)
Lemma snapshot_drops_finished_window :
  win_readyTo <$> sr_windows demo_done !! 2%nat = Some 8 /\
  (ii_Start <$> fs_Inflight (snapshotFile "f" 0 demo_done)) ≡ₚ [0; 16].
Proof. split; [vm_compute; reflexivity|]. vm_compute. apply Permutation_swap || reflexivity. Qed.
