(* ===== verification/FuseFile.v ===== *)
(** * Open files

    The handlers of [FileNode] in [internal/fusefs/fs.go] over the stream reader:
    handles with numbers of their own, reads handed to [ReadAt], and the end of a
    handle.  A [Read] is two steps, because [ReadAt] can block: it starts the call
    [rid], and answers once that call has returned. *)
From S2P Require Import Prelude GoStrings Sql StateDB Metrics Errors Cache Semaphore Window RangeStore CacheStore Stream Goroutines.
From S2P Require Import StreamInv StreamOps StreamData StreamProps StreamRun Config FuseTree FuseHide FuseOps.
From Stdlib Require Import Strings.Byte.
Open Scope Z_scope.
Open Scope go_scope.

Definition O_RDONLY : Z := 0.
Definition O_ACCMODE : Z := 3.
Definition FOPEN_KEEP_CACHE : Z := 2.

(** A per-open handle, and the counter that numbers them. *)
Record fileHandle := MkHandle { readerID : Z }.
Record Opens := MkOpens { nextReaderID : Z }.

(** A handle with the open flags, or an errno. *)
Definition Open (flags : Z) (o : Opens) : result Z (fileHandle * Z) * Opens :=
  if negb (Z.land flags O_ACCMODE =? O_RDONLY) then (Err EACCES, o)
  else
    let id := uint64 (nextReaderID o + 1) in
    (Ok (MkHandle id, FOPEN_KEEP_CACHE), MkOpens id).

(** Refused, or without effect. *)
Definition file_Setattr : Z := EROFS.
Definition Write (data : list byte) (off : Z) : Z * Z := (0, EROFS).
Definition Allocate (off size mode : Z) : Z := EROFS.
Definition Fsync (flags : Z) : Z := 0.

Section file.
Context {store : Type} `{MI : MapIter} `{SS : SliceSort} `{RS : RangeStore store}.
Implicit Types (s : StreamReader store).

(** The call of [streamer.ReadAt] on a node's file. *)
Definition Read_call (fileKey : string) (size : Z) (rid : nat) (dest : list byte) (off now : Z) s : StreamReader store :=
  read_begin rid fileKey off dest (wrap64 size) now s.

(** What [Read] does when the call has returned [rd_data] and an error: only
    [io.EOF] is no failure, and the position is tracked under the handle. *)
Definition Read_reply (fh : option fileHandle) (rid : nat) s : option (result Z (list byte) * StreamReader store) :=
  r ← sr_reads s !! rid;
  match rd_pc r with
  | RDone err =>
      match err with
      | None | Some EOF =>
          Some (Ok (rd_data r),
                match fh with
                | Some h => if 0 <? readerID h then TrackReader (rd_file r) (readerID h) (rd_off r +w len64 (rd_data r)) s else s
                | None => s
                end)
      | Some _ => Some (Err EIO, s)
      end
  | _ => None
  end.

Definition Release (fileKey : string) (h : fileHandle) (now : Z) s : StreamReader store :=
  let s1 := UntrackReader fileKey (readerID h) s in
  if HasReaders fileKey s1 then s1 else CancelFile fileKey now s1.

(** ** Lemmas *)

Lemma UntrackReader_frame fk id s :
  let s' := UntrackReader fk id s in
  sr_inflight s' = sr_inflight s /\ sr_windows s' = sr_windows s /\ sr_reads s' = sr_reads s /\
  sr_windowSize s' = sr_windowSize s.
Proof. unfold UntrackReader. by repeat case_match. Qed.

Lemma UntrackReader_last fk id s pos :
  sr_readers s !! fk = Some pos -> dom pos ⊆ {[id]} -> HasReaders fk (UntrackReader fk id s) = false.
Proof.
  intros Hp Hsub. unfold UntrackReader, HasReaders. rewrite Hp.
  assert (delete id pos = ∅) as ->.
  { apply map_eq. intros k. rewrite lookup_empty. destruct (decide (k = id)) as [->|Hne]; [apply lookup_delete_eq|].
    rewrite lookup_delete_ne by done. apply not_elem_of_dom. set_solver. }
  rewrite map_size_empty, bool_decide_true by done. simpl. by rewrite lookup_delete_eq.
Qed.

Lemma HasReaders_none fk s : sr_readers s !! fk = None -> HasReaders fk s = false.
Proof. unfold HasReaders. by intros ->. Qed.

Lemma cancel_fold_reads fk l s fs rm :
  sr_reads (foldl (cancel_entry fk) (s, fs, rm) l).1.1 = sr_reads s.
Proof.
  revert s fs rm. induction l as [|e l IH]; intros s fs rm; [done|]. cbn [foldl].
  destruct (cancel_entry fk (s, fs, rm) e) as [[s1 fs1] rm1] eqn:He. rewrite IH.
  unfold cancel_entry in He. case_bool_decide; by injection He as <- _ _.
Qed.

(** A registered window of a closed file is cancelled and done; reads are not touched. *)
Lemma CancelFile_registered fk now s ik wid w :
  sr_inflight s !! ik = Some wid -> ik_fileKey ik = fk -> sr_windows s !! wid = Some w ->
  sr_windows (CancelFile fk now s) !! wid = Some (cancelled_done w) /\
  sr_reads (CancelFile fk now s) = sr_reads s.
Proof.
  intros Hi Hfk Hw.
  assert (forall ik wid, (ik, wid) ∈ inflight_range s -> sr_inflight s !! ik = Some wid) as Hin
    by (intros ik' wid'; apply inflight_range_lookup).
  pose proof (cancel_fold_spec fk (inflight_range s) s 0 0 (NoDup_map_range 0 (sr_inflight s)) Hin) as (_ & H2 & _).
  pose proof (cancel_fold_reads fk (inflight_range s) s 0 0) as Hr.
  unfold CancelFile. destruct (foldl _ _ _) as [[s1 fs0] rm]. cbn [fst snd] in *.
  assert (sr_windows s1 !! wid = Some (cancelled_done w)) as Hw1.
  { rewrite H2, decide_True, Hw; [done|]. apply Exists_exists. exists (ik, wid). split; [by apply inflight_range_lookup|done]. }
  cbv zeta. by split; repeat case_match.
Qed.

(** ** Properties *)

(** [C37] Releasing a handle can fail the first read of another one.  A handle is only
    tracked once a read of it has returned.  If the released handle is the only one
    tracked for the file while another handle's call waits for a window that has no
    bytes for it yet, [Release] cancels that window, the waiting call returns an
    error, and its [Read] answers EIO. *)
Theorem Release_fails_first_read fk h now s rid r wid ws sid bp w pos fh :
  sr_readers s !! fk = Some pos -> dom pos ⊆ {[readerID h]} ->
  sr_reads s !! rid = Some r -> rd_pc r = RWait wid ws sid bp -> rd_ctx r = None ->
  sr_windows s !! wid = Some w -> sr_inflight s !! win_key w = Some wid -> win_file w = fk ->
  win_readyTo w -w (rd_cur r -w win_start w) <= 0 ->
  exists s', step (EReader rid) now (Release fk h now s) = Some s' /\
    Read_reply fh rid s' = Some (Err EIO, s').
Proof.
  intros Hpos Hsub Hrd Hpc Hctx Hw Hin Hfk Hav.
  pose proof (UntrackReader_frame fk (readerID h) s) as (U1 & U2 & U3 & _).
  unfold Release. rewrite (UntrackReader_last fk (readerID h) s pos) by done.
  set (s1 := UntrackReader fk (readerID h) s) in *.
  destruct (CancelFile_registered fk now s1 (win_key w) wid w) as [Hw' Hr'];
    [by rewrite U1|done|by rewrite U2|].
  simpl. unfold read_step. rewrite Hr', U3, Hrd. simpl. rewrite Hpc. unfold read_wake. rewrite Hw'. simpl.
  unfold waitForBytes. rewrite Hctx. change (win_done (cancelled_done w)) with true. rewrite orb_true_r.
  change (win_err (cancelled_done w)) with (win_err w). unfold Read_reply.
  destruct (win_err w) as [e|].
  - eexists. split; [reflexivity|]. cbn [set_read set_reads sr_reads]. by rewrite lookup_insert_eq.
  - change (win_readyTo (cancelled_done w)) with (win_readyTo w).
    change (ik_start (win_key (cancelled_done w))) with (win_start w). rewrite (proj2 (Z.leb_le _ _)) by done.
    eexists. split; [reflexivity|]. cbn [set_read set_reads sr_reads]. by rewrite lookup_insert_eq.
Qed.

(** A handle released while another is tracked leaves everything else alone. *)
Lemma Release_keeps_others fk h now s pos :
  sr_readers s !! fk = Some pos -> (exists k, k ∈ dom pos /\ k <> readerID h) ->
  let s' := Release fk h now s in
  sr_readers s' = <[fk := delete (readerID h) pos]> (sr_readers s) /\
  sr_inflight s' = sr_inflight s /\ sr_windows s' = sr_windows s /\ sr_sessions s' = sr_sessions s.
Proof.
  intros Hp (k & Hk & Hne). unfold Release, UntrackReader. rewrite Hp. cbv zeta.
  assert (size (delete (readerID h) pos) <> 0%nat) as Hs.
  { rewrite map_size_empty_iff. intros He. apply elem_of_dom in Hk as [v Hv].
    assert (delete (readerID h) pos !! k = Some v) as Hd by (by rewrite lookup_delete_ne).
    by rewrite He, lookup_empty in Hd. }
  rewrite bool_decide_false by done. unfold HasReaders. cbn [set_readers sr_readers].
  rewrite lookup_insert_eq, bool_decide_false by done. by split_and!.
Qed.

End file.

(** ** The bytes of a read *)

Section bytes.
Context {store : Type} `{MI : MapIter} `{SS : SliceSort} `{RS : RangeStore store} {RL : RangeStoreLaws store}.
Context (F : string -> Z -> byte) (L : Z).

(** A FUSE read answers with bytes of the file, whatever else runs. *)
Lemma Read_serves_file_bytes (s s' : StreamReader store) fh rid data :
  data_inv F s -> Read_reply fh rid s = Some (Ok data, s') ->
  exists r, sr_reads s !! rid = Some r /\ slice_of F (rd_file r) (rd_off r) data.
Proof.
  intros Hd. unfold Read_reply. destruct (sr_reads s !! rid) as [r|] eqn:Hr; [|done]. simpl.
  destruct (rd_pc r) as [| | |err]; try done. intros Heq. exists r. split; [done|].
  pose proof (d_reads _ _ Hd _ _ Hr) as Hs. destruct err as [[]|]; by simplify_eq.
Qed.

End bytes.

(** ** Witness: a second handle waits for its first bytes *)

#[local] Existing Instance default_iter.
#[local] Existing Instance default_sort.

(** [demo_wait], with handle 1 tracked for the file the read waits on. *)
Definition demo_two_handles : StreamReader RangeCache := TrackReader "f" 1 0 demo_wait.

Lemma Release_fails_first_read_witness :
  exists s', step (EReader 100) 0 (Release "f" (MkHandle 1) 0 demo_two_handles) = Some s' /\
    Read_reply (Some (MkHandle 2)) 100 s' = Some (Err EIO, s').
Proof.
  eapply (Release_fails_first_read "f" (MkHandle 1) 0 demo_two_handles 100 _ 1 0 0 0
            (add_waiters 1 (new_window (InflightKey "f" 0) 20)) {[1 := 0]});
    [vm_compute; reflexivity|vm_compute; set_solver|vm_compute; reflexivity|reflexivity|reflexivity|vm_compute; reflexivity
    |vm_compute; reflexivity|reflexivity|vm_compute; discriminate].
Defined.
