(* ===== verification/Dashboard.v ===== *)
(** * The dashboard

    [internal/dashboard/dashboard.go] and [server.go]: snapshots of the streaming
    state, unhiding and deleting downloads, Basic Auth, the HTTP handlers, the mux they
    share with the handlers of the metrics server (NewServer of internal/metrics/server.go,
    main.go), and the limit on event streams.  The catalog's [Refresh] and the client's
    [DeleteDownload] are interfaces in the source and arguments here; they act on
    a state [W] and on the database.  [encoding/json], the RFC 3339 form of a time
    and the embedded static files are arguments too. *)
From S2P Require Import Prelude GoStrings Sql StateDB Metrics Http Errors Classify Cache Semaphore Window RangeStore CacheStore Stream.
Open Scope Z_scope.

(** ** Snapshots *)

Record SummaryInfo := MkSummary {
  BudgetSlotsUsed : Z; BudgetSlotsTotal : Z; CacheBytesUsed : Z; CacheBytesBudget : Z;
  sum_InflightWindows : Z; sum_CacheEntries : Z
}.

Record FileSnapshotJSON := MkFileJSON {
  fj_FileKey : string;
  FilePath : string;
  fj_FileSize : Z;
  Priority : Z;
  PriorityName : string;
  Pattern : string;
  CachedBlocks : list BlockInfo;
  Inflight : list InflightInfo;
  ReadOffsets : list Z
}.

Record ClosedFileInfoJSON := MkClosedJSON {
  cj_FileKey : string; cj_FilePath : string; cj_FileSize : Z; ClosedAt : string
}.

Record HiddenDownloadJSON := MkHiddenJSON {
  hj_DownloadKind : string;
  hj_DownloadID : string;
  hj_DownloadName : string;
  HiddenCount : Z;
  TotalCount : Z;
  TotalSize : Z;
  FullyHidden : bool
}.

Record DashboardSnapshot := MkDashSnapshot {
  Timestamp : string;
  Summary : SummaryInfo;
  Active : list FileSnapshotJSON;
  RecentlyClosed : list ClosedFileInfoJSON;
  HiddenDownloads : list HiddenDownloadJSON
}.

Section dashboard.
Context `{MI : MapIter, SS : SliceSort} {W : Type} (env : SqlEnv).
(** [time.RFC3339] *)
Context (rfc3339 : Z -> string).

(** The fields of [Dashboard], and what its interfaces act on. *)
Record Dashboard := MkDashboard {
  streamer : StreamReader RangeCache;
  stateDB : option DB;
  has_metrics : bool;
  deleter : option (string -> string -> W -> W * option go_err);
  refresher : option (W * option DB -> (W * option DB) * option go_err);
  pathCache : gmap string string;
  world : W
}.

Definition set_db (o : option DB) (d : Dashboard) : Dashboard :=
  MkDashboard (streamer d) o (has_metrics d) (deleter d) (refresher d) (pathCache d) (world d).
Definition set_pathCache (m : gmap string string) (d : Dashboard) : Dashboard :=
  MkDashboard (streamer d) (stateDB d) (has_metrics d) (deleter d) (refresher d) m (world d).
Definition set_world (w : W) (d : Dashboard) : Dashboard :=
  MkDashboard (streamer d) (stateDB d) (has_metrics d) (deleter d) (refresher d) (pathCache d) w.

Definition resolvePath (fileKey : string) (d : Dashboard) : string * Dashboard :=
  match pathCache d !! fileKey with
  | Some v => (v, d)
  | None =>
      let fallback d := (fileKey, set_pathCache (<[fileKey := fileKey]> (pathCache d)) d) in
      match stateDB d with
      | None => fallback d
      | Some db =>
          match LookupFile env fileKey db with
          | (Ok (Some rec), db') =>
              (Path rec, set_pathCache (<[fileKey := Path rec]> (pathCache d)) (set_db (Some db') d))
          | (Ok None, db') | (Err _, db') => fallback (set_db (Some db') d)
          end
      end
  end.

Definition fileSnapshotToJSON (fs : FileSnapshot) (d : Dashboard) : FileSnapshotJSON * Dashboard :=
  let priorityName := if fs_Priority fs =? PriorityHigh then "high" else "low" in
  let '(path, d') := resolvePath (fs_FileKey fs) d in
  (MkFileJSON (fs_FileKey fs) path (fs_FileSize fs) (fs_Priority fs) priorityName (fs_Pattern fs)
     (fs_CachedBlocks fs) (fs_Inflight fs) (fs_ReadOffsets fs), d').

Definition closedToJSON (cf : closedEntry) (d : Dashboard) : ClosedFileInfoJSON * Dashboard :=
  let '(path, d') := resolvePath (ce_fileKey cf) d in
  (MkClosedJSON (ce_fileKey cf) path (ce_fileSize cf) (rfc3339 (ce_closedAt cf)), d').

(** A loop that appends the result of [f] for each element. *)
Fixpoint collect {A B} (f : A -> Dashboard -> B * Dashboard) (l : list A) (d : Dashboard) : list B * Dashboard :=
  match l with
  | [] => ([], d)
  | x :: l' =>
      let '(y, d1) := f x d in
      let '(ys, d2) := collect f l' d1 in
      (y :: ys, d2)
  end.

Definition by_path (a b : FileSnapshotJSON) : bool := str_lt (FilePath a) (FilePath b).

Definition summary (d : Dashboard) : SummaryInfo :=
  let s := streamer d in
  let gauge (o : option Metrics) (f : Metrics -> Z) := if has_metrics d then from_option f 0 o else 0 in
  MkSummary (wrap32 (BudgetHolding s)) (BudgetLimit s) (Used (sr_cache s)) (Budget (sr_cache s))
    (gauge (sr_metrics s) InflightWindows) (gauge (m (sr_cache s)) CacheEntries).

Definition hiddenToJSON (h : HiddenDownload) : HiddenDownloadJSON :=
  MkHiddenJSON (hd_DownloadKind h) (hd_DownloadID h) (hd_DownloadName h) (hd_HiddenCount h)
    (hd_TotalCount h) (hd_TotalSize h) (hd_TotalCount h <=? hd_HiddenCount h).

Definition hidden_section (d : Dashboard) : list HiddenDownloadJSON * Dashboard :=
  match stateDB d with
  | None => ([], d)
  | Some db =>
      match ListHiddenDownloads env db with
      | (Err _, db') => ([], set_db (Some db') d)
      | (Ok hiddens, db') => (hiddenToJSON <$> hiddens, set_db (Some db') d)
      end
  end.

Definition Snapshot (now : Z) (d : Dashboard) : DashboardSnapshot * Dashboard :=
  let activeSnapshots := SnapshotFiles now (streamer d) in
  let closedFiles := RecentlyClosedFiles (streamer d) in
  let closedKeys : gset string := list_to_set (ce_fileKey <$> closedFiles) in
  let '(closedJSON, d1) := collect closedToJSON closedFiles d in
  let '(activeJSON, d2) :=
    collect fileSnapshotToJSON (filter (fun fs => fs_FileKey fs ∉ closedKeys) activeSnapshots) d1 in
  let '(hiddenJSON, d3) := hidden_section d2 in
  (MkDashSnapshot (rfc3339 now) (summary d) (slice_sort by_path activeJSON) closedJSON hiddenJSON, d3).

(** ** Unhiding and deleting *)

(** The refresh afterwards; its error is only logged. *)
Definition refresh (d : Dashboard) : Dashboard :=
  match refresher d with
  | None => d
  | Some f => let '((w, o), _) := f (world d, stateDB d) in set_world w (set_db o d)
  end.

Definition UnhideDownload (kind downloadID : string) (d : Dashboard) : option go_err * Dashboard :=
  match stateDB d with
  | None => (Some (Errorf "state database not available"), d)
  | Some db =>
      match StateDB.UnhideDownload env kind downloadID db with
      | (Err e, db') => (Some (Errorf "unhide download"), set_db (Some db') d)
      | (Ok _, db') => (None, refresh (set_db (Some db') d))
      end
  end.

Definition DeleteDownload (kind downloadID : string) (d : Dashboard) : option go_err * Dashboard :=
  match deleter d with
  | None => (Some (Errorf "delete not available"), d)
  | Some del =>
      match del kind downloadID (world d) with
      | (w, Some e) => (Some (Wrapf "delete download from torbox" e), set_world w d)
      | (w, None) => (None, refresh (set_world w d))
      end
  end.

(** ** The HTTP server *)

Definition validDownloadKind (kind : string) : bool :=
  bool_decide (kind ∈ ["torrent"; "usenet"; "webdl"]).

(** Open event streams at a time. *)
Definition maxSSEConns : Z := 10.

Record Server := MkServer { username : string; password : string }.

Definition AuthRequired (sv : Server) : bool :=
  bool_decide (username sv <> EmptyString) && bool_decide (password sv <> EmptyString).

Abbreviation Handler := (Request -> Dashboard -> Response * Dashboard).

Definition unauthorized : Response :=
  MkResponse StatusUnauthorized
    [("WWW-Authenticate", "Basic realm=" +:+ dquote +:+ "torbox-media-center" +:+ dquote);
     ("Content-Type", "text/plain; charset=utf-8"); ("X-Content-Type-Options", "nosniff")]
    ("Unauthorized" +:+ newline).

Definition authorized (sv : Server) (r : Request) : bool :=
  match req_BasicAuth r with
  | Some (user, pass) => bool_decide (user = username sv) && bool_decide (pass = password sv)
  | None => false
  end.

Definition basicAuth (sv : Server) (next : Handler) : Handler := fun r d =>
  if negb (AuthRequired sv) then next r d
  else if negb (authorized sv r) then (unauthorized, d)
  else next r d.

(** The static files, [json.Marshal], [json.NewDecoder(...).Decode] into the two
    fields of a request, the text of an error, and the clock. *)
Context (indexHTML styleCSS appJS : string).
Context (Marshal : DashboardSnapshot -> option string) (Marshal_hidden : list HiddenDownloadJSON -> option string).
Context (Decode : string -> option (string * string)) (Error : go_err -> string) (now : Z).
(** Of an event stream: whether the [ResponseWriter] is a [http.Flusher], the number
    of streams with this one, and when the ticker fires until the client is gone. *)
Context (is_flusher : bool) (current : Z) (ticks : list Z).

Definition not_allowed : Response := http_error "method not allowed" StatusMethodNotAllowed.

Definition handleIndex : Handler := fun r d =>
  if bool_decide (req_Method r <> "GET") then (not_allowed, d)
  else if bool_decide (req_Path r <> "/") then (http_error "404 page not found" StatusNotFound, d)
  else (http_write [("Content-Type", "text/html; charset=utf-8")] indexHTML, d).

Definition handleCSS : Handler := fun r d => (http_write [("Content-Type", "text/css; charset=utf-8")] styleCSS, d).
Definition handleJS : Handler := fun r d =>
  (http_write [("Content-Type", "application/javascript; charset=utf-8")] appJS, d).

Definition json_reply (o : option string) : Response :=
  match o with
  | None => http_error "marshal error" StatusInternalServerError
  | Some data => http_write [("Content-Type", "application/json")] data
  end.

Definition handleSnapshot : Handler := fun r d =>
  if bool_decide (req_Method r <> "GET") then (not_allowed, d)
  else let '(snap, d') := Snapshot now d in (json_reply (Marshal snap), d').

Definition handleHidden : Handler := fun r d =>
  if bool_decide (req_Method r <> "GET") then (not_allowed, d)
  else let '(snap, d') := Snapshot now d in (json_reply (Marshal_hidden (HiddenDownloads snap)), d').

(** [{"status":"ok"}] and a newline. *)
Definition status_ok : Response :=
  http_write [("Content-Type", "application/json")]
    ("{" +:+ dquote +:+ "status" +:+ dquote +:+ ":" +:+ dquote +:+ "ok" +:+ dquote +:+ "}" +:+ newline).

(** The common part of the two POST handlers, up to the call. *)
Definition post_download (act : string -> string -> Dashboard -> option go_err * Dashboard) : Handler := fun r d =>
  if bool_decide (req_Method r <> "POST") then (not_allowed, d)
  else
    match Decode (req_Body r) with
    | None => (http_error "invalid JSON" StatusBadRequest, d)
    | Some (kind, downloadID) =>
        if bool_decide (kind = EmptyString) || bool_decide (downloadID = EmptyString) then
          (http_error "download_kind and download_id are required" StatusBadRequest, d)
        else if negb (validDownloadKind kind) then
          (http_error "download_kind must be one of: torrent, usenet, webdl" StatusBadRequest, d)
        else
          match act kind downloadID d with
          | (Some e, d') => (http_error (Error e) StatusInternalServerError, d')
          | (None, d') => (status_ok, d')
          end
    end.

Definition handleUnhide : Handler := post_download UnhideDownload.
Definition handleDelete : Handler := post_download DeleteDownload.

(** What one tick pushes; nothing when the snapshot cannot be encoded. *)
Definition sse_tick (t : Z) (d : Dashboard) : string * Dashboard :=
  let '(snap, d') := Snapshot t d in
  (match Marshal snap with
   | None => EmptyString
   | Some data => "data: " +:+ data +:+ newline +:+ newline
   end, d').

Fixpoint sse_stream (ts : list Z) (d : Dashboard) : string * Dashboard :=
  match ts with
  | [] => (EmptyString, d)
  | t :: ts' =>
      let '(text, d1) := sse_tick t d in
      let '(rest, d2) := sse_stream ts' d1 in
      (text +:+ rest, d2)
  end.

(** The response after the client left; the counter itself is [Sse] below. *)
Definition handleSSE : Handler := fun r d =>
  if bool_decide (req_Method r <> "GET") then (not_allowed, d)
  else if maxSSEConns <? current then (http_error "too many SSE connections" StatusServiceUnavailable, d)
  else if negb is_flusher then (http_error "streaming not supported" StatusInternalServerError, d)
  else
    let '(body, d') := sse_stream ticks d in
    (http_write [("Content-Type", "text/event-stream"); ("Cache-Control", "no-cache");
                 ("Connection", "keep-alive"); ("Access-Control-Allow-Origin", "*")] body, d').

(** The routes the dashboard adds to the control server's mux; the pattern of the root
    takes every path that no other pattern does. *)
Definition routes (sv : Server) : Handler := fun r d =>
  let p := req_Path r in
  if bool_decide (p = "/style.css") then basicAuth sv handleCSS r d
  else if bool_decide (p = "/app.js") then basicAuth sv handleJS r d
  else if bool_decide (p = "/api/state") then basicAuth sv handleSSE r d
  else if bool_decide (p = "/api/snapshot") then basicAuth sv handleSnapshot r d
  else if bool_decide (p = "/api/hidden") then basicAuth sv handleHidden r d
  else if bool_decide (p = "/api/unhide") then basicAuth sv handleUnhide r d
  else if bool_decide (p = "/api/delete") then basicAuth sv handleDelete r d
  else basicAuth sv handleIndex r d.

(** ** The mux both servers share

    [main] registers the dashboard's routes on the mux of the metrics server, which
    already has three of its own.  [redirect] is the answer of [http.RedirectHandler],
    whose status depends on the release of Go. *)

Context (mt : Metrics) (goroutines : Z).
Context (refreshFn : option (W * option DB -> (W * option DB) * option go_err)).
Context (redirect : string -> Request -> Response).
(** [cfg.DashboardEnabled] *)
Context (enabled : bool).

(** [net/http]'s [cleanPath]: [path.Clean], with a trailing slash kept. *)
Definition cleanPath (p : string) : string :=
  if bool_decide (p = EmptyString) then "/" else
  let p := if String.prefix "/" p then p else "/" +:+ p in
  let np := path_Clean p in
  if HasSuffix p "/" && bool_decide (np <> "/") then np +:+ "/" else np.

Inductive target := ToMetrics | ToHealthz | ToRefresh | ToDashboard | ToNotFound | ToRedirect (location : string).

#[export] Instance target_eq_dec : EqDecision target.
Proof. solve_decision. Defined.

(** The pattern that matches a path. *)
Definition match_path (p : string) : target :=
  if bool_decide (p = "/metrics") then ToMetrics
  else if bool_decide (p = "/healthz") then ToHealthz
  else if bool_decide (p = "/refresh") then ToRefresh
  else if enabled then ToDashboard else ToNotFound.

(** [ServeMux] redirects a path that is not clean, except for [CONNECT] requests, which
    are only redirected from the empty path to the pattern of the root.  Paths are without
    percent escapes. *)
Definition route (r : Request) : target :=
  let p := req_Path r in
  if bool_decide (req_Method r = "CONNECT") then
    if bool_decide (p = EmptyString) && enabled then ToRedirect "/" else match_path p
  else if bool_decide (cleanPath p = p) then match_path p else ToRedirect (cleanPath p).

(** [cat.Refresh] on the state the dashboard's interfaces share. *)
Definition refresh_world (f : W * option DB -> (W * option DB) * option go_err) (d : Dashboard)
  : Dashboard * option string :=
  let '((w, o), err) := f (world d, stateDB d) in (set_world w (set_db o d), Error <$> err).

(** A request to the process.  No response is a handler that panicked, after which
    [net/http] closes the connection. *)
Definition serve (sv : Server) (r : Request) (d : Dashboard) : option Response * Dashboard :=
  match route r with
  | ToMetrics => (handleMetrics goroutines mt r, d)
  | ToHealthz => (Some (handleHealthz r), d)
  | ToRefresh => let '(d', resp) := handleRefresh (refresh_world <$> refreshFn) d r in (Some resp, d')
  | ToDashboard => let '(resp, d') := routes sv r d in (Some resp, d')
  | ToNotFound => (Some (http_error "404 page not found" StatusNotFound), d)
  | ToRedirect location => (Some (redirect location r), d)
  end.

(** ** What the handlers leave alone *)

Definition db_tables (d : Dashboard) : option Tables := (fun db => tables (conn db)) <$> stateDB d.

(** Everything but the path cache and the statements run. *)
Definition untouched (d d' : Dashboard) : Prop :=
  streamer d' = streamer d /\ world d' = world d /\ db_tables d' = db_tables d /\
  deleter d' = deleter d /\ refresher d' = refresher d /\ has_metrics d' = has_metrics d.

#[export] Instance untouched_refl : Reflexive untouched.
Proof. by intros d. Qed.
#[export] Instance untouched_trans : Transitive untouched.
Proof. intros d1 d2 d3 (? & ? & ? & ? & ? & ?) (? & ? & ? & ? & ? & ?). split_and!; congruence. Qed.

Lemma LookupFile_frame k db : tables (conn (LookupFile env k db).2) = tables (conn db).
Proof.
  unfold LookupFile. destruct (send_cases env "lookup file for" [k] (select_file k) db) as [(e & -> & _)|(o & t & -> & Hs)]; [done|].
  unfold select_file in Hs. by simplify_eq/=.
Qed.

Lemma ListHiddenDownloads_frame db : tables (conn (ListHiddenDownloads env db).2) = tables (conn db).
Proof.
  unfold ListHiddenDownloads, bindM.
  destruct (send_cases env "list hidden downloads" [] select_hidden_downloads db) as [(e & -> & _)|(rows & t & -> & Hs)]; [done|].
  unfold select_hidden_downloads in Hs. cbv zeta in Hs. destruct (existsb _ _); simplify_eq/=.
  match goal with |- context [send env ?w ?a control ?d] =>
    destruct (send_cases env w a control d) as [(e & -> & _)|([] & t & -> & Hs)] end; [done|].
  unfold control in Hs. by simplify_eq/=.
Qed.

Lemma resolvePath_untouched k d : untouched d (resolvePath k d).2.
Proof.
  unfold resolvePath. destruct (pathCache d !! k); [done|]. destruct (stateDB d) as [db|] eqn:Hdb; [|done].
  pose proof (LookupFile_frame k db) as Hf. destruct (LookupFile env k db) as [[[rec|]|e] db'];
    unfold untouched, db_tables; cbn in *; rewrite Hdb; simpl; by rewrite Hf.
Qed.

Lemma collect_untouched {A B} (f : A -> Dashboard -> B * Dashboard) l d :
  (forall x d, untouched d (f x d).2) -> untouched d (collect f l d).2.
Proof.
  intros Hf. revert d. induction l as [|x l IH]; intros d; [done|]. cbn [collect].
  pose proof (Hf x d) as H1. destruct (f x d) as [y d1]. pose proof (IH d1) as H2.
  destruct (collect f l d1) as [ys d2]. by transitivity d1.
Qed.

Lemma Snapshot_untouched t d : untouched d (Snapshot t d).2.
Proof.
  unfold Snapshot.
  match goal with |- context [collect closedToJSON ?l d] => pose proof (collect_untouched closedToJSON l d) as H1;
    destruct (collect closedToJSON l d) as [closedJSON d1] end.
  match goal with |- context [collect fileSnapshotToJSON ?l d1] => pose proof (collect_untouched fileSnapshotToJSON l d1) as H2;
    destruct (collect fileSnapshotToJSON l d1) as [activeJSON d2] end.
  assert (untouched d2 (hidden_section d2).2) as H3.
  { unfold hidden_section. destruct (stateDB d2) as [db|] eqn:Hdb; [|done].
    pose proof (ListHiddenDownloads_frame db) as Hf. destruct (ListHiddenDownloads env db) as [[hs|e] db'];
      unfold untouched, db_tables; cbn in *; rewrite Hdb; simpl; by rewrite Hf. }
  destruct (hidden_section d2) as [hiddenJSON d3]. cbn [snd] in *.
  assert (forall k d, untouched d (closedToJSON k d).2) as Hc.
  { intros k d0. unfold closedToJSON. pose proof (resolvePath_untouched (ce_fileKey k) d0). by destruct (resolvePath _ d0). }
  assert (forall k d, untouched d (fileSnapshotToJSON k d).2) as Hs.
  { intros k d0. unfold fileSnapshotToJSON. pose proof (resolvePath_untouched (fs_FileKey k) d0). by destruct (resolvePath _ d0). }
  transitivity d1; [by apply H1|]. transitivity d2; [by apply H2|done].
Qed.

(** A request that may act: authorized if that is required, a POST to one of the two
    routes, a body with a valid kind and an id. *)
Record acting (sv : Server) (r : Request) (kind downloadID : string) : Prop := {
  ac_auth : AuthRequired sv = true -> authorized sv r = true;
  ac_method : req_Method r = "POST";
  ac_body : Decode (req_Body r) = Some (kind, downloadID);
  ac_kind : validDownloadKind kind = true;
  ac_id : downloadID <> EmptyString
}.

Lemma post_download_cases act sv r d :
  (AuthRequired sv = true -> authorized sv r = true) ->
  (resp_status (post_download act r d).1 <> StatusUnauthorized) /\
  ((post_download act r d).2 = d \/
   exists kind downloadID, acting sv r kind downloadID /\ (post_download act r d).2 = (act kind downloadID d).2).
Proof.
  intros Ha. unfold post_download. case_bool_decide as Hm; [by split; [|left]|].
  destruct (Decode (req_Body r)) as [[kind id]|] eqn:Hd; [|by split; [|left]].
  destruct (bool_decide (kind = EmptyString) || bool_decide (id = EmptyString)) eqn:He; [by split; [|left]|].
  destruct (validDownloadKind kind) eqn:Hk; [|by split; [|left]]. cbn [negb].
  apply orb_false_iff in He as [_ He]. apply bool_decide_eq_false in He.
  destruct (act kind id d) as [[e|] d'] eqn:Hact; (split; [done|]); right; exists kind, id; rewrite Hact; by split.
Qed.

Lemma basicAuth_cases sv next r d :
  (basicAuth sv next r d = (unauthorized, d) /\ AuthRequired sv = true /\ authorized sv r = false) \/
  (basicAuth sv next r d = next r d /\ (AuthRequired sv = true -> authorized sv r = true)).
Proof.
  unfold basicAuth. destruct (AuthRequired sv); [|by right]. simpl.
  destruct (authorized sv r); [by right|by left].
Qed.

Lemma sse_stream_untouched ts d : untouched d (sse_stream ts d).2.
Proof.
  revert d. induction ts as [|t ts IH]; intros d; [done|]. cbn [sse_stream]. unfold sse_tick.
  pose proof (Snapshot_untouched t d) as Hs. destruct (Snapshot t d) as [snap d1]. specialize (IH d1).
  destruct (sse_stream ts d1) as [rest d2]. by etransitivity.
Qed.

(** ** Properties *)

(** The dashboard's routes. *)
Lemma routes_cases sv r d :
  let '(resp, d') := routes sv r d in
  if AuthRequired sv && negb (authorized sv r) then resp = unauthorized /\ d' = d
  else
    untouched d d' \/
    exists kind downloadID, acting sv r kind downloadID /\
      ((req_Path r = "/api/unhide" /\ d' = (UnhideDownload kind downloadID d).2) \/
       (req_Path r = "/api/delete" /\ d' = (DeleteDownload kind downloadID d).2)).
Proof.
  set (acts := fun d' => exists kind downloadID, acting sv r kind downloadID /\
      ((req_Path r = "/api/unhide" /\ d' = (UnhideDownload kind downloadID d).2) \/
       (req_Path r = "/api/delete" /\ d' = (DeleteDownload kind downloadID d).2))).
  assert (forall h : Handler,
    ((AuthRequired sv = true -> authorized sv r = true) -> untouched d (h r d).2 \/ acts (h r d).2) ->
    let '(resp, d') := basicAuth sv h r d in
    if AuthRequired sv && negb (authorized sv r) then resp = unauthorized /\ d' = d
    else untouched d d' \/ acts d') as Hauth.
  { intros h Hh. destruct (basicAuth_cases sv h r d) as [(-> & -> & ->)|(-> & Ha)]; [done|].
    assert (AuthRequired sv && negb (authorized sv r) = false) as ->
      by (destruct (AuthRequired sv); [by rewrite Ha|done]).
    specialize (Hh Ha). by destruct (h r d). }
  assert (untouched d (handleSnapshot r d).2 /\ untouched d (handleHidden r d).2 /\ untouched d (handleSSE r d).2)
    as (Hsnap & Hhid & Hsse).
  { unfold handleSnapshot, handleHidden, handleSSE. pose proof (Snapshot_untouched now d) as Hs.
    pose proof (sse_stream_untouched ticks d) as Ht. case_bool_decide; [done|]. destruct (Snapshot now d).
    split_and!; [done..|]. destruct (maxSSEConns <? current), (negb is_flusher); try done. by destruct (sse_stream ticks d). }
  unfold routes. repeat (case_bool_decide; [apply Hauth; intros Ha; try by left|]).
  - destruct (post_download_cases UnhideDownload sv r d Ha) as [_ [E|(kind & id & Hac & E)]].
    + left. unfold handleUnhide. by rewrite E.
    + right. exists kind, id. split; [done|]. by left.
  - destruct (post_download_cases DeleteDownload sv r d Ha) as [_ [E|(kind & id & Hac & E)]].
    + left. unfold handleDelete. by rewrite E.
    + right. exists kind, id. split; [done|]. by right.
  - apply Hauth. intros _. left. unfold handleIndex. by repeat case_bool_decide.
Qed.

(** [C33] What a request to the process may change, by the route the mux finds for it.
    Requests to /metrics and /healthz, unknown paths without a dashboard, and redirects
    of unclean paths change nothing, and need no credentials.  Nor does POST /refresh,
    which runs exactly the catalog's refresh; any other method there changes nothing.
    Every other path is the dashboard's: without the credentials, when they are
    configured, it is answered 401 and nothing at all changes; with them the stored
    tables, the outside (deletions, refreshes) and the stream reader only change through
    a POST to /api/unhide or /api/delete that names a valid kind and an id, and then by
    exactly that operation. *)
Theorem routes_guarded sv r d :
  let '(resp, d') := serve sv r d in
  match route r with
  | ToMetrics | ToHealthz | ToNotFound | ToRedirect _ => d' = d
  | ToRefresh =>
      if bool_decide (req_Method r = "POST") then d' = from_option (fun f => (refresh_world f d).1) d refreshFn
      else d' = d
  | ToDashboard =>
      if AuthRequired sv && negb (authorized sv r) then resp = Some unauthorized /\ d' = d
      else
        untouched d d' \/
        exists kind downloadID, acting sv r kind downloadID /\
          ((req_Path r = "/api/unhide" /\ d' = (UnhideDownload kind downloadID d).2) \/
           (req_Path r = "/api/delete" /\ d' = (DeleteDownload kind downloadID d).2))
  end.
Proof.
  unfold serve. destruct (route r); try done.
  - unfold handleRefresh. destruct (decide (req_Method r = "POST")) as [Hm|Hm].
    + rewrite (bool_decide_true (req_Method r = "POST")), bool_decide_false by tauto.
      destruct refreshFn as [f|]; [|done]. simpl. destruct (refresh_world f d) as [d' [err|]]; [|done].
      by case_bool_decide.
    + by rewrite (bool_decide_false (req_Method r = "POST")), bool_decide_true.
  - pose proof (routes_cases sv r d) as Hc. destruct (routes sv r d) as [resp d'].
    destruct (AuthRequired sv && negb (authorized sv r)); [|done]. by destruct Hc as [-> ->].
Qed.

End dashboard.
Arguments Dashboard W : clear implicits.

(** Only the clean path reaches a handler, the others are redirected to it. *)
Example cleanPath_example :
  cleanPath "/refresh" = "/refresh" /\ cleanPath "//refresh" = "/refresh" /\
  cleanPath "/api/../healthz/" = "/healthz/" /\ cleanPath "" = "/".
Proof. by vm_compute. Qed.

(** A request without credentials runs the refresh, and only with POST. *)
Example refresh_open_example enabled :
  route enabled (MkRequest "POST" "/refresh" None EmptyString) = ToRefresh /\
  route enabled (MkRequest "GET" "/./refresh" None EmptyString) = ToRedirect "/refresh" /\
  route true (MkRequest "POST" "/api/delete" None EmptyString) = ToDashboard.
Proof. destruct enabled; by vm_compute. Qed.

(** ** Event streams

    Each connection runs its own goroutine: it adds itself to the counter and, above
    the limit, takes itself off again and answers 503 ([handleSSE]); otherwise it pushes
    snapshots until the client disconnects.  One step is one access to the counter. *)
Module Sse.

Inductive phase := Streaming | Rejected.

#[export] Instance phase_eq_dec : EqDecision phase.
Proof. solve_decision. Defined.

Record state := MkSse { sseConns : Z; conns : gmap nat phase }.

Definition start : state := MkSse 0 ∅.

Inductive event := Connect (c : nat) | Leave (c : nat).

(** [Connect]: the first [Add] and the comparison.  [Leave]: the [Add(-1)], deferred
    or before the 503.  A server has fewer than [2^31] connections. *)
Definition step (e : event) (s : state) : option state :=
  match e with
  | Connect c =>
      match conns s !! c with
      | Some _ => None
      | None =>
          if 2 ^ 31 - 1 <=? Z.of_nat (size (conns s)) then None
          else
            let current := wrap32 (sseConns s + 1) in
            Some (MkSse current (<[c := if maxSSEConns <? current then Rejected else Streaming]> (conns s)))
      end
  | Leave c =>
      match conns s !! c with
      | None => None
      | Some _ => Some (MkSse (wrap32 (sseConns s - 1)) (delete c (conns s)))
      end
  end.

Inductive reachable : state -> Prop :=
| reach_start : reachable start
| reach_step e s s' : reachable s -> step e s = Some s' -> reachable s'.

Definition streaming (s : state) : gmap nat phase := filter (fun kv => kv.2 = Streaming) (conns s).

End Sse.

Module SseProps.
Import Sse.

(** The counter is the number of connections; the streaming ones were admitted when
    they were at most ten with themselves. *)
Lemma reachable_counter s : reachable s ->
  sseConns s = Z.of_nat (size (conns s)) /\ sseConns s < 2 ^ 31 /\ Z.of_nat (size (streaming s)) <= maxSSEConns.
Proof.
  induction 1 as [|e s s' _ (IH1 & IH2 & IH3) Hst]; [done|].
  destruct e as [c|c]; simpl in Hst; destruct (conns s !! c) as [ph|] eqn:Hc; try done.
  - destruct (Z.leb_spec (2 ^ 31 - 1) (Z.of_nat (size (conns s)))); [done|]. injection Hst as <-. unfold streaming; simpl.
    rewrite IH1, map_size_insert_None by done. unfold wrap32. rewrite Z.mod_small by lia.
    split; [lia|]. split; [lia|].
    pose proof (map_size_filter (fun kv : nat * phase => kv.2 = Streaming) (conns s)) as Hle.
    destruct (Z.ltb_spec maxSSEConns (Z.of_nat (size (conns s)) + 1 + 2 ^ 31 - 2 ^ 31)).
    + rewrite map_filter_insert_False by done. rewrite delete_id by done. exact IH3.
    + rewrite map_filter_insert_True by done. rewrite map_size_insert_None; [unfold streaming in *; lia|].
      apply map_lookup_filter_None. by left.
  - injection Hst as <-. unfold streaming; simpl.
    rewrite map_size_delete_Some by eauto.
    assert (size (conns s) <> 0%nat) by (intros H0; apply map_size_empty_inv in H0; by rewrite H0, lookup_empty in Hc).
    unfold wrap32. rewrite IH1, Z.mod_small by lia. split; [lia|]. split; [lia|].
    rewrite map_filter_delete. etransitivity; [|exact IH3]. unfold streaming.
    apply inj_le, map_subseteq_size, delete_subseteq.
Qed.

End SseProps.
