(* ===== verification/Main.v ===== *)
(** * The program

    [cmd/torbox-media-center/main.go]: how the components are wired, and what
    happens to the catalog, the database and the mount afterwards.  A [System] is
    the catalog with its database and, as the state of its [onRefresh] callback,
    the mounted inode tree; the stream reader and the dashboard's path cache go
    along.  An [event] is one whole operation: a refresh (from the background
    goroutine, the ticker or POST /refresh), a request of the kernel, a request of
    the dashboard, or a restart.  The answers of the API during an event are part
    of it.  The mount is in place before the first refresh ends; logging, signals,
    the timer and the listener are left out. *)
From Stdlib Require Import Ascii.
From S2P Require Import Prelude GoStrings Metrics Sql StateDB Errors Regexp Classify Cache Semaphore Window Tree TreeDB Catalog.
From S2P Require Import Torbox Config FuseTree FuseOps RangeStore CacheStore CDN Stream Dashboard.
Open Scope Z_scope.

(** ** Start *)

(** [int64(mb) * 1024 * 1024] *)
Definition megabytes (mb : Z) : Z := wrap64 (wrap64 (wrap64 mb * 1024) * 1024).

(** The [slog.Level] of a configured level. *)
Definition setupLogger (level : string) : Z :=
  if bool_decide (level = "debug") then -4
  else if bool_decide (level = "info") then 0
  else if bool_decide (level = "warn") then 4
  else if bool_decide (level = "error") then 8
  else default 0 (Atoi level).

Section main.
Context `{MI : MapIter, SS : SliceSort} (env : SqlEnv) (cfg : Config).

(** The root's children and what the kernel was notified of. *)
Abbreviation Root := (gmap string Inode * gset notifyEntry)%type.

(** [cat.SetOnRefresh(func() { root.SyncTree(...) })]; the walk does not run out of
    fuel. *)
Definition sync_mount (t : Tree) (st : Root * DB) : Root * DB :=
  let '((root, notes), db) := st in
  match SyncTree env cfg t (root, db) with
  | Some (root', db', notes') => ((root', notes' ∪ notes), db')
  | None => st
  end.

Definition new_cdn : CDNClient :=
  NewCDNClient (StreamConcurrency cfg) (Some Metrics.New) (wrap64 (CDNURLCacheTTLSec cfg * Second)).

Definition new_streamer : StreamReader RangeCache :=
  NewStreamReader (NewRangeCache (megabytes (CacheBudgetMB cfg)) (Some Metrics.New))
    (StreamMaxInflight cfg) (StreamMaxGlobalWindows cfg) (megabytes (PrefetchWindowMB cfg)) (Some Metrics.New).

Record System := MkSystem {
  sys_cat : Catalog Root;
  sys_streamer : StreamReader RangeCache;
  sys_pathCache : gmap string string
}.

Definition set_cat (c : Catalog Root) (s : System) : System :=
  MkSystem c (sys_streamer s) (sys_pathCache s).

Definition mount_of (c : Catalog Root) : Mount := MkMount (cb_state c).1 (Catalog.stateDB c) (cb_state c).2.

Definition set_mount (m : Mount) (c : Catalog Root) : Catalog Root :=
  MkCatalog (client c) (mt_db m) (metrics c) (allDirEnabled c) (tree c) (refreshing c) (onRefresh c)
            (mt_root m, mt_notified m).

Definition set_client (cl : string -> result string (list Download)) (c : Catalog Root) : Catalog Root :=
  MkCatalog (Some cl) (Catalog.stateDB c) (metrics c) (allDirEnabled c) (tree c) (refreshing c) (onRefresh c) (cb_state c).

Definition unreachable_api (kind : string) : result string (list Download) := Err "request failed".

(** The start of the process with an open database: the catalog is loaded from it (an
    error is only logged), then the mount builds its inodes. *)
Definition start (db : DB) : option System :=
  let cat := NewCatalog unreachable_api db Metrics.New (AllDirEnabled cfg) (∅, ∅) in
  '(_, cat) ← LoadFromDB env cat;
  let cat := SetOnRefresh sync_mount cat in
  '(root, db) ← OnAdd env cfg (tree cat) (∅, Catalog.stateDB cat);
  Some (MkSystem (set_mount (MkMount root db ∅) cat) new_streamer ∅).

(** With the file it is in; a database that does not open ends the process. *)
Definition boot (disk : option Tables) (n : nat) : option System :=
  match Open env disk n with
  | (Ok db, _) => start db
  | (Err _, _) => None
  end.

(** ** Events *)

Abbreviation API := (string -> result string (list Download)).

Inductive event :=
| ERefresh (api : API)
| EUnlink (dir : list string) (name : string)
| ERmdir (dir : list string) (name : string)
| EUnhide (kind downloadID : string) (api : API)
| EDelete (kind downloadID : string) (answer : option go_err) (api : API)
| ERestart.

(** [cat.Refresh] as the dashboard's [Refresher]. *)
Definition refresher_of (st : Catalog Root * option DB) : (Catalog Root * option DB) * option go_err :=
  match st with
  | (c, None) => (st, None)
  | (c, Some db) =>
      match Refresh env (Catalog.set_db db c) with
      | None => (st, None)
      | Some (Ok _, c') => ((c', Some (Catalog.stateDB c')), None)
      | Some (Err _, c') => ((c', Some (Catalog.stateDB c')), Some (Errorf "refresh"))
      end
  end.

(** [dashboard.New(streamer, rc, stateDB, m, tbClient, cat)] *)
Definition dashboard_of (answer : option go_err) (api : API) (s : System) : Dashboard (Catalog Root) :=
  MkDashboard (sys_streamer s) (Some (Catalog.stateDB (sys_cat s))) true
    (Some (fun _ _ c => (c, answer))) (Some refresher_of) (sys_pathCache s) (set_client api (sys_cat s)).

Definition of_dashboard (d : Dashboard (Catalog Root)) : System :=
  let c := world d in
  MkSystem (match Dashboard.stateDB d with Some db => Catalog.set_db db c | None => c end)
           (streamer d) (pathCache d).

Definition step (e : event) (s : System) : option System :=
  match e with
  | ERefresh api => '(_, c) ← Refresh env (set_client api (sys_cat s)); Some (set_cat c s)
  | EUnlink dir name =>
      let '(_, m) := Unlink env cfg dir name (mount_of (sys_cat s)) in Some (set_cat (set_mount m (sys_cat s)) s)
  | ERmdir dir name =>
      '(_, m) ← Rmdir env cfg dir name (mount_of (sys_cat s)); Some (set_cat (set_mount m (sys_cat s)) s)
  | EUnhide kind downloadID api =>
      Some (of_dashboard (Dashboard.UnhideDownload env kind downloadID (dashboard_of None api s)).2)
  | EDelete kind downloadID answer api =>
      Some (of_dashboard (Dashboard.DeleteDownload kind downloadID (dashboard_of answer api s)).2)
  | ERestart => let db := Catalog.stateDB (sys_cat s) in boot (Some (tables (conn db))) (tick (conn db))
  end.

Inductive reachable : System -> Prop :=
| reach_boot s n : boot None n = Some s -> reachable s
| reach_step e s s' : reachable s -> step e s = Some s' -> reachable s'.

Fixpoint run (es : list event) (s : System) : option System :=
  match es with
  | [] => Some s
  | e :: es' => s' ← step e s; run es' s'
  end.

End main.
