(* ===== verification/MainProps.v ===== *)
(** * What the program keeps true

    Properties of the whole: no event, run as a whole, ever leaves a hidden file in the
    mount; a refresh makes the mount the visible library; and a removal inside a refresh
    is undone by it. *)
From Stdlib Require Import Ascii.
From S2P Require Import Prelude GoStrings Metrics Sql StateDB Errors Regexp Classify Cache Semaphore Window Tree TreeProps TreeDB TreeView Catalog CatalogProps.
From S2P Require Import Torbox Config FuseTree FuseTreeProps FuseHide FuseOps FuseShow FuseCatalog RangeStore CacheStore CDN Stream Dashboard Main.
Open Scope Z_scope.

Abbreviation Root := (gmap string Inode * gset notifyEntry)%type.
Abbreviation cat_tables c := (tables (conn (Catalog.stateDB c))).

(** ** The records of a walk *)

Definition stored_rooted (t : Tables) : Prop :=
  map_Forall (fun _ r => is_rooted (Path (fr_record r)) = true) (files t).

Lemma clean_rooted p x : clean_path p -> is_rooted (p +:+ x) = true.
Proof.
  intros (l & _ & ->). unfold render. apply is_rooted_slash.
Qed.

Lemma walk_rooted `{MI : MapIter} env t db :
  (forall p, p ∈ dom t -> clean_path p) ->
  Forall (fun r => is_rooted (Path r) = true) (walk env t db).1.
Proof.
  intros Hc. rewrite walk_flat.
  assert (forall p e, (p, e) ∈ flat t -> clean_path p) as Hp.
  { intros p e Hin. unfold flat in Hin. apply list_elem_of_bind in Hin as ([q es] & Hin & Hq).
    apply list_elem_of_fmap in Hin as (e' & [= -> ->] & _). apply elem_of_map_range in Hq. apply Hc, elem_of_dom. eauto. }
  assert (Forall (fun r => is_rooted (Path r) = true) (@nil FileRecord, db).1) as Hst by constructor.
  revert Hst. generalize (@nil FileRecord, db). induction (flat t) as [|[p e] l IH]; intros st Hst; [done|].
  cbn [foldl]. apply IH; [intros q e' Hin; apply (Hp q e'); by right|].
  unfold walk_pe, walk_entry. cbn [fst snd]. destruct (EntryFile e) as [f|]; [|done]. destruct (HasPrefix p "/all/"); [done|].
  destruct st as [acc db0]. destruct (AssignInode _ _ _ _) as [[i|er] db']; [|done]. cbn [fst] in *.
  apply Forall_app. split; [done|]. repeat constructor. cbn. apply clean_rooted, (Hp p e). by left.
Qed.

Lemma last_record_in fs k r : last_record fs k = Some r -> r ∈ fs.
Proof.
  unfold last_record. intros Hl. apply last_Some in Hl as [l' Hl].
  assert (r ∈ filter (fun f => StateDB.ContentKey f = k) fs) as Hin by (rewrite Hl; set_solver).
  by apply list_elem_of_filter in Hin as [_ ?].
Qed.

Section props.
Context `{MI : MapIter, SS : SliceSort} (env : SqlEnv) (cfg : Config).
Hypothesis Hnf : no_faults env.

(** ** The invariant *)

Record mount_inv (c : Catalog Root) : Prop := {
  mi_idle : refreshing c = false;
  mi_temp : current_keys (cat_tables c) = None;
  mi_sync : onRefresh c = Some (sync_mount env cfg);
  mi_root : root_ok cfg (cb_state c).1;
  mi_rooted : stored_rooted (cat_tables c);
  mi_hidden : forall k, shows (cb_state c).1 k -> k ∉ dom (hidden_files (cat_tables c))
}.

(** A change of the mount and of the hidden files. *)
Lemma mount_inv_change c c' :
  mount_inv c -> refreshing c' = false -> onRefresh c' = onRefresh c ->
  root_ok cfg (cb_state c').1 ->
  files (cat_tables c') = files (cat_tables c) -> current_keys (cat_tables c') = current_keys (cat_tables c) ->
  (forall k, shows (cb_state c').1 k -> shows (cb_state c).1 k /\
     (k ∈ dom (hidden_files (cat_tables c')) -> k ∈ dom (hidden_files (cat_tables c)))) ->
  mount_inv c'.
Proof.
  intros [H1 H2 H3 H4 H5 H6] E1 E3 Hr Ef Ec Hk. split; [done|by rewrite Ec|by rewrite E3|done|unfold stored_rooted; by rewrite Ef|].
  intros k Hs. destruct (Hk k Hs) as [Hs' Hh]. intros Hin. by apply (H6 k Hs'), Hh.
Qed.

(** ** Refreshing *)

Lemma sync_mount_from t root notes db :
  walkable t -> exists root' notes' db', sync_mount env cfg t ((root, notes), db) = ((root', notes'), db') /\
    root_from cfg t root db root' db'.
Proof.
  intros Hw. destruct (SyncTree_from env cfg t Hw root db) as (m' & db' & n & Hs & Hr). unfold sync_mount. rewrite Hs.
  by exists m', (n ∪ notes), db'.
Qed.

Lemma Refresh_mount_inv c cl r c' :
  mount_inv c -> client c = Some cl -> Refresh env c = Some (r, c') -> mount_inv c'.
Proof.
  intros Hi Hcl HR. destruct (Refresh_cases env c (mi_temp _ Hi) (mi_idle _ Hi))
    as [(H & _)|[(e & c1 & HR' & Hf)|(ds & t & fs & dbw & c3 & _ & Hrf & HR')]]; [congruence| |];
    [|apply swapped_Refresh in HR']; rewrite HR in HR'; injection HR' as -> ->.
  - destruct Hf as (F1 & _ & F3 & _ & _ & F6 & F7).
    assert (same_files (cat_tables c) (cat_tables c1)) as (S1 & S2 & S3)
      by (destruct e; try done; [by destruct F7 as [-> _]|by destruct F7]).
    apply (mount_inv_change c); [done|done|done|rewrite F3; apply Hi|done|done|]. rewrite F3, S2. auto.
  - destruct Hrf as [_ Hn Htok _ Hwalk [n Hrep] _ Hah _ (F1 & F2 & F3 & F4)].
    pose proof (ApplyHides_to _ _ _ Htok (Hah Hnf)) as Hto.
    assert (walkable (tree c3)) as Hw by apply (mb_walk _ (ht_mountable _ _ _ Hto)).
    pose proof (walk_same_files env (flat (sort_dirs t)) ([], Catalog.stateDB c)) as Hws.
    pose proof (walk_rooted env (sort_dirs t) (Catalog.stateDB c) (tk_clean _ Htok)) as Hroot.
    rewrite <- walk_flat, Hwalk in Hws. rewrite Hwalk in Hroot. cbn [fst snd] in Hws, Hroot.
    destruct Hws as (W1 & W2 & W3). destruct Hrep as (_ & R2 & R3 & R4 & _).
    unfold notified, refresh_after_swap, notify. rewrite F3, (mi_sync _ Hi), F4. destruct (cb_state c) as [root notes] eqn:Hst.
    destruct (sync_mount_from (tree c3) root notes (Catalog.stateDB c3) Hw) as (root' & notes' & db' & -> & ((D1 & D2 & D3) & Hk) & Hr).
    pose proof (mi_root _ Hi) as Hroot0. pose proof (mi_hidden _ Hi) as Hhid. rewrite Hst in Hroot0, Hhid. cbn [fst] in *.
    split; cbn; [done|by rewrite D3|done|by apply Hr| |].
    + intros k row. rewrite D1. intros Hrow. specialize (R3 k). rewrite Hrow in R3. simpl in R3.
      rewrite Forall_forall in Hroot. apply Hroot. by apply (last_record_in fs k).
    + intros k Hs. rewrite D2. apply Hk in Hs as [Hs|Hs]; [|by apply (hides_to_key _ _ _ k Hto)].
      specialize (Hhid k Hs). rewrite <- W2 in Hhid. intros Hin. apply Hhid. apply elem_of_dom in Hin as [x Hx].
      rewrite R4 in Hx. destruct (decide _); [|done]. apply elem_of_dom. eauto.
Qed.

(** ** The kernel's requests *)

Lemma HideFile_current key db :
  current_keys (tables (conn (HideFile env key db).2)) = current_keys (tables (conn db)).
Proof.
  pose proof (HideFile_cases env key db) as Hc. destruct (HideFile env key db) as [[u|e] db']; cbn [snd]; [apply Hc|].
  by destruct Hc as [-> _].
Qed.

Lemma hide_keys_current keys db :
  current_keys (tables (conn (hide_keys env keys db))) = current_keys (tables (conn db)).
Proof.
  unfold hide_keys. generalize (range_keys 0 keys). intros l. revert db.
  induction l as [|k l IH]; intros db; [done|]. cbn [foldl]. by rewrite IH, HideFile_current.
Qed.

Lemma Unlink_mount_inv c dir name :
  mount_inv c -> mount_inv (set_mount (Unlink env cfg dir name (mount_of c)).2 c).
Proof.
  intros Hi. pose proof (mi_root _ Hi) as Hr.
  assert (forall m, mt_root m = (cb_state c).1 -> tables (conn (mt_db m)) = cat_tables c -> mount_inv (set_mount m c)) as Hsame.
  { intros m Hm Ht. apply (mount_inv_change c); cbn; rewrite ?Hm, ?Ht; try done; try apply Hi; auto. }
  unfold Unlink, mount_of, GetChild. cbn [mt_root mt_db mt_notified].
  destruct (negb (Writable cfg)); [by apply Hsame|]. destruct (inode_at _ _) as [n|]; [|by apply Hsame].
  destruct (Operations n) as [|k u sz]; [by apply Hsame|].
  pose proof (HideFile_cases env k (Catalog.stateDB c)) as Hh.
  destruct (HideFile env k (Catalog.stateDB c)) as [[u'|e] db]; [|apply Hsame; [done|by destruct Hh]].
  destruct Hh as (Hd & Hf & _ & Hck).
  assert (forall k', root_ok cfg (removeContentKeys cfg {[k]} (cb_state c).1).1 /\
    (shows (removeContentKeys cfg {[k]} (cb_state c).1).1 k' -> shows (cb_state c).1 k' /\ k' ∉ ({[k]} : gset string))) as Hrem
    by (intros; by apply removeContentKeys_shows).
  destruct (removeContentKeys cfg {[k]} (cb_state c).1) as [root pending]. destruct (parseContentKey k) as [[kind id] fid].
  pose proof (IsDownloadFullyHidden_frame env kind id db) as Hfr.
  destruct (IsDownloadFullyHidden env kind id db) as [r db']. cbn [snd fst] in *.
  apply (mount_inv_change c); cbn; rewrite ?Hfr; try done; first [apply Hi|apply (Hrem k)|idtac].
  intros k' Hs. apply Hrem in Hs as [Hs Hne]. split; [done|]. rewrite Hd. set_solver.
Qed.

Lemma Rmdir_mount_inv c dir name r m :
  mount_inv c -> Rmdir env cfg dir name (mount_of c) = Some (r, m) -> mount_inv (set_mount m c).
Proof.
  intros Hi. pose proof (mi_root _ Hi) as Hr.
  assert (mount_inv (set_mount (mount_of c) c)) as Hsame.
  { apply (mount_inv_change c); cbn; try done; try apply Hi; auto. }
  unfold Rmdir, mount_of, GetChild in *. cbn [mt_root mt_db mt_notified] in *.
  destruct (negb (Writable cfg)); [by intros [= _ <-]|]. destruct (inode_at _ _) as [n|]; [|by intros [= _ <-]].
  destruct (Operations n) as [|k u sz]; [|done]. set (keys := collectFileKeys n). case_bool_decide as He.
  - intros [= _ <-]. apply (mount_inv_change c); cbn; try done; [apply Hi|by apply RmChild_root_ok|].
    intros k Hs. by apply RmChild_shows in Hs.
  - assert (forall k', root_ok cfg (removeContentKeys cfg keys (cb_state c).1).1 /\
      (shows (removeContentKeys cfg keys (cb_state c).1).1 k' -> shows (cb_state c).1 k' /\ k' ∉ keys)) as Hrem
      by (intros; by apply removeContentKeys_shows).
    destruct (removeContentKeys cfg keys (cb_state c).1) as [root pending].
    pose proof (check_downloads_frame env (range_keys 1 keys) (∅, hide_keys env keys (Catalog.stateDB c))) as Hfr.
    destruct (foldl (check_download env) _ _) as [seen db']. cbn [snd fst] in *. intros [= _ <-].
    destruct (hide_list_spec env (range_keys 0 keys) (Catalog.stateDB c)) as (H1 & [_ H3] & _).
    fold (hide_keys env keys (Catalog.stateDB c)) in *.
    apply (mount_inv_change c); cbn; rewrite ?Hfr; try done; [apply Hi|apply (Hrem EmptyString)|by rewrite hide_keys_current|].
    intros k Hs. apply Hrem in Hs as [Hs Hne]. split; [done|]. intros Hin. apply H3, elem_of_union in Hin as [Hin|?]; [|done].
    apply elem_of_list_to_set, elem_of_range_keys in Hin. by destruct Hne.
Qed.

(** ** The dashboard's requests *)

Lemma set_client_inv api c : mount_inv c -> mount_inv (set_client api c).
Proof. intros Hi. split; apply Hi. Qed.

Lemma refresher_mount_inv api db c :
  mount_inv (Catalog.set_db db (set_client api c)) ->
  exists c' db' e, refresher_of env (set_client api c, Some db) = ((c', Some db'), e) /\
    mount_inv (Catalog.set_db db' c').
Proof.
  intros Hi. unfold refresher_of.
  destruct (Refresh env (Catalog.set_db db (set_client api c))) as [[r c']|] eqn:HR; [|by eexists _, _, _].
  assert (mount_inv c') as Hi' by (by apply (Refresh_mount_inv _ api r c' Hi)).
  assert (mount_inv (Catalog.set_db (Catalog.stateDB c') c')) as Hi'' by (split; apply Hi').
  destruct r; by eexists _, _, _.
Qed.

Lemma UnhideDownload_frame kind id db :
  let db' := (StateDB.UnhideDownload env kind id db).2 in
  files (tables (conn db')) = files (tables (conn db)) /\
  current_keys (tables (conn db')) = current_keys (tables (conn db)) /\
  dom (hidden_files (tables (conn db'))) ⊆ dom (hidden_files (tables (conn db))).
Proof.
  refine (proj1 (keeps_send env (fun t t' => files t' = files t /\ current_keys t' = current_keys t /\
    dom (hidden_files t') ⊆ dom (hidden_files t)) _ _ _ _ _ db)); [done|].
  intros now t [] t' Hs. unfold delete_hidden_like in Hs. injection Hs as <-. split_and!; try done. cbn.
  intros k [v Hv]%elem_of_dom. apply map_lookup_filter_Some in Hv as [Hv _]. apply elem_of_dom. eauto.
Qed.

Lemma of_refreshed (d : Dashboard (Catalog Root)) db :
  refresher d = Some (refresher_of env) -> Dashboard.stateDB d = Some db ->
  (exists api c, world d = set_client api c) -> mount_inv (Catalog.set_db db (world d)) ->
  mount_inv (sys_cat (of_dashboard (Dashboard.refresh d))).
Proof.
  intros Hr Hdb (api & c & Hw) Hi. unfold Dashboard.refresh. rewrite Hr, Hdb, Hw. rewrite Hw in Hi.
  destruct (refresher_mount_inv api db c Hi) as (c' & db' & e & -> & Hi'). exact Hi'.
Qed.

Lemma Unhide_mount_inv kind id api s :
  mount_inv (sys_cat s) ->
  mount_inv (sys_cat (of_dashboard (Dashboard.UnhideDownload env kind id (dashboard_of env None api s)).2)).
Proof.
  intros Hi. unfold Dashboard.UnhideDownload. cbn [Dashboard.stateDB dashboard_of].
  destruct (UnhideDownload_frame kind id (Catalog.stateDB (sys_cat s))) as (Hf & Hc & Hd).
  destruct (StateDB.UnhideDownload env kind id (Catalog.stateDB (sys_cat s))) as [r db]. cbn [snd] in *.
  assert (mount_inv (Catalog.set_db db (set_client api (sys_cat s)))) as Hi'.
  { apply (mount_inv_change (sys_cat s)); cbn; try done; try apply Hi. auto. }
  destruct r; cbn [snd]; [|exact Hi']. by apply (of_refreshed _ db); [..|exists api, (sys_cat s)|].
Qed.

Lemma Delete_mount_inv kind id answer api s :
  mount_inv (sys_cat s) ->
  mount_inv (sys_cat (of_dashboard (Dashboard.DeleteDownload kind id (dashboard_of env answer api s)).2)).
Proof.
  intros Hi. unfold Dashboard.DeleteDownload. cbn [deleter dashboard_of world].
  assert (mount_inv (Catalog.set_db (Catalog.stateDB (sys_cat s)) (set_client api (sys_cat s)))) as Hi'
    by (split; apply Hi).
  destruct answer as [e|]; cbn [snd]; [exact Hi'|].
  by apply (of_refreshed _ (Catalog.stateDB (sys_cat s))); [..|exists api, (sys_cat s)|].
Qed.

(** ** Starting *)

Lemma Open_tables disk n db n' : Open env disk n = (Ok db, n') -> tables (conn db) = default empty_tables disk.
Proof.
  unfold Open, initSchema, initNextInode.
  destruct (exec_cases env control (MkConn (default empty_tables disk) n)) as [(e & ->)|(a & t & -> & Hc)]; [done|].
  unfold control in Hc. simplify_eq/=.
  destruct (exec_cases env (fun (_ : string) (_ : Tables) => Ok (tt, default empty_tables disk))
    (MkConn (default empty_tables disk) (S n))) as [(e & ->)|(a & t & -> & Hc)]; [done|]. simplify_eq/=.
  destruct (exec_cases env select_max_inode (MkConn (default empty_tables disk) (S (S n))))
    as [(e & ->)|(o & t & -> & Hc)]; [done|]. unfold select_max_inode in Hc. injection Hc as _ <-.
  destruct o; by intros [= <- _].
Qed.

(** The tree a start finds in the database. *)
Lemma LoadFromDB_tree (c : Catalog Root) :
  onRefresh c = None -> tree c = ∅ -> stored_rooted (cat_tables c) ->
  exists r c', LoadFromDB env c = Some (r, c') /\ refreshing c' = refreshing c /\ allDirEnabled c' = allDirEnabled c /\
    onRefresh c' = None /\ cb_state c' = cb_state c /\ cat_tables c' = cat_tables c /\ walkable (tree c') /\
    forall k, tree_key (tree c') k -> k ∉ dom (hidden_files (cat_tables c')).
Proof.
  intros Hcb Ht Hs. unfold LoadFromDB.
  assert (walkable (∅ : Tree) /\ forall k (X : gset string), tree_key ∅ k -> k ∉ X) as [Hw0 Hk0].
  { split; [split; [set_solver|]|]; intros ?; unfold tree_key, dir_entries; setoid_rewrite lookup_empty;
      cbn; [by intros x _ ?%not_elem_of_nil|]. by intros X (p & e & f & ?%not_elem_of_nil & _). }
  destruct (ListFiles_spec env (Catalog.stateDB c)) as (L1 & L2 & _).
  destruct (ListFiles env (Catalog.stateDB c)) as [[records|e] db]; cbn [fst snd] in *.
  2: { eexists _, _. split; [done|]. cbn. rewrite Ht, L1. by split_and!; auto. }
  case_bool_decide as Hn; [eexists _, _; split; [done|]; cbn; rewrite Ht, L1; by split_and!; auto|].
  destruct (BuildTreeFromDB_ok records (allDirEnabled c)) as (t & -> & Hok).
  { apply Forall_forall. intros r Hr. rewrite (L2 records eq_refl) in Hr. apply list_elem_of_fmap in Hr as ([k row] & -> & Hin).
    apply elem_of_map_to_list in Hin. by apply (Hs k row). }
  cbn [mbind option_bind]. destruct (hide_spec env t db Hok) as (t' & db' & -> & Hd & Hah). cbn [mbind option_bind].
  specialize (Hah Hnf). pose proof (ApplyHides_to _ _ _ Hok Hah) as Hto.
  eexists _, _. split; [done|]. unfold notify. cbn. rewrite Hcb. cbn. rewrite Hd, L1.
  split_and!; try done; [apply (mb_walk _ (ht_mountable _ _ _ Hto))|].
  intros k Hk. rewrite L1 in Hto. by apply (hides_to_key _ _ _ k Hto).
Qed.

Lemma start_mount_inv db s :
  current_keys (tables (conn db)) = None -> stored_rooted (tables (conn db)) ->
  start env cfg db = Some s -> mount_inv (sys_cat s).
Proof.
  intros Hc Hs. unfold start.
  destruct (LoadFromDB_tree (NewCatalog unreachable_api db Metrics.New (AllDirEnabled cfg) (∅, ∅)))
    as (r & c & -> & C1 & C2 & C3 & C4 & C5 & Hw & Hk); [done..|]. cbn [mbind option_bind].
  destruct (OnAdd_from env cfg (tree c) Hw ∅ (Catalog.stateDB c)) as (root & db' & Ho & ((S1 & S2 & S3) & Hfrom) & Hroot).
  cbn [tree SetOnRefresh Catalog.stateDB]. rewrite Ho. cbn [mbind option_bind]. intros [= <-].
  cbn in C5. split; cbn; rewrite ?S1, ?S2, ?S3, ?C5, ?C1; try done; [apply Hroot; by intros x n ?%lookup_empty_Some| |].
  - unfold stored_rooted. by rewrite S1, C5.
  - intros k Hsh. apply Hfrom in Hsh as [Hsh|Hsh]; [by apply shows_empty in Hsh|]. rewrite <- C5. by apply Hk.
Qed.

Lemma boot_mount_inv disk n s :
  current_keys (default empty_tables disk) = None -> stored_rooted (default empty_tables disk) ->
  boot env cfg disk n = Some s -> mount_inv (sys_cat s).
Proof.
  intros Hc Hs. unfold boot. destruct (Open env disk n) as [[db|e] n'] eqn:Ho; [|done].
  apply Open_tables in Ho. apply start_mount_inv; by rewrite Ho.
Qed.

Lemma step_mount_inv e s s' : mount_inv (sys_cat s) -> step env cfg e s = Some s' -> mount_inv (sys_cat s').
Proof.
  intros Hi. destruct e as [api|dir name|dir name|kind id api|kind id answer api|]; cbn [step].
  - destruct (Refresh env _) as [[r c]|] eqn:HR; [|done]. intros [= <-].
    apply (Refresh_mount_inv _ api r c (set_client_inv api _ Hi)); done.
  - pose proof (Unlink_mount_inv (sys_cat s) dir name Hi) as Hu. destruct (Unlink _ _ _ _ _) as [r m]. by intros [= <-].
  - destruct (Rmdir _ _ _ _ _) as [[r m]|] eqn:Hr; [|done]. intros [= <-]. by apply (Rmdir_mount_inv _ dir name r).
  - intros [= <-]. by apply Unhide_mount_inv.
  - intros [= <-]. by apply Delete_mount_inv.
  - apply boot_mount_inv; apply Hi.
Qed.

Lemma reachable_mount_inv s : reachable env cfg s -> mount_inv (sys_cat s).
Proof.
  induction 1 as [s n Hb|e s s' _ IH Hs]; [|by apply (step_mount_inv e s)].
  apply (boot_mount_inv None n); done.
Qed.

(** [C6] Between whole operations a hidden file is never in the mount, as long as the
    database executes its statements: from the first start on, after any sequence of
    refreshes with any answers of the API, removals of files and directories, requests of
    the dashboard and restarts, each of them run from its begin to its end before the
    next, no file that can be reached from the root has a content key that the database
    records as hidden.  An operation that runs inside a refresh is not covered: there
    [unlink_during_refresh_undone] shows the opposite. *)
Theorem hidden_never_shown s k :
  reachable env cfg s -> shows (cb_state (sys_cat s)).1 k ->
  k ∉ dom (hidden_files (tables (conn (Catalog.stateDB (sys_cat s))))).
Proof. intros Hr%reachable_mount_inv. apply Hr. Qed.

End props.

(** ** Room for inodes *)

Section room.
Context `{MI : MapIter, SS : SliceSort} (env : SqlEnv).

Lemma walk_pe_ready l acc db k :
  0 <= k -> ready env (k + Z.of_nat (length (omap rec_of l))) db -> ready env k (foldl (walk_pe env) (acc, db) l).2.
Proof.
  intros Hk. revert acc db. induction l as [|[p e] l IH]; intros acc db Hr.
  { simpl in *. by rewrite Z.add_0_r in Hr. }
  change (omap rec_of ((p, e) :: l)) with
    (match rec_of (p, e) with Some r => r :: omap rec_of l | None => omap rec_of l end) in *.
  cbn [foldl]. unfold walk_pe at 2, walk_entry. unfold rec_of in Hr at 1. cbn [fst snd] in *.
  destruct (EntryFile e) as [f|]; [|by apply IH]. destruct (HasPrefix p "/all/"); [by apply IH|]. cbn [length] in Hr.
  destruct (AssignInode_ready env (k + Z.of_nat (length (omap rec_of l))) (ContentKey f) (p +:+ "/" +:+ Name e) db)
    as (ino & db' & -> & Hr' & _); [by rewrite <- Z.add_assoc, Z.add_1_r, <- Nat2Z.inj_succ|lia|]. by apply IH.
Qed.

Lemma ready_same k db db' :
  inodes (tables (conn db')) = inodes (tables (conn db)) -> nextInode db' = nextInode db -> ready env k db -> ready env k db'.
Proof.
  intros Hi Hn (H1 & H2 & H3 & H4). split_and!; [done|by apply (db_ok_same 0 db)|done|by rewrite Hn].
Qed.

(** The catalog that notifies still has inode numbers for the mount. *)
Lemma refreshed_ready c ds t fs dbw c3 k :
  library_ok (titled_files ds) -> refreshed (S := Root) env c ds t fs dbw c3 ->
  ready env (Z.of_nat (k + length (titled_files ds))) (Catalog.stateDB c) -> ready env (Z.of_nat k) (Catalog.stateDB c3).
Proof.
  intros Hlib Hrf Hr. destruct Hrf as [_ _ _ Hfiles Hwalk (n & R1 & _) Hnx _ _ _].
  apply (ready_same _ dbw); [done|done|]. assert (dbw = (walk env (sort_dirs t) (Catalog.stateDB c)).2) as -> by (by rewrite Hwalk).
  rewrite walk_flat. apply walk_pe_ready; [lia|].
  rewrite (flat_records ds (allDirEnabled c) t Hlib Hfiles), length_fmap. by rewrite <- Nat2Z.inj_add.
Qed.

End room.

(** ** A refresh, seen in the mount *)

Section refresh.
Context `{MI : MapIter, SS : SliceSort} (env : SqlEnv) (cfg : Config).

Lemma sync_mount_ok (c : Catalog Root) : onRefresh c = Some (sync_mount env cfg) -> callback_ok c.
Proof.
  intros Hs fn t [root notes] db Hfn. rewrite Hs in Hfn. injection Hfn as <-. unfold sync_mount.
  destruct (SyncTree env cfg t (root, db)) as [[[r d] n]|] eqn:Ht; [|done]. by apply SyncTree_frame in Ht.
Qed.

(** The hidden keys that are still in the library. *)
Definition still_hidden (c : Catalog Root) (ds : list Download) : gset string :=
  filter (fun k => k ∈ keys (titled_files ds)) (dom (hidden_files (cat_tables c))).

(** The tree a refresh with these downloads shows. *)
Definition visible_tree (c : Catalog Root) (ds : list Download) : option Tree :=
  t ← BuildTree ds (allDirEnabled c); ApplyHides t (still_hidden c ds).

Lemma refreshed_hidden (c : Catalog Root) ds t fs dbw c3 :
  refreshed env c ds t fs dbw c3 -> fs ≡ₚ tf_record <$> titled_files ds ->
  same_files (cat_tables c) (tables (conn dbw)) ->
  dom (hidden_files (cat_tables c3)) = still_hidden c ds.
Proof.
  intros Hrf Hp (_ & W2 & _). destruct (rf_replaced _ _ _ _ _ _ _ Hrf) as (n & _ & _ & _ & R4 & _).
  assert (forall k, k ∈ keys_of fs <-> k ∈ keys (titled_files ds)) as Hk.
  { intros k. unfold keys_of, keys. by rewrite !elem_of_list_to_set, Hp, tf_record_keys. }
  apply set_eq. intros k. unfold still_hidden. rewrite elem_of_filter, !elem_of_dom, R4, W2, <- Hk.
  destruct (decide _); [tauto|]. split; [by intros [? ?]|tauto].
Qed.

Lemma catPaths_render cat : cat ∈ catPaths cfg -> cat = render [path_Base cat] /\ elem_ok (path_Base cat).
Proof.
  intros Hin. destruct (proj2 (catPaths_ok cfg) cat Hin) as [Hc Hp].
  assert (cat = "/movies" \/ cat = "/series" \/ cat = "/all") as Hcs
    by (unfold catPaths in Hin; destruct (AllDirEnabled cfg); set_solver).
  destruct Hcs as [->|[->| ->]]; (split; [vm_compute; reflexivity|]); apply (bool_decide_unpack _); vm_compute; exact I.
Qed.

(** A synchronised category, by paths from the root. *)
Lemma category_synced_at t old new cat ns :
  category_synced cfg t old new cat -> ns <> [] ->
  match entry_at t cat ns with
  | None => inode_at new (path_Base cat :: ns) = None
  | Some e => exists n, inode_at new (path_Base cat :: ns) = Some n /\ node_for cfg e (inode_at old (path_Base cat :: ns)) n
  end.
Proof.
  intros Hs Hn. rewrite !inode_at_cons by done. unfold category_synced in Hs.
  destruct (old !! path_Base cat) as [n0|].
  - destruct Hs as (c & -> & _ & _ & _ & Hc). by apply Hc.
  - destruct (decide (ListDir t cat = [])) as [Hl|Hl].
    + rewrite Hs. cbn [from_option]. rewrite inode_at_empty. destruct ns as [|x ns]; [done|].
      destruct (decide (ns = [])) as [->|Hns]; [cbn [entry_at]; by rewrite Hl|]. rewrite entry_at_cons by done. by rewrite Hl.
    + destruct Hs as (c & -> & _ & _ & Hc). cbn [from_option]. by apply Hc.
Qed.

(** Every file is below one of the categories. *)
Lemma tf_category tf : exists cat rest, cat ∈ catPaths cfg /\ tf_elems tf = path_Base cat :: rest.
Proof.
  unfold tf_elems. destruct (is_series tf.2); [exists "/series"|exists "/movies"]; eexists;
    (split; [unfold catPaths; set_solver|reflexivity]).
Qed.

(** A file of the library after a synchronisation with the tree that shows it. *)
Definition file_synced (hidden : gset string) (old new : gmap string Inode) (tf : string * File) : Prop :=
  if decide (tf_key tf ∈ hidden) then inode_at new (tf_path tf) = None
  else exists n, inode_at new (tf_path tf) = Some n /\ node_for cfg (file_entry tf.2) (inode_at old (tf_path tf)) n.

Lemma library_file_synced ds allDir t hidden t' old new tf :
  library_ok (titled_files ds) -> navigable (apply_additions (placements ds allDir) ∅) t ->
  (forall p, files_in t p = entries_for p (placements ds allDir)) -> hides_to (sort_dirs t) hidden t' ->
  (forall cat, cat ∈ catPaths cfg -> category_synced cfg t' old new cat) ->
  tf ∈ titled_files ds -> file_synced hidden old new tf.
Proof.
  intros Hlib Hnav Hfiles Hto Hcat Htf. destruct (tf_category tf) as (cat & rest & Hin & Hel).
  pose proof (category_synced_at t' old new cat (rest ++ [tf_name tf]) (Hcat cat Hin) ltac:(by destruct rest)) as Hs.
  pose proof (visible_at ds allDir Hlib t Hnav Hfiles hidden t' Hto tf _ rest Htf Hel) as Hv.
  destruct (catPaths_render cat Hin) as [Hcr _]. rewrite <- Hcr in Hv. rewrite Hv in Hs.
  unfold file_synced, tf_path. rewrite Hel. cbn [app]. by destruct (decide (tf_key tf ∈ hidden)).
Qed.

(** The catalog [c3] between the swap and the notification of a refresh that is ready:
    what it holds, and what any later synchronisation makes of a mount. *)
Record ready_to_sync (c : Catalog Root) (ds : list Download) (t' : Tree) (items : Z) (c3 : Catalog Root) : Prop := {
  rs_swapped : refresh_until_swap env c = Some (Ok (Some items), c3);
  rs_tree : tree c3 = t';
  rs_frame : onRefresh c3 = onRefresh c /\ cb_state c3 = cb_state c;
  rs_hidden : dom (hidden_files (cat_tables c3)) = still_hidden c ds;
  rs_ready : ready env (Z.of_nat (library_visits cfg t')) (Catalog.stateDB c3);
  rs_walkable : walkable t';
  rs_unique : dirs_unique t';
  rs_synced : forall old new tf, (forall cat, cat ∈ catPaths cfg -> category_synced cfg t' old new cat) ->
    tf ∈ titled_files ds -> file_synced (still_hidden c ds) old new tf;
  rs_leads : forall old new cat ns n, (forall cat, cat ∈ catPaths cfg -> category_synced cfg t' old new cat) ->
    cat ∈ catPaths cfg -> ns <> [] -> inode_at new (path_Base cat :: ns) = Some n ->
    exists tf, tf ∈ titled_files ds /\ tf_key tf ∉ still_hidden c ds /\
      ((path_Base cat :: ns) `prefix_of` tf_path tf \/
       (allDirEnabled c = true /\ (path_Base cat :: ns) `prefix_of` tf_all_path tf))
}.

Lemma refresh_ready_to_sync (c : Catalog Root) api ds t' :
  refresh_ready env c api ds -> visible_tree c ds = Some t' ->
  nextInode (Catalog.stateDB c) + Z.of_nat (library_visits cfg t' + length (titled_files ds)) < 2 ^ 63 - 1 ->
  exists items c3, ready_to_sync c ds t' items c3.
Proof.
  intros Hready Hvis Hroom. destruct (Refresh_ready_steps env c api ds Hready) as (t & fs & dbw & c3 & Hrf & HR & Hp & Hws).
  destruct Hready as [Hnf _ _ _ Hlib Hdb _ _ _]. pose proof (refreshed_hidden c ds t fs dbw c3 Hrf Hp Hws) as Hhid.
  exists (Z.of_nat (length fs)), c3.
  assert (ready env (Z.of_nat (library_visits cfg t')) (Catalog.stateDB c3)) as Hready3.
  { apply (refreshed_ready env c ds t fs dbw c3); [done|done|]. split_and!; [done|done|lia|done]. }
  destruct Hrf as [Hbuild Hnav Htok Hfiles _ _ _ Hah _ (_ & _ & F3 & F4)]. specialize (Hah Hnf). rewrite Hhid in Hah.
  unfold visible_tree in Hvis. rewrite Hbuild in Hvis. cbn [mbind option_bind] in Hvis.
  assert (tree c3 = t') as Ht3 by congruence. pose proof (ApplyHides_to _ _ _ Htok Hvis) as Hto.
  split; try done; [apply (mb_walk _ (ht_mountable _ _ _ Hto))|by apply (shown_unique ds (allDirEnabled c) Hlib t Hnav Hfiles _ t' Hto)|..].
  - intros old new tf Hcat Htf. by apply (library_file_synced ds (allDirEnabled c) t _ t').
  - intros old new cat ns n Hcat Hin Hns Hn. destruct (catPaths_render cat Hin) as [Hcr Hok].
    pose proof (category_synced_at t' old new cat ns (Hcat cat Hin) Hns) as Hs.
    destruct (entry_at t' cat ns) as [e|] eqn:He; [|by rewrite Hs in Hn]. rewrite Hcr in He.
    destruct (entry_leads_to_file ds (allDirEnabled c) Hlib t Hnav Hfiles _ t' Hto (path_Base cat) ns e Hok He)
      as (tf & [Htf Hv] & Hpre). exists tf. by split_and!.
Qed.

(** Where the library has a file, no directory of the mount is in its place. *)
Definition no_dir_for_file (t' : Tree) (root : gmap string Inode) : Prop :=
  forall cat n, cat ∈ catPaths cfg -> root !! path_Base cat = Some n -> files_childless t' cat (Children n).

(** The second half of a refresh. *)
Lemma refresh_after_swap_syncs c ds t' items c3 c4 :
  ready_to_sync c ds t' items c3 -> tree c4 = t' -> onRefresh c4 = Some (sync_mount env cfg) ->
  ready env (Z.of_nat (library_visits cfg t')) (Catalog.stateDB c4) -> no_dir_for_file t' (cb_state c4).1 ->
  let c' := refresh_after_swap items c4 in
  (forall cat, cat ∈ catPaths cfg -> category_synced cfg t' (cb_state c4).1 (cb_state c').1 cat) /\
  same_files (cat_tables c4) (cat_tables c').
Proof.
  intros Hrs Ht Hsync Hready Hch. unfold refresh_after_swap, notify. rewrite Hsync, Ht.
  destruct (cb_state c4) as [root notes]. cbn [fst] in *. unfold sync_mount.
  destruct (SyncTree_spec env cfg t' (rs_walkable _ _ _ _ _ Hrs) (rs_unique _ _ _ _ _ Hrs) root (Catalog.stateDB c4) Hch Hready)
    as (root' & db' & n' & -> & Hcat & _ & Hsf). by split.
Qed.

(** [C7] After a refresh the mount is the visible library.  When a refresh of a
    well-formed library succeeds (the API answers, the database works and has inode
    numbers left, and no mounted directory is now a file), then in the mount: each
    file of the library that is not hidden has a node at its path, made from it
    unless a node was there; a hidden file has none; and every node below a category
    is at or above the path of a file of the library that is not hidden. *)
Theorem refresh_mounts_library (c : Catalog Root) api ds t' :
  refresh_ready env c api ds -> onRefresh c = Some (sync_mount env cfg) -> allDirEnabled c = AllDirEnabled cfg ->
  visible_tree c ds = Some t' ->
  nextInode (Catalog.stateDB c) + Z.of_nat (library_visits cfg t' + length (titled_files ds)) < 2 ^ 63 - 1 ->
  (forall cat n, cat ∈ catPaths cfg -> (cb_state c).1 !! path_Base cat = Some n -> files_childless t' cat (Children n)) ->
  exists c', Refresh env c = Some (Ok tt, c') /\
  let old := (cb_state c).1 in
  let new := (cb_state c').1 in
  (forall tf, tf ∈ titled_files ds ->
     if decide (tf_key tf ∈ still_hidden c ds) then inode_at new (tf_path tf) = None
     else exists n, inode_at new (tf_path tf) = Some n /\ node_for cfg (file_entry tf.2) (inode_at old (tf_path tf)) n) /\
  (forall cat ns n, cat ∈ catPaths cfg -> ns <> [] -> inode_at new (path_Base cat :: ns) = Some n ->
     exists tf, tf ∈ titled_files ds /\ tf_key tf ∉ still_hidden c ds /\
       ((path_Base cat :: ns) `prefix_of` tf_path tf \/
        (AllDirEnabled cfg = true /\ (path_Base cat :: ns) `prefix_of` tf_all_path tf))).
Proof.
  intros Hready Hsync Hall Hvis Hroom Hchild.
  destruct (refresh_ready_to_sync c api ds t' Hready Hvis Hroom) as (items & c3 & Hrs).
  destruct (rs_frame _ _ _ _ _ Hrs) as [F3 F4]. exists (refresh_after_swap items c3).
  split; [by rewrite Refresh_halves, (rs_swapped _ _ _ _ _ Hrs)|].
  destruct (refresh_after_swap_syncs c ds t' items c3 c3 Hrs) as [Hcat _];
    [apply Hrs|by rewrite F3|apply Hrs|unfold no_dir_for_file; by rewrite F4|].
  rewrite F4 in Hcat. cbv zeta. split.
  - intros tf Htf. by apply (rs_synced _ _ _ _ _ Hrs).
  - intros cat ns n Hin Hns Hn. rewrite <- Hall. by apply (rs_leads _ _ _ _ _ Hrs (cb_state c).1 (cb_state (refresh_after_swap items c3)).1 cat ns n).
Qed.

(** ** A removal while a refresh is under way *)

(** Removing files leaves no directory where there was none. *)
Lemma keys_hidden_no_dir keys t' old new :
  keys_hidden cfg keys old new -> no_dir_for_file t' old -> no_dir_for_file t' new.
Proof.
  intros [Hb Hroot _] Hch cat n' Hin Hn' ns x e Hx He Hf.
  assert (is_Some (old !! path_Base cat)) as [n Hn].
  { specialize (Hroot (path_Base cat)). rewrite Hn' in Hroot. by destruct (old !! path_Base cat). }
  pose proof (Hb cat Hin) as Hh. unfold category in Hh. rewrite Hn, Hn' in Hh. cbn [from_option] in Hh.
  assert (forall ns, is_Some (inode_at (Children n') ns) -> is_Some (inode_at (Children n) ns)) as Hsome.
  { intros ms [y Hy]. pose proof (proj1 (Hh ms (attrs y))) as H. unfold node_at in H. rewrite Hy in H.
    destruct (H eq_refl) as [H' _]. by destruct (inode_at (Children n) ms). }
  destruct (Hsome ns) as [x0 Hx0]; [eauto|]. pose proof (Hch cat n Hin Hn ns x0 e Hx0 He Hf) as Hempty.
  apply map_empty. intros y. destruct (Children x !! y) as [z|] eqn:Hz; [|done]. exfalso.
  assert (ns <> []) as Hns by (by destruct ns).
  destruct (Hsome (ns ++ [y])) as [z0 Hz0].
  { rewrite inode_at_app, Hx by done. exists z. exact Hz. }
  rewrite inode_at_app, Hx0 in Hz0 by done. simpl in Hz0. by rewrite Hempty, lookup_empty in Hz0.
Qed.

(** A removed file has no node left at any path it was at. *)
Lemma keys_hidden_gone k old new cat ns :
  keys_hidden cfg {[k]} old new -> cat ∈ catPaths cfg -> ns <> [] ->
  file_at old (path_Base cat :: ns) = Some k -> inode_at new (path_Base cat :: ns) = None.
Proof.
  intros [Hb _ _] Hin Hns Hold. rewrite file_at_cons in Hold by done. rewrite inode_at_cons by done.
  change (file_at (category old cat) ns = Some k) in Hold. change (inode_at (category new cat) ns = None).
  destruct (inode_at (category new cat) ns) as [x|] eqn:Hx; [|done]. exfalso.
  destruct (proj1 (Hb cat Hin ns (attrs x))) as [Ha Hr]; [unfold node_at; by rewrite Hx|].
  unfold file_at in Hold. rewrite Ha in Hold. simpl in Hold. unfold remains in Hr. simpl in Hr. rewrite Hold in Hr. set_solver.
Qed.

(** [C35] A file removed while a refresh is under way comes back.  The hidden files are
    read before the new tree is in place and not again: take any refresh as in
    [refresh_mounts_library], in a writable mount whose files have no children, and any
    mounted file of its library that is not hidden;
    when the file is unlinked, under any of its names, after the new tree is in place
    and before the mount is synchronised, the removal succeeds, takes the node out of the
    mount and records the file as hidden; the rest of the refresh then makes a new node
    for it at its path, with its content, while it is still recorded as hidden. *)
Theorem unlink_during_refresh_undone (c : Catalog Root) api ds t' tf dir name :
  refresh_ready env c api ds -> onRefresh c = Some (sync_mount env cfg) ->
  visible_tree c ds = Some t' ->
  nextInode (Catalog.stateDB c) + Z.of_nat (library_visits cfg t' + length (titled_files ds)) < 2 ^ 63 - 1 ->
  no_dir_for_file t' (cb_state c).1 -> mount_ok cfg (cb_state c).1 -> Writable cfg = true ->
  tf ∈ titled_files ds -> tf_key tf ∉ still_hidden c ds ->
  file_at (cb_state c).1 (tf_path tf) = Some (tf_key tf) -> file_at (cb_state c).1 (dir ++ [name]) = Some (tf_key tf) ->
  exists items c1 m,
    refresh_until_swap env c = Some (Ok (Some items), c1) /\
    Unlink env cfg dir name (mount_of c1) = (0, m) /\ inode_at (mt_root m) (tf_path tf) = None /\
    let c2 := refresh_after_swap items (set_mount m c1) in
    (exists n, inode_at (cb_state c2).1 (tf_path tf) = Some n /\ Operations n = file_ops cfg tf.2) /\
    file_at (cb_state c2).1 (tf_path tf) = Some (tf_key tf) /\
    tf_key tf ∈ dom (hidden_files (cat_tables c2)).
Proof.
  intros Hready Hsync Hvis Hroom Hch Hmok Hw Htf Hvisible Hmounted Hunl.
  destruct (refresh_ready_to_sync c api ds t' Hready Hvis Hroom) as (items & c1 & Hrs).
  destruct (rs_frame _ _ _ _ _ Hrs) as [F3 F4].
  destruct (Unlink_file env cfg dir name (mount_of c1) (tf_key tf)) as (m & HU & Hroot & Hd & Hi & Hn);
    [apply Hready|done|cbn [mount_of mt_root]; by rewrite F4|]. cbn [mount_of mt_root mt_db] in Hroot, Hd, Hi, Hn. rewrite F4 in Hroot.
  pose proof (removeContentKeys_spec cfg {[tf_key tf]} (cb_state c).1 Hmok) as Hkh. rewrite <- Hroot in Hkh.
  assert (inode_at (mt_root m) (tf_path tf) = None) as Hgone.
  { unfold tf_path in *. destruct (tf_category tf) as (cat & rest & Hin & Hel). rewrite Hel in *. cbn [app] in *. eapply keys_hidden_gone; [done|done|by destruct rest|done]. }
  destruct (refresh_after_swap_syncs c ds t' items c1 (set_mount m c1) Hrs) as [Hcat (_ & Hsf & _)];
    [apply Hrs|cbn; by rewrite F3|apply (ready_same env _ (Catalog.stateDB c1)); [done|done|apply Hrs]
    |by apply (keys_hidden_no_dir _ _ _ _ Hkh)|].
  pose proof (rs_synced _ _ _ _ _ Hrs _ _ tf Hcat Htf) as Hs. unfold file_synced in Hs. rewrite decide_False in Hs by done.
  change (cb_state (set_mount m c1)).1 with (mt_root m) in Hs. rewrite Hgone in Hs. destruct Hs as (n & Hx & Ho & _).
  exists items, c1, m. split; [apply Hrs|]. split; [done|]. split; [done|]. cbv zeta. split_and!.
  - exists n. by split.
  - unfold file_at, node_at. rewrite Hx. simpl. by rewrite Ho.
  - rewrite Hsf. change (Catalog.stateDB (set_mount m c1)) with (mt_db m). rewrite Hd. set_solver.
Qed.

End refresh.

(** ** A run of the program *)

Section runs.
Context `{MI : MapIter, SS : SliceSort} (env : SqlEnv) (cfg : Config).

Lemma run_reachable es s s' : reachable env cfg s -> run env cfg es s = Some s' -> reachable env cfg s'.
Proof.
  revert s. induction es as [|e es IH]; intros s Hr; cbn [run]; [by intros [= <-]|].
  destruct (step env cfg e s) as [s1|] eqn:Hs; [|done]. apply IH. by apply (reach_step _ _ e s).
Qed.

Lemma boot_run_reachable es n s' : boot env cfg None n ≫= run env cfg es = Some s' -> reachable env cfg s'.
Proof.
  destruct (boot env cfg None n) as [s|] eqn:Hb; [|done]. cbn. apply run_reachable. by apply (reach_boot _ _ s n).
Qed.

End runs.

Lemma shows_by_keys m k : bool_decide (k ∈ collectFileKeys (MkInode DirNode 0 0 m)) = true -> shows m k.
Proof. intros Hk%bool_decide_eq_true. by apply collectFileKeys_shows in Hk. Qed.

(** A refresh, the removal of the film and a restart. *)
Definition demo_events : list event :=
  [ERefresh demo_fetch; EUnlink ["movies"; "The Matrix"] "film.mkv"; ERestart].

Definition demo_run : option System :=
  @boot default_iter default_sort calm demo_config None 0 ≫= @run default_iter default_sort calm demo_config demo_events.

Lemma demo_run_shows :
  match demo_run with
  | Some s => bool_decide ("usenet:7:1" ∈ collectFileKeys (MkInode DirNode 0 0 (cb_state (sys_cat s)).1)) &&
              bool_decide (hidden_files (tables (conn (Catalog.stateDB (sys_cat s)))) !! "torrent:1:1" <> None)
  | None => false
  end = true.
Proof. vm_compute. reflexivity. Qed.

Lemma hidden_never_shown_witness :
  exists s, demo_run = Some s /\ shows (cb_state (sys_cat s)).1 "usenet:7:1" /\
    "torrent:1:1" ∈ dom (hidden_files (tables (conn (Catalog.stateDB (sys_cat s))))) /\
    "usenet:7:1" ∉ dom (hidden_files (tables (conn (Catalog.stateDB (sys_cat s))))).
Proof.
  pose proof demo_run_shows as Hd. destruct demo_run as [s|] eqn:Hrun; [|discriminate Hd].
  apply andb_true_iff in Hd as [Hs Hh%bool_decide_eq_true]. apply shows_by_keys in Hs.
  exists s. split; [reflexivity|]. split; [exact Hs|]. split; [apply elem_of_dom, not_eq_None_Some; exact Hh|].
  apply (@hidden_never_shown default_iter default_sort calm demo_config (fun n => eq_refl) s "usenet:7:1");
    [exact (@boot_run_reachable default_iter default_sort calm demo_config demo_events 0 s Hrun)|exact Hs].
Defined.

(** ** A refresh of the small library *)

(** The catalog before its first refresh; one episode was hidden before. *)
Definition demo_mounted : Catalog Root :=
  SetOnRefresh (sync_mount calm demo_config)
    (NewCatalog demo_fetch demo_store Metrics.New true (∅, ∅)).

Lemma demo_mounted_ready : refresh_ready calm demo_mounted demo_fetch demo_downloads.
Proof. apply demo_ready_for; [reflexivity..|]. by apply (sync_mount_ok calm demo_config). Qed.

Lemma demo_visible :
  match @visible_tree default_iter default_sort demo_mounted demo_downloads with
  | Some t => Z.of_nat (library_visits demo_config t) = 12
  | None => False
  end.
Proof. vm_compute. reflexivity. Qed.

Definition demo_film : string * File := ("The Matrix", demo_file "torrent" "1" "1" "The Matrix/film.mkv" "movie").
Definition demo_episode : string * File := ("Show", demo_file "usenet" "7" "1" "Show/Show.S02E01.mkv" "series").

Lemma demo_library :
  demo_film ∈ titled_files demo_downloads /\ demo_episode ∈ titled_files demo_downloads /\
  tf_key demo_film ∉ still_hidden demo_mounted demo_downloads /\
  tf_key demo_episode ∈ still_hidden demo_mounted demo_downloads.
Proof. split_and!; apply (bool_decide_unpack _); vm_compute; exact I. Qed.

Lemma refresh_mounts_library_witness :
  exists c', @Refresh default_iter default_sort Root calm demo_mounted = Some (Ok tt, c') /\
    (exists n, inode_at (cb_state c').1 ["movies"; "The Matrix"; "film.mkv"] = Some n /\
       node_for demo_config (file_entry demo_film.2) None n) /\
    inode_at (cb_state c').1 ["series"; "Show"; "Season 2"; "Show.S02E01.mkv"] = None.
Proof.
  pose proof demo_visible as Hv. destruct (@visible_tree default_iter default_sort demo_mounted demo_downloads) as [t|] eqn:Ht;
    [|destruct Hv]. destruct demo_library as (L1 & L2 & L3 & L4).
  destruct (@refresh_mounts_library default_iter default_sort calm demo_config demo_mounted demo_fetch demo_downloads t
    demo_mounted_ready eq_refl eq_refl Ht) as (c' & HR & Hf & _).
  - rewrite Nat2Z.inj_add, Hv. vm_compute. reflexivity.
  - intros cat n _ Hn. cbn in Hn. rewrite lookup_empty in Hn. discriminate Hn.
  - exists c'. split; [exact HR|]. split.
    + specialize (Hf demo_film L1). destruct (decide _) as [Hd|_]; [exfalso; exact (L3 Hd)|exact Hf].
    + specialize (Hf demo_episode L2). destruct (decide _) as [_|Hd]; [exact Hf|exfalso; exact (Hd L4)].
Defined.

(** ** The film is removed during a refresh *)

(** A mount in which the film is the only file so far. *)
Definition film_node : Inode := MkInode (file_ops demo_config demo_film.2) file_mode 3 ∅.
Definition film_dir : Inode := MkInode DirNode dir_mode 2 {["film.mkv" := film_node]}.
Definition film_mount : gmap string Inode :=
  {["movies" := MkInode DirNode dir_mode 1 {["The Matrix" := film_dir]}]}.

Definition demo_film_mounted : Catalog Root :=
  SetOnRefresh (sync_mount calm demo_config)
    (NewCatalog demo_fetch demo_store Metrics.New true (film_mount, ∅)).

Lemma film_ready : refresh_ready calm demo_film_mounted demo_fetch demo_downloads.
Proof. apply demo_ready_for; [reflexivity..|]. by apply (sync_mount_ok calm demo_config). Qed.

(** The nodes of the mount: the directory and the film. *)
Lemma film_nodes ns n :
  inode_at {["The Matrix" := film_dir]} ns = Some n ->
  (ns = ["The Matrix"] /\ n = film_dir) \/ (ns = ["The Matrix"; "film.mkv"] /\ n = film_node).
Proof.
  destruct ns as [|x [|y [|z ns]]]; [done|..]; cbn [inode_at];
    (destruct (decide (x = "The Matrix")) as [->|Hx]; [rewrite lookup_singleton_eq; cbn|by rewrite lookup_singleton_ne]).
  - intros [= <-]. by left.
  - destruct (decide (y = "film.mkv")) as [->|Hy]; [rewrite lookup_singleton_eq|by rewrite lookup_singleton_ne].
    intros [= <-]. by right.
  - destruct (decide (y = "film.mkv")) as [->|Hy]; [rewrite lookup_singleton_eq; cbn|by rewrite lookup_singleton_ne].
    destruct ns; cbn [inode_at]; by rewrite lookup_empty.
Qed.

Lemma film_category cat n : film_mount !! path_Base cat = Some n -> Children n = {["The Matrix" := film_dir]} /\ path_Base cat = "movies".
Proof. unfold film_mount. intros [Hc <-]%lookup_singleton_Some. by split. Qed.

Lemma film_mount_ok : mount_ok demo_config film_mount.
Proof.
  intros cat Hin ns n Hn Ho. unfold category in Hn. destruct (film_mount !! path_Base cat) as [c|] eqn:Hc;
    [|by cbn in Hn; rewrite inode_at_empty in Hn].
  apply film_category in Hc as [Hc _]. cbn in Hn. rewrite Hc in Hn. by apply film_nodes in Hn as [[_ ->]|[_ ->]].
Qed.

(** The tree of the refresh has a directory where the mount has one. *)
Lemma film_visible :
  match @visible_tree default_iter default_sort demo_film_mounted demo_downloads with
  | Some t => Z.of_nat (library_visits demo_config t) = 12 /\ EntryFile <$> entry_at t "/movies" ["The Matrix"] = Some None
  | None => False
  end.
Proof. vm_compute. by split. Qed.

Lemma film_not_hidden : tf_key demo_film ∉ still_hidden demo_film_mounted demo_downloads.
Proof. apply (bool_decide_unpack _). vm_compute. exact I. Qed.

Lemma unlink_during_refresh_undone_witness :
  exists items c1 m,
    @refresh_until_swap default_iter default_sort Root calm demo_film_mounted = Some (Ok (Some items), c1) /\
    Unlink calm demo_config ["movies"; "The Matrix"] "film.mkv" (mount_of c1) = (0, m) /\
    inode_at (mt_root m) ["movies"; "The Matrix"; "film.mkv"] = None /\
    file_at (cb_state (refresh_after_swap items (set_mount m c1))).1 ["movies"; "The Matrix"; "film.mkv"] = Some "torrent:1:1".
Proof.
  pose proof film_visible as Hv.
  destruct (@visible_tree default_iter default_sort demo_film_mounted demo_downloads) as [t|] eqn:Ht; [|destruct Hv].
  destruct Hv as [Hv Hdir]. destruct demo_library as (L1 & _).
  destruct (@unlink_during_refresh_undone default_iter default_sort calm demo_config demo_film_mounted demo_fetch demo_downloads t
    demo_film ["movies"; "The Matrix"] "film.mkv" film_ready eq_refl Ht) as (items & c1 & m & H1 & H2 & H3 & _ & H4 & _).
  - rewrite Nat2Z.inj_add, Hv. vm_compute. reflexivity.
  - intros cat n Hin Hn ns x e Hx He Hf. apply film_category in Hn as [Hch Hcat]. rewrite Hch in Hx.
    apply film_nodes in Hx as [[-> ->]|[-> ->]]; [|reflexivity]. exfalso.
    destruct (catPaths_render demo_config cat Hin) as [Hcr _]. rewrite Hcat in Hcr. subst cat.
    change (render ["movies"]) with "/movies" in He. rewrite He in Hdir. injection Hdir as Hdir. exact (Hf Hdir).
  - exact film_mount_ok.
  - reflexivity.
  - exact L1.
  - exact film_not_hidden.
  - vm_compute. reflexivity.
  - vm_compute. reflexivity.
  - exists items, c1, m. split; [exact H1|]. split; [exact H2|]. split; [exact H3|exact H4].
Defined.

(** ** A run with the same end *)

(** A refresh with an event between its two halves. *)
Definition refresh_around `{MI : MapIter, SS : SliceSort} (env : SqlEnv) (cfg : Config)
    (api : string -> result string (list Download)) (e : event)
    (s : System) : option System :=
  '(r, c) ← refresh_until_swap env (set_client api (sys_cat s));
  s ← step env cfg e (set_cat c s);
  Some (match r with
        | Ok (Some items) => set_cat (refresh_after_swap items (sys_cat s)) s
        | _ => s
        end).

(** The film is removed between the two halves of the second refresh. *)
Definition racing_run : option System :=
  s ← @boot default_iter default_sort calm demo_config None 0;
  s ← @step default_iter default_sort calm demo_config (ERefresh demo_fetch) s;
  @refresh_around default_iter default_sort calm demo_config demo_fetch
    (EUnlink ["movies"; "The Matrix"] "film.mkv") s.

(** From the first start of the program on: the film is mounted, hidden and mounted. *)
Example racing_run_shows :
  match racing_run with
  | Some s => bool_decide ("torrent:1:1" ∈ collectFileKeys (MkInode DirNode 0 0 (cb_state (sys_cat s)).1)) &&
              bool_decide (hidden_files (tables (conn (Catalog.stateDB (sys_cat s)))) !! "torrent:1:1" <> None)
  | None => false
  end = true.
Proof. vm_compute. reflexivity. Qed.
