(* ===== verification/Lifecycle.v ===== *)
(** * The life of the process

    The goroutines [cmd/torbox-media-center/main.go] starts and joins, with the
    listener of [internal/metrics/server.go] and [Mount] of
    [internal/fusefs/mount.go].  A [Process] is where each goroutine is, the channels
    between them, and whether the file system is mounted; [step] is one action of one
    goroutine, of go-fuse, of the timer or of the user.  What [net.Listen],
    [fs.Mount], [server.Unmount] and the server's [Shutdown] answer is part of the
    action.  The context is cancelled in one place only, after the select of [main]. *)
From S2P Require Import Prelude GoStrings Sql StateDB Tree Config FuseTree Main.
Open Scope Z_scope.

(** ** The metrics server's listener *)

(** [httpServer] is nil, serving, or shut down. *)
Inductive http_state := NotStarted | Serving | ShutDown.

Record MetricsServer := MkMetricsServer {
  listenAddr : string;
  addr : string;
  httpServer : http_state
}.

Definition NewServer (listen : string) : MetricsServer := MkMetricsServer listen EmptyString NotStarted.

(** [net.Listen] answers with the actual address. *)
Definition Start (listen : string -> result string string) (s : MetricsServer) : option string * MetricsServer :=
  match httpServer s with
  | NotStarted =>
      match listen (listenAddr s) with
      | Err e => (Some e, s)
      | Ok a => (None, MkMetricsServer (listenAddr s) a Serving)
      end
  | _ => (None, s)
  end.

Definition Addr (s : MetricsServer) : string := addr s.

(** [graceful]: the error of [http.Server.Shutdown], which stops serving either way. *)
Definition Shutdown (graceful : option string) (s : MetricsServer) : option string * MetricsServer :=
  match httpServer s with
  | NotStarted => (None, s)
  | _ => (graceful, MkMetricsServer (listenAddr s) (addr s) ShutDown)
  end.

(** ** Mounting *)

(** The [fs.Options] the file system is mounted with. *)
Record Options := MkOptions {
  AttrTimeout : Z;
  EntryTimeout : Z;
  NegativeTimeout : Z;
  AllowOther : bool;
  MaxReadAhead : Z;
  FsName : string;
  has_Logger : bool      (* the logger of [newSuppressUnimplementedLogger] *)
}.

Definition mount_options (darwin : bool) (cfg : Config) : Options :=
  MkOptions (wrap64 (AttrTimeoutSec cfg * Second)) (wrap64 (EntryTimeoutSec cfg * Second)) 0
            true (Z.shiftl 4 20) "torbox-media-center" darwin.

(** [strings.Contains] *)
Definition Contains (s sub : string) : bool := bool_decide (is_Some (Index s sub)).

(** What is written always counts as written; the line that goes on to the log. *)
Definition suppressWriter_Write (p : string) : Z * option string :=
  (Z.of_nat (String.length p),
   if Contains p "Unimplemented opcode" || Contains p "Unknown opcode" then None else Some (TrimSpace p)).

(** ** The process *)

(** A channel of errors with capacity one. *)
Record chan := MkChan { buf : list string; closed : bool }.

Definition make_chan : chan := MkChan [] false.

Definition send (e : string) (c : chan) : option chan :=
  if bool_decide (buf c = []) then Some (MkChan [e] (closed c)) else None.

(** Receiving from a closed and drained channel yields the zero value. *)
Definition recv (c : chan) : option (option string * chan) :=
  match buf c with
  | e :: es => Some (Some e, MkChan es (closed c))
  | [] => if closed c then Some (None, c) else None
  end.

(** The main goroutine: in the select, and the four statements after it. *)
Inductive main_pos := Selecting | StoppingServer | JoiningRefresh | JoiningMount | Stopped.

#[export] Instance main_pos_eq_dec : EqDecision main_pos.
Proof. solve_decision. Defined.

(** The goroutine that calls [Mount]: in [fs.Mount], in [server.Wait], with an error to
    send, before [close(mountErr)], finished. *)
Inductive mount_pos := Mounting | Waiting | Reporting (e : string) | Closing | MountDone.

(** The goroutine [Mount] starts: it unmounts when the context is cancelled and ignores
    the error. *)
Inductive unmount_pos := NoUnmounter | AwaitingCancel | UnmountDone (ok : bool).

(** The periodic refresh, and the one after the start. *)
Inductive ticker_pos := Ticking | Refreshing | TickerDone.

Record Process := MkProcess {
  ctx_done : bool;
  main_at : main_pos;
  mount_at : mount_pos;
  unmount_at : unmount_pos;
  ticker_at : ticker_pos;
  background : bool;        (* the first refresh is running *)
  mountErr : chan;
  refreshDone : bool;       (* closed *)
  mounted : bool;
  server : MetricsServer
}.

Definition initial (srv : MetricsServer) : Process :=
  MkProcess false Selecting Mounting NoUnmounter Ticking true make_chan false false srv.

Inductive action :=
| Signal                             (* SIGINT or SIGTERM *)
| MountEnded                         (* main receives from mountErr in the select *)
| StopServer (graceful : option string)
| JoinRefresh
| JoinMount
| FsMount (r : option string)        (* fs.Mount returns *)
| WaitReturns
| Report
| CloseMountErr
| Unmount (r : option string)        (* server.Unmount returns *)
| ExternalUnmount
| Tick
| TickerRefreshed
| TickerCancelled
| BackgroundRefreshed.

Definition set_main (m : main_pos) (p : Process) : Process :=
  MkProcess (ctx_done p) m (mount_at p) (unmount_at p) (ticker_at p) (background p) (mountErr p) (refreshDone p)
            (mounted p) (server p).
Definition set_mount_at (m : mount_pos) (p : Process) : Process :=
  MkProcess (ctx_done p) (main_at p) m (unmount_at p) (ticker_at p) (background p) (mountErr p) (refreshDone p)
            (mounted p) (server p).
Definition set_ticker (t : ticker_pos) (p : Process) : Process :=
  MkProcess (ctx_done p) (main_at p) (mount_at p) (unmount_at p) t (background p) (mountErr p) (refreshDone p)
            (mounted p) (server p).
Definition set_chan (c : chan) (p : Process) : Process :=
  MkProcess (ctx_done p) (main_at p) (mount_at p) (unmount_at p) (ticker_at p) (background p) c (refreshDone p)
            (mounted p) (server p).
Definition set_server (s : MetricsServer) (p : Process) : Process :=
  MkProcess (ctx_done p) (main_at p) (mount_at p) (unmount_at p) (ticker_at p) (background p) (mountErr p) (refreshDone p)
            (mounted p) s.
(** The mount and the goroutine that takes it down. *)
Definition set_mounted (b : bool) (u : unmount_pos) (p : Process) : Process :=
  MkProcess (ctx_done p) (main_at p) (mount_at p) u (ticker_at p) (background p) (mountErr p) (refreshDone p) b (server p).

(** The select of [main] is left: [cancel()]. *)
Definition cancel (p : Process) : Process :=
  MkProcess true StoppingServer (mount_at p) (unmount_at p) (ticker_at p) (background p) (mountErr p) (refreshDone p)
            (mounted p) (server p).
Definition close_refreshDone (p : Process) : Process :=
  MkProcess (ctx_done p) (main_at p) (mount_at p) (unmount_at p) TickerDone (background p) (mountErr p) true
            (mounted p) (server p).
Definition end_background (p : Process) : Process :=
  MkProcess (ctx_done p) (main_at p) (mount_at p) (unmount_at p) (ticker_at p) false (mountErr p) (refreshDone p)
            (mounted p) (server p).

(** The main goroutine, from the select to its end. *)
Definition main_step (a : action) (p : Process) : option Process :=
  match main_at p, a with
  | Selecting, Signal => Some (cancel p)
  | Selecting, MountEnded => '(_, c) ← recv (mountErr p); Some (cancel (set_chan c p))
  | StoppingServer, StopServer g => Some (set_main JoiningRefresh (set_server (Shutdown g (server p)).2 p))
  | JoiningRefresh, JoinRefresh => if refreshDone p then Some (set_main JoiningMount p) else None
  | JoiningMount, JoinMount => '(_, c) ← recv (mountErr p); Some (set_main Stopped (set_chan c p))
  | _, _ => None
  end.

(** The goroutine of [Mount]. *)
Definition mount_step (a : action) (p : Process) : option Process :=
  match mount_at p, a with
  | Mounting, FsMount (Some e) => Some (set_mount_at (Reporting e) p)
  | Mounting, FsMount None => Some (set_mount_at Waiting (set_mounted true AwaitingCancel p))
  | Waiting, WaitReturns => if mounted p then None else Some (set_mount_at Closing p)
  | Reporting e, Report => c ← send e (mountErr p); Some (set_mount_at Closing (set_chan c p))
  | Closing, CloseMountErr => Some (set_mount_at MountDone (set_chan (MkChan (buf (mountErr p)) true) p))
  | _, _ => None
  end.

(** The goroutine that unmounts, and the user. *)
Definition unmount_step (a : action) (p : Process) : option Process :=
  match a, unmount_at p with
  | Unmount r, AwaitingCancel =>
      if ctx_done p then
        Some (set_mounted (match r with None => false | Some _ => mounted p end)
                          (UnmountDone (bool_decide (r = None))) p)
      else None
  | ExternalUnmount, u => if mounted p then Some (set_mounted false u p) else None
  | _, _ => None
  end.

(** The two refreshes. *)
Definition refresh_step (a : action) (p : Process) : option Process :=
  match a, ticker_at p with
  | Tick, Ticking => Some (set_ticker Refreshing p)
  | TickerRefreshed, Refreshing => Some (set_ticker Ticking p)
  | TickerCancelled, Ticking => if ctx_done p then Some (close_refreshDone p) else None
  | BackgroundRefreshed, _ => if background p then Some (end_background p) else None
  | _, _ => None
  end.

(** Nothing runs once [main] has returned. *)
Definition step (a : action) (p : Process) : option Process :=
  if bool_decide (main_at p = Stopped) then None
  else
    match a with
    | Signal | MountEnded | StopServer _ | JoinRefresh | JoinMount => main_step a p
    | FsMount _ | WaitReturns | Report | CloseMountErr => mount_step a p
    | Unmount _ | ExternalUnmount => unmount_step a p
    | Tick | TickerRefreshed | TickerCancelled | BackgroundRefreshed => refresh_step a p
    end.

Fixpoint run (es : list action) (p : Process) : option Process :=
  match es with
  | [] => Some p
  | a :: es' => p' ← step a p; run es' p'
  end.

(** [main] up to its select; [None] is one of its exits with status 1. *)
Definition launch `{MI : MapIter, SS : SliceSort} (env : SqlEnv) (cfg : Config)
    (disk : option Tables) (n : nat) (listen : string -> result string string) : option (System * Process) :=
  s ← boot env cfg disk n;
  match Start listen (NewServer (MetricsListenAddr cfg)) with
  | (Some _, _) => None
  | (None, srv) => Some (s, initial srv)
  end.
