(* ===== verification/LifecycleProps.v ===== *)
(** * The shutdown of the process

    Which states the goroutines of [Lifecycle] can be in together, what holds when
    [main] returns, and when it does: every action but a tick makes progress, and
    something can always move unless the file system could not be unmounted. *)
From S2P Require Import Prelude GoStrings Http Metrics Sql StateDB Classify Tree Config FuseTree Main Lifecycle.
Open Scope Z_scope.

(** ** The log filter *)

Lemma Contains_spec s sub : Contains s sub = true <-> exists a b, s = a +:+ sub +:+ b.
Proof.
  unfold Contains. rewrite bool_decide_eq_true. induction s as [|c s IH]; cbn [Index];
    destruct (HasPrefix _ sub) eqn:Hp; try (apply HasPrefix_true in Hp as [b Hb]; split; [by exists EmptyString, b|by eexists]).
  - split; [by intros [? ?]|]. intros ([|] & b & Hs); [|done]. assert (HasPrefix "" sub = true); [|congruence].
    apply HasPrefix_true. by exists b.
  - rewrite fmap_is_Some, IH. split; [intros (a & b & ->); by exists (String c a), b|].
    intros ([|c' a] & b & Hs); [|exists a, b; by injection Hs].
    assert (HasPrefix (String c s) sub = true); [|congruence]. apply HasPrefix_true. by exists b.
Qed.

(** Nothing is reported as unwritten, and only lines with one of the two phrases are
    dropped. *)
Lemma suppressWriter_Write_spec p :
  (suppressWriter_Write p).1 = Z.of_nat (String.length p) /\
  ((suppressWriter_Write p).2 = None <->
   exists a b, p = a +:+ "Unimplemented opcode" +:+ b \/ p = a +:+ "Unknown opcode" +:+ b).
Proof.
  split; [done|]. unfold suppressWriter_Write. cbn [snd].
  destruct (_ || _) eqn:Hc; [apply orb_true_iff in Hc; rewrite !Contains_spec in Hc|].
  - split; [|done]. intros _. destruct Hc as [(a & b & ?)|(a & b & ?)]; eauto.
  - split; [done|]. intros (a & b & Hp). apply orb_false_iff in Hc as [H1 H2].
    assert (Contains p "Unimplemented opcode" = true \/ Contains p "Unknown opcode" = true) as Hor
      by (rewrite !Contains_spec; naive_solver). destruct Hor; congruence.
Qed.

(** ** The invariant *)

(** [main] has left the select. *)
Definition past_select (m : main_pos) : bool := match m with Selecting => false | _ => true end.

(** The refresh goroutine is joined. *)
Definition past_refresh (m : main_pos) : bool := match m with JoiningMount | Stopped => true | _ => false end.

(** The result of [Mount], and whether the channel is closed. *)
Definition chan_at (m : mount_pos) (c : chan) : Prop :=
  match m with
  | Mounting | Waiting | Reporting _ => c = make_chan
  | Closing => closed c = false
  | MountDone => closed c = true
  end.

(** What the file system and its goroutine agree on. *)
Definition mount_at_ok (p : Process) : Prop :=
  match mount_at p with
  | Mounting | Reporting _ => mounted p = false /\ unmount_at p = NoUnmounter
  | Waiting => unmount_at p <> NoUnmounter /\ (unmount_at p = UnmountDone true -> mounted p = false)
  | Closing | MountDone => mounted p = false
  end.

Record process_ok (p : Process) : Prop := {
  ok_ctx : ctx_done p = past_select (main_at p);
  ok_refresh : refreshDone p = true <-> ticker_at p = TickerDone;
  ok_joined : past_refresh (main_at p) = true -> refreshDone p = true;
  ok_mount : mount_at_ok p;
  ok_chan : chan_at (mount_at p) (mountErr p);
  ok_stopped : main_at p = Stopped -> mounted p = false /\ (mount_at p = Closing \/ mount_at p = MountDone);
  ok_server : past_select (main_at p) = false \/ main_at p = StoppingServer \/ httpServer (server p) <> Serving
}.

Inductive reachable (srv : MetricsServer) : Process -> Prop :=
| reach_initial : reachable srv (initial srv)
| reach_action a p p' : reachable srv p -> step a p = Some p' -> reachable srv p'.

Lemma initial_ok srv : process_ok (initial srv).
Proof. split; cbn; try done. by left. Qed.

Lemma recv_cases c r c' :
  recv c = Some (r, c') -> closed c' = closed c /\ (c <> make_chan).
Proof.
  unfold recv, make_chan. destruct c as [[|e es] []]; cbn; intros; simplify_eq; (split; [done|]); congruence.
Qed.

(** A received result: the goroutine of [Mount] is at the end. *)
Lemma recv_ended m c r c' :
  chan_at m c -> recv c = Some (r, c') -> chan_at m c' /\ (m = Closing \/ m = MountDone).
Proof.
  intros Hc Hr. apply recv_cases in Hr as [He Hn]. destruct m; cbn in *; try done; rewrite He; auto.
Qed.

Lemma Shutdown_not_serving g s : httpServer (Shutdown g s).2 <> Serving.
Proof. unfold Shutdown. by destruct (httpServer s) eqn:He; cbn; rewrite ?He. Qed.

(** A receive of [main]: the goroutine of [Mount] is at its end. *)
Lemma receive_ok p r c' :
  process_ok p -> recv (mountErr p) = Some (r, c') ->
  chan_at (mount_at p) c' /\ mounted p = false /\ (mount_at p = Closing \/ mount_at p = MountDone).
Proof.
  intros Hok Hr. destruct (recv_ended (mount_at p) _ _ _ (ok_chan _ Hok) Hr) as [Hc Hm].
  split_and!; [done| |done]. pose proof (ok_mount _ Hok) as Hmo. unfold mount_at_ok in Hmo.
  by destruct Hm as [Hm|Hm]; rewrite Hm in Hmo.
Qed.

Lemma main_step_ok a p p' : process_ok p -> main_step a p = Some p' -> process_ok p'.
Proof.
  intros Hok Hs. pose proof (receive_ok p) as Hrecv. pose proof Hok as [H1 H2 H3 H4 H5 H6 H7].
  unfold main_step in Hs. destruct (main_at p) eqn:Hm, a; try discriminate Hs.
  - injection Hs as <-. split; cbn; try done; auto.
  - destruct (recv (mountErr p)) as [[r c]|] eqn:Hr; [|done]. injection Hs as <-.
    destruct (Hrecv r c Hok eq_refl) as (Hc & _ & _). split; cbn; try done; auto.
  - injection Hs as <-. pose proof (Shutdown_not_serving graceful (server p)). split; cbn; try done; auto.
  - destruct (refreshDone p) eqn:Hd; [|done]. injection Hs as <-. split; cbn; rewrite ?Hd; try done; try (by apply H2).
    by right; right; destruct H7 as [?|[?|?]].
  - destruct (recv (mountErr p)) as [[r c]|] eqn:Hr; [|done]. injection Hs as <-.
    destruct (Hrecv r c Hok eq_refl) as (Hc & Hmo & He). split; cbn; try done; auto.
    by right; right; destruct H7 as [?|[?|?]].
Qed.

(** A step of another goroutine, while [main] has not returned. *)
Record beside (p p' : Process) : Prop := {
  bs_ctx : ctx_done p' = ctx_done p;
  bs_main : main_at p' = main_at p;
  bs_server : server p' = server p
}.

Lemma beside_ok p p' :
  process_ok p -> beside p p' -> main_at p <> Stopped ->
  (refreshDone p' = true <-> ticker_at p' = TickerDone) -> (refreshDone p = true -> refreshDone p' = true) ->
  mount_at_ok p' -> chan_at (mount_at p') (mountErr p') -> process_ok p'.
Proof.
  intros [H1 H2 H3 H4 H5 H6 H7] [Ec Em Es] Hns Hr Hr' Hm Hc. split; rewrite ?Em, ?Ec, ?Es; auto. done.
Qed.

Lemma mount_step_ok a p p' : process_ok p -> main_at p <> Stopped -> mount_step a p = Some p' -> process_ok p'.
Proof.
  intros Hok Hns Hs. pose proof (ok_mount _ Hok) as Hm. pose proof (ok_chan _ Hok) as Hc. pose proof (ok_refresh _ Hok) as Hr.
  unfold mount_at_ok in Hm. unfold mount_step in Hs.
  destruct (mount_at p) eqn:Hmp, a; try discriminate Hs; cbn [chan_at] in Hc.
  - destruct r as [er|]; injection Hs as <-; by apply (beside_ok p).
  - destruct (mounted p) eqn:Hmo; [done|]. injection Hs as <-. apply (beside_ok p); try done. cbn. by rewrite Hc.
  - rewrite Hc in Hs. cbn in Hs. injection Hs as <-. apply (beside_ok p); try done. apply Hm.
  - injection Hs as <-. by apply (beside_ok p).
Qed.

Lemma unmount_step_ok a p p' : process_ok p -> main_at p <> Stopped -> unmount_step a p = Some p' -> process_ok p'.
Proof.
  intros Hok Hns Hs. pose proof (ok_mount _ Hok) as Hm. pose proof (ok_chan _ Hok) as Hc. pose proof (ok_refresh _ Hok) as Hr.
  unfold unmount_step in Hs. destruct a; try discriminate Hs.
  - destruct (unmount_at p) eqn:Hu; try done. destruct (ctx_done p) eqn:Hx; [|done]. injection Hs as <-.
    apply (beside_ok p); try done. unfold mount_at_ok in *. cbn.
    destruct (mount_at p), r as [er|]; cbn; rewrite ?Hu in Hm; try done; try (by destruct Hm).
  - destruct (mounted p) eqn:Hmo; [|done]. injection Hs as <-. apply (beside_ok p); try done.
    unfold mount_at_ok in *. cbn. destruct (mount_at p); try done; by destruct Hm.
Qed.

Lemma refresh_step_ok a p p' : process_ok p -> main_at p <> Stopped -> refresh_step a p = Some p' -> process_ok p'.
Proof.
  intros Hok Hns Hs. pose proof (ok_mount _ Hok) as Hm. pose proof (ok_chan _ Hok) as Hc. pose proof (ok_refresh _ Hok) as Hr.
  unfold refresh_step in Hs.
  destruct a; try discriminate Hs; [destruct (ticker_at p) eqn:Ht; try discriminate Hs..|].
  - injection Hs as <-. apply (beside_ok p); try done. cbn. by rewrite Hr.
  - injection Hs as <-. apply (beside_ok p); try done. cbn. by rewrite Hr.
  - destruct (ctx_done p) eqn:Hx; [|done]. injection Hs as <-. by apply (beside_ok p).
  - destruct (background p); [|done]. injection Hs as <-. by apply (beside_ok p).
Qed.

Lemma process_step_ok a p p' : process_ok p -> step a p = Some p' -> process_ok p'.
Proof.
  intros Hok. unfold step. case_bool_decide as Hns; [done|].
  destruct a; eauto using main_step_ok, mount_step_ok, unmount_step_ok, refresh_step_ok.
Qed.

Lemma reachable_ok srv p : reachable srv p -> process_ok p.
Proof. induction 1; eauto using initial_ok, process_step_ok. Qed.

(** ** Every action but a tick brings the end closer *)

Definition main_rank (m : main_pos) : nat :=
  match m with Selecting => 4 | StoppingServer => 3 | JoiningRefresh => 2 | JoiningMount => 1 | Stopped => 0 end%nat.
Definition mount_rank (m : mount_pos) : nat :=
  match m with Mounting => 6 | Waiting => 3 | Reporting _ => 2 | Closing => 1 | MountDone => 0 end%nat.
Definition unmount_rank (u : unmount_pos) : nat := match u with AwaitingCancel => 1 | _ => 0 end%nat.
Definition ticker_rank (t : ticker_pos) : nat := match t with Refreshing => 2 | Ticking => 1 | TickerDone => 0 end%nat.

Definition measure (p : Process) : nat :=
  main_rank (main_at p) + mount_rank (mount_at p) + unmount_rank (unmount_at p) + ticker_rank (ticker_at p) +
  Nat.b2n (mounted p) + Nat.b2n (background p).

Lemma measure_bound p : main_at p <> Selecting -> (measure p <= 14)%nat.
Proof.
  intros Hm. assert (main_rank (main_at p) <= 3)%nat by (destruct (main_at p); [done|cbn; lia..]).
  assert (mount_rank (mount_at p) <= 6)%nat by (destruct (mount_at p); cbn; lia).
  assert (unmount_rank (unmount_at p) <= 1)%nat by (destruct (unmount_at p); cbn; lia).
  assert (ticker_rank (ticker_at p) <= 2)%nat by (destruct (ticker_at p); cbn; lia).
  unfold measure. destruct (mounted p), (background p); cbn [Nat.b2n]; lia.
Qed.

Definition is_tick (a : action) : bool := match a with Tick => true | _ => false end.
Definition ticks (es : list action) : nat := length (filter (fun a => is_tick a = true) es).

(** All the cases of a step. *)
Ltac step_cases Hs :=
  unfold main_step, mount_step, unmount_step, refresh_step in Hs;
  repeat case_match; simplify_option_eq; repeat case_match; simplify_option_eq.

Lemma step_measure a p p' :
  step a p = Some p' -> (measure p' + 1 <= measure p + 2 * Nat.b2n (is_tick a))%nat.
Proof.
  unfold step. case_bool_decide as Hns; [done|]. unfold measure.
  intros Hs. destruct a; step_cases Hs; repeat match goal with H : _ p = _ |- _ => rewrite H; clear H end;
    try destruct (mounted p); try destruct (unmount_at p); cbn; lia.
Qed.

Lemma run_measure es p p' :
  run es p = Some p' -> (length es + measure p' <= measure p + 2 * ticks es)%nat.
Proof.
  unfold ticks. revert p. induction es as [|a es IH]; intros p; cbn [run]; [intros [= <-]; cbn; lia|].
  destruct (step a p) as [p1|] eqn:Hs; [|done]. intros Hr%IH. apply step_measure in Hs.
  rewrite filter_cons. destruct (decide _) as [Ht|Ht]; cbn [length]; [rewrite Ht in Hs; cbn in Hs; lia|].
  destruct (is_tick a); [done|]. cbn in Hs. lia.
Qed.

(** ** Something can move *)

(** What the process and the answers to its calls do, as opposed to the user and the timer. *)
Definition own (a : action) : bool := match a with Signal | ExternalUnmount | Tick => false | _ => true end.

(** The file system is mounted, and no goroutine is left to unmount it. *)
Definition hung (p : Process) : Prop :=
  main_at p <> Stopped /\ mounted p = true /\ mount_at p = Waiting /\ unmount_at p = UnmountDone false.

(** What [main] leaves behind; nothing is said of the refresh after the start. *)
Definition clean (p : Process) : Prop :=
  ctx_done p = true /\ ticker_at p = TickerDone /\ mounted p = false /\
  (mount_at p = Closing \/ mount_at p = MountDone) /\ httpServer (server p) <> Serving.

Lemma stopped_clean p : process_ok p -> main_at p = Stopped -> clean p.
Proof.
  intros [H1 H2 H3 _ _ H6 H7] Hm. rewrite Hm in *. destruct (H6 eq_refl) as [Hmo He].
  split_and!; try done; [by apply H2, H3|]. by destruct H7 as [?|[?|?]].
Qed.

Lemma step_as a p p' :
  main_at p <> Stopped ->
  match a with
  | Signal | MountEnded | StopServer _ | JoinRefresh | JoinMount => main_step a p
  | FsMount _ | WaitReturns | Report | CloseMountErr => mount_step a p
  | Unmount _ | ExternalUnmount => unmount_step a p
  | Tick | TickerRefreshed | TickerCancelled | BackgroundRefreshed => refresh_step a p
  end = Some p' -> step a p = Some p'.
Proof. intros Hns. unfold step. by rewrite bool_decide_eq_false_2. Qed.

Definition moves (p : Process) : Prop := exists a p', own a = true /\ step a p = Some p'.

Lemma moves_by a p p' : own a = true -> step a p = Some p' -> moves p.
Proof. by exists a, p'. Qed.

(** The goroutine of [Mount] gets [main] out of its last receive. *)
Lemma mount_moves p :
  process_ok p -> ctx_done p = true -> main_at p = JoiningMount -> moves p \/ hung p.
Proof.
  intros Hok Hx Hm. assert (main_at p <> Stopped) as Hns by (by rewrite Hm).
  pose proof (ok_mount _ Hok) as Hmo. pose proof (ok_chan _ Hok) as Hc. unfold mount_at_ok in Hmo.
  destruct (mount_at p) as [| |e| |] eqn:Hp; cbn in Hc.
  - left. eapply (moves_by (FsMount None)), (step_as (FsMount None)); [done..|]. unfold mount_step. by rewrite Hp.
  - destruct Hmo as [Hu1 Hu2]. destruct (mounted p) eqn:Hmt.
    2: { left. eapply (moves_by WaitReturns), (step_as WaitReturns); [done..|]. unfold mount_step. by rewrite Hp, Hmt. }
    destruct (unmount_at p) as [| |[]] eqn:Hu; [done| |by specialize (Hu2 eq_refl)|by right].
    left. eapply (moves_by (Unmount None)), (step_as (Unmount None)); [done..|]. unfold unmount_step. by rewrite Hu, Hx.
  - left. eapply (moves_by Report), (step_as Report); [done..|]. unfold mount_step. by rewrite Hp, Hc.
  - left. eapply (moves_by CloseMountErr), (step_as CloseMountErr); [done..|]. unfold mount_step. by rewrite Hp.
  - left. assert (exists r c, recv (mountErr p) = Some (r, c)) as (r & c & Hr)
      by (unfold recv; rewrite Hc; destruct (buf (mountErr p)); eauto).
    eapply (moves_by JoinMount), (step_as JoinMount); [done..|]. unfold main_step. by rewrite Hm, Hr.
Qed.

Lemma ok_moves p : process_ok p -> ctx_done p = true -> main_at p <> Stopped -> moves p \/ hung p.
Proof.
  intros Hok Hx Hns. destruct (main_at p) eqn:Hm; [| | |by apply mount_moves|done].
  - pose proof (ok_ctx _ Hok) as Hc. by rewrite Hx, Hm in Hc.
  - left. eapply (moves_by (StopServer None)), (step_as (StopServer None)); [done|by rewrite Hm|]. unfold main_step. by rewrite Hm.
  - left. destruct (refreshDone p) eqn:Hr.
    + eapply (moves_by JoinRefresh), (step_as JoinRefresh); [done|by rewrite Hm|]. unfold main_step. by rewrite Hm, Hr.
    + destruct (ticker_at p) eqn:Ht.
      * eapply (moves_by TickerCancelled), (step_as TickerCancelled); [done|by rewrite Hm|]. unfold refresh_step. by rewrite Ht, Hx.
      * eapply (moves_by TickerRefreshed), (step_as TickerRefreshed); [done|by rewrite Hm|]. unfold refresh_step. by rewrite Ht.
      * apply (ok_refresh _ Hok) in Ht. congruence.
Qed.

Lemma process_run_ok es p p' : process_ok p -> run es p = Some p' -> process_ok p'.
Proof.
  revert p. induction es as [|a es IH]; intros p Hok; cbn [run]; [by intros [= <-]|].
  destruct (step a p) as [p1|] eqn:Hs; [|done]. by apply IH, (process_step_ok a p).
Qed.

Lemma step_ctx a p p' : step a p = Some p' -> ctx_done p = true -> ctx_done p' = true.
Proof.
  unfold step. case_bool_decide; [done|].
  intros Hs Hx. destruct a; step_cases Hs; done.
Qed.

Lemma run_ctx es p p' : run es p = Some p' -> ctx_done p = true -> ctx_done p' = true.
Proof.
  revert p. induction es as [|a es IH]; intros p; cbn [run]; [by intros [= <-]|].
  destruct (step a p) as [p1|] eqn:Hs; [|done]. intros Hr Hx. by apply (IH p1 Hr), (step_ctx a p).
Qed.

(** ** The two ends of a shutdown *)

(** [C32] A shutdown comes to an end.  Once [main] has cancelled the context, for any
    schedule of the goroutines and any answers to their calls: the run is at most 14
    actions long, and two more for each tick the refresh timer still gets in; and when
    nothing can move any more, either [main] has returned, with the context cancelled,
    the periodic refresh joined, the file system unmounted and the HTTP server shut
    down, or the process hangs because [server.Unmount] failed.  The refresh after the
    start is not among the goroutines [main] joins: it may still be running when [main]
    returns ([background_not_joined]). *)
Theorem shutdown_completes srv p es p' :
  reachable srv p -> ctx_done p = true -> run es p = Some p' ->
  (length es <= 14 + 2 * ticks es)%nat /\
  ((forall a, own a = true -> step a p' = None) -> (main_at p' = Stopped /\ clean p') \/ hung p').
Proof.
  intros Hok%reachable_ok Hx Hr. pose proof (process_run_ok es p p' Hok Hr) as Hok'. split.
  - pose proof (run_measure es p p' Hr) as Hm. pose proof (ok_ctx _ Hok) as Hc. rewrite Hx in Hc.
    pose proof (measure_bound p ltac:(by destruct (main_at p))). lia.
  - intros Hn. destruct (decide (main_at p' = Stopped)) as [He|He]; [left; split; [done|by apply stopped_clean]|].
    destruct (ok_moves p' Hok' (run_ctx es p p' Hr Hx) He) as [(a & q & Ho & Hs)|?]; [|by right].
    by rewrite (Hn a Ho) in Hs.
Qed.

Lemma hung_step a p p' : process_ok p -> hung p -> a <> ExternalUnmount -> step a p = Some p' -> hung p'.
Proof.
  intros Hok (H1 & H2 & H3 & H4) Ha. pose proof (ok_chan _ Hok) as Hc. rewrite H3 in Hc. cbn in Hc.
  unfold step. rewrite bool_decide_eq_false_2 by done. unfold hung.
  intros Hs. destruct a; try done; unfold mount_step, unmount_step in Hs; rewrite ?H2, ?H3, ?H4 in Hs;
    step_cases Hs; try done; rewrite Hc in *; done.
Qed.

(** When [server.Unmount] fails, [main] waits for a result that never comes: as long as
    nobody else unmounts the file system, no schedule lets it return. *)
Theorem unmount_failure_hangs srv p es p' :
  reachable srv p -> hung p -> ExternalUnmount ∉ es -> run es p = Some p' -> hung p'.
Proof.
  intros Hok%reachable_ok. revert p Hok. induction es as [|a es IH]; intros p Hok Hh Hn; cbn [run]; [by intros [= <-]|].
  apply not_elem_of_cons in Hn as [Ha Hn]. destruct (step a p) as [p1|] eqn:Hs; [|done].
  apply IH; [by apply (process_step_ok a p)|by apply (hung_step a p)|done].
Qed.

(** ** A shutdown that works and one that does not *)

Definition demo_server : MetricsServer := (Start (fun a => Ok a) (NewServer ":9090")).2.

Lemma run_reachable_from srv es p p' : reachable srv p -> run es p = Some p' -> reachable srv p'.
Proof.
  revert p. induction es as [|a es IH]; intros p Hr; cbn [run]; [by intros [= <-]|].
  destruct (step a p) as [p1|] eqn:Hs; [|done]. apply IH. by apply (reach_action srv a p).
Qed.

Definition interrupted : option Process := run [FsMount None; BackgroundRefreshed; Tick; Signal] (initial demo_server).

Definition shutting : list action :=
  [StopServer None; TickerRefreshed; TickerCancelled; JoinRefresh; Unmount None; WaitReturns; CloseMountErr; JoinMount].

Lemma shutdown_completes_witness :
  exists p p', interrupted = Some p /\ run shutting p = Some p' /\ main_at p' = Stopped /\ clean p'.
Proof.
  destruct interrupted as [p|] eqn:Hp; [|vm_compute in Hp; discriminate Hp].
  pose proof (run_reachable_from demo_server _ _ _ (reach_initial demo_server) Hp) as Hr.
  vm_compute in Hp. injection Hp as <-.
  match type of Hr with reachable _ ?p => destruct (run shutting p) as [p'|] eqn:Hs end; [|vm_compute in Hs; discriminate Hs].
  destruct (shutdown_completes demo_server _ shutting p' Hr eq_refl Hs) as [_ Hend].
  eexists _, p'. split; [reflexivity|]. split; [exact Hs|]. vm_compute in Hs. injection Hs as <-.
  destruct Hend as [Hclean|(Hs & _)]; [intros a _; reflexivity|exact Hclean|]. exfalso. apply Hs. reflexivity.
Defined.

(** [main] does not wait for the refresh after the start: here it is still running when
    [main] has returned, and its database is closed. *)
Lemma background_not_joined :
  exists p, reachable demo_server p /\ main_at p = Stopped /\ clean p /\ background p = true.
Proof.
  destruct (run ([FsMount None; Signal; StopServer None; TickerCancelled; JoinRefresh; Unmount None; WaitReturns;
                  CloseMountErr; JoinMount]) (initial demo_server)) as [p|] eqn:Hp; [|by vm_compute in Hp].
  exists p. pose proof (run_reachable_from demo_server _ _ _ (reach_initial demo_server) Hp) as Hr.
  vm_compute in Hp. injection Hp as <-. split; [done|]. split; [done|]. split; [|done].
  by apply stopped_clean; [apply (reachable_ok demo_server)|].
Qed.

(** After the signal the file system is busy. *)
Definition busy : option Process :=
  run [FsMount None; BackgroundRefreshed; Signal; Unmount (Some "device or resource busy")] (initial demo_server).

Lemma unmount_failure_hangs_witness :
  exists p p', busy = Some p /\ run [StopServer None; TickerCancelled; JoinRefresh] p = Some p' /\
    main_at p' = JoiningMount /\ hung p'.
Proof.
  destruct busy as [p|] eqn:Hp; [|vm_compute in Hp; discriminate Hp].
  pose proof (run_reachable_from demo_server _ _ _ (reach_initial demo_server) Hp) as Hr.
  vm_compute in Hp. injection Hp as <-. eexists _, _. split; [reflexivity|]. split; [reflexivity|]. split; [reflexivity|].
  refine (unmount_failure_hangs demo_server _ [StopServer None; TickerCancelled; JoinRefresh] _ Hr _ _ eq_refl).
  - split_and!; discriminate || reflexivity.
  - repeat (apply not_elem_of_cons; split; [discriminate|]). apply not_elem_of_nil.
Defined.
